(* ===== verification/_CoqProject ===== *)
-Q . S2P
Prelude.v
Ids.v
Framing.v
Extension.v
Message.v
Delivery.v
StoreForward.v
Sync.v
Store.v
StoreForwardStore.v
StoreSpec.v
StoreDelivery.v
StoreForwardTheorems.v
SyncTheorems.v
Call.v
CallFacts.v
CallSafety.v
CallFingerprint.v
CallTheorems.v
BTree.v
Capability.v
Endpoint.v
Interaction.v
Program.v
Orchestrator.v
Failover.v
FailoverTheorems.v
OrchestratorTheorems.v
StoreForwardRuntime.v
ForwardSafety.v
Group.v
GroupFacts.v
GroupRefinement.v
GroupHistory.v
GroupTheorems.v
Version.v
Event.v
Bridge.v
Offline.v
Memory.v
OpLogic.v
BridgeStore.v
BridgeRuntime.v
BridgeTheorems.v
EventStore.v
EventFacts.v
Subscription.v
EventCalls.v
EventTheorems.v
CommandTheorems.v
AntiEntropy.v
CallStore.v
GroupStore.v
GroupMessages.v
CallEntry.v
Directory.v
Attendance.v
Collaboration.v
CollaborationCalls.v
StoreCalls.v
CollaborationTheorems.v
GroupMessageTheorems.v
Sfu.v
SfuTheorems.v
Video.v
Adaptive.v
AdaptiveTheorems.v
JoinToken.v
JoinTokenTheorems.v
Realtime.v
RealtimeSpec.v
RealtimeTheorems.v
RealtimeHistory.v
GroupMedia.v
GroupMediaTheorems.v
MediaCrypto.v
MediaCryptoTheorems.v
MediaRuntime.v
MediaRuntimeTheorems.v
MediaMembership.v
