(* ===== verification/Prelude.v ===== *)
(** * Universal Communication Runtime: a verification library

    The Universal Communication Runtime is a Rust workspace (src/crates/) that carries
    messages, events, calls and media between principals of many tenants.  This library is a
    shallow embedding of its deterministic core: data types are inductive types and records
    with the source's fields and constructors, functions are functions, and the theorems are
    about those definitions.

    ** The parts of the program and how they interact

    - The protocol crate (ucr-protocol) validates and canonicalises records and computes the
      next state of calls, groups, deliveries, events and media sessions without any effect.
    - The in-memory store (ucr-storage-memory) keeps all tables behind one lock.  Its
      operations check a record with the protocol crate and then change several tables.
    - Runtimes drive the store and the outside world: the store-and-forward worker
      (ucr-store-forward) plans routes and fails over between transports
      (ucr-transport-orchestrator), the bridge runtime (ucr-bridge) executes actions on
      external messengers, the realtime registry (ucr-realtime) keeps live sessions, the
      media session (ucr-media-e2ee) seals and opens frames, and the selective forwarding
      unit (ucr-sfu) places calls on workers and fans encrypted frames out.

    ** How code becomes definitions

    - A fallible function returns [result E A], with the error type of the source; [?] is the
      bind.  The order of the checks is the order of the source, so that each input has the
      error the code gives.
    - A store operation is [op S E A]: it returns the new state and a result.  The state is
      kept on an error too, because the code mutates its tables in place; where it restores
      them, so does the model (Store.v, Memory.v).
    - Code that calls trait objects, a clock, randomness or a provider is a tree of calls
      (Interaction.v, Program.v).  The environment may answer every call as it likes.  Any
      number of such programs run over one store, interleaved call by call, and a crashed
      program is one that takes no more steps.
    - Machine integers are [Z] with their bounds in the invariants, and checked, saturating
      and wrapping operations are written out.  Strings and byte vectors are lists of bytes.
      Hash maps are finite maps; maps the code iterates in order are sorted lists (BTree.v) or
      finite maps listed in key order.
    - Every recursion is structural, so no definition needs fuel and every operation is total.
      Loops that fetch pages until a cursor ends are proved to end (AntiEntropy.v).
    - Third-party code is a class with its documented laws: [Sha256] (StoreForward.v),
      [TokenCrypto] for base64 and HMAC (JoinToken.v), [MediaCipher] for HKDF,
      XChaCha20-Poly1305 and Ed25519 (MediaCrypto.v).  No theorem assumes that a hash or a
      signature is injective or cannot be forged: injectivity is stated of the bytes that are
      hashed, or up to an explicit collision of the hash.  Each class has a concrete instance in the witnesses.

    ** The files

    Shared ground.  Prelude.v has results, list and integer lemmas, stable sorting, byte
    encodings and the tactics.  Ids.v has identifiers and the vocabulary of ucr-model.
    OpLogic.v is a weakest-precondition calculus for store operations, Interaction.v programs,
    monitors and interleaving.

    Messages and deliveries.  Framing.v, Extension.v, Message.v, Delivery.v, StoreForward.v,
    Sync.v, Version.v, Capability.v and Endpoint.v follow the files of ucr-protocol with these
    names (framing.rs, extension.rs, message.rs, intent.rs, provenance.rs, delivery.rs,
    store_forward.rs, sync.rs, version.rs, capability.rs, addressing.rs).  Store.v and
    StoreForwardStore.v are their tables in ucr-storage-memory.  StoreSpec.v is the abstract
    specification of these tables as atomic effects, which every operation refines;
    StoreDelivery.v, StoreForwardTheorems.v and SyncTheorems.v state what holds
    over every history: a delivery's state is backed by ordered evidence, leases exclude other
    workers, attempts are accounted, completed jobs stay completed, checkpoints have no gaps.

    Routing and delivery.  Orchestrator.v and Failover.v are ucr-transport-orchestrator,
    StoreForwardRuntime.v is ucr-store-forward.  OrchestratorTheorems.v: a plan contains only
    admissible routes.  FailoverTheorems.v: another route is tried only after the previous
    provider has shown that it did not accept.  ForwardSafety.v: over any number of workers,
    interleaved with each other and with crashes, a delivery is handed to a provider at most
    once.

    Calls and groups.  Call.v and Group.v are call.rs and group.rs of ucr-protocol and
    ucr-model.  CallFacts.v, CallSafety.v, CallFingerprint.v and CallTheorems.v: the session
    invariant, the exact authority of every signal, tombstones.  GroupFacts.v,
    GroupRefinement.v, GroupHistory.v and GroupTheorems.v: a group change succeeds exactly on
    the steps of an abstract membership machine, and ownership stays exact along every history.

    The collaboration store.  Memory.v is the rest of [MemoryState]; CallStore.v, GroupStore.v
    and GroupMessages.v are call_store.rs and group_store.rs; Offline.v has the replicas
    exchanged between devices.  CallEntry.v, Directory.v, Attendance.v, Collaboration.v,
    CollaborationCalls.v and StoreCalls.v build the invariant of the combined store from the
    invariants of its parts.  CollaborationTheorems.v and GroupMessageTheorems.v: everybody in
    a group call is a member of its group, the store is never found corrupt, a direct call
    ends together with its media or not at all, history windows are exact.

    Events and commands.  Event.v is commands.rs, event_api.rs and anti_entropy.rs; EventStore.v
    their tables.  EventFacts.v, Subscription.v and EventCalls.v hold the invariants;
    EventTheorems.v, CommandTheorems.v and AntiEntropy.v: every subscription settles each event
    exactly once and in order and a consumer that acknowledges receives everything, a command
    is accepted once and its outcome is final, and anti-entropy pages enumerate a snapshot and end.

    Bridges.  Bridge.v, BridgeStore.v and BridgeRuntime.v are bridge.rs, the bridge tables and
    ucr-bridge.  BridgeTheorems.v: an external action takes effect at most once under
    concurrency and crashes, and only admitted data leaves.

    Media.  Sfu.v is the placement directory of ucr-sfu (SfuTheorems.v: reservations count
    placements, a departing worker moves only its own calls).  Video.v and Adaptive.v are
    video.rs, adaptive_media.rs and ucr-media-adaptive (AdaptiveTheorems.v: quality settles
    and changes are confirmed).  JoinToken.v and Realtime.v are ucr-realtime
    (JoinTokenTheorems.v, RealtimeSpec.v, RealtimeTheorems.v, RealtimeHistory.v: an issued
    token works until it is revoked or used up, grants are single use and revocable,
    generations fence connections, tables stay bounded, the bandwidth ceiling holds, no
    expired call is forgotten). GroupMedia.v is group_media_e2ee.rs and sfu.rs of ucr-protocol
    (GroupMediaTheorems.v: the wire form is canonical and a signature covers the whole frame,
    up to a collision of its hash). MediaCrypto.v is the group media part of ucr-crypto
    (MediaCryptoTheorems.v: what is sealed opens, in its own context only).
    MediaRuntime.v is group_media.rs of ucr-media-e2ee and the forwarding runtime of ucr-sfu
    (MediaRuntimeTheorems.v: the sink is called only on fresh evidence, a fan-out reports what
    happened, a session opens no frame twice).  MediaMembership.v runs the forwarding unit on
    the collaboration store: media stay within the group.

    ** Bounds

    Limits are the constants of the source (64 streams per epoch, 1024 call participants, 4096
    group members, 16 MiB payloads and so on) and are checked where the code checks them.
    Where a theorem needs a field to fit its machine type, the hypothesis is named for it
    ([header_typed_media], [typed_store_call], [is_u 64]); values of the Rust types satisfy it.

    ** What the modelling showed

    Four theorems state behaviour that differs from what the code means to do: a rejection
    that fails leaves a subscription unable to make progress (EventTheorems.v,
    [failed_rejection_wedges_subscription]), a rejected reschedule is not rolled back
    (StoreForwardTheorems.v, [rejected_reschedule_is_not_rolled_back]), placement keys of
    different tenants can collide (SfuTheorems.v, [placement_keys_collide_across_tenants]), and
    a screen share is sealed under the permission for camera video (MediaRuntimeTheorems.v,
    [screen_share_is_sealed_as_video]).

    ** Not modelled

    - The SQLite store (ucr-storage-sqlite), which repeats the in-memory store in SQL: its
      meaning is that of SQLite, which is not among the sources.
    - Adapters over third-party stacks: gRPC, WebRTC, Opus and H.264 codecs, MLS, HTTP, TLS
      and DNS clients, sockets, the WASM endpoint, the web front ends, the messenger bridges.
      What they decide is decided by code outside the sources; the runtimes that call them are
      modelled with them as an environment.
    - The handshake, message signatures, recovery, federation and machine credentials, whose
      guarantees rest on primitives beyond the classes above.
    - Facades that check one permission and call one modelled operation (ucr-core, ucr-chat,
      ucr-ai-actor, ucr-overlay), and the tables of identities, devices, attachments,
      recordings, organizations and personal nodes, which no modelled operation reads.
    - Conference subscriptions and broadcasts (ucr-conference, ucr-broadcast), and the two-party
      media session, whose key comes from the handshake.
    - Process configuration, background tasks, the SDK, demonstrations and tests.
    - Lock poisoning, memory exhaustion, and the timing of threads below the granularity of
      one store operation or one call of a trait object. *)

From stdpp Require Export base tactics option list gmap strings sorting.
From Stdlib Require Export ZArith Lia.

#[global] Set Default Goal Selector "!".

Declare Scope ucr_scope.
Delimit Scope ucr_scope with ucr.

(** * Results *)

(** Rust's [Result<A, E>], with the error type first so that [result E] is a
    monad and the [x ← e; k] and [e ;; k] notations read like Rust's [?]. *)
Inductive result (E A : Type) : Type :=
| Ok (a : A)
| Err (e : E).
Arguments Ok {E A} a.
Arguments Err {E A} e.

#[global] Instance result_ret {E} : MRet (result E) := λ A a, Ok a.
#[global] Instance result_bind {E} : MBind (result E) := λ A B k r,
  match r with Ok a => k a | Err e => Err e end.
#[global] Instance result_fmap {E} : FMap (result E) := λ A B f r,
  match r with Ok a => Ok (f a) | Err e => Err e end.
#[global] Instance result_eq_dec {E A} `{EqDecision E, EqDecision A} :
  EqDecision (result E A).
Proof. solve_decision. Defined.

(** [if c { return Err(e) }]. *)
Definition reject_if {E} (c : bool) (e : E) : result E unit :=
  if c then Err e else Ok tt.

(** [Option::ok_or]. *)
Definition ok_or {E A} (o : option A) (e : E) : result E A :=
  match o with Some a => Ok a | None => Err e end.

(** [Result::map_err]. *)
Definition map_err {E F A} (f : E → F) (r : result E A) : result F A :=
  match r with Ok a => Ok a | Err e => Err (f e) end.

Definition is_ok {E A} (r : result E A) : bool :=
  match r with Ok _ => true | Err _ => false end.

(** [iter().try_for_each], in order, stopping at the first error. *)
Fixpoint try_for_each {E A} (f : A → result E unit) (l : list A) : result E unit :=
  match l with
  | [] => Ok tt
  | x :: l => f x ;; try_for_each f l
  end.

(** [iter().map(f).collect::<Result<Vec<_>, _>>()]. *)
Fixpoint try_collect {E A B} (f : A → result E B) (l : list A) : result E (list B) :=
  match l with
  | [] => Ok []
  | x :: l => y ← f x; ys ← try_collect f l; Ok (y :: ys)
  end.

Lemma bind_Ok {E A B} (r : result E A) (k : A → result E B) b :
  (r ≫= k) = Ok b ↔ ∃ a, r = Ok a ∧ k a = Ok b.
Proof. destruct r; cbn; naive_solver. Qed.

Lemma bind_Err {E A B} (r : result E A) (k : A → result E B) e :
  (r ≫= k) = Err e ↔ r = Err e ∨ ∃ a, r = Ok a ∧ k a = Err e.
Proof. destruct r; cbn; naive_solver. Qed.

(** Two computations whose stages agree on success agree on success. *)
Lemma bind_Ok_mono {E A B} (r r' : result E A) (k k' : A → result E B) b :
  (∀ a, r = Ok a → r' = Ok a) → (∀ a, k a = Ok b → k' a = Ok b) →
  (r ≫= k) = Ok b → (r' ≫= k') = Ok b.
Proof. intros Hr Hk. rewrite !bind_Ok. intros (a & ? & ?). eauto. Qed.

Lemma reject_if_Ok {E} (c : bool) (e : E) u : reject_if c e = Ok u ↔ c = false.
Proof. destruct c, u; cbn; naive_solver. Qed.

Lemma reject_if_Err {E} (c : bool) (e e' : E) :
  reject_if c e = Err e' ↔ c = true ∧ e' = e.
Proof. destruct c; cbn; naive_solver. Qed.

Lemma ok_or_Ok {E A} (o : option A) (e : E) a : ok_or o e = Ok a ↔ o = Some a.
Proof. destruct o; cbn; naive_solver. Qed.

Lemma ok_or_Err {E A} (o : option A) (e e' : E) :
  ok_or o e = Err e' ↔ o = None ∧ e' = e.
Proof. destruct o; cbn; naive_solver. Qed.

#[global] Instance Ok_inj {E A} : Inj (=) (=) (@Ok E A).
Proof. by intros x y [=]. Qed.

Lemma map_err_Ok {E F A} (f : E → F) (r : result E A) a :
  map_err f r = Ok a ↔ r = Ok a.
Proof. destruct r; cbn; naive_solver. Qed.

Lemma try_for_each_Ok {E A} (f : A → result E unit) l u :
  try_for_each f l = Ok u ↔ Forall (λ x, f x = Ok tt) l.
Proof.
  destruct u. induction l as [|x l IH]; cbn; [by split; auto|].
  rewrite Forall_cons, <- IH, bind_Ok.
  split; [by intros ([] & ? & ?)|by intros [? ?]; exists tt].
Qed.

Lemma try_collect_Ok {E A B} (f : A → result E B) l l' :
  try_collect f l = Ok l' ↔ Forall2 (λ x y, f x = Ok y) l l'.
Proof.
  revert l'. induction l as [|x l IH]; intros l'; cbn.
  { split; [intros [= <-]; constructor|by intros ->%Forall2_nil_inv_l]. }
  rewrite bind_Ok. setoid_rewrite bind_Ok. split.
  - intros (y & ? & ys & ?%IH & [= <-]). by constructor.
  - intros (y & ys & ? & ?%IH & ->)%Forall2_cons_inv_l. eauto 10.
Qed.

(** * Boolean list predicates *)

Lemma existsb_true {A} (f : A → bool) l :
  existsb f l = true ↔ Exists (λ x, f x = true) l.
Proof.
  induction l as [|x l IH]; cbn; [by rewrite Exists_nil|].
  by rewrite orb_true_iff, Exists_cons, IH.
Qed.

Lemma existsb_false {A} (f : A → bool) l :
  existsb f l = false ↔ Forall (λ x, f x = false) l.
Proof.
  induction l as [|x l IH]; cbn; [by split; auto|].
  by rewrite orb_false_iff, Forall_cons, IH.
Qed.

Lemma forallb_true {A} (f : A → bool) l :
  forallb f l = true ↔ Forall (λ x, f x = true) l.
Proof.
  induction l as [|x l IH]; cbn; [by split; auto|].
  by rewrite andb_true_iff, Forall_cons, IH.
Qed.

(** [Vec::len], a [usize]. *)
Definition len {A} (l : list A) : Z := Z.of_nat (length l).

(** [slice.windows(2).any(|pair| f(pair[0], pair[1]))]. *)
Fixpoint windows_any {A} (f : A → A → bool) (l : list A) : bool :=
  match l with
  | x :: ((y :: _) as l') => f x y || windows_any f l'
  | _ => false
  end.

(** [iter().position(f)]: the index of the first match. *)
Fixpoint position {A} (f : A → bool) (l : list A) : option nat :=
  match l with
  | [] => None
  | x :: l => if f x then Some 0 else S <$> position f l
  end.

Lemma position_Some {A} (f : A → bool) l i :
  position f l = Some i → ∃ x, l !! i = Some x ∧ f x = true ∧ x ∈ l.
Proof.
  revert i. induction l as [|x l IH]; intros i; cbn; [done|].
  destruct (f x) eqn:Hf; [intros [= <-]; exists x; cbn; eauto using list_elem_of_here|].
  intros (j & Hj & ->)%fmap_Some. destruct (IH j Hj) as (y & ? & ? & ?).
  exists y; cbn. eauto using list_elem_of_further.
Qed.

Lemma position_None {A} (f : A → bool) l :
  position f l = None ↔ Forall (λ x, f x = false) l.
Proof.
  induction l as [|x l IH]; cbn; [by split; auto|].
  rewrite Forall_cons, <- IH. destruct (f x); [naive_solver|].
  rewrite fmap_None. naive_solver.
Qed.

Lemma existsb_filter {A} (f g : A → bool) l :
  existsb f (List.filter g l) = existsb (λ x, g x && f x) l.
Proof. induction l as [|x l IH]; cbn; [done|]. destruct (g x); cbn; by rewrite IH. Qed.

Lemma find_app {A} (f : A → bool) l k :
  List.find f (l ++ k) = match List.find f l with Some x => Some x | None => List.find f k end.
Proof. induction l as [|x l IH]; cbn; [done|]. by destruct (f x). Qed.

Lemma find_None_Forall {A} (f : A → bool) l :
  List.find f l = None ↔ Forall (λ x, f x = false) l.
Proof.
  induction l as [|x l IH]; cbn; [by split; auto|].
  rewrite Forall_cons, <- IH. destruct (f x); naive_solver.
Qed.

Lemma position_split {A} (f : A → bool) l i :
  position f l = Some i →
  ∃ l1 x l2, l = l1 ++ x :: l2 ∧ l !! i = Some x ∧ f x = true
    ∧ Forall (λ y, f y = false) l1 ∧ ∀ y, <[i := y]> l = l1 ++ y :: l2.
Proof.
  revert i. induction l as [|x l IH]; intros i; cbn; [done|].
  destruct (f x) eqn:Hf.
  - intros [= <-]. exists [], x, l. cbn. auto.
  - intros (j & Hj & ->)%fmap_Some. destruct (IH j Hj) as (l1 & y & l2 & -> & ? & ? & ? & Hins).
    exists (x :: l1), y, l2. split_and!; [done|done|done|by constructor|].
    intros z. exact (f_equal (cons x) (Hins z)).
Qed.

Lemma find_Some_elem {A} (f : A → bool) l x :
  List.find f l = Some x → x ∈ l ∧ f x = true.
Proof. intros [? ?]%find_some. by rewrite list_elem_of_In. Qed.

Lemma existsb_perm {A} (f : A → bool) l k : l ≡ₚ k → existsb f l = existsb f k.
Proof.
  induction 1 as [|x l k _ IH|x y l|l k m _ IH1 _ IH2]; cbn; [done|by rewrite IH| |congruence].
  by rewrite !orb_assoc, (orb_comm (f y)).
Qed.

Lemma existsb_impl {A} (f g : A → bool) l :
  (∀ x, x ∈ l → f x = true → g x = true) → existsb f l = true → existsb g l = true.
Proof.
  intros Hfg. rewrite !existsb_true, !Exists_exists.
  intros (x & ? & ?). exists x. auto.
Qed.

Lemma existsb_ext {A} (f g : A → bool) l :
  (∀ x, x ∈ l → f x = g x) → existsb f l = existsb g l.
Proof.
  intros Hfg. apply eq_true_iff_eq. split; apply existsb_impl; intros x Hx; by rewrite Hfg.
Qed.

(** With distinct keys, [find] by key is membership. *)
Lemma find_key_Some {A K} `{EqDecision K} (key : A → K) l k x :
  NoDup (key <$> l) →
  List.find (λ v, bool_decide (key v = k)) l = Some x ↔ x ∈ l ∧ key x = k.
Proof.
  intros Hnd. split.
  - intros [? ?%bool_decide_eq_true]%find_Some_elem. done.
  - intros [Hx <-]. induction l as [|y l IH]; [by apply not_elem_of_nil in Hx|].
    cbn in Hnd |- *. apply NoDup_cons in Hnd as [Hy Hnd].
    apply elem_of_cons in Hx as [->|Hx]; [by rewrite bool_decide_eq_true_2|].
    rewrite bool_decide_eq_false_2; [by apply IH|].
    intros E. apply Hy. rewrite E. by apply list_elem_of_fmap_2.
Qed.

Lemma cons_inv {A} (x y : A) l k : x :: l = y :: k → x = y ∧ l = k.
Proof. by intros [= -> ->]. Qed.

Lemma existsb_fmap {A B} (f : B → bool) (g : A → B) l :
  existsb f (g <$> l) = existsb (λ x, f (g x)) l.
Proof. induction l as [|x l IH]; cbn; [done|by rewrite <- IH]. Qed.

Lemma flat_map_fmap {A B C} (f : B → list C) (g : A → B) l :
  flat_map f (g <$> l) = flat_map (λ x, f (g x)) l.
Proof. induction l as [|x l IH]; cbn; [done|by rewrite <- IH]. Qed.

Lemma filter_b_perm {A} (f : A → bool) l k : l ≡ₚ k → List.filter f l ≡ₚ List.filter f k.
Proof.
  induction 1 as [|x l k _ IH|x y l|l k m _ IH1 _ IH2]; cbn;
    [done|by case_match; rewrite IH| |by rewrite IH1].
  repeat case_match; done || constructor.
Qed.

Lemma NoDup_filter_b {A} (f : A → bool) (l : list A) : NoDup l → NoDup (List.filter f l).
Proof.
  induction 1 as [|x l Hx _ IH]; cbn; [constructor|]. case_match; [|done]. constructor; [|done].
  rewrite list_elem_of_In, filter_In, <- list_elem_of_In. tauto.
Qed.

Lemma len_perm {A} (l k : list A) : l ≡ₚ k → len l = len k.
Proof. intros H. unfold len. by rewrite H. Qed.

Lemma nil_perm_b {A} `{EqDecision A} (l k : list A) :
  l ≡ₚ k → bool_decide (l = []) = bool_decide (k = []).
Proof.
  intros H. apply bool_decide_ext. split; intros ->.
  - by apply Permutation_nil.
  - by apply Permutation_nil_r.
Qed.

Lemma mid_elem {A} (l1 l2 : list A) x l : l = l1 ++ x :: l2 → x ∈ l.
Proof. intros ->. set_solver. Qed.

Lemma find_key_fmap {A K} `{EqDecision K} (key : A → K) (f : A → A) l k :
  (∀ x, key (f x) = key x) →
  List.find (λ v, bool_decide (key v = k)) (f <$> l)
  = f <$> List.find (λ v, bool_decide (key v = k)) l.
Proof.
  intros Hf. induction l as [|x l IH]; [done|]. cbn. rewrite Hf. by case_match.
Qed.

(** * Proof automation *)

(** Rewrite database that turns the boolean guards of the code into
    propositions. *)
Create Rewrite HintDb ucr_bool.
#[export] Hint Rewrite orb_true_iff orb_false_iff andb_true_iff andb_false_iff
  negb_true_iff negb_false_iff bool_decide_eq_true bool_decide_eq_false
  Z.leb_le Z.leb_gt Z.ltb_lt Z.ltb_ge Z.eqb_eq Z.eqb_neq
  Nat.leb_le Nat.leb_gt Nat.ltb_lt Nat.ltb_ge Nat.eqb_eq Nat.eqb_neq
  @existsb_true @existsb_false @forallb_true : ucr_bool.

Ltac bool_norm := autorewrite with ucr_bool in *.

(** Unfold one level of a successful [result] computation in a hypothesis. *)
Ltac res_step :=
  match goal with
  | H : (_ ≫= _) = Ok _ |- _ => apply bind_Ok in H; destruct H as (? & ? & H)
  | H : mret _ = Ok _ |- _ => injection H as H
  | H : Ok _ = Ok _ |- _ => injection H as H
  | H : Err _ = Ok _ |- _ => discriminate H
  | H : Ok _ = Err _ |- _ => discriminate H
  | H : reject_if _ _ = Ok _ |- _ => apply reject_if_Ok in H
  | H : ok_or _ _ = Ok _ |- _ => apply ok_or_Ok in H
  | H : map_err _ _ = Ok _ |- _ => apply map_err_Ok in H
  | H : try_for_each _ _ = Ok _ |- _ => apply try_for_each_Ok in H
  | H : try_collect _ _ = Ok _ |- _ => apply try_collect_Ok in H
  | u : unit |- _ => destruct u
  end.
Ltac res_inv := repeat (res_step; simpl in *).

(** * Total orders and stable sorting *)

(** The promise [Ord] makes to [sort_by]: a three-way comparison that is a
    total order on its type. *)
Class TotalCmp {A} (cmp : A → A → comparison) : Prop := {
  cmp_eq_iff x y : cmp x y = Eq ↔ x = y;
  cmp_opp x y : cmp y x = CompOpp (cmp x y);
  cmp_lt_trans x y z : cmp x y = Lt → cmp y z = Lt → cmp x z = Lt;
}.

#[global] Instance Z_total_cmp : TotalCmp Z.compare.
Proof.
  split; [apply Z.compare_eq_iff|intros; apply Z.compare_antisym|].
  intros x y z. rewrite !Z.compare_lt_iff. lia.
Qed.

(** [Ordering::then_with]. *)
Definition then_with (o o' : comparison) : comparison :=
  match o with Eq => o' | _ => o end.

Definition pair_cmp {A B} (cA : A → A → comparison) (cB : B → B → comparison)
    (p q : A * B) : comparison :=
  then_with (cA p.1 q.1) (cB p.2 q.2).

(** Lexicographic order of slices, as [Ord for [T]] and [Ord for str]. *)
Fixpoint list_cmp {A} (c : A → A → comparison) (l k : list A) : comparison :=
  match l, k with
  | [], [] => Eq
  | [], _ :: _ => Lt
  | _ :: _, [] => Gt
  | x :: l, y :: k => then_with (c x y) (list_cmp c l k)
  end.

Section cmp_instances.
Context {A B : Type} (cA : A → A → comparison) (cB : B → B → comparison).
Context `{!TotalCmp cA, !TotalCmp cB}.

Lemma cmp_refl x : cA x x = Eq.
Proof. by apply cmp_eq_iff. Qed.

#[global] Instance pair_total_cmp : TotalCmp (pair_cmp cA cB).
Proof.
  unfold pair_cmp, then_with. split.
  - intros [a b] [a' b']; cbn.
    destruct (cA a a') eqn:Ha; rewrite ?cmp_eq_iff in *; subst.
    + split; [by intros ->|by intros [= ->]].
    + split; [done|]. intros [= -> ->]. by rewrite cmp_refl in Ha.
    + split; [done|]. intros [= -> ->]. by rewrite cmp_refl in Ha.
  - intros [a b] [a' b']; cbn. rewrite (cmp_opp a a').
    destruct (cA a a'); cbn; [apply cmp_opp|done|done].
  - intros [a b] [a' b'] [a'' b'']; cbn.
    destruct (cA a a') eqn:H1, (cA a' a'') eqn:H2; try done;
      rewrite ?cmp_eq_iff in *; subst; rewrite ?cmp_refl, ?H1, ?H2; try done.
    + eapply cmp_lt_trans.
    + by rewrite (cmp_lt_trans _ _ _ H1 H2).
Qed.

#[global] Instance list_total_cmp : TotalCmp (list_cmp cA).
Proof.
  split.
  - induction x as [|x l IH]; intros [|y k]; cbn; [done..|].
    unfold then_with. destruct (cA x y) eqn:Ha; rewrite ?cmp_eq_iff in *; subst.
    + rewrite IH. naive_solver.
    + split; [done|]. intros [= -> ->]. by rewrite cmp_refl in Ha.
    + split; [done|]. intros [= -> ->]. by rewrite cmp_refl in Ha.
  - induction x as [|x l IH]; intros [|y k]; cbn; [done..|].
    unfold then_with. rewrite (cmp_opp x y). destruct (cA x y); cbn; auto.
  - induction x as [|x l IH]; intros [|y k] [|z m]; cbn; try done.
    unfold then_with.
    destruct (cA x y) eqn:H1, (cA y z) eqn:H2; try done;
      rewrite ?cmp_eq_iff in *; subst; rewrite ?cmp_refl, ?H1, ?H2; try done.
    + apply IH.
    + by rewrite (cmp_lt_trans _ _ _ H1 H2).
Qed.

(** An order transported along an injection. *)
Lemma inj_total_cmp {C} (f : C → A) : Inj (=) (=) f → TotalCmp (λ x y, cA (f x) (f y)).
Proof.
  intros Hinj. split; intros.
  - rewrite cmp_eq_iff. split; [apply Hinj|by intros ->].
  - apply cmp_opp.
  - eauto using cmp_lt_trans.
Qed.
End cmp_instances.

(** [slice::sort_by]: a stable sort. *)
Fixpoint insert_by {A} (cmp : A → A → comparison) (x : A) (l : list A) : list A :=
  match l with
  | [] => [x]
  | y :: l' =>
      match cmp x y with
      | Gt => y :: insert_by cmp x l'
      | _ => x :: l
      end
  end.

Definition sort_by {A} (cmp : A → A → comparison) (l : list A) : list A :=
  foldr (insert_by cmp) [] l.

Lemma insert_by_perm {A} (cmp : A → A → comparison) x l : insert_by cmp x l ≡ₚ x :: l.
Proof.
  induction l as [|y l IH]; cbn; [done|].
  destruct (cmp x y); [done|done|]. rewrite IH. constructor.
Qed.

Lemma sort_by_perm {A} (cmp : A → A → comparison) l : sort_by cmp l ≡ₚ l.
Proof. induction l as [|x l IH]; cbn; [done|]. by rewrite insert_by_perm, IH. Qed.

Lemma sort_by_length {A} (cmp : A → A → comparison) l : length (sort_by cmp l) = length l.
Proof. by rewrite sort_by_perm. Qed.

Lemma elem_of_sort_by {A} (cmp : A → A → comparison) l x : x ∈ sort_by cmp l ↔ x ∈ l.
Proof. by rewrite sort_by_perm. Qed.

(** Sorting a list of records by a key with a total order, and rejecting
    neighbours with equal keys, the canonicalisation idiom of the protocol. *)
Section keyed.
Context {A K : Type} (key : A → K) (cmp : K → K → comparison).
Context `{!TotalCmp cmp, !EqDecision K}.

Definition key_cmp (x y : A) : comparison := cmp (key x) (key y).
Definition key_le (x y : A) : Prop := key_cmp x y ≠ Gt.
Definition key_lt (x y : A) : Prop := key_cmp x y = Lt.
Definition same_key (x y : A) : bool := bool_decide (key x = key y).
Definition strict_sorted (l : list A) : Prop := StronglySorted key_lt l.

#[local] Instance key_lt_trans : Transitive key_lt.
Proof. intros x y z. unfold key_lt, key_cmp. apply cmp_lt_trans. Qed.

#[local] Instance key_le_trans : Transitive key_le.
Proof.
  intros x y z. unfold key_le, key_cmp.
  destruct (cmp (key x) (key y)) eqn:H1, (cmp (key y) (key z)) eqn:H2; try done;
    intros _ _.
  - apply cmp_eq_iff in H1, H2. rewrite H1, H2. by rewrite cmp_refl.
  - apply cmp_eq_iff in H1. by rewrite H1, H2.
  - apply cmp_eq_iff in H2. by rewrite <- H2, H1.
  - by rewrite (cmp_lt_trans _ _ _ H1 H2).
Qed.

Lemma key_lt_irrefl x : ¬ key_lt x x.
Proof. unfold key_lt, key_cmp. by rewrite cmp_refl. Qed.

Lemma insert_by_sorted x l :
  StronglySorted key_le l → StronglySorted key_le (insert_by key_cmp x l).
Proof.
  induction l as [|y l IH]; cbn; [repeat constructor|].
  intros [Hy Hs]%StronglySorted_cons.
  destruct (key_cmp x y) eqn:E.
  1,2: apply StronglySorted_cons; split; [|by apply StronglySorted_cons];
    assert (key_le x y) by (unfold key_le; congruence);
    constructor; [done|]; eapply Forall_impl; [exact Hy|]; intros z ?;
    by etrans.
  apply StronglySorted_cons; split; [|auto].
  rewrite insert_by_perm. constructor; [|done].
  unfold key_le, key_cmp in *. rewrite cmp_opp, E. done.
Qed.

Lemma sort_by_sorted l : StronglySorted key_le (sort_by key_cmp l).
Proof. induction l; cbn; [constructor|by apply insert_by_sorted]. Qed.

(** A sorted list with no equal neighbours is strictly sorted. *)
Lemma no_window_dup_strict l :
  StronglySorted key_le l → windows_any same_key l = false → strict_sorted l.
Proof.
  intros Hs Hw. apply Sorted_StronglySorted; [apply _|].
  induction l as [|x [|y l] IH]; [constructor..| |]; [repeat constructor|].
  apply StronglySorted_cons in Hs as [Hx Hs].
  cbn in Hw. apply orb_false_iff in Hw as [Hxy Hw].
  constructor; [by apply IH|]. constructor.
  apply Forall_cons in Hx as [Hle _].
  unfold same_key in Hxy. apply bool_decide_eq_false in Hxy.
  unfold key_le, key_lt, key_cmp in *. destruct (cmp _ _) eqn:E; try done.
  by apply cmp_eq_iff in E.
Qed.

Lemma strict_no_window_dup l : strict_sorted l → windows_any same_key l = false.
Proof.
  induction l as [|x [|y l] IH]; [done..|].
  intros [Hx Hs]%StronglySorted_cons. cbn [windows_any].
  apply orb_false_iff; split; [|by apply IH].
  apply Forall_cons in Hx as [Hlt _].
  apply bool_decide_eq_false. intros E. unfold key_lt, key_cmp in Hlt.
  rewrite E, (cmp_refl cmp) in Hlt. done.
Qed.

Lemma strict_sorted_le l : strict_sorted l → StronglySorted key_le l.
Proof.
  induction 1 as [|x l Hs IH Hx]; constructor; [done|].
  eapply Forall_impl; [exact Hx|]. unfold key_lt, key_le. congruence.
Qed.

Lemma insert_by_head x l : Forall (key_lt x) l → insert_by key_cmp x l = x :: l.
Proof. destruct l as [|y l]; [done|]. intros [E _]%Forall_cons. cbn. by rewrite E. Qed.

(** Sorting is the identity on canonical lists. *)
Lemma sort_by_strict l : strict_sorted l → sort_by key_cmp l = l.
Proof.
  induction 1 as [|x l Hs IH Hx]; [done|].
  cbn. unfold sort_by in IH. rewrite IH. by apply insert_by_head.
Qed.

Lemma strict_sorted_NoDup l : strict_sorted l → NoDup (key <$> l).
Proof.
  induction 1 as [|x l Hs IH Hx]; cbn; [constructor|]. constructor; [|done].
  rewrite list_elem_of_fmap. intros (y & E & Hy).
  rewrite Forall_forall in Hx. specialize (Hx y Hy).
  unfold key_lt, key_cmp in Hx. rewrite E, (cmp_refl cmp) in Hx. done.
Qed.

(** The neighbour test on the sorted list decides whether keys repeat. *)
Lemma sort_by_NoDup l : NoDup (key <$> l) → strict_sorted (sort_by key_cmp l).
Proof.
  intros Hnd. apply no_window_dup_strict; [apply sort_by_sorted|].
  assert (NoDup (key <$> sort_by key_cmp l)) as Hnd' by (by rewrite sort_by_perm).
  clear Hnd. induction (sort_by key_cmp l) as [|x [|y k] IH]; [done..|].
  cbn in Hnd' |- *. apply NoDup_cons in Hnd' as [Hx Hnd'].
  apply orb_false_iff. split; [|by apply IH].
  apply bool_decide_eq_false. intros E. apply Hx. rewrite E. constructor.
Qed.

Lemma sort_by_windows l :
  windows_any same_key (sort_by key_cmp l) = false ↔ NoDup (key <$> l).
Proof.
  split.
  - intros Hw. pose proof (no_window_dup_strict _ (sort_by_sorted l) Hw) as Hs.
    apply strict_sorted_NoDup in Hs. by rewrite sort_by_perm in Hs.
  - intros. by apply strict_no_window_dup, sort_by_NoDup.
Qed.

Lemma strict_sorted_unique l k :
  strict_sorted l → strict_sorted k → l ≡ₚ k → l = k.
Proof.
  intros Hl Hk. apply (StronglySorted_unique_strong key_lt); [|done..].
  intros x y _ _ Hxy Hyx. destruct (key_lt_irrefl x). by trans y.
Qed.

(** The canonical form does not depend on the order of the input. *)
Lemma sort_by_Permutation l k :
  l ≡ₚ k → NoDup (key <$> l) → sort_by key_cmp l = sort_by key_cmp k.
Proof.
  intros Hp Hnd. apply strict_sorted_unique.
  - by apply sort_by_NoDup.
  - apply sort_by_NoDup. by rewrite <- Hp.
  - by rewrite !sort_by_perm.
Qed.

(** Strict sortedness depends on the keys alone, so an update that keeps
    every key keeps the list canonical. *)
Lemma strict_sorted_keys l k : key <$> l = key <$> k → strict_sorted l → strict_sorted k.
Proof.
  revert k. induction l as [|x l IH]; intros [|y k]; cbn; try done.
  intros [= E Ek] [Hx Hs]%StronglySorted_cons. apply StronglySorted_cons.
  split; [|by apply IH]. clear IH Hs. revert k Ek.
  induction l as [|x' l IH]; intros [|y' k]; cbn; try done.
  intros [= E' Ek]. apply Forall_cons in Hx as [Hx' Hx]. constructor; [|auto].
  unfold key_lt, key_cmp in *. by rewrite <- E, <- E'.
Qed.
End keyed.

(** Appending a larger element to a sorted journal. *)
Lemma StronglySorted_snoc {A} (R : A → A → Prop) l y :
  StronglySorted R l → Forall (λ x, R x y) l → StronglySorted R (l ++ [y]).
Proof.
  induction 1 as [|x l Hs IH Hx]; intros Hy; cbn; [repeat constructor|].
  apply Forall_cons in Hy as [Hxy Hy]. constructor; [by apply IH|].
  apply Forall_app. by split; [|constructor].
Qed.

Lemma StronglySorted_last {A} (R : A → A → Prop) l y :
  StronglySorted R l → last l = Some y → Forall (λ x, x = y ∨ R x y) l.
Proof.
  induction 1 as [|x l Hs IH Hx]; [done|]. intros Hl.
  destruct l as [|z l]; [injection Hl as ->; repeat constructor; by left|].
  rewrite last_cons_cons in Hl. specialize (IH Hl). constructor; [|done].
  right. rewrite Forall_forall in Hx. apply Hx. by apply last_Some_elem_of.
Qed.

(** * Machine integers *)

(** A Rust integer of width [w] is a [Z] in the range of its type. *)
Definition is_u (w : Z) (x : Z) : Prop := (0 ≤ x < 2 ^ w)%Z.
Abbreviation is_u8 := (is_u 8).
Abbreviation is_u16 := (is_u 16).
Abbreviation is_u32 := (is_u 32).
Abbreviation is_u64 := (is_u 64).
Definition is_i64 (x : Z) : Prop := (- 2 ^ 63 ≤ x < 2 ^ 63)%Z.

Definition u16_max : Z := 65535.
Definition u32_max : Z := 4294967295.
Definition u64_max : Z := 18446744073709551615.
Definition i64_min : Z := -9223372036854775808.
Definition i64_max : Z := 9223372036854775807.

(** [u64::checked_add], [u64::saturating_mul], [u16::saturating_add] and
    [i64::checked_add] and the fallible conversion [i64::try_from(u64)]. *)
Definition checked_add_u64 (a b : Z) : option Z :=
  if (a + b <=? u64_max)%Z then Some (a + b)%Z else None.
Definition checked_add_u32 (a b : Z) : option Z :=
  if (a + b <=? u32_max)%Z then Some (a + b)%Z else None.
Definition saturating_mul_u64 (a b : Z) : Z := Z.min (a * b) u64_max.
Definition saturating_add_u64 (a b : Z) : Z := Z.min (a + b) u64_max.
Definition saturating_add_u16 (a b : Z) : Z := Z.min (a + b) u16_max.
Definition checked_add_i64 (a b : Z) : option Z :=
  if (i64_min <=? a + b)%Z && (a + b <=? i64_max)%Z then Some (a + b)%Z else None.
Definition i64_try_from (a : Z) : option Z :=
  if (i64_min <=? a)%Z && (a <=? i64_max)%Z then Some a else None.

Lemma checked_add_u64_Some a b c :
  checked_add_u64 a b = Some c ↔ c = (a + b)%Z ∧ (a + b ≤ u64_max)%Z.
Proof. unfold checked_add_u64. case_match; bool_norm; naive_solver lia. Qed.

Lemma checked_add_u32_Some a b c :
  checked_add_u32 a b = Some c ↔ c = (a + b)%Z ∧ (a + b ≤ u32_max)%Z.
Proof. unfold checked_add_u32. case_match; bool_norm; naive_solver lia. Qed.

Lemma checked_add_i64_Some a b c :
  checked_add_i64 a b = Some c ↔ c = (a + b)%Z ∧ (i64_min ≤ a + b ≤ i64_max)%Z.
Proof. unfold checked_add_i64. case_match; bool_norm; naive_solver lia. Qed.

Lemma i64_try_from_Some a c :
  i64_try_from a = Some c ↔ c = a ∧ (i64_min ≤ a ≤ i64_max)%Z.
Proof. unfold i64_try_from. case_match; bool_norm; naive_solver lia. Qed.

(** * Bytes *)

(** A byte string; the elements of a Rust [Vec<u8>] satisfy [is_u8]. *)
Abbreviation bytes := (list Z).

(** The bytes of an ASCII literal. *)
Definition str (s : string) : bytes :=
  (λ a, Z.of_N (Ascii.N_of_ascii a)) <$> String.list_ascii_of_string s.

Abbreviation bytes_cmp := (list_cmp Z.compare).

(** [to_be_bytes] for an integer of [n] bytes (two's complement when negative). *)
Fixpoint be_bytes (n : nat) (v : Z) : bytes :=
  match n with
  | O => []
  | S n => (v / 2 ^ (8 * Z.of_nat n) mod 256)%Z :: be_bytes n v
  end.

(** [from_be_bytes]. *)
Definition be_value (l : bytes) : Z := foldl (λ acc b, acc * 256 + b)%Z 0%Z l.

Lemma length_be_bytes n v : length (be_bytes n v) = n.
Proof. induction n; cbn; auto. Qed.

Lemma be_value_acc acc l :
  foldl (λ acc b, acc * 256 + b)%Z acc l
  = (acc * 2 ^ (8 * Z.of_nat (length l)) + be_value l)%Z.
Proof.
  unfold be_value. revert acc. induction l as [|b l IH]; intros acc;
    cbn [foldl length]; [lia|].
  rewrite IH, (IH (0 * 256 + b)%Z).
  replace (8 * Z.of_nat (S (length l)))%Z with (8 + 8 * Z.of_nat (length l))%Z by lia.
  rewrite Z.pow_add_r by lia. change (2 ^ 8)%Z with 256%Z. lia.
Qed.

Lemma be_value_cons b l :
  be_value (b :: l) = (b * 2 ^ (8 * Z.of_nat (length l)) + be_value l)%Z.
Proof. unfold be_value at 1. cbn [foldl]. rewrite be_value_acc. lia. Qed.

Lemma be_value_be_bytes n v : be_value (be_bytes n v) = (v mod 2 ^ (8 * Z.of_nat n))%Z.
Proof.
  induction n as [|n IH]; [by rewrite Z.mod_1_r|].
  cbn [be_bytes]. rewrite be_value_cons, IH, length_be_bytes.
  replace (8 * Z.of_nat (S n))%Z with (8 * Z.of_nat n + 8)%Z by lia.
  rewrite Z.pow_add_r by lia. rewrite Z.rem_mul_r by lia.
  change (2 ^ 8)%Z with 256%Z. lia.
Qed.

Lemma be_bytes_u8 n v : Forall is_u8 (be_bytes n v).
Proof.
  induction n; cbn; constructor; [|done].
  unfold is_u. apply (Z.mod_pos_bound _ 256). lia.
Qed.

Lemma be_value_bound l :
  Forall is_u8 l → (0 ≤ be_value l < 2 ^ (8 * Z.of_nat (length l)))%Z.
Proof.
  induction 1 as [|b l Hb Hl IH]; [cbn; lia|].
  rewrite be_value_cons. cbn [length].
  replace (8 * Z.of_nat (S (length l)))%Z with (8 + 8 * Z.of_nat (length l))%Z by lia.
  rewrite Z.pow_add_r by lia. change (2 ^ 8)%Z with 256%Z.
  unfold is_u in Hb. change (2 ^ 8)%Z with 256%Z in Hb. nia.
Qed.

Lemma be_bytes_inj n v w :
  (0 ≤ v < 2 ^ (8 * Z.of_nat n))%Z → (0 ≤ w < 2 ^ (8 * Z.of_nat n))%Z →
  be_bytes n v = be_bytes n w → v = w.
Proof.
  intros Hv Hw E%(f_equal be_value). rewrite !be_value_be_bytes in E.
  by rewrite !Z.mod_small in E.
Qed.

Lemma be_value_inj l k :
  Forall is_u8 l → Forall is_u8 k → length l = length k →
  be_value l = be_value k → l = k.
Proof.
  intros Hl. revert k. induction Hl as [|b l Hb Hl IH]; intros [|c k] Hk Elen E;
    try done.
  apply Forall_cons in Hk as [Hc Hk]. injection Elen as Elen.
  rewrite !be_value_cons, <- Elen in E.
  pose proof (be_value_bound _ Hl). pose proof (be_value_bound _ Hk) as Hb2.
  rewrite <- Elen in Hb2.
  assert (b = c) as -> by nia. f_equal. apply IH; [done..|lia].
Qed.

Lemma be_bytes_be_value l : Forall is_u8 l → be_bytes (length l) (be_value l) = l.
Proof.
  intros Hl. apply be_value_inj; [apply be_bytes_u8|done|apply length_be_bytes|].
  rewrite be_value_be_bytes. apply Z.mod_small. by apply be_value_bound.
Qed.

(** * Prefix-free encoders *)

(** [prefix_free P enc]: among the values in [P], an encoding determines the
    value and the position where it ends.  Canonical fingerprints hash a
    concatenation of such encoders. *)
Definition prefix_free {A} (P : A → Prop) (enc : A → bytes) : Prop :=
  ∀ x y r r', P x → P y → enc x ++ r = enc y ++ r' → x = y ∧ r = r'.

Lemma prefix_free_be n : prefix_free (λ v, 0 ≤ v < 2 ^ (8 * Z.of_nat n))%Z (be_bytes n).
Proof.
  intros x y r r' Hx Hy E.
  apply app_inj_1 in E as [E ->]; [|by rewrite !length_be_bytes].
  split; [|done]. by eapply be_bytes_inj.
Qed.

(** Two's complement: a negative [i64] is also determined by its bytes. *)
Lemma prefix_free_i64 : prefix_free is_i64 (be_bytes 8).
Proof.
  intros x y r r' Hx Hy E.
  apply app_inj_1 in E as [E ->]; [|by rewrite !length_be_bytes].
  split; [|done]. apply (f_equal be_value) in E. rewrite !be_value_be_bytes in E.
  change (2 ^ (8 * Z.of_nat 8))%Z with (2 ^ 63 + 2 ^ 63)%Z in E. unfold is_i64 in *.
  destruct (Z.le_gt_cases 0 x), (Z.le_gt_cases 0 y);
    rewrite ?(Z.mod_small x), ?(Z.mod_small y) in E by lia; try done.
  - rewrite <- (Z.mod_unique y _ (-1) (y + (2 ^ 63 + 2 ^ 63))) in E by lia. lia.
  - rewrite <- (Z.mod_unique x _ (-1) (x + (2 ^ 63 + 2 ^ 63))) in E by lia. lia.
  - rewrite <- (Z.mod_unique y _ (-1) (y + (2 ^ 63 + 2 ^ 63))) in E by lia.
    rewrite <- (Z.mod_unique x _ (-1) (x + (2 ^ 63 + 2 ^ 63))) in E by lia. lia.
Qed.

(** Length-prefixed bytes, the [push_bytes] idiom. *)
Definition len_prefixed (n : nat) (v : bytes) : bytes :=
  be_bytes n (Z.of_nat (length v)) ++ v.

Lemma prefix_free_len n :
  prefix_free (λ v, Z.of_nat (length v) < 2 ^ (8 * Z.of_nat n))%Z (len_prefixed n).
Proof.
  intros x y r r' Hx Hy E. unfold len_prefixed in E. rewrite <- !app_assoc in E.
  apply prefix_free_be in E as [E1 E2]; [|split; [lia|done]..].
  apply app_inj_1 in E2 as [-> ->]; [done|lia].
Qed.

Lemma prefix_free_end {A} (P : A → Prop) enc x y :
  prefix_free P enc → P x → P y → enc x = enc y → x = y.
Proof.
  intros Hpf Hx Hy E. apply (Hpf x y [] []); [done..|]. by rewrite E.
Qed.

#[global] Arguments be_bytes : simpl never.
#[global] Arguments len_prefixed : simpl never.
#[global] Arguments str : simpl never.
#[global] Arguments sort_by : simpl never.
