(* ===== verification/Ids.v ===== *)
(** Canonical identifiers and the small shared vocabulary of the model crate
    (crates/ucr-model/src/lib.rs, crates/ucr-protocol/src/id.rs).

    [OpaqueId] is a subset type, as in the code where the field is private and
    both constructors validate: an inhabitant is a non-empty UTF-8 token of at
    most 128 bytes.  Constructors carry a two-letter prefix naming their enum,
    since Rocq has one name space for all of them.  The identifier newtypes ([TenantId], [CallId], ...) are
    abbreviations of it, since a newtype adds no behaviour. *)

From S2P Require Import Prelude.

(** * UTF-8, as [core::str::from_utf8] accepts it *)

Definition in_range (lo hi x : Z) : bool := (lo <=? x)%Z && (x <=? hi)%Z.
Definition utf8_cont (x : Z) : bool := in_range 128 191 x.

(** The second byte allowed after the leading byte of a 3 or 4 byte sequence. *)
Definition utf8_second3 (a b : Z) : bool :=
  if (a =? 224)%Z then in_range 160 191 b
  else if (a =? 237)%Z then in_range 128 159 b
  else utf8_cont b.
Definition utf8_second4 (a b : Z) : bool :=
  if (a =? 240)%Z then in_range 144 191 b
  else if (a =? 244)%Z then in_range 128 143 b
  else utf8_cont b.

Fixpoint utf8_valid (l : bytes) : bool :=
  match l with
  | [] => true
  | a :: l1 =>
      if in_range 0 127 a then utf8_valid l1 else
      match l1 with
      | [] => false
      | b :: l2 =>
          if in_range 194 223 a then utf8_cont b && utf8_valid l2 else
          match l2 with
          | [] => false
          | c :: l3 =>
              if in_range 224 239 a then
                utf8_second3 a b && utf8_cont c && utf8_valid l3
              else
              match l3 with
              | [] => false
              | d :: l4 =>
                  in_range 240 244 a && utf8_second4 a b && utf8_cont c &&
                  utf8_cont d && utf8_valid l4
              end
          end
      end
  end.

Lemma utf8_valid_ascii l : Forall (λ x, 0 ≤ x < 128)%Z l → utf8_valid l = true.
Proof.
  induction 1 as [|x l Hx Hl IH]; [done|]. cbn [utf8_valid].
  replace (in_range 0 127 x) with true; [done|].
  symmetry. unfold in_range. bool_norm. lia.
Qed.

(** * Opaque identifiers *)

Inductive OpaqueIdError := OieEmpty | OieInvalidUtf8 | OieTooLong.
#[global] Instance OpaqueIdError_eq_dec : EqDecision OpaqueIdError.
Proof. solve_decision. Defined.

Definition OPAQUE_ID_MAX_LEN : nat := 128.

Definition validate_opaque_id_bytes (value : bytes) : result OpaqueIdError unit :=
  reject_if (bool_decide (value = [])) OieEmpty ;;
  reject_if (OPAQUE_ID_MAX_LEN <? length value) OieTooLong ;;
  reject_if (negb (utf8_valid value)) OieInvalidUtf8.

Record OpaqueId := mk_opaque {
  as_wire_bytes : bytes;
  opaque_valid : Is_true (is_ok (validate_opaque_id_bytes as_wire_bytes));
}.

Lemma opaque_eq (x y : OpaqueId) : as_wire_bytes x = as_wire_bytes y → x = y.
Proof.
  destruct x as [bx Hx], y as [by' Hy]; cbn. intros ->. f_equal. apply Is_true_pi.
Qed.

#[global] Instance as_wire_bytes_inj : Inj (=) (=) as_wire_bytes.
Proof. intros x y. apply opaque_eq. Qed.

#[global] Instance OpaqueId_eq_dec : EqDecision OpaqueId.
Proof.
  refine (λ x y, cast_if (decide (as_wire_bytes x = as_wire_bytes y)));
    [by apply opaque_eq|congruence].
Defined.

(** Attaches the validity evidence to bytes that passed the check. *)
Definition opaque_checked (value : bytes) (e : OpaqueIdError) : result OpaqueIdError OpaqueId :=
  match decide (Is_true (is_ok (validate_opaque_id_bytes value))) with
  | left H => Ok (mk_opaque value H)
  | right _ => Err e
  end.

(** [OpaqueId::new]; the [String] argument is its UTF-8 bytes. *)
Definition opaque_id_new (value : bytes) : result OpaqueIdError OpaqueId :=
  match validate_opaque_id_bytes value with
  | Ok _ => opaque_checked value OieInvalidUtf8
  | Err e => Err e
  end.

(** [OpaqueId::from_wire_bytes]: validation, then the UTF-8 conversion. *)
Definition from_wire_bytes (value : bytes) : result OpaqueIdError OpaqueId :=
  validate_opaque_id_bytes value ;;
  reject_if (negb (utf8_valid value)) OieInvalidUtf8 ;;
  opaque_checked value OieInvalidUtf8.

Lemma opaque_checked_valid value e (H : validate_opaque_id_bytes value = Ok tt) :
  ∃ id, opaque_checked value e = Ok id ∧ as_wire_bytes id = value.
Proof.
  unfold opaque_checked. case_decide as Hd; [eauto|].
  exfalso. apply Hd. by rewrite H.
Qed.

Lemma opaque_id_new_Ok value id :
  opaque_id_new value = Ok id ↔ as_wire_bytes id = value.
Proof.
  unfold opaque_id_new. split.
  - destruct (validate_opaque_id_bytes value) as [[]|] eqn:E; [|done].
    destruct (opaque_checked_valid _ OieInvalidUtf8 E) as (i & -> & <-). by intros [= ->].
  - intros <-. pose proof (opaque_valid id) as H.
    destruct (validate_opaque_id_bytes (as_wire_bytes id)) as [[]|] eqn:E; [|done].
    destruct (opaque_checked_valid _ OieInvalidUtf8 E) as (i & -> & Ei).
    f_equal. by apply opaque_eq.
Qed.

Lemma validate_opaque_utf8 value :
  validate_opaque_id_bytes value = Ok tt →
  value ≠ [] ∧ length value ≤ OPAQUE_ID_MAX_LEN ∧ utf8_valid value = true.
Proof. intros H. unfold validate_opaque_id_bytes in H. res_inv. by bool_norm. Qed.

Lemma opaque_id_bounds id :
  as_wire_bytes id ≠ [] ∧ length (as_wire_bytes id) ≤ OPAQUE_ID_MAX_LEN
  ∧ utf8_valid (as_wire_bytes id) = true.
Proof.
  apply validate_opaque_utf8. pose proof (opaque_valid id) as H.
  by destruct (validate_opaque_id_bytes _) as [[]|].
Qed.

(** Both constructors agree: the second UTF-8 check of [from_wire_bytes] is
    redundant. *)
Lemma from_wire_bytes_new value : from_wire_bytes value = opaque_id_new value.
Proof.
  unfold from_wire_bytes, opaque_id_new.
  destruct (validate_opaque_id_bytes value) as [[]|] eqn:E; [|done].
  apply validate_opaque_utf8 in E as (_ & _ & E). cbn. by rewrite E.
Qed.

#[global] Instance OpaqueId_countable : Countable OpaqueId.
Proof.
  refine (inj_countable as_wire_bytes
    (λ b, match opaque_id_new b with Ok i => Some i | Err _ => None end) _).
  intros id. by rewrite (proj2 (opaque_id_new_Ok _ id) eq_refl).
Defined.

(** A length-prefixed identifier ends where its length says. *)
Lemma opaque_id_fits id n :
  0 < n → (Z.of_nat (length (as_wire_bytes id)) < 2 ^ (8 * Z.of_nat n))%Z.
Proof.
  intros Hn. destruct (opaque_id_bounds id) as (_ & Hl & _). unfold OPAQUE_ID_MAX_LEN in Hl.
  apply (Z.lt_le_trans _ (2 ^ 8)); [change (2 ^ 8)%Z with 256%Z; lia|].
  apply Z.pow_le_mono_r; lia.
Qed.

Lemma opaque_id_pf n :
  0 < n → prefix_free (λ _, True) (λ id : OpaqueId, len_prefixed n (as_wire_bytes id)).
Proof.
  intros Hn x y r r' _ _ E. apply prefix_free_len in E as [E ->];
    [|by apply opaque_id_fits..]. by apply as_wire_bytes_inj in E.
Qed.

(** Lexicographic byte order, the derived [Ord]. *)
Definition opaque_cmp (x y : OpaqueId) : comparison :=
  bytes_cmp (as_wire_bytes x) (as_wire_bytes y).
#[global] Instance opaque_total_cmp : TotalCmp opaque_cmp.
Proof. apply (inj_total_cmp bytes_cmp as_wire_bytes). apply _. Qed.

(** [OpaqueId::new(..).expect(..)] on a literal, for concrete inputs. *)
Definition fallback_id : OpaqueId := mk_opaque [120%Z] I.
Definition oid (s : string) : OpaqueId :=
  match opaque_id_new (str s) with Ok i => i | Err _ => fallback_id end.

Abbreviation TenantId := OpaqueId.
Abbreviation NamespaceId := OpaqueId.
Abbreviation PrincipalId := OpaqueId.
Abbreviation ConversationId := OpaqueId.
Abbreviation GroupId := OpaqueId.
Abbreviation MessageId := OpaqueId.
Abbreviation CallId := OpaqueId.
Abbreviation DeviceId := OpaqueId.
Abbreviation IdentityId := OpaqueId.
Abbreviation EndpointId := OpaqueId.
Abbreviation SessionId := OpaqueId.
Abbreviation DeliveryId := OpaqueId.
Abbreviation StoreForwardId := OpaqueId.
Abbreviation StoreForwardLeaseId := OpaqueId.
Abbreviation IntegrationId := OpaqueId.
Abbreviation EventId := OpaqueId.
Abbreviation IntentId := OpaqueId.

(** * Native identifier generation (ucr.id.random_hex.v1) *)

Definition CANONICAL_ID_RANDOM_BYTES : nat := 16.
Definition CANONICAL_ID_TEXT_LEN : nat := CANONICAL_ID_RANDOM_BYTES * 2.
Definition LOWER_HEX : bytes := str "0123456789abcdef".

Inductive NativeIdEncodingError := InvariantViolation.

(** [char::from(LOWER_HEX[i])]; an index is a nibble, so it is in range. *)
Definition hex_char (i : Z) : Z := default 0%Z (LOWER_HEX !! Z.to_nat i).

Definition encode_byte (byte : Z) : bytes :=
  [hex_char (Z.shiftr byte 4); hex_char (Z.land byte 15)].

Definition encode_native_opaque_id (random : bytes) :
    result NativeIdEncodingError OpaqueId :=
  map_err (λ _, InvariantViolation) (opaque_id_new (flat_map encode_byte random)).

Lemma hex_char_ascii i : (0 ≤ i < 16)%Z → (48 ≤ hex_char i < 103)%Z.
Proof.
  intros Hi. assert (∃ n, i = Z.of_nat n ∧ n < 16) as (n & -> & Hn)
    by (exists (Z.to_nat i); lia).
  unfold hex_char. rewrite Nat2Z.id.
  do 16 (destruct n as [|n]; [vm_compute; split; congruence|]). lia.
Qed.

Lemma hex_char_inj i j :
  (0 ≤ i < 16)%Z → (0 ≤ j < 16)%Z → hex_char i = hex_char j → i = j.
Proof.
  intros Hi Hj. assert (∃ n, i = Z.of_nat n ∧ n < 16) as (n & -> & Hn)
    by (exists (Z.to_nat i); lia).
  assert (∃ m, j = Z.of_nat m ∧ m < 16) as (m & -> & Hm)
    by (exists (Z.to_nat j); lia).
  unfold hex_char. rewrite !Nat2Z.id. intros E.
  assert (∀ n m, n < 16 → m < 16 →
    default 0%Z (LOWER_HEX !! n) = default 0%Z (LOWER_HEX !! m) → n = m) as Hinj.
  { clear. intros n m Hn Hm.
    do 16 (destruct n as [|n];
      [do 16 (destruct m as [|m]; [vm_compute; congruence|]); lia|]). lia. }
  f_equal. by apply Hinj.
Qed.

Lemma nibbles b : is_u8 b →
  (0 ≤ Z.shiftr b 4 < 16)%Z ∧ (0 ≤ Z.land b 15 < 16)%Z
  ∧ b = (Z.shiftr b 4 * 16 + Z.land b 15)%Z.
Proof.
  unfold is_u. intros Hb. change 15%Z with (Z.ones 4). rewrite Z.land_ones by lia.
  rewrite Z.shiftr_div_pow2 by lia. change (2 ^ 4)%Z with 16%Z.
  change (2 ^ 8)%Z with 256%Z in Hb.
  pose proof (Z.div_mod b 16). pose proof (Z.mod_pos_bound b 16). lia.
Qed.

Lemma encode_bytes_ascii random :
  Forall is_u8 random → Forall (λ x, 0 ≤ x < 128)%Z (flat_map encode_byte random).
Proof.
  induction 1 as [|b l Hb Hl IH]; cbn; [constructor|].
  destruct (nibbles b Hb) as (H1 & H2 & _).
  apply hex_char_ascii in H1, H2. repeat constructor; auto; lia.
Qed.

Lemma encode_bytes_length random : length (flat_map encode_byte random) = 2 * length random.
Proof. induction random; cbn; lia. Qed.

Lemma encode_bytes_inj random random' :
  Forall is_u8 random → Forall is_u8 random' →
  flat_map encode_byte random = flat_map encode_byte random' → random = random'.
Proof.
  intros Hl. revert random'. induction Hl as [|b l Hb Hl IH]; intros [|c k] Hk; cbn;
    try done.
  apply Forall_cons in Hk as [Hc Hk]. intros [= E1 E2 E].
  destruct (nibbles b Hb) as (? & ? & ->), (nibbles c Hc) as (? & ? & ->).
  apply hex_char_inj in E1, E2; [|done..]. f_equal; [congruence|auto].
Qed.

Lemma validate_ascii value :
  value ≠ [] → length value ≤ OPAQUE_ID_MAX_LEN →
  Forall (λ x, 0 ≤ x < 128)%Z value → validate_opaque_id_bytes value = Ok tt.
Proof.
  intros Hne Hlen Ha. unfold validate_opaque_id_bytes.
  rewrite bool_decide_eq_false_2 by done.
  replace (OPAQUE_ID_MAX_LEN <? length value) with false
    by (symmetry; apply Nat.ltb_ge; lia).
  by rewrite utf8_valid_ascii.
Qed.

(** * Shared model types *)

Inductive PrincipalKind :=
| PkPerson | PkDevice | PkServiceAccount | PkAiAgent | PkBot | PkOrganization
| PkAutomation | PkExternalPlatform.
#[global] Instance PrincipalKind_eq_dec : EqDecision PrincipalKind.
Proof. solve_decision. Defined.

Definition principal_kind_code (kind : PrincipalKind) : Z :=
  match kind with
  | PkPerson => 1 | PkDevice => 2 | PkServiceAccount => 3 | PkAiAgent => 4
  | PkBot => 5 | PkOrganization => 6 | PkAutomation => 7 | PkExternalPlatform => 8
  end.

#[global] Instance principal_kind_code_inj : Inj (=) (=) principal_kind_code.
Proof. by intros [] []. Qed.

Record PrincipalRef := mk_principal {
  principal_id : PrincipalId;
  principal_kind : PrincipalKind;
}.
#[global] Instance PrincipalRef_eq_dec : EqDecision PrincipalRef.
Proof. solve_decision. Defined.

#[global] Instance PrincipalKind_countable : Countable PrincipalKind.
Proof.
  refine (inj_countable principal_kind_code
    (λ c, match c with
          | 1 => Some PkPerson | 2 => Some PkDevice | 3 => Some PkServiceAccount
          | 4 => Some PkAiAgent | 5 => Some PkBot | 6 => Some PkOrganization
          | 7 => Some PkAutomation | 8 => Some PkExternalPlatform | _ => None
          end%Z) _).
  by intros [].
Defined.

#[global] Instance PrincipalRef_countable : Countable PrincipalRef.
Proof.
  refine (inj_countable' (λ p, (principal_id p, principal_kind p)) (λ x, mk_principal x.1 x.2) _).
  by intros [].
Defined.

Record TenantScope := mk_scope {
  tenant_id : TenantId;
  namespace_id : option NamespaceId;
}.
#[global] Instance TenantScope_eq_dec : EqDecision TenantScope.
Proof. solve_decision. Defined.

Record ScopedPrincipal := mk_scoped_principal {
  sp_scope : TenantScope;
  sp_principal : PrincipalRef;
}.
#[global] Instance ScopedPrincipal_eq_dec : EqDecision ScopedPrincipal.
Proof. solve_decision. Defined.

Inductive ConversationKind :=
| CkDirect | CkPrivateGroup | CkPublicGroup | CkBroadcast | CkCommunity | CkRoom
| CkTopic | CkThread | CkSystem.
#[global] Instance ConversationKind_eq_dec : EqDecision ConversationKind.
Proof. solve_decision. Defined.

Record ConversationRef := mk_conversation {
  conversation_id : ConversationId;
  conversation_kind : ConversationKind;
}.
#[global] Instance ConversationRef_eq_dec : EqDecision ConversationRef.
Proof. solve_decision. Defined.

Inductive DeliveryPolicy :=
| DpBestEffort | DpDurable | DpUrgent | DpExpiring | DpLocalOnly | DpDirectOnly
| DpNoRelay | DpNoExternalBridge | DpPrivateNetworkOnly.
#[global] Instance DeliveryPolicy_eq_dec : EqDecision DeliveryPolicy.
Proof. solve_decision. Defined.

(** ** Principal order

    The order both participant lists and membership lists are sorted by:
    principal id, then kind code. *)
Definition principal_key (p : PrincipalRef) : OpaqueId * Z :=
  (principal_id p, principal_kind_code (principal_kind p)).
Definition principal_cmp (x y : PrincipalRef) : comparison :=
  then_with (opaque_cmp (principal_id x) (principal_id y))
    (Z.compare (principal_kind_code (principal_kind x))
       (principal_kind_code (principal_kind y))).

#[global] Instance principal_key_inj : Inj (=) (=) principal_key.
Proof. intros [i k] [j m]. by intros [= -> ->%principal_kind_code_inj]. Qed.

#[global] Instance principal_total_cmp : TotalCmp principal_cmp.
Proof.
  apply (inj_total_cmp (pair_cmp opaque_cmp Z.compare) principal_key). apply _.
Qed.

(** * Durable store vocabulary (crates/ucr-core/src/lib.rs) *)

Inductive DurableRecordStatus := RecPersisted | RecDuplicate.
#[global] Instance DurableRecordStatus_eq_dec : EqDecision DurableRecordStatus.
Proof. solve_decision. Defined.

Inductive DurableStoreError :=
| StInvalidRecord | StConflict | StFull | StCorrupt | StUnavailable
| StPermissionDenied | StUnsupportedSchemaVersion | StForeignStore | StInternal.
#[global] Instance DurableStoreError_eq_dec : EqDecision DurableStoreError.
Proof. solve_decision. Defined.

(** The scope part of every key of the in-memory store. *)
Abbreviation ScopeKey := (bytes * option bytes)%type.
Abbreviation RecordKey := (ScopeKey * bytes)%type.

Definition scope_key (scope : TenantScope) : ScopeKey :=
  (as_wire_bytes (tenant_id scope), as_wire_bytes <$> namespace_id scope).

(** [message_key], [delivery_key], [store_forward_key], [call_key], ...: a scope
    and the text of an identifier. *)
Definition record_key (scope : TenantScope) (id : OpaqueId) : RecordKey :=
  (scope_key scope, as_wire_bytes id).

#[global] Instance scope_key_inj : Inj (=) (=) scope_key.
Proof.
  intros [t n] [t' n']. unfold scope_key; cbn. intros [= ->%as_wire_bytes_inj E].
  f_equal. destruct n, n'; cbn in E; try done. by injection E as ->%as_wire_bytes_inj.
Qed.

#[global] Instance record_key_inj : Inj2 (=) (=) (=) record_key.
Proof.
  intros s i s' i' E. unfold record_key in E.
  apply pair_eq in E as [->%scope_key_inj ->%as_wire_bytes_inj]. done.
Qed.

(** * Properties *)

(** An identifier survives the wire: its bytes decode to it, and no other
    byte string does. *)
Theorem opaque_id_wire_roundtrip (id : OpaqueId) (value : bytes) :
  from_wire_bytes (as_wire_bytes id) = Ok id
  ∧ (from_wire_bytes value = Ok id ↔ value = as_wire_bytes id).
Proof.
  rewrite !from_wire_bytes_new, !opaque_id_new_Ok. split; [done|].
  split; congruence.
Qed.

(** Native identifier generation never fails on 16 random bytes, always
    yields 32 characters, and distinct entropy gives distinct identifiers. *)
Theorem encode_native_opaque_id_total_injective (random random' : bytes)
    (Hlen : length random = CANONICAL_ID_RANDOM_BYTES)
    (Hlen' : length random' = CANONICAL_ID_RANDOM_BYTES)
    (Hu8 : Forall is_u8 random) (Hu8' : Forall is_u8 random') :
  (∃ id, encode_native_opaque_id random = Ok id
         ∧ length (as_wire_bytes id) = CANONICAL_ID_TEXT_LEN)
  ∧ (encode_native_opaque_id random = encode_native_opaque_id random' → random = random').
Proof.
  assert (∀ r, length r = CANONICAL_ID_RANDOM_BYTES → Forall is_u8 r →
    ∃ id, encode_native_opaque_id r = Ok id
          ∧ as_wire_bytes id = flat_map encode_byte r) as Hok.
  { intros r Hr Hr8. pose proof (encode_bytes_length r) as Hl. rewrite Hr in Hl.
    unfold encode_native_opaque_id, opaque_id_new.
    assert (validate_opaque_id_bytes (flat_map encode_byte r) = Ok tt) as E.
    { apply validate_ascii; [intros E; by rewrite E in Hl| |by apply encode_bytes_ascii].
      rewrite Hl. vm_compute. lia. }
    rewrite E. destruct (opaque_checked_valid _ OieInvalidUtf8 E) as (id & -> & <-).
    eauto. }
  destruct (Hok random Hlen Hu8) as (id & E & Hid).
  destruct (Hok random' Hlen' Hu8') as (id' & E' & Hid'). split.
  - exists id. split; [done|]. rewrite Hid, encode_bytes_length, Hlen. done.
  - rewrite E, E'. intros [= ->]. apply encode_bytes_inj; [done..|congruence].
Qed.

Lemma encode_native_opaque_id_witness :
  (∃ id, encode_native_opaque_id (replicate 16 171%Z) = Ok id
         ∧ length (as_wire_bytes id) = CANONICAL_ID_TEXT_LEN)
  ∧ (encode_native_opaque_id (replicate 16 171%Z)
     = encode_native_opaque_id (replicate 16 10%Z) →
     replicate 16 171%Z = replicate 16 10%Z).
Proof.
  apply encode_native_opaque_id_total_injective.
  - reflexivity.
  - reflexivity.
  - apply Forall_replicate. unfold is_u. lia.
  - apply Forall_replicate. unfold is_u. lia.
Defined.
