(* ===== verification/Framing.v ===== *)
(** The fixed 12-byte UCR frame header and the frame splitter
    (crates/ucr-protocol/src/framing.rs). *)

From S2P Require Import Prelude.

Definition FRAME_MAGIC : bytes := str "UCRF".
Definition FRAME_HEADER_LEN : nat := 12.
Definition CURRENT_FRAMING_VERSION : Z := 1.
Definition DEFAULT_MAX_PAYLOAD_LEN : Z := 16 * 1024 * 1024.

Inductive FrameKind :=
| FkHello | FkNegotiationResult | FkCommand | FkEvent | FkError | FkAcknowledgement
| FkHandshakeKeyExchange | FkHandshakeAuthentication | FkKeyConfirmation
| FkInternetData | FkInternetReceipt.
#[global] Instance FrameKind_eq_dec : EqDecision FrameKind.
Proof. solve_decision. Defined.

Inductive FrameError :=
| FeTruncatedHeader | FeBadMagic | FeUnsupportedFramingVersion | FeUnknownKind
| FeUnsupportedFlags | FePayloadTooLarge | FeTruncatedPayload | FeLengthOverflow.
#[global] Instance FrameError_eq_dec : EqDecision FrameError.
Proof. solve_decision. Defined.

(** [kind as u8]: the [repr(u8)] discriminant. *)
Definition frame_kind_code (kind : FrameKind) : Z :=
  match kind with
  | FkHello => 1 | FkNegotiationResult => 2 | FkCommand => 3 | FkEvent => 4
  | FkError => 5 | FkAcknowledgement => 6 | FkHandshakeKeyExchange => 7
  | FkHandshakeAuthentication => 8 | FkKeyConfirmation => 9 | FkInternetData => 10
  | FkInternetReceipt => 11
  end.

(** [TryFrom<u8> for FrameKind]. *)
Definition frame_kind_try_from (value : Z) : result FrameError FrameKind :=
  match value with
  | 1 => Ok FkHello
  | 2 => Ok FkNegotiationResult
  | 3 => Ok FkCommand
  | 4 => Ok FkEvent
  | 5 => Ok FkError
  | 6 => Ok FkAcknowledgement
  | 7 => Ok FkHandshakeKeyExchange
  | 8 => Ok FkHandshakeAuthentication
  | 9 => Ok FkKeyConfirmation
  | 10 => Ok FkInternetData
  | 11 => Ok FkInternetReceipt
  | _ => Err FeUnknownKind
  end%Z.

Record FrameHeader := mk_frame_header {
  fh_framing_version : Z; (* u16 *)
  fh_kind : FrameKind;
  fh_flags : Z; (* u8 *)
  fh_payload_len : Z; (* u32 *)
}.

Definition encode_header (h : FrameHeader) : bytes :=
  FRAME_MAGIC ++ be_bytes 2 (fh_framing_version h) ++ [frame_kind_code (fh_kind h)]
    ++ [fh_flags h] ++ be_bytes 4 (fh_payload_len h).

Record FramePolicy := mk_frame_policy {
  fp_minimum_framing_version : Z;
  fp_maximum_framing_version : Z;
  fp_max_payload_len : Z;
}.

Definition default_frame_policy : FramePolicy :=
  {| fp_minimum_framing_version := CURRENT_FRAMING_VERSION;
     fp_maximum_framing_version := CURRENT_FRAMING_VERSION;
     fp_max_payload_len := DEFAULT_MAX_PAYLOAD_LEN |}.

(** [bytes[i]]; every use is below the length that was just checked. *)
Definition byte_at (l : bytes) (i : nat) : Z := default 0%Z (l !! i).

Definition decode_header (bs : bytes) (policy : FramePolicy) : result FrameError FrameHeader :=
  reject_if (length bs <? FRAME_HEADER_LEN) FeTruncatedHeader ;;
  reject_if (negb (bool_decide (take 4 bs = FRAME_MAGIC))) FeBadMagic ;;
  let framing_version := be_value [byte_at bs 4; byte_at bs 5] in
  reject_if ((framing_version <? fp_minimum_framing_version policy)%Z
             || (fp_maximum_framing_version policy <? framing_version)%Z)
    FeUnsupportedFramingVersion ;;
  kind ← frame_kind_try_from (byte_at bs 6);
  let flags := byte_at bs 7 in
  reject_if (negb (flags =? 0)%Z) FeUnsupportedFlags ;;
  let payload_len := be_value [byte_at bs 8; byte_at bs 9; byte_at bs 10; byte_at bs 11] in
  reject_if (fp_max_payload_len policy <? payload_len)%Z FePayloadTooLarge ;;
  Ok {| fh_framing_version := framing_version; fh_kind := kind; fh_flags := flags;
        fh_payload_len := payload_len |}.

(** [decode_frame_prefix]; [usize_max] is the platform's [usize::MAX], which
    decides the two [LengthOverflow] exits. *)
Definition decode_frame_prefix (usize_max : Z) (bs : bytes) (policy : FramePolicy) :
    result FrameError (FrameHeader * bytes * bytes) :=
  header ← decode_header bs policy;
  reject_if (usize_max <? fh_payload_len header)%Z FeLengthOverflow ;;
  let payload_end := (Z.of_nat FRAME_HEADER_LEN + fh_payload_len header)%Z in
  reject_if (usize_max <? payload_end)%Z FeLengthOverflow ;;
  reject_if (Z.of_nat (length bs) <? payload_end)%Z FeTruncatedPayload ;;
  Ok (header,
      take (Z.to_nat (fh_payload_len header)) (drop FRAME_HEADER_LEN bs),
      drop (Z.to_nat payload_end) bs).

(** The header values the type system admits. *)
Definition header_typed (h : FrameHeader) : Prop :=
  is_u16 (fh_framing_version h) ∧ is_u8 (fh_flags h) ∧ is_u32 (fh_payload_len h).

(** What a policy lets through. *)
Definition policy_admits (policy : FramePolicy) (h : FrameHeader) : Prop :=
  (fp_minimum_framing_version policy ≤ fh_framing_version h
     ≤ fp_maximum_framing_version policy)%Z
  ∧ fh_flags h = 0%Z ∧ (fh_payload_len h ≤ fp_max_payload_len policy)%Z.

Lemma frame_kind_roundtrip k : frame_kind_try_from (frame_kind_code k) = Ok k.
Proof. by destruct k. Qed.

Lemma frame_kind_try_from_Ok v k : frame_kind_try_from v = Ok k → v = frame_kind_code k.
Proof.
  unfold frame_kind_try_from. repeat case_match; intros; simplify_eq; reflexivity.
Qed.

(** The twelve bytes of an encoded header, one by one. *)
Lemma encode_header_shape h rest : ∃ v0 v1 l0 l1 l2 l3,
  encode_header h ++ rest
    = [85; 67; 82; 70; v0; v1; frame_kind_code (fh_kind h); fh_flags h; l0; l1; l2; l3]%Z
      ++ rest
  ∧ be_bytes 2 (fh_framing_version h) = [v0; v1]
  ∧ be_bytes 4 (fh_payload_len h) = [l0; l1; l2; l3].
Proof. unfold encode_header. cbn [be_bytes]. repeat eexists. Qed.

Lemma length_encode_header h : length (encode_header h) = FRAME_HEADER_LEN.
Proof. reflexivity. Qed.

(** Decoding an encoded header, whatever follows it on the stream. *)
Lemma decode_encode_header h policy rest :
  header_typed h → policy_admits policy h →
  decode_header (encode_header h ++ rest) policy = Ok h.
Proof.
  intros (Hv & Hf & Hp) (Hver & Hflags & Hlen).
  destruct (encode_header_shape h rest) as (v0 & v1 & l0 & l1 & l2 & l3 & -> & Ev & El).
  unfold decode_header, byte_at. cbn [app length Nat.ltb Nat.leb FRAME_HEADER_LEN].
  cbn [take]. rewrite bool_decide_eq_true_2 by reflexivity.
  cbn -[be_value frame_kind_try_from]. rewrite <- Ev, <- El, !be_value_be_bytes.
  change (8 * Z.of_nat 2)%Z with 16%Z. change (8 * Z.of_nat 4)%Z with 32%Z.
  rewrite !Z.mod_small by assumption. rewrite frame_kind_roundtrip, Hflags. cbn.
  replace (fh_framing_version h <? fp_minimum_framing_version policy)%Z with false
    by (symmetry; apply Z.ltb_ge; lia).
  replace (fp_maximum_framing_version policy <? fh_framing_version h)%Z with false
    by (symmetry; apply Z.ltb_ge; lia).
  replace (fp_max_payload_len policy <? fh_payload_len h)%Z with false
    by (symmetry; apply Z.ltb_ge; lia).
  cbn. destruct h; cbn in *; congruence.
Qed.

Ltac solve_u8 := repeat (apply Forall_cons_2; [assumption|]); apply Forall_nil_2.

#[local] Opaque be_value frame_kind_try_from FRAME_MAGIC.

(** What a successful decode says about its input. *)
Lemma decode_header_sound bs policy h :
  Forall is_u8 bs → decode_header bs policy = Ok h →
  header_typed h ∧ policy_admits policy h ∧ bs = encode_header h ++ drop FRAME_HEADER_LEN bs.
Proof.
  intros Hu H. unfold decode_header in H. res_inv. bool_norm. destruct_and?. subst.
  unfold FRAME_HEADER_LEN in *.
  do 12 (destruct bs as [|? bs]; [cbn in *; lia|]). unfold byte_at in *. cbn in *.
  repeat match goal with H : Forall _ (_ :: _) |- _ => apply Forall_cons in H as [? H] end.
  subst.
  match goal with H : frame_kind_try_from _ = _ |- _ => 
    apply frame_kind_try_from_Ok in H as -> end.
  unfold header_typed, policy_admits, encode_header; cbn [fh_framing_version fh_kind fh_flags fh_payload_len].
  assert (∀ l n, Forall is_u8 l → length l = n → be_bytes n (be_value l) = l) as Hbe
    by (intros l ? ? <-; by apply be_bytes_be_value).
  assert (∀ l n, Forall is_u8 l → length l = n → is_u (8 * Z.of_nat n) (be_value l)) as Hbd
    by (intros l ? ? <-; by apply be_value_bound).
  rewrite !Hbe by (done || solve_u8).
  split_and!; try done.
  - by apply (Hbd _ 2); [solve_u8|].
  - by apply (Hbd _ 4); [solve_u8|].
  - match goal with H : _ = FRAME_MAGIC |- _ => rewrite <- H end. reflexivity.
Qed.
#[local] Transparent be_value frame_kind_try_from FRAME_MAGIC.

(** * Properties *)

(** Decoding an encoded frame followed by arbitrary bytes gives back the
    header, exactly the payload, and exactly the bytes that follow it. *)
Theorem frame_roundtrip_preserves_remainder (usize_max : Z) (h : FrameHeader)
    (payload remainder : bytes) (policy : FramePolicy)
    (Htyped : header_typed h) (Hadmit : policy_admits policy h)
    (Hlen : fh_payload_len h = Z.of_nat (length payload))
    (Husize : (Z.of_nat (FRAME_HEADER_LEN + length payload) ≤ usize_max)%Z) :
  decode_frame_prefix usize_max (encode_header h ++ payload ++ remainder) policy
  = Ok (h, payload, remainder).
Proof.
  unfold decode_frame_prefix. rewrite decode_encode_header by done.
  cbn [mbind result_bind]. rewrite Hlen.
  assert (∀ a b, (b ≤ a)%Z → (a <? b)%Z = false) as Hge by (intros; apply Z.ltb_ge; lia).
  rewrite !length_app, length_encode_header, !Hge by lia. cbn [reject_if mbind result_bind].
  replace (Z.to_nat (Z.of_nat FRAME_HEADER_LEN + Z.of_nat (length payload)))
    with (length (encode_header h) + length payload) by (rewrite length_encode_header; lia).
  rewrite Nat2Z.id, <- (length_encode_header h), drop_app_length, take_app_length.
  by rewrite <- drop_drop, !drop_app_length.
Qed.

Lemma frame_roundtrip_witness :
  decode_frame_prefix u64_max
    (encode_header (mk_frame_header 1 FkCommand 0 3) ++ str "abc" ++ str "NEXT")
    default_frame_policy
  = Ok (mk_frame_header 1 FkCommand 0 3, str "abc", str "NEXT").
Proof.
  apply frame_roundtrip_preserves_remainder.
  - vm_compute. split_and!; congruence.
  - vm_compute. split_and!; congruence.
  - reflexivity.
  - vm_compute. congruence.
Defined.

(** Whatever the decoder accepts is the encoding of a header the policy
    admits, followed by a payload of the declared length and the remainder. *)
Theorem decode_frame_prefix_sound (usize_max : Z) (bs : bytes) (policy : FramePolicy)
    (h : FrameHeader) (payload remainder : bytes)
    (Hu8 : Forall is_u8 bs)
    (Hok : decode_frame_prefix usize_max bs policy = Ok (h, payload, remainder)) :
  bs = encode_header h ++ payload ++ remainder
  ∧ Z.of_nat (length payload) = fh_payload_len h
  ∧ header_typed h ∧ policy_admits policy h.
Proof.
  unfold decode_frame_prefix in Hok. res_inv. simplify_eq. bool_norm.
  edestruct decode_header_sound as (Ht & Ha & E); [done|eassumption|].
  assert (0 ≤ fh_payload_len h)%Z by apply Ht.
  replace (Z.to_nat (Z.of_nat FRAME_HEADER_LEN + fh_payload_len h))
    with (FRAME_HEADER_LEN + Z.to_nat (fh_payload_len h)) by lia.
  split_and!; [|rewrite length_take, length_drop; lia|done|done].
  by rewrite <- drop_drop, take_drop.
Qed.

Lemma decode_frame_prefix_sound_witness :
  str "UCRF" ++ [0; 1; 4; 0; 0; 0; 0; 2; 7; 8; 9]%Z
    = encode_header (mk_frame_header 1 FkEvent 0 2) ++ [7; 8]%Z ++ [9]%Z
  ∧ Z.of_nat (length [7; 8]%Z) = 2%Z
  ∧ header_typed (mk_frame_header 1 FkEvent 0 2)
  ∧ policy_admits default_frame_policy (mk_frame_header 1 FkEvent 0 2).
Proof.
  apply (decode_frame_prefix_sound u64_max).
  - apply Forall_forall. intros x Hx. vm_compute in Hx |- *.
    repeat (apply elem_of_cons in Hx as [->|Hx]; [split; congruence|]).
    by apply elem_of_nil in Hx.
  - reflexivity.
Defined.
