(* ===== verification/Extension.v ===== *)
(** Namespaced identifiers and protocol extensions
    (crates/ucr-protocol/src/extension.rs).  Rust strings are byte lists. *)

From S2P Require Import Prelude.

Definition MAX_PROTOCOL_EXTENSIONS : Z := 64.
Definition MAX_EXTENSION_PAYLOAD_LEN : Z := 1024 * 1024.
Definition MAX_NAMESPACED_IDENTIFIER_LEN : Z := 1024.

Inductive ExtensionError :=
| ExInvalidNamespace | ExUnsupportedCritical | ExTooManyExtensions | ExDuplicateExtension
| ExPayloadTooLarge.
#[global] Instance ExtensionError_eq_dec : EqDecision ExtensionError.
Proof. solve_decision. Defined.

Record ProtocolExtension := mk_extension {
  ext_name : bytes; (* String *)
  ext_critical : bool;
  ext_payload : bytes;
}.
#[global] Instance ProtocolExtension_eq_dec : EqDecision ProtocolExtension.
Proof. solve_decision. Defined.

(** [str::starts_with]. *)
Fixpoint starts_with (name prefix : bytes) : bool :=
  match prefix, name with
  | [], _ => true
  | p :: prefix, x :: name => (p =? x)%Z && starts_with name prefix
  | _ :: _, [] => false
  end.

(** [str::split] on one ASCII byte: always at least one segment. *)
Fixpoint split_on (sep : Z) (l : bytes) : list bytes :=
  match l with
  | [] => [[]]
  | x :: l =>
      if (x =? sep)%Z then [] :: split_on sep l
      else match split_on sep l with
           | segment :: rest => (x :: segment) :: rest
           | [] => [[x]]
           end
  end.

Definition is_ascii_alphanumeric (byte : Z) : bool :=
  ((48 <=? byte)%Z && (byte <=? 57)%Z) || ((65 <=? byte)%Z && (byte <=? 90)%Z)
  || ((97 <=? byte)%Z && (byte <=? 122)%Z).

Definition is_identifier_byte (byte : Z) : bool :=
  is_ascii_alphanumeric byte || (byte =? 95)%Z || (byte =? 45)%Z.

Definition validate_namespaced_identifier (name : bytes) : result ExtensionError unit :=
  reject_if (MAX_NAMESPACED_IDENTIFIER_LEN <? len name)%Z ExInvalidNamespace ;;
  let valid_prefix := starts_with name (str "ucr.") || starts_with name (str "experimental.")
                      || starts_with name (str "vendor.")
                      || starts_with name (str "organization.") in
  let segments_valid :=
    forallb (λ segment, negb (bool_decide (segment = [])) && forallb is_identifier_byte segment)
      (split_on 46 name) in
  if valid_prefix && segments_valid then Ok tt else Err ExInvalidNamespace.

Definition validate_extension_name (name : bytes) : result ExtensionError unit :=
  validate_namespaced_identifier name.

Definition validate_extension (extension : ProtocolExtension) : result ExtensionError unit :=
  validate_extension_name (ext_name extension) ;;
  reject_if (MAX_EXTENSION_PAYLOAD_LEN <? len (ext_payload extension))%Z ExPayloadTooLarge.

Definition canonical_protocol_extensions (extensions : list ProtocolExtension) :
    result ExtensionError (list ProtocolExtension) :=
  reject_if (MAX_PROTOCOL_EXTENSIONS <? len extensions)%Z ExTooManyExtensions ;;
  try_for_each validate_extension extensions ;;
  let canonical := sort_by (key_cmp ext_name bytes_cmp) extensions in
  reject_if (windows_any (same_key ext_name) canonical) ExDuplicateExtension ;;
  Ok canonical.

(** The advertised extensions one by one, stopping at the first failure. *)
Definition require_supported_extensions (advertised : list ProtocolExtension)
    (supported : list bytes) : result ExtensionError unit :=
  try_for_each (λ extension,
    validate_extension_name (ext_name extension) ;;
    reject_if (ext_critical extension
               && negb (existsb (λ name, bool_decide (name = ext_name extension)) supported))
      ExUnsupportedCritical) advertised.

(** * Facts *)

Definition extensions_wf (l : list ProtocolExtension) : Prop :=
  (len l ≤ MAX_PROTOCOL_EXTENSIONS)%Z ∧ Forall (λ e, validate_extension e = Ok tt) l
  ∧ strict_sorted ext_name bytes_cmp l.

(** Success is exactly: the sorted list is well formed, and is the result. *)
Lemma canonical_protocol_extensions_Ok l c :
  canonical_protocol_extensions l = Ok c ↔
  c = sort_by (key_cmp ext_name bytes_cmp) l ∧ extensions_wf c.
Proof.
  unfold canonical_protocol_extensions. split.
  - intros H. res_inv. subst. bool_norm. split; [done|]. split_and!.
    + unfold len in *. by rewrite sort_by_length.
    + by rewrite sort_by_perm.
    + apply (no_window_dup_strict ext_name bytes_cmp); [apply (sort_by_sorted ext_name bytes_cmp)|done].
  - intros [-> (Hl & Hv & Hs)]. rewrite sort_by_perm in Hv.
    unfold len in Hl. rewrite sort_by_length in Hl. fold (len l) in Hl.
    rewrite (proj2 (Z.ltb_ge _ _)) by done. cbn [reject_if mbind result_bind].
    rewrite (proj2 (try_for_each_Ok _ _ tt) Hv). cbn [mbind result_bind].
    by rewrite (strict_no_window_dup ext_name bytes_cmp _ Hs).
Qed.

Lemma canonical_protocol_extensions_wf l :
  extensions_wf l → canonical_protocol_extensions l = Ok l.
Proof.
  intros H. apply canonical_protocol_extensions_Ok. split; [|done].
  symmetry. apply (sort_by_strict ext_name bytes_cmp), H.
Qed.

Lemma canonical_protocol_extensions_perm l k c :
  l ≡ₚ k → canonical_protocol_extensions l = Ok c → canonical_protocol_extensions k = Ok c.
Proof.
  rewrite !canonical_protocol_extensions_Ok. intros Hp [-> Hwf]. split; [|done].
  apply (sort_by_Permutation ext_name bytes_cmp); [done|].
  destruct Hwf as (_ & _ & Hs%(strict_sorted_NoDup ext_name bytes_cmp)).
  by rewrite sort_by_perm in Hs.
Qed.
