(* ===== verification/Message.v ===== *)
(** Conversations, message envelopes and communication intents
    (crates/ucr-protocol/src/message.rs, intent.rs, provenance.rs and their data
    in crates/ucr-model/src/lib.rs).  Strings are byte lists. *)

From S2P Require Import Prelude Ids Framing Extension.

(** * Data *)

Inductive DeliveryState :=
| DsCreated | DsPersisted | DsEncrypted | DsQueued | DsRoutePlanned | DsInFlight
| DsAcknowledged | DsDelivered | DsRead | DsFailed | DsExpired.
#[global] Instance DeliveryState_eq_dec : EqDecision DeliveryState.
Proof. solve_decision. Defined.

Inductive ActorKind := AkPerson | AkAiAgent | AkBot | AkOrganization | AkSystem.
#[global] Instance ActorKind_eq_dec : EqDecision ActorKind.
Proof. solve_decision. Defined.

Record ActorRef := mk_actor {
  actor_id : OpaqueId;
  actor_kind : ActorKind;
  on_behalf_of : option PrincipalId;
}.
#[global] Instance ActorRef_eq_dec : EqDecision ActorRef.
Proof. solve_decision. Defined.

Record DeviceRef := mk_device_ref {
  dr_device_id : DeviceId;
  dr_identity_id : IdentityId;
}.
#[global] Instance DeviceRef_eq_dec : EqDecision DeviceRef.
Proof. solve_decision. Defined.

Record OriginRef := mk_origin {
  or_principal_id : option PrincipalId;
  or_endpoint_id : option EndpointId;
  or_integration_id : option IntegrationId;
}.
#[global] Instance OriginRef_eq_dec : EqDecision OriginRef.
Proof. solve_decision. Defined.

Record ConversationRecord := mk_conversation_record {
  cr_scope : TenantScope;
  cr_conversation : ConversationRef;
  cr_parent_conversation_id : option ConversationId;
}.
#[global] Instance ConversationRecord_eq_dec : EqDecision ConversationRecord.
Proof. solve_decision. Defined.

Inductive MessageRelationKind :=
| MrReply | MrQuote | MrEdit | MrReaction | MrThreadParent | MrForward | MrReference.
#[global] Instance MessageRelationKind_eq_dec : EqDecision MessageRelationKind.
Proof. solve_decision. Defined.

Record MessageRelation := mk_relation {
  rel_kind : MessageRelationKind;
  rel_target : MessageId;
}.
#[global] Instance MessageRelation_eq_dec : EqDecision MessageRelation.
Proof. solve_decision. Defined.

Record ExternalMessageMapping := mk_external_mapping {
  em_integration_id : IntegrationId;
  em_external_message_id : bytes;
}.
#[global] Instance ExternalMessageMapping_eq_dec : EqDecision ExternalMessageMapping.
Proof. solve_decision. Defined.

Inductive CryptoSuite := UcrV1.
#[global] Instance CryptoSuite_eq_dec : EqDecision CryptoSuite.
Proof. solve_decision. Defined.

Record MessageCryptoMetadata := mk_crypto_metadata {
  mc_suite : CryptoSuite;
  mc_key_id : option OpaqueId;
  mc_opaque_metadata : bytes;
}.
#[global] Instance MessageCryptoMetadata_eq_dec : EqDecision MessageCryptoMetadata.
Proof. solve_decision. Defined.

Record MessageSignature := mk_signature {
  si_key_id : OpaqueId;
  si_algorithm_id : bytes; (* String *)
  si_algorithm_version : Z; (* u32 *)
  si_signature : bytes;
}.
#[global] Instance MessageSignature_eq_dec : EqDecision MessageSignature.
Proof. solve_decision. Defined.

Record CorrelationContext := mk_correlation {
  correlation_id : OpaqueId;
  causation_id : option OpaqueId;
  idempotency_key : option bytes; (* Option<String> *)
}.
#[global] Instance CorrelationContext_eq_dec : EqDecision CorrelationContext.
Proof. solve_decision. Defined.

Record MessageEnvelope := mk_message {
  me_message_id : MessageId;
  me_scope : TenantScope;
  me_conversation : ConversationRef;
  me_author : ActorRef;
  me_author_device : DeviceRef;
  me_created_at_unix_ms : Z; (* i64 *)
  me_logical_order : Z; (* u64 *)
  me_content : bytes;
  me_attachment_ids : list OpaqueId;
  me_reply_to : option MessageId;
  me_relations : list MessageRelation;
  me_crypto_metadata : option MessageCryptoMetadata;
  me_delivery_policy : DeliveryPolicy;
  me_delivery_state : DeliveryState;
  me_origin : OriginRef;
  me_correlation : CorrelationContext;
  me_extensions : list ProtocolExtension;
  me_external_mappings : list ExternalMessageMapping;
  me_signature : option MessageSignature;
}.
#[global] Instance MessageEnvelope_eq_dec : EqDecision MessageEnvelope.
Proof. solve_decision. Defined.

Record IntentConstraints := mk_constraints {
  ic_allowed_transport_capabilities : list bytes;
  ic_forbidden_transport_capabilities : list bytes;
  ic_privacy_profile : option bytes;
  ic_region_constraint : option bytes;
  ic_max_cost_microunits : option Z; (* u64 *)
  ic_priority_class : option Z; (* u32 *)
}.
#[global] Instance IntentConstraints_eq_dec : EqDecision IntentConstraints.
Proof. solve_decision. Defined.

Record CommunicationIntent := mk_intent {
  ci_intent_id : IntentId;
  ci_scope : TenantScope;
  ci_target_identity_id : IdentityId;
  ci_payload : bytes;
  ci_constraints : IntentConstraints;
  ci_correlation : CorrelationContext;
  ci_extensions : list ProtocolExtension;
}.
#[global] Instance CommunicationIntent_eq_dec : EqDecision CommunicationIntent.
Proof. solve_decision. Defined.

(** The lists and the delivery state [canonical_message] rewrites. *)
Definition set_message_lists (relations : list MessageRelation)
    (mappings : list ExternalMessageMapping) (extensions : list ProtocolExtension)
    (m : MessageEnvelope) : MessageEnvelope :=
  mk_message (me_message_id m) (me_scope m) (me_conversation m) (me_author m)
    (me_author_device m) (me_created_at_unix_ms m) (me_logical_order m) (me_content m)
    (me_attachment_ids m) (me_reply_to m) relations (me_crypto_metadata m)
    (me_delivery_policy m) (me_delivery_state m) (me_origin m) (me_correlation m)
    extensions mappings (me_signature m).

Definition set_message_state (st : DeliveryState) (m : MessageEnvelope) : MessageEnvelope :=
  mk_message (me_message_id m) (me_scope m) (me_conversation m) (me_author m)
    (me_author_device m) (me_created_at_unix_ms m) (me_logical_order m) (me_content m)
    (me_attachment_ids m) (me_reply_to m) (me_relations m) (me_crypto_metadata m)
    (me_delivery_policy m) st (me_origin m) (me_correlation m)
    (me_extensions m) (me_external_mappings m) (me_signature m).

(** * Conversations *)

Inductive ConversationError :=
| CoSelfParent | CoMissingHierarchicalParent | CoUnexpectedParent | CoInvalidParentKind.
#[global] Instance ConversationError_eq_dec : EqDecision ConversationError.
Proof. solve_decision. Defined.

Definition validate_conversation (record : ConversationRecord) : result ConversationError unit :=
  reject_if (bool_decide (cr_parent_conversation_id record
                          = Some (conversation_id (cr_conversation record)))) CoSelfParent ;;
  let hierarchical :=
    match conversation_kind (cr_conversation record) with
    | CkTopic | CkThread => true | _ => false end in
  let orphan := bool_decide (cr_parent_conversation_id record = None) in
  reject_if (hierarchical && orphan) CoMissingHierarchicalParent ;;
  reject_if (negb hierarchical && negb orphan) CoUnexpectedParent.

Definition validate_conversation_parent_kind (child parent : ConversationKind) :
    result ConversationError unit :=
  match child with
  | CkTopic =>
      match parent with CkTopic | CkThread => Err CoInvalidParentKind | _ => Ok tt end
  | CkThread => match parent with CkTopic => Ok tt | _ => Err CoInvalidParentKind end
  | _ => Err CoUnexpectedParent
  end.

(** * Message envelopes *)

Inductive MessageError :=
| MeContentTooLarge | MeTooManyAttachments | MeDuplicateAttachment | MeTooManyRelations
| MeDuplicateRelation | MeSelfRelation | MeReplyProjectionMismatch | MeEmptyMessage
| MeCryptoMetadataTooLarge | MeTooManyExternalMappings | MeEmptyExternalMessageId
| MeExternalMessageIdTooLarge | MeDuplicateExternalMapping | MeEmptyOrigin
| MeInvalidSignature | MeInvalidExtension | MeDuplicateExtension | MeTooManyExtensions
| MeExtensionPayloadTooLarge.
#[global] Instance MessageError_eq_dec : EqDecision MessageError.
Proof. solve_decision. Defined.

Definition MESSAGE_ATTACHMENT_LIMIT : Z := 128.
Definition MESSAGE_RELATION_LIMIT : Z := 128.
Definition EXTERNAL_MESSAGE_MAPPING_LIMIT : Z := 64.
Definition EXTERNAL_MESSAGE_ID_LIMIT : Z := 2048.
Definition MESSAGE_CRYPTO_METADATA_LIMIT : Z := 16 * 1024.
Definition SIGNATURE_ALGORITHM_ID : bytes := str "ed25519".
Definition ALGORITHM_VERSION : Z := 1.
Definition SIGNATURE_LEN : Z := 64.

(** [for x in l { if !set.insert(x) { return Err(e) } }]. *)
Fixpoint all_distinct {E A} `{EqDecision A} (e : E) (seen l : list A) : result E unit :=
  match l with
  | [] => Ok tt
  | x :: l => if bool_decide (x ∈ seen) then Err e else all_distinct e (x :: seen) l
  end.

Definition relation_rank (kind : MessageRelationKind) : Z :=
  match kind with
  | MrReply => 1 | MrQuote => 2 | MrEdit => 3 | MrReaction => 4 | MrThreadParent => 5
  | MrForward => 6 | MrReference => 7
  end.

(** The loop over [message.relations], with the set of relation keys and the
    reply target seen so far; [kind as u8] is one less than the rank. *)
Definition relation_key (r : MessageRelation) : Z * bytes :=
  (relation_rank (rel_kind r) - 1, as_wire_bytes (rel_target r))%Z.

Fixpoint scan_relations (message_id : MessageId) (seen : list (Z * bytes))
    (reply : option MessageId) (l : list MessageRelation) :
    result MessageError (option MessageId) :=
  match l with
  | [] => Ok reply
  | r :: l =>
      reject_if (bool_decide (rel_target r = message_id)) MeSelfRelation ;;
      reject_if (bool_decide (relation_key r ∈ seen)) MeDuplicateRelation ;;
      if bool_decide (rel_kind r = MrReply) then
        reject_if (bool_decide (is_Some reply)) MeDuplicateRelation ;;
        scan_relations message_id (relation_key r :: seen) (Some (rel_target r)) l
      else scan_relations message_id (relation_key r :: seen) reply l
  end.

Definition map_extension_error (error : ExtensionError) : MessageError :=
  match error with
  | ExInvalidNamespace | ExUnsupportedCritical => MeInvalidExtension
  | ExDuplicateExtension => MeDuplicateExtension
  | ExTooManyExtensions => MeTooManyExtensions
  | ExPayloadTooLarge => MeExtensionPayloadTooLarge
  end.

Fixpoint validate_external_mappings_from (seen : list bytes)
    (mappings : list ExternalMessageMapping) : result MessageError unit :=
  match mappings with
  | [] => Ok tt
  | m :: rest =>
      reject_if (bool_decide (em_external_message_id m = [])) MeEmptyExternalMessageId ;;
      reject_if (EXTERNAL_MESSAGE_ID_LIMIT <? len (em_external_message_id m))%Z
        MeExternalMessageIdTooLarge ;;
      reject_if (bool_decide (as_wire_bytes (em_integration_id m) ∈ seen))
        MeDuplicateExternalMapping ;;
      validate_external_mappings_from (as_wire_bytes (em_integration_id m) :: seen) rest
  end.

Definition validate_external_mappings (mappings : list ExternalMessageMapping) :
    result MessageError unit := validate_external_mappings_from [] mappings.

Definition validate_message_signature (s : MessageSignature) : result MessageError unit :=
  reject_if (negb (bool_decide (si_algorithm_id s = SIGNATURE_ALGORITHM_ID))
             || negb (si_algorithm_version s =? ALGORITHM_VERSION)%Z
             || negb (len (si_signature s) =? SIGNATURE_LEN)%Z) MeInvalidSignature.

Inductive ProvenanceError := PvEmptyOrigin.

Definition validate_origin_ref (origin : OriginRef) : result ProvenanceError unit :=
  reject_if (bool_decide (or_principal_id origin = None)
             && bool_decide (or_endpoint_id origin = None)
             && bool_decide (or_integration_id origin = None)) PvEmptyOrigin.

Definition validate_message (m : MessageEnvelope) : result MessageError unit :=
  reject_if (u32_max <? len (me_content m))%Z MeContentTooLarge ;;
  reject_if (DEFAULT_MAX_PAYLOAD_LEN <? len (me_content m))%Z MeContentTooLarge ;;
  reject_if (MESSAGE_ATTACHMENT_LIMIT <? len (me_attachment_ids m))%Z MeTooManyAttachments ;;
  all_distinct MeDuplicateAttachment [] (as_wire_bytes <$> me_attachment_ids m) ;;
  reject_if (MESSAGE_RELATION_LIMIT <? len (me_relations m))%Z MeTooManyRelations ;;
  reply_relation ← scan_relations (me_message_id m) [] None (me_relations m);
  reject_if (negb (bool_decide (me_reply_to m = reply_relation))) MeReplyProjectionMismatch ;;
  reject_if (bool_decide (me_content m = []) && bool_decide (me_attachment_ids m = [])
             && bool_decide (me_relations m = [])) MeEmptyMessage ;;
  match me_crypto_metadata m with
  | Some metadata =>
      reject_if (MESSAGE_CRYPTO_METADATA_LIMIT <? len (mc_opaque_metadata metadata))%Z
        MeCryptoMetadataTooLarge
  | None => Ok tt
  end ;;
  reject_if (EXTERNAL_MESSAGE_MAPPING_LIMIT <? len (me_external_mappings m))%Z
    MeTooManyExternalMappings ;;
  validate_external_mappings (me_external_mappings m) ;;
  map_err (λ _, MeEmptyOrigin) (validate_origin_ref (me_origin m)) ;;
  match me_signature m with
  | Some signature => validate_message_signature signature
  | None => Ok tt
  end ;;
  _ ← map_err map_extension_error (canonical_protocol_extensions (me_extensions m));
  Ok tt.

Definition compare_relations (left right : MessageRelation) : comparison :=
  then_with (Z.compare (relation_rank (rel_kind left)) (relation_rank (rel_kind right)))
    (bytes_cmp (as_wire_bytes (rel_target left)) (as_wire_bytes (rel_target right))).

Definition compare_mappings (left right : ExternalMessageMapping) : comparison :=
  bytes_cmp (as_wire_bytes (em_integration_id left)) (as_wire_bytes (em_integration_id right)).

Definition canonical_message (m : MessageEnvelope) : result MessageError MessageEnvelope :=
  validate_message m ;;
  extensions ← map_err map_extension_error (canonical_protocol_extensions (me_extensions m));
  Ok (set_message_lists (sort_by compare_relations (me_relations m))
        (sort_by compare_mappings (me_external_mappings m)) extensions m).

(** * Communication intents *)

Definition MAX_INTENT_TRANSPORT_CONSTRAINTS : Z := 256.
Definition MAX_INTENT_POLICY_VALUE_LEN : Z := 1024.
Definition MAX_INTENT_IDEMPOTENCY_KEY_LEN : Z := 256.

Inductive IntentError :=
| InPayloadTooLarge | InPolicyValueTooLong | InIdempotencyKeyTooLong
| InTooManyTransportConstraints | InInvalidTransportCapability
| InDuplicateTransportCapability | InConflictingTransportCapability | InInvalidExtension
| InDuplicateExtension | InTooManyExtensions | InExtensionPayloadTooLarge.
#[global] Instance IntentError_eq_dec : EqDecision IntentError.
Proof. solve_decision. Defined.

Fixpoint validate_transport_capabilities_from (seen values : list bytes) :
    result IntentError (list bytes) :=
  match values with
  | [] => Ok seen
  | value :: rest =>
      map_err (λ _, InInvalidTransportCapability) (validate_namespaced_identifier value) ;;
      reject_if (bool_decide (value ∈ seen)) InDuplicateTransportCapability ;;
      validate_transport_capabilities_from (value :: seen) rest
  end.

Definition validate_transport_capabilities (values : list bytes) :
    result IntentError (list bytes) := validate_transport_capabilities_from [] values.

Definition map_intent_extension_error (error : ExtensionError) : IntentError :=
  match error with
  | ExInvalidNamespace | ExUnsupportedCritical => InInvalidExtension
  | ExDuplicateExtension => InDuplicateExtension
  | ExTooManyExtensions => InTooManyExtensions
  | ExPayloadTooLarge => InExtensionPayloadTooLarge
  end.

Definition longer_than (limit : Z) (value : option bytes) : bool :=
  match value with Some v => (limit <? len v)%Z | None => false end.

(** The overflow branch of [checked_add] returns the same error as the bound. *)
Definition validate_communication_intent (intent : CommunicationIntent) :
    result IntentError unit :=
  let constraints := ci_constraints intent in
  let allowed_list := ic_allowed_transport_capabilities constraints in
  let forbidden_list := ic_forbidden_transport_capabilities constraints in
  reject_if (u32_max <? len (ci_payload intent))%Z InPayloadTooLarge ;;
  reject_if (DEFAULT_MAX_PAYLOAD_LEN <? len (ci_payload intent))%Z InPayloadTooLarge ;;
  try_for_each (λ value, reject_if (longer_than MAX_INTENT_POLICY_VALUE_LEN value)
                           InPolicyValueTooLong)
    [ic_privacy_profile constraints; ic_region_constraint constraints] ;;
  reject_if (longer_than MAX_INTENT_IDEMPOTENCY_KEY_LEN
               (idempotency_key (ci_correlation intent))) InIdempotencyKeyTooLong ;;
  reject_if (MAX_INTENT_TRANSPORT_CONSTRAINTS <? len allowed_list + len forbidden_list)%Z
    InTooManyTransportConstraints ;;
  allowed ← validate_transport_capabilities allowed_list;
  forbidden ← validate_transport_capabilities forbidden_list;
  reject_if (existsb (λ value, bool_decide (value ∈ forbidden)) allowed)
    InConflictingTransportCapability ;;
  _ ← map_err map_intent_extension_error (canonical_protocol_extensions (ci_extensions intent));
  Ok tt.

Definition canonical_communication_intent (intent : CommunicationIntent) :
    result IntentError CommunicationIntent :=
  validate_communication_intent intent ;;
  extensions ← map_err map_intent_extension_error
                 (canonical_protocol_extensions (ci_extensions intent));
  let c := ci_constraints intent in
  Ok (mk_intent (ci_intent_id intent) (ci_scope intent) (ci_target_identity_id intent)
        (ci_payload intent)
        (mk_constraints (sort_by bytes_cmp (ic_allowed_transport_capabilities c))
           (sort_by bytes_cmp (ic_forbidden_transport_capabilities c))
           (ic_privacy_profile c) (ic_region_constraint c) (ic_max_cost_microunits c)
           (ic_priority_class c))
        (ci_correlation intent) extensions).

(** * Facts *)

Lemma all_distinct_Ok {E A} `{EqDecision A} (e : E) seen (l : list A) u :
  all_distinct e seen l = Ok u ↔ NoDup l ∧ Forall (λ x, x ∉ seen) l.
Proof.
  destruct u. revert seen. induction l as [|x l IH]; intros seen; cbn.
  { split; [|done]. intros _. split; constructor. }
  case_bool_decide as Hx.
  - rewrite Forall_cons. naive_solver.
  - rewrite IH, NoDup_cons, !Forall_cons, !Forall_forall. set_solver.
Qed.

#[global] Instance relation_key_inj : Inj (=) (=) relation_key.
Proof.
  intros [k t] [k' t']. unfold relation_key; cbn. intros [= Hk ->%as_wire_bytes_inj].
  f_equal. by destruct k, k'.
Qed.

(** The targets of the reply relations, in order. *)
Definition reply_targets (l : list MessageRelation) : list MessageId :=
  rel_target <$> List.filter (λ r, bool_decide (rel_kind r = MrReply)) l.

Lemma reply_targets_cons x l :
  reply_targets (x :: l) = if bool_decide (rel_kind x = MrReply)
                           then rel_target x :: reply_targets l else reply_targets l.
Proof. unfold reply_targets. cbn. by case_match. Qed.
#[global] Arguments reply_targets : simpl never.

Definition reply_result (reply : option MessageId) (targets : list MessageId)
    (r : option MessageId) : Prop :=
  match targets with
  | [] => r = reply
  | [t] => reply = None ∧ r = Some t
  | _ => False
  end.

Lemma scan_relations_Ok id seen reply l r :
  scan_relations id seen reply l = Ok r ↔
  Forall (λ x, rel_target x ≠ id) l ∧ NoDup l ∧ Forall (λ x, relation_key x ∉ seen) l
  ∧ reply_result reply (reply_targets l) r.
Proof.
  revert seen reply. induction l as [|x l IH]; intros seen reply; cbn.
  { split; [intros [= <-]|intros (_ & _ & _ & ->)]; [|done]. repeat split; constructor. }
  assert (∀ P : Prop, ((NoDup l ∧ Forall (λ y, relation_key y ∉ (relation_key x :: seen)) l) ∧ P)
    ↔ (((x ∉ l) ∧ NoDup l) ∧ Forall (λ y, relation_key y ∉ seen) l ∧ P)) as Hstep.
  { intros P. rewrite !Forall_forall. split.
    - intros [[Hnd Hs] HP]. split_and!; [|done| |done].
      + intros Hx. destruct (Hs x Hx). set_solver.
      + intros y Hy. specialize (Hs y Hy). set_solver.
    - intros ([Hx Hnd] & Hs & HP). split; [split; [done|]|done]. intros y Hy.
      rewrite not_elem_of_cons. split; [|by apply Hs]. by intros ->%relation_key_inj. }
  rewrite NoDup_cons, !Forall_cons, reply_targets_cons.
  destruct (decide (rel_target x = id)) as [Ht|Ht];
    [rewrite (bool_decide_eq_true_2 (rel_target x = id)) by done; cbn; naive_solver|].
  rewrite (bool_decide_eq_false_2 (rel_target x = id)) by done. cbn.
  destruct (decide (relation_key x ∈ seen)) as [Hs|Hs];
    [rewrite (bool_decide_eq_true_2 (relation_key x ∈ seen)) by done; cbn; naive_solver|].
  rewrite (bool_decide_eq_false_2 (relation_key x ∈ seen)) by done. cbn.
  destruct (decide (rel_kind x = MrReply)) as [Hk|Hk].
  - rewrite !(bool_decide_eq_true_2 (rel_kind x = MrReply)) by done.
    destruct reply as [t|]; cbn.
    + split; [done|]. destruct (reply_targets l); naive_solver.
    + rewrite IH. specialize (Hstep (reply_result (Some (rel_target x)) (reply_targets l) r)).
      destruct (reply_targets l) as [|t [|]]; cbn in *; naive_solver.
  - rewrite !(bool_decide_eq_false_2 (rel_kind x = MrReply)) by done. rewrite IH.
    specialize (Hstep (reply_result reply (reply_targets l) r)). naive_solver.
Qed.

Lemma reply_targets_perm l k : l ≡ₚ k → reply_targets l ≡ₚ reply_targets k.
Proof.
  induction 1 as [|x l k _ IH|x y l|l k m _ IH1 _ IH2]; rewrite ?reply_targets_cons;
    [done|by case_match; rewrite IH| |by rewrite IH1].
  repeat case_match; done || constructor.
Qed.

Lemma scan_relations_perm id l k r :
  l ≡ₚ k → scan_relations id [] None l = Ok r → scan_relations id [] None k = Ok r.
Proof.
  intros Hp. rewrite !scan_relations_Ok. intros (Ht & Hnd & Hs & Hr).
  rewrite Hp in Ht, Hnd, Hs. split_and!; try done.
  pose proof (reply_targets_perm _ _ Hp) as Hrt.
  destruct (reply_targets l) as [|t [|]]; [|..|done].
  - by apply Permutation_nil in Hrt as ->.
  - by apply Permutation_length_1_inv in Hrt as ->.
Qed.

Definition mapping_ok (m : ExternalMessageMapping) : Prop :=
  em_external_message_id m ≠ []
  ∧ (len (em_external_message_id m) ≤ EXTERNAL_MESSAGE_ID_LIMIT)%Z.

Lemma validate_external_mappings_Ok seen l u :
  validate_external_mappings_from seen l = Ok u ↔
  Forall mapping_ok l ∧ NoDup (as_wire_bytes ∘ em_integration_id <$> l)
  ∧ Forall (λ m, as_wire_bytes (em_integration_id m) ∉ seen) l.
Proof.
  destruct u. revert seen. induction l as [|m l IH]; intros seen; cbn.
  { split; [|done]. intros _. repeat split; constructor. }
  rewrite NoDup_cons, !Forall_cons. unfold mapping_ok at 1.
  destruct (decide (em_external_message_id m = [])) as [He|He];
    [rewrite (bool_decide_eq_true_2 (_ = [])) by done; cbn; naive_solver|].
  rewrite (bool_decide_eq_false_2 (_ = [])) by done. cbn.
  destruct (Z.ltb_spec EXTERNAL_MESSAGE_ID_LIMIT (len (em_external_message_id m))); cbn.
  { split; [done|]. intros ([[_ ?] _] & _). lia. }
  destruct (decide (as_wire_bytes (em_integration_id m) ∈ seen)) as [Hs|Hs];
    [rewrite bool_decide_eq_true_2 by done; cbn; naive_solver|].
  rewrite bool_decide_eq_false_2 by done. cbn. rewrite IH, !Forall_forall. split.
  - intros (Hf & Hnd & Hseen). split_and!; try done.
    + rewrite list_elem_of_fmap. intros (x & E & Hx). apply (Hseen x Hx).
      cbn in E. rewrite <- E. set_solver.
    + intros x Hx. specialize (Hseen x Hx). set_solver.
  - intros ([_ Hf] & [Hm Hnd] & _ & Hseen). split_and!; try done. intros x Hx.
    rewrite not_elem_of_cons. split; [|by apply Hseen]. intros E. apply Hm.
    cbn. rewrite <- E. by apply (list_elem_of_fmap_2 (as_wire_bytes ∘ em_integration_id)).
Qed.

Lemma validate_external_mappings_perm l k u :
  l ≡ₚ k → validate_external_mappings l = Ok u → validate_external_mappings k = Ok u.
Proof.
  intros Hp. unfold validate_external_mappings. rewrite !validate_external_mappings_Ok.
  by rewrite Hp.
Qed.

Section reordered.
(** A message whose unordered lists are listed in another order. *)
Context (m : MessageEnvelope) (rs : list MessageRelation).
Context (ms : list ExternalMessageMapping) (es : list ProtocolExtension).
Context (Hrs : me_relations m ≡ₚ rs) (Hms : me_external_mappings m ≡ₚ ms).
Context (Hes : me_extensions m ≡ₚ es).

Lemma map_err_Ok_mono {E F A} (f : E → F) (r r' : result E A) a :
  (r = Ok a → r' = Ok a) → map_err f r = Ok a → map_err f r' = Ok a.
Proof. rewrite !map_err_Ok. auto. Qed.

Lemma validate_message_reordered :
  validate_message m = Ok tt → validate_message (set_message_lists rs ms es m) = Ok tt.
Proof.
  unfold validate_message. cbn. rewrite <- (len_perm _ _ Hrs), <- (len_perm _ _ Hms),
    <- (nil_perm_b _ _ Hrs).
  do 5 (apply bind_Ok_mono; [done|intros []]).
  apply bind_Ok_mono; [intros r; by apply scan_relations_perm|intros r].
  do 4 (apply bind_Ok_mono; [done|intros []]).
  apply bind_Ok_mono; [intros u; by apply validate_external_mappings_perm|intros []].
  do 2 (apply bind_Ok_mono; [done|intros []]).
  apply bind_Ok_mono; [|done]. intros c. apply map_err_Ok_mono.
  by apply canonical_protocol_extensions_perm.
Qed.

(** The facts about the lists that make their sorted form unique. *)
Lemma validate_message_lists u :
  validate_message m = Ok u →
  NoDup (me_relations m)
  ∧ NoDup (as_wire_bytes ∘ em_integration_id <$> me_external_mappings m)
  ∧ ∃ c, canonical_protocol_extensions (me_extensions m) = Ok c.
Proof.
  unfold validate_message. intros H. res_inv.
  repeat match goal with
  | H : scan_relations _ _ _ _ = Ok _ |- _ => apply scan_relations_Ok in H
  | H : validate_external_mappings _ = Ok _ |- _ =>
      unfold validate_external_mappings in H; apply validate_external_mappings_Ok in H
  end.
  naive_solver.
Qed.

#[local] Instance relation_total_cmp : TotalCmp compare_relations.
Proof.
  apply (inj_total_cmp (pair_cmp Z.compare bytes_cmp)
    (λ r, (relation_rank (rel_kind r), as_wire_bytes (rel_target r)))).
  intros [k t] [k' t']; cbn. intros [= Hk ->%as_wire_bytes_inj]. f_equal. by destruct k, k'.
Qed.

Lemma canonical_message_reordered c :
  canonical_message m = Ok c → canonical_message (set_message_lists rs ms es m) = Ok c.
Proof.
  unfold canonical_message. intros H. apply bind_Ok in H as ([] & Hv & H).
  apply bind_Ok in H as (x & Hx & [= <-]). apply map_err_Ok in Hx.
  rewrite (validate_message_reordered Hv). cbn [mbind result_bind].
  cbn [me_extensions set_message_lists].
  rewrite (canonical_protocol_extensions_perm _ _ _ Hes Hx). cbn.
  destruct (validate_message_lists _ Hv) as (Hr & Hm & _).
  assert (sort_by compare_relations rs = sort_by compare_relations (me_relations m)) as ->.
  { symmetry. apply (sort_by_Permutation id compare_relations); [done|].
    by rewrite list_fmap_id. }
  assert (sort_by compare_mappings ms = sort_by compare_mappings (me_external_mappings m)) as ->.
  { symmetry. by apply (sort_by_Permutation (as_wire_bytes ∘ em_integration_id) bytes_cmp). }
  done.
Qed.
End reordered.

Lemma canonical_message_shape m c :
  canonical_message m = Ok c →
  c = set_message_lists (me_relations c) (me_external_mappings c) (me_extensions c) m
  ∧ me_relations m ≡ₚ me_relations c ∧ me_external_mappings m ≡ₚ me_external_mappings c
  ∧ me_extensions m ≡ₚ me_extensions c.
Proof.
  unfold canonical_message. intros H. res_inv. subst. cbn.
  split; [done|]. rewrite !sort_by_perm.
  match goal with H : canonical_protocol_extensions _ = _ |- _ =>
    apply canonical_protocol_extensions_Ok in H as [-> _] end.
  by rewrite sort_by_perm.
Qed.

(** * Property *)

(** The order of relations, external mappings and extensions is not semantic:
    a message listed in any other order has the same canonical envelope, and the
    canonical envelope is its own canonical form. *)
Theorem canonical_message_order_insensitive (m c : MessageEnvelope)
    (rs : list MessageRelation) (ms : list ExternalMessageMapping)
    (es : list ProtocolExtension)
    (Hrs : me_relations m ≡ₚ rs) (Hms : me_external_mappings m ≡ₚ ms)
    (Hes : me_extensions m ≡ₚ es) (Hc : canonical_message m = Ok c) :
  canonical_message (set_message_lists rs ms es m) = Ok c ∧ canonical_message c = Ok c.
Proof.
  split; [by apply canonical_message_reordered|].
  destruct (canonical_message_shape _ _ Hc) as (E & H1 & H2 & H3). rewrite E at 1.
  by apply canonical_message_reordered.
Qed.

Definition quoting_message : MessageEnvelope :=
  mk_message (oid "m1") (mk_scope (oid "acme") None) (mk_conversation (oid "room") CkDirect)
    (mk_actor (oid "alice") AkPerson None) (mk_device_ref (oid "phone") (oid "alice-id"))
    1 1 (str "hello") [] (Some (oid "m0"))
    [mk_relation MrReference (oid "m9"); mk_relation MrReply (oid "m0")]
    None DpDurable DsCreated (mk_origin (Some (oid "alice")) None None)
    (mk_correlation (oid "corr") None None)
    [mk_extension (str "vendor.z") false []; mk_extension (str "ucr.a") false []]
    [] None.

Lemma canonical_message_order_insensitive_witness :
  ∃ c, canonical_message (set_message_lists (reverse (me_relations quoting_message)) []
         (reverse (me_extensions quoting_message)) quoting_message) = Ok c
       ∧ canonical_message c = Ok c.
Proof.
  eexists. apply (canonical_message_order_insensitive quoting_message).
  - symmetry. apply reverse_Permutation.
  - reflexivity.
  - symmetry. apply reverse_Permutation.
  - vm_compute. reflexivity.
Defined.
