(* ===== verification/Delivery.v ===== *)
(** Delivery attempts and their evidence (crates/ucr-protocol/src/delivery.rs). *)

From S2P Require Import Prelude Ids Framing Extension Message.

Inductive DeliveryEvidenceKind :=
| EkCreatedLocal | EkPersistedLocal | EkAcceptedByTransport | EkReplicatedToRelay
| EkReceivedByDevice | EkDecryptedByDevice | EkPresentedToUser | EkReadByUser.
#[global] Instance DeliveryEvidenceKind_eq_dec : EqDecision DeliveryEvidenceKind.
Proof. solve_decision. Defined.

Record DeliveryAttempt := mk_attempt {
  da_delivery_id : DeliveryId;
  da_scope : TenantScope;
  da_message_id : MessageId;
  da_state : DeliveryState;
}.
#[global] Instance DeliveryAttempt_eq_dec : EqDecision DeliveryAttempt.
Proof. solve_decision. Defined.

Record DeliveryEvidence := mk_evidence {
  de_delivery_id : DeliveryId;
  de_scope : TenantScope;
  de_message_id : MessageId;
  de_kind : DeliveryEvidenceKind;
  de_logical_order : Z; (* u64 *)
}.
#[global] Instance DeliveryEvidence_eq_dec : EqDecision DeliveryEvidence.
Proof. solve_decision. Defined.

Inductive DeliveryError :=
| DeInvalidInitialState | DeIllegalTransition | DeScopeMismatch | DeMessageMismatch
| DeDeliveryMismatch | DeEvidenceRegression | DeEvidenceDoesNotProveState.
#[global] Instance DeliveryError_eq_dec : EqDecision DeliveryError.
Proof. solve_decision. Defined.

Definition set_attempt_state (st : DeliveryState) (a : DeliveryAttempt) : DeliveryAttempt :=
  mk_attempt (da_delivery_id a) (da_scope a) (da_message_id a) st.

Definition is_terminal_delivery_state (st : DeliveryState) : bool :=
  match st with DsRead | DsFailed | DsExpired => true | _ => false end.

Definition can_transition_delivery (from to : DeliveryState) : bool :=
  match from, to with
  | DsPersisted, DsEncrypted | DsEncrypted, DsQueued | DsQueued, DsRoutePlanned
  | DsRoutePlanned, DsInFlight | DsInFlight, DsAcknowledged | DsAcknowledged, DsDelivered
  | DsDelivered, DsRead => true
  | _, _ => false
  end
  || (negb (is_terminal_delivery_state from)
      && match to with DsFailed | DsExpired => true | _ => false end).

Definition validate_delivery_attempt (attempt : DeliveryAttempt) : result DeliveryError unit :=
  reject_if (negb (bool_decide (da_state attempt = DsPersisted))) DeInvalidInitialState.

Definition validate_delivery_transition (current : DeliveryAttempt) (next : DeliveryState) :
    result DeliveryError unit :=
  if can_transition_delivery (da_state current) next then Ok tt else Err DeIllegalTransition.

Definition validate_delivery_evidence_binding (attempt : DeliveryAttempt)
    (evidence : DeliveryEvidence) : result DeliveryError unit :=
  reject_if (negb (bool_decide (de_delivery_id evidence = da_delivery_id attempt)))
    DeDeliveryMismatch ;;
  reject_if (negb (bool_decide (de_scope evidence = da_scope attempt))) DeScopeMismatch ;;
  reject_if (negb (bool_decide (de_message_id evidence = da_message_id attempt)))
    DeMessageMismatch.

Definition evidence_supports_state (evidence : DeliveryEvidenceKind) (st : DeliveryState) :
    bool :=
  match evidence, st with
  | EkPersistedLocal, DsPersisted => true
  | EkAcceptedByTransport, DsAcknowledged => true
  | (EkReceivedByDevice | EkDecryptedByDevice | EkPresentedToUser), DsDelivered => true
  | EkReadByUser, DsRead => true
  | _, _ => false
  end.

Definition validate_delivery_evidence (attempt : DeliveryAttempt) (evidence : DeliveryEvidence)
    (st : DeliveryState) : result DeliveryError unit :=
  validate_delivery_evidence_binding attempt evidence ;;
  reject_if (negb (evidence_supports_state (de_kind evidence) st)) DeEvidenceDoesNotProveState.

Definition validate_delivery_evidence_order (previous_order : option Z) (incoming_order : Z) :
    result DeliveryError unit :=
  match previous_order with
  | Some previous => reject_if (incoming_order <? previous)%Z DeEvidenceRegression
  | None => Ok tt
  end.

(** * Progress *)

(** A rank that every legal transition increases; [Created] never moves on. *)
Definition delivery_rank (st : DeliveryState) : nat :=
  match st with
  | DsCreated => 0 | DsPersisted => 1 | DsEncrypted => 2 | DsQueued => 3 | DsRoutePlanned => 4
  | DsInFlight => 5 | DsAcknowledged => 6 | DsDelivered => 7 | DsRead => 8
  | DsFailed | DsExpired => 9
  end.

Lemma can_transition_rank from to :
  can_transition_delivery from to = true → delivery_rank from < delivery_rank to.
Proof. destruct from, to; cbn; (done || lia). Qed.

Lemma validate_delivery_evidence_binding_Ok a e u :
  validate_delivery_evidence_binding a e = Ok u ↔
  de_delivery_id e = da_delivery_id a ∧ de_scope e = da_scope a
  ∧ de_message_id e = da_message_id a.
Proof.
  unfold validate_delivery_evidence_binding. split.
  - intros H. res_inv. bool_norm. done.
  - intros (-> & -> & ->). destruct u. by rewrite !bool_decide_eq_true_2.
Qed.
