(* ===== verification/StoreForward.v ===== *)
(** Store-and-forward scheduling rules
    (crates/ucr-protocol/src/store_forward.rs, crates/ucr-model/src/store_forward.rs). *)

From S2P Require Import Prelude Ids Framing.

(** * Digests *)

(** SHA-256 as the code uses it: a function to 32 bytes. *)
Class Sha256 := {
  sha256 : bytes → bytes;
  sha256_length x : length (sha256 x) = 32;
  sha256_u8 x : Forall is_u8 (sha256 x);
}.

(** [{byte:02x}] for every byte. *)
Definition hex_text (digest : bytes) : bytes := flat_map encode_byte digest.

(** * Data *)

Definition MAX_STORE_FORWARD_DELIVERY_ATTEMPTS : Z := 64.
Definition MAX_STORE_FORWARD_PAGE_ITEMS : Z := 256.
Definition MAX_STORE_FORWARD_RETRY_DELAY_MS : Z := 7 * 24 * 60 * 60 * 1000.
Definition MAX_STORE_FORWARD_LEASE_MS : Z := 5 * 60 * 1000.
Definition STORE_FORWARD_DELIVERY_ID_DOMAIN : bytes := str "UCR-STORE-FORWARD-DELIVERY-ID-V1".
Definition STORE_FORWARD_JOB_FINGERPRINT_DOMAIN : bytes :=
  str "UCR-STORE-FORWARD-JOB-FINGERPRINT-V1".

Inductive StoreForwardError :=
| SfInvalidAttemptBudget | SfInvalidRetryDelay | SfInvalidLeaseDuration | SfInvalidExpiry
| SfInvalidEnvelope | SfInvalidAttemptState | SfInvalidPageSize | SfClockOverflow.
#[global] Instance StoreForwardError_eq_dec : EqDecision StoreForwardError.
Proof. solve_decision. Defined.

Record StoreForwardPolicy := mk_sf_policy {
  max_delivery_attempts : Z; (* u16 *)
  base_retry_delay_ms : Z; (* u64 *)
  max_retry_delay_ms : Z; (* u64 *)
  lease_duration_ms : Z; (* u64 *)
  expires_at_unix_ms : option Z; (* Option<i64> *)
}.
#[global] Instance StoreForwardPolicy_eq_dec : EqDecision StoreForwardPolicy.
Proof. solve_decision. Defined.

Record StoreForwardJob := mk_job {
  job_id : StoreForwardId;
  job_scope : TenantScope;
  job_intent_id : IntentId;
  job_message_id : MessageId;
  job_encrypted_envelope : bytes;
  job_policy : StoreForwardPolicy;
  job_attempts_used : Z; (* u16 *)
  job_next_attempt_at : Z; (* i64 *)
  job_last_delivery_id : option DeliveryId;
}.
#[global] Instance StoreForwardJob_eq_dec : EqDecision StoreForwardJob.
Proof. solve_decision. Defined.

Record StoreForwardLease := mk_lease {
  lease_job : StoreForwardJob;
  lease_id : StoreForwardLeaseId;
  lease_until : Z; (* i64 *)
}.

Inductive StoreForwardOutcome :=
| SoAcceptedByTransport | SoRescheduledNoRoute | SoRescheduledAfterFailure
| SoAcceptanceUnknown | SoAttemptsExhausted | SoExpired | SoNotDue | SoBusy.
#[global] Instance StoreForwardOutcome_eq_dec : EqDecision StoreForwardOutcome.
Proof. solve_decision. Defined.

Definition set_job_attempt (attempts : Z) (delivery : option DeliveryId) (j : StoreForwardJob) :
    StoreForwardJob :=
  mk_job (job_id j) (job_scope j) (job_intent_id j) (job_message_id j)
    (job_encrypted_envelope j) (job_policy j) attempts (job_next_attempt_at j) delivery.

Definition set_job_next (next : Z) (j : StoreForwardJob) : StoreForwardJob :=
  mk_job (job_id j) (job_scope j) (job_intent_id j) (job_message_id j)
    (job_encrypted_envelope j) (job_policy j) (job_attempts_used j) next
    (job_last_delivery_id j).

(** * Validation *)

Definition validate_store_forward_policy (policy : StoreForwardPolicy) :
    result StoreForwardError unit :=
  reject_if ((max_delivery_attempts policy =? 0)%Z
             || (MAX_STORE_FORWARD_DELIVERY_ATTEMPTS <? max_delivery_attempts policy)%Z)
    SfInvalidAttemptBudget ;;
  reject_if ((base_retry_delay_ms policy =? 0)%Z
             || (max_retry_delay_ms policy <? base_retry_delay_ms policy)%Z
             || (MAX_STORE_FORWARD_RETRY_DELAY_MS <? max_retry_delay_ms policy)%Z)
    SfInvalidRetryDelay ;;
  reject_if ((lease_duration_ms policy =? 0)%Z
             || (MAX_STORE_FORWARD_LEASE_MS <? lease_duration_ms policy)%Z)
    SfInvalidLeaseDuration.

Definition validate_store_forward_job (job : StoreForwardJob) : result StoreForwardError unit :=
  validate_store_forward_policy (job_policy job) ;;
  reject_if (bool_decide (job_encrypted_envelope job = [])
             || (DEFAULT_MAX_PAYLOAD_LEN <? len (job_encrypted_envelope job))%Z)
    SfInvalidEnvelope ;;
  reject_if ((max_delivery_attempts (job_policy job) <? job_attempts_used job)%Z
             || ((job_attempts_used job =? 0)%Z
                 && bool_decide (is_Some (job_last_delivery_id job)))
             || ((0 <? job_attempts_used job)%Z
                 && bool_decide (job_last_delivery_id job = None)))
    SfInvalidAttemptState ;;
  reject_if (match expires_at_unix_ms (job_policy job) with
             | Some expiry => (expiry <? job_next_attempt_at job)%Z
             | None => false
             end) SfInvalidExpiry.

Definition validate_store_forward_page_size (max_items : Z) : result StoreForwardError unit :=
  reject_if ((max_items =? 0)%Z || (MAX_STORE_FORWARD_PAGE_ITEMS <? max_items)%Z)
    SfInvalidPageSize.

(** * Backoff *)

Definition store_forward_retry_delay_ms (policy : StoreForwardPolicy) (attempts_used : Z) : Z :=
  let shift := if (1 <? attempts_used)%Z then
                 if (31 <? attempts_used - 1)%Z then 31%Z else (attempts_used - 1)%Z
               else 0%Z in
  let scaled := saturating_mul_u64 (base_retry_delay_ms policy) (Z.shiftl 1 shift) in
  if (max_retry_delay_ms policy <? scaled)%Z then max_retry_delay_ms policy else scaled.

Definition store_forward_next_attempt_at (now_unix_ms : Z) (policy : StoreForwardPolicy)
    (attempts_used : Z) : result StoreForwardError Z :=
  delay ← ok_or (i64_try_from (store_forward_retry_delay_ms policy attempts_used))
            SfClockOverflow;
  next ← ok_or (checked_add_i64 now_unix_ms delay) SfClockOverflow;
  match expires_at_unix_ms policy with
  | Some expiry => Ok (Z.min next expiry)
  | None => Ok next
  end.

(** * Fingerprint and delivery identifiers *)

(** The length always fits: identifiers have at most 128 bytes and a validated
    envelope at most [DEFAULT_MAX_PAYLOAD_LEN]. *)
Definition append_len_prefixed (value : bytes) : bytes := len_prefixed 4 value.

Definition append_scope (scope : TenantScope) : bytes :=
  append_len_prefixed (as_wire_bytes (tenant_id scope)) ++
  match namespace_id scope with
  | Some namespace => 1%Z :: append_len_prefixed (as_wire_bytes namespace)
  | None => [0%Z]
  end.

(** What the hasher of [store_forward_job_fingerprint] is fed. *)
Definition store_forward_job_preimage (job : StoreForwardJob) : bytes :=
  STORE_FORWARD_JOB_FINGERPRINT_DOMAIN
  ++ append_scope (job_scope job)
  ++ append_len_prefixed (as_wire_bytes (job_id job))
  ++ append_len_prefixed (as_wire_bytes (job_intent_id job))
  ++ append_len_prefixed (as_wire_bytes (job_message_id job))
  ++ append_len_prefixed (job_encrypted_envelope job)
  ++ be_bytes 2 (max_delivery_attempts (job_policy job))
  ++ be_bytes 8 (base_retry_delay_ms (job_policy job))
  ++ be_bytes 8 (max_retry_delay_ms (job_policy job))
  ++ be_bytes 8 (lease_duration_ms (job_policy job))
  ++ match expires_at_unix_ms (job_policy job) with
     | Some expiry => 1%Z :: be_bytes 8 expiry
     | None => [0%Z]
     end
  ++ be_bytes 8 (job_next_attempt_at job).

Definition store_forward_job_fingerprint `{Sha256} (job : StoreForwardJob) :
    result StoreForwardError bytes :=
  validate_store_forward_job job ;;
  reject_if (negb (job_attempts_used job =? 0)%Z
             || bool_decide (is_Some (job_last_delivery_id job))) SfInvalidAttemptState ;;
  Ok (sha256 (store_forward_job_preimage job)).

Definition store_forward_delivery_preimage (scope : TenantScope) (id : StoreForwardId)
    (attempt_ordinal : Z) : bytes :=
  STORE_FORWARD_DELIVERY_ID_DOMAIN ++ append_scope scope
  ++ append_len_prefixed (as_wire_bytes id) ++ be_bytes 2 attempt_ordinal.

(** [None] is the [expect] that panics. *)
Definition store_forward_delivery_id_checked `{Sha256} (scope : TenantScope)
    (id : StoreForwardId) (attempt_ordinal : Z) : option DeliveryId :=
  match opaque_id_new (hex_text (sha256 (store_forward_delivery_preimage scope id
                                           attempt_ordinal))) with
  | Ok delivery => Some delivery
  | Err _ => None
  end.

(** The value the [expect] yields; [store_forward_delivery_id_text] shows that
    the fallback is never taken. *)
Definition store_forward_delivery_id `{Sha256} (scope : TenantScope) (id : StoreForwardId)
    (attempt_ordinal : Z) : DeliveryId :=
  default fallback_id (store_forward_delivery_id_checked scope id attempt_ordinal).

(** * Facts *)

(** Machine ranges of the fields of a policy and a job. *)
Record policy_typed (p : StoreForwardPolicy) : Prop := {
  pt_attempts : is_u16 (max_delivery_attempts p);
  pt_base : is_u64 (base_retry_delay_ms p);
  pt_max : is_u64 (max_retry_delay_ms p);
  pt_lease : is_u64 (lease_duration_ms p);
  pt_expiry : from_option is_i64 True (expires_at_unix_ms p);
}.

Record job_typed (j : StoreForwardJob) : Prop := {
  jt_policy : policy_typed (job_policy j);
  jt_attempts : is_u16 (job_attempts_used j);
  jt_next : is_i64 (job_next_attempt_at j);
}.

Lemma validate_store_forward_policy_Ok p u :
  policy_typed p →
  validate_store_forward_policy p = Ok u ↔
  (1 ≤ max_delivery_attempts p ≤ MAX_STORE_FORWARD_DELIVERY_ATTEMPTS)%Z
  ∧ (1 ≤ base_retry_delay_ms p ≤ max_retry_delay_ms p)%Z
  ∧ (max_retry_delay_ms p ≤ MAX_STORE_FORWARD_RETRY_DELAY_MS)%Z
  ∧ (1 ≤ lease_duration_ms p ≤ MAX_STORE_FORWARD_LEASE_MS)%Z.
Proof.
  intros [H1 H2 H3 H4 _]. unfold is_u in *. destruct u. unfold validate_store_forward_policy.
  split.
  - intros H. res_inv. bool_norm. lia.
  - intros (A1 & A2 & A3 & A4).
    do 2 (apply bind_Ok; exists tt; rewrite reject_if_Ok; split; [bool_norm; lia|]).
    apply reject_if_Ok. bool_norm. lia.
Qed.

(** The shift, the saturation and the cap together are one closed form. *)
Definition backoff_exponent (attempts_used : Z) : Z := Z.min (Z.max attempts_used 1 - 1) 31.

Lemma retry_delay_closed_form p n :
  (0 ≤ base_retry_delay_ms p)%Z → (max_retry_delay_ms p ≤ u64_max)%Z →
  store_forward_retry_delay_ms p n
  = Z.min (base_retry_delay_ms p * 2 ^ backoff_exponent n) (max_retry_delay_ms p).
Proof.
  intros Hb Hm. unfold store_forward_retry_delay_ms, backoff_exponent, saturating_mul_u64.
  assert ((if (1 <? n)%Z then if (31 <? n - 1)%Z then 31%Z else (n - 1)%Z else 0%Z)
          = Z.min (Z.max n 1 - 1) 31) as -> by (repeat case_match; bool_norm; lia).
  rewrite Z.shiftl_1_l. case_match; bool_norm; lia.
Qed.

Lemma backoff_exponent_mono n k : (n ≤ k)%Z → (2 ^ backoff_exponent n ≤ 2 ^ backoff_exponent k)%Z.
Proof. intros H. apply Z.pow_le_mono_r; unfold backoff_exponent; lia. Qed.

Lemma backoff_factor_pos n : (1 ≤ 2 ^ backoff_exponent n)%Z.
Proof. apply (Z.pow_le_mono_r 2 0); unfold backoff_exponent; lia. Qed.

(** * Properties *)

(** The backoff of a valid policy is the base delay doubled per consumed
    attempt and capped: it lies between the base and the maximum, never shrinks as
    attempts grow, and neither the shift nor the saturation is ever visible. *)
Theorem store_forward_retry_delay_correct (p : StoreForwardPolicy) (n k : Z)
    (Ht : policy_typed p) (Hv : validate_store_forward_policy p = Ok tt) (Hnk : (n ≤ k)%Z) :
  store_forward_retry_delay_ms p n
    = Z.min (base_retry_delay_ms p * 2 ^ backoff_exponent n) (max_retry_delay_ms p)
  ∧ (base_retry_delay_ms p ≤ store_forward_retry_delay_ms p n ≤ max_retry_delay_ms p)%Z
  ∧ (store_forward_retry_delay_ms p n ≤ store_forward_retry_delay_ms p k)%Z.
Proof.
  apply validate_store_forward_policy_Ok in Hv as (_ & Hb & Hm & _); [|done].
  unfold MAX_STORE_FORWARD_RETRY_DELAY_MS in Hm.
  rewrite !retry_delay_closed_form by (unfold u64_max; lia).
  pose proof (backoff_exponent_mono n k Hnk). pose proof (backoff_factor_pos n). nia.
Qed.

Definition example_policy : StoreForwardPolicy := mk_sf_policy 5 1000 60000 30000 (Some 900000%Z).

Lemma store_forward_retry_delay_witness :
  store_forward_retry_delay_ms example_policy 3 = 4000%Z
  ∧ (1000 ≤ store_forward_retry_delay_ms example_policy 3 ≤ 60000)%Z
  ∧ (store_forward_retry_delay_ms example_policy 3
     ≤ store_forward_retry_delay_ms example_policy 40)%Z.
Proof.
  apply (store_forward_retry_delay_correct example_policy 3 40).
  - split; vm_compute; (split; [discriminate|reflexivity]).
  - reflexivity.
  - lia.
Defined.

(** While the clock is at least a week from its end, the next attempt of a
    valid policy is always defined, strictly later than now unless the job is
    expired, at most the maximum delay away and never after the expiry. *)
Theorem store_forward_next_attempt_at_correct (now : Z) (p : StoreForwardPolicy) (n : Z)
    (Ht : policy_typed p) (Hv : validate_store_forward_policy p = Ok tt)
    (Hnow : is_i64 now) (Hroom : (now ≤ i64_max - MAX_STORE_FORWARD_RETRY_DELAY_MS)%Z) :
  ∃ next, store_forward_next_attempt_at now p n = Ok next
    ∧ (next ≤ now + max_retry_delay_ms p)%Z
    ∧ match expires_at_unix_ms p with
      | Some expiry => (next ≤ expiry)%Z ∧ ((now < expiry)%Z → (now < next)%Z)
      | None => (now < next)%Z
      end.
Proof.
  apply validate_store_forward_policy_Ok in Hv as (_ & Hb & Hm & _); [|done].
  unfold MAX_STORE_FORWARD_RETRY_DELAY_MS, i64_max, is_i64 in *.
  unfold store_forward_next_attempt_at.
  rewrite retry_delay_closed_form by (unfold u64_max; lia).
  pose proof (backoff_factor_pos n).
  set (d := Z.min (base_retry_delay_ms p * 2 ^ backoff_exponent n) (max_retry_delay_ms p)) in *.
  assert (1 ≤ d ≤ max_retry_delay_ms p)%Z as Hd by (unfold d; nia).
  rewrite (proj2 (i64_try_from_Some d d)) by (unfold i64_min, i64_max; lia). cbn.
  rewrite (proj2 (checked_add_i64_Some now d (now + d))) by (unfold i64_min, i64_max; lia). cbn.
  destruct (expires_at_unix_ms p); eexists; (split; [done|lia]).
Qed.

Lemma store_forward_next_attempt_at_witness :
  ∃ next, store_forward_next_attempt_at 890000 example_policy 5 = Ok next
    ∧ (next ≤ 890000 + 60000)%Z ∧ (next ≤ 900000)%Z ∧ ((890000 < 900000)%Z → (890000 < next)%Z).
Proof.
  apply (store_forward_next_attempt_at_correct 890000 example_policy 5).
  - split; vm_compute; (split; [discriminate|reflexivity]).
  - reflexivity.
  - vm_compute. split; [discriminate|reflexivity].
  - vm_compute. discriminate.
Defined.

(** ** Encoders *)

Lemma append_scope_pf : prefix_free (λ _, True) append_scope.
Proof.
  intros [t n] [t' n'] r r' _ _ E. unfold append_scope in E. cbn in E.
  rewrite <- !app_assoc in E. apply opaque_id_pf in E as [<- E]; [|lia|done..].
  destruct n, n'; apply cons_inv in E as [? E]; try done.
  by apply opaque_id_pf in E as [<- <-]; [|lia|..].
Qed.

Lemma expiry_pf :
  prefix_free (from_option is_i64 True)
    (λ e, match e with Some x => 1%Z :: be_bytes 8 x | None => [0%Z] end).
Proof.
  intros [x|] [y|] r r' Hx Hy E; apply cons_inv in E as [? E]; try done.
  by apply prefix_free_i64 in E as [-> ->].
Qed.

(** The initial job is determined by the bytes that are hashed. *)
Lemma store_forward_job_preimage_inj a b :
  job_typed a → job_typed b →
  (len (job_encrypted_envelope a) ≤ u32_max)%Z → (len (job_encrypted_envelope b) ≤ u32_max)%Z →
  job_attempts_used a = job_attempts_used b → job_last_delivery_id a = job_last_delivery_id b →
  store_forward_job_preimage a = store_forward_job_preimage b → a = b.
Proof.
  destruct a as [i s n m e [p1 p2 p3 p4 p5] u t d], b as [i' s' n' m' e' [q1 q2 q3 q4 q5] u' t' d'].
  intros [[A1 A2 A3 A4 A5] _ A7] [[B1 B2 B3 B4 B5] _ B7]. unfold len, u32_max. cbn in *.
  intros He He' -> -> E. unfold store_forward_job_preimage in E. apply app_inv_head in E. cbn in E.
  apply append_scope_pf in E as [<- E]; [|done..].
  do 3 (apply opaque_id_pf in E as [<- E]; [|lia|done..]).
  apply prefix_free_len in E as [<- E];
    [|change (2 ^ _)%Z with 4294967296%Z; lia|change (2 ^ _)%Z with 4294967296%Z; lia].
  apply prefix_free_be in E as [<- E]; [|done..].
  do 3 (apply prefix_free_be in E as [<- E]; [|done..]).
  apply expiry_pf in E as [<- E]; [|done..].
  by apply (prefix_free_end _ _ _ _ prefix_free_i64) in E as <-.
Qed.

Lemma delivery_preimage_inj s i n s' i' n' :
  is_u16 n → is_u16 n' →
  store_forward_delivery_preimage s i n = store_forward_delivery_preimage s' i' n' →
  s = s' ∧ i = i' ∧ n = n'.
Proof.
  intros Hn Hn' E. unfold store_forward_delivery_preimage in E. apply app_inv_head in E.
  apply append_scope_pf in E as [<- E]; [|done..].
  apply opaque_id_pf in E as [<- E]; [|lia|done..].
  by apply (prefix_free_end _ _ _ _ (prefix_free_be 2)) in E as <-.
Qed.

(** The text of a derived delivery identifier: the [expect] never fires. *)
Lemma store_forward_delivery_id_text `{Sha256} s i n :
  store_forward_delivery_id_checked s i n = Some (store_forward_delivery_id s i n)
  ∧ as_wire_bytes (store_forward_delivery_id s i n)
    = hex_text (sha256 (store_forward_delivery_preimage s i n)).
Proof.
  unfold store_forward_delivery_id, store_forward_delivery_id_checked.
  set (d := sha256 _). pose proof (encode_bytes_length d) as Hl.
  pose proof (sha256_length (store_forward_delivery_preimage s i n)) as H32. fold d in H32.
  assert (validate_opaque_id_bytes (hex_text d) = Ok tt) as Hv.
  { apply validate_ascii; [intros E; unfold hex_text in E; rewrite E in Hl; cbn in Hl; lia| |].
    - unfold hex_text. rewrite Hl, H32. vm_compute. lia.
    - apply encode_bytes_ascii, sha256_u8. }
  unfold opaque_id_new. rewrite Hv.
  destruct (opaque_checked_valid _ OieInvalidUtf8 Hv) as (id & -> & E). by cbn.
Qed.

Lemma delivery_id_eq `{Sha256} s i n s' i' n' :
  store_forward_delivery_id s i n = store_forward_delivery_id s' i' n' →
  sha256 (store_forward_delivery_preimage s i n)
  = sha256 (store_forward_delivery_preimage s' i' n').
Proof.
  intros E%(f_equal as_wire_bytes).
  rewrite !(proj2 (store_forward_delivery_id_text _ _ _)) in E.
  apply encode_bytes_inj in E; [done|..]; try apply sha256_u8.
Qed.

(** The delivery identifier derived for an attempt is always defined, is 64
    characters long, and two attempts share one only if they are the same attempt
    of the same job in the same scope, or the two hashed inputs collide. *)
Theorem store_forward_delivery_id_binds `{Sha256} (s s' : TenantScope) (i i' : StoreForwardId)
    (n n' : Z) (Hn : is_u16 n) (Hn' : is_u16 n') :
  store_forward_delivery_id_checked s i n = Some (store_forward_delivery_id s i n)
  ∧ length (as_wire_bytes (store_forward_delivery_id s i n)) = 64
  ∧ (store_forward_delivery_id s i n = store_forward_delivery_id s' i' n' →
     (s = s' ∧ i = i' ∧ n = n')
     ∨ (store_forward_delivery_preimage s i n ≠ store_forward_delivery_preimage s' i' n'
        ∧ sha256 (store_forward_delivery_preimage s i n)
          = sha256 (store_forward_delivery_preimage s' i' n'))).
Proof.
  destruct (store_forward_delivery_id_text s i n) as [H1 H2]. split; [done|]. split.
  - rewrite H2. unfold hex_text. by rewrite encode_bytes_length, sha256_length.
  - intros E%delivery_id_eq. destruct (decide (store_forward_delivery_preimage s i n
      = store_forward_delivery_preimage s' i' n')); [left|by right].
    by apply delivery_preimage_inj.
Qed.

(** A digest for concrete runs: the last 32 bytes, reversed and zero padded. *)
Definition tail_digest (x : bytes) : bytes :=
  take 32 ((λ b, b mod 256)%Z <$> (reverse x ++ replicate 32 0%Z)).

Lemma tail_digest_length x : length (tail_digest x) = 32.
Proof.
  unfold tail_digest. rewrite length_take, length_fmap, length_app, length_replicate. lia.
Qed.

Lemma tail_digest_u8 x : Forall is_u8 (tail_digest x).
Proof.
  apply Forall_take, Forall_fmap, Forall_forall. intros b _. unfold is_u. cbn.
  apply (Z.mod_pos_bound b 256). lia.
Qed.

Definition toy_digest : Sha256 := {|
  sha256 := tail_digest;
  sha256_length := tail_digest_length;
  sha256_u8 := tail_digest_u8;
|}.

#[local] Existing Instance toy_digest.

Lemma store_forward_delivery_id_witness :
  let s := mk_scope (oid "acme") None in
  store_forward_delivery_id_checked s (oid "job") 1 = Some (store_forward_delivery_id s (oid "job") 1)
  ∧ length (as_wire_bytes (store_forward_delivery_id s (oid "job") 1)) = 64
  ∧ (store_forward_delivery_id s (oid "job") 1 = store_forward_delivery_id s (oid "job") 2 →
     (s = s ∧ oid "job" = oid "job" ∧ 1%Z = 2%Z)
     ∨ (store_forward_delivery_preimage s (oid "job") 1
        ≠ store_forward_delivery_preimage s (oid "job") 2
        ∧ sha256 (store_forward_delivery_preimage s (oid "job") 1)
          = sha256 (store_forward_delivery_preimage s (oid "job") 2))).
Proof.
  apply (store_forward_delivery_id_binds (mk_scope (oid "acme") None)
    (mk_scope (oid "acme") None) (oid "job") (oid "job") 1 2).
  - unfold is_u. lia.
  - unfold is_u. lia.
Defined.
