(* ===== verification/Sync.v ===== *)
(** Synchronisation sessions and checkpoints (crates/ucr-protocol/src/sync.rs). *)

From S2P Require Import Prelude Ids Framing Extension Message.

Inductive SyncLinkKind := SlDeviceDevice | SlDeviceNode | SlPeerPeer | SlDeviceCloud.
#[global] Instance SyncLinkKind_eq_dec : EqDecision SyncLinkKind.
Proof. solve_decision. Defined.

Inductive SyncMode := SmFull | SmPartial.
#[global] Instance SyncMode_eq_dec : EqDecision SyncMode.
Proof. solve_decision. Defined.

Inductive SyncState := SsPrepared | SsActive | SsPaused | SsCompleted | SsCancelled | SsFailed.
#[global] Instance SyncState_eq_dec : EqDecision SyncState.
Proof. solve_decision. Defined.

Record SyncSelection := mk_selection {
  sel_mode : SyncMode;
  sel_conversation_ids : list ConversationId;
}.
#[global] Instance SyncSelection_eq_dec : EqDecision SyncSelection.
Proof. solve_decision. Defined.

Record SyncSession := mk_sync_session {
  sy_session_id : SessionId;
  sy_scope : TenantScope;
  sy_source_endpoint_id : EndpointId;
  sy_target_endpoint_id : EndpointId;
  sy_link_kind : SyncLinkKind;
  sy_selection : SyncSelection;
  sy_state : SyncState;
}.
#[global] Instance SyncSession_eq_dec : EqDecision SyncSession.
Proof. solve_decision. Defined.

Record SyncCheckpoint := mk_checkpoint {
  ck_session_id : SessionId;
  ck_scope : TenantScope;
  ck_generation : Z; (* u64 *)
  ck_resume_token : bytes;
  ck_applied_items : Z; (* u64 *)
}.
#[global] Instance SyncCheckpoint_eq_dec : EqDecision SyncCheckpoint.
Proof. solve_decision. Defined.

Inductive SyncError :=
| SySameEndpoint | SyInvalidInitialState | SyFullSelectionHasConversations
| SyPartialSelectionEmpty | SyTooManyConversations | SyDuplicateConversation
| SyIllegalTransition | SyCheckpointBindingMismatch | SyCheckpointRequiresActiveSession
| SyEmptyResumeToken | SyResumeTokenTooLarge | SyInvalidCheckpointGeneration
| SyAppliedItemsRegression.
#[global] Instance SyncError_eq_dec : EqDecision SyncError.
Proof. solve_decision. Defined.

Definition MAX_PARTIAL_SYNC_CONVERSATIONS : Z := 256.
Definition MAX_SYNC_RESUME_TOKEN_LEN : Z := 4096.

Definition set_sync_selection (ids : list ConversationId) (s : SyncSession) : SyncSession :=
  mk_sync_session (sy_session_id s) (sy_scope s) (sy_source_endpoint_id s)
    (sy_target_endpoint_id s) (sy_link_kind s)
    (mk_selection (sel_mode (sy_selection s)) ids) (sy_state s).

Definition set_sync_state (st : SyncState) (s : SyncSession) : SyncSession :=
  mk_sync_session (sy_session_id s) (sy_scope s) (sy_source_endpoint_id s)
    (sy_target_endpoint_id s) (sy_link_kind s) (sy_selection s) st.

Definition canonical_sync_session (session : SyncSession) : result SyncError SyncSession :=
  let ids := sel_conversation_ids (sy_selection session) in
  reject_if (bool_decide (sy_source_endpoint_id session = sy_target_endpoint_id session))
    SySameEndpoint ;;
  reject_if (negb (bool_decide (sy_state session = SsPrepared))) SyInvalidInitialState ;;
  reject_if (MAX_PARTIAL_SYNC_CONVERSATIONS <? len ids)%Z SyTooManyConversations ;;
  match sel_mode (sy_selection session) with
  | SmFull => reject_if (negb (bool_decide (ids = []))) SyFullSelectionHasConversations
  | SmPartial => reject_if (bool_decide (ids = [])) SyPartialSelectionEmpty
  end ;;
  all_distinct SyDuplicateConversation [] ids ;;
  Ok (set_sync_selection (sort_by opaque_cmp ids) session).

Definition is_terminal_sync_state (st : SyncState) : bool :=
  match st with SsCompleted | SsCancelled | SsFailed => true | _ => false end.

Definition can_transition_sync (from to : SyncState) : bool :=
  match from, to with
  | (SsPrepared | SsPaused), SsActive => true
  | (SsPrepared | SsActive | SsPaused), (SsCancelled | SsFailed) => true
  | SsActive, (SsPaused | SsCompleted) => true
  | SsPaused, SsCompleted => true
  | _, _ => false
  end.

Definition validate_sync_transition (from to : SyncState) : result SyncError unit :=
  if can_transition_sync from to then Ok tt else Err SyIllegalTransition.

Definition validate_sync_checkpoint (session : SyncSession) (previous : option SyncCheckpoint)
    (checkpoint : SyncCheckpoint) : result SyncError unit :=
  reject_if (negb (bool_decide (ck_session_id checkpoint = sy_session_id session))
             || negb (bool_decide (ck_scope checkpoint = sy_scope session)))
    SyCheckpointBindingMismatch ;;
  reject_if (negb (bool_decide (sy_state session = SsActive)
                   || bool_decide (sy_state session = SsPaused)))
    SyCheckpointRequiresActiveSession ;;
  reject_if (bool_decide (ck_resume_token checkpoint = [])) SyEmptyResumeToken ;;
  reject_if (MAX_SYNC_RESUME_TOKEN_LEN <? len (ck_resume_token checkpoint))%Z
    SyResumeTokenTooLarge ;;
  expected_generation ← match previous with
    | None => Ok 1%Z
    | Some previous =>
        reject_if (negb (bool_decide (ck_session_id previous = sy_session_id session))
                   || negb (bool_decide (ck_scope previous = sy_scope session)))
          SyCheckpointBindingMismatch ;;
        reject_if (ck_applied_items checkpoint <? ck_applied_items previous)%Z
          SyAppliedItemsRegression ;;
        ok_or (checked_add_u64 (ck_generation previous) 1) SyInvalidCheckpointGeneration
    end;
  reject_if (negb (ck_generation checkpoint =? expected_generation)%Z)
    SyInvalidCheckpointGeneration.
