(* ===== verification/Store.v ===== *)
(** The in-memory durable store (crates/ucr-storage-memory/src/lib.rs): the tables
    of conversations, messages, intents, deliveries and synchronisation, and the
    operations of their stores.

    An operation takes the state to a new state and a result.  The state is kept on
    an error too, as the code mutates its tables in place under one mutex, so a
    mutation that precedes a failure is visible.  A poisoned mutex is not modelled. *)

From S2P Require Import Prelude Ids Framing Extension Message Delivery StoreForward Sync.

(** * Operations with a store *)

Definition op (S E A : Type) : Type := S → S * result E A.

#[global] Instance op_ret {S E} : MRet (op S E) := λ A a s, (s, Ok a).
#[global] Instance op_bind {S E} : MBind (op S E) := λ A B k m s,
  match m s with
  | (s', Ok a) => k a s'
  | (s', Err e) => (s', Err e)
  end.

(** [r?] for a computation that does not touch the store. *)
Definition lift {S E A} (r : result E A) : op S E A := λ s, (s, r).
Definition get {S E} : op S E S := λ s, (s, Ok s).
Definition put {S E} (s' : S) : op S E unit := λ _, (s', Ok tt).
(** [return Err(e)] when the condition holds. *)
Definition guard {S E} (c : bool) (e : E) : op S E unit := lift (reject_if c e).

Lemma op_bind_Ok {S E A B} (m : op S E A) (k : A → op S E B) s s'' b :
  (m ≫= k) s = (s'', Ok b) ↔ ∃ s' a, m s = (s', Ok a) ∧ k a s' = (s'', Ok b).
Proof.
  unfold mbind, op_bind. destruct (m s) as [s' [a|e]]; naive_solver.
Qed.

Lemma op_lift_bind {S E A B} (r : result E A) (k : A → op S E B) s :
  (lift r ≫= k) s = match r with Ok a => k a s | Err e => (s, Err e) end.
Proof. done. Qed.

(** * State *)

Record MemoryStoreForwardState := mk_sf_state {
  sf_job : StoreForwardJob;
  sf_fingerprint : bytes; (* [u8; 32] *)
  sf_lease : option (StoreForwardLeaseId * Z);
}.

(** The tables of [MemoryState] that these stores read or write. *)
Record MemoryState := mk_memory {
  conversations : gmap RecordKey ConversationRecord;
  messages : gmap RecordKey MessageEnvelope;
  intents : gmap RecordKey CommunicationIntent;
  deliveries : gmap RecordKey DeliveryAttempt;
  delivery_evidence : gmap RecordKey (list DeliveryEvidence);
  store_forward_jobs : gmap RecordKey MemoryStoreForwardState;
  store_forward_tombstones : gmap RecordKey bytes;
  sync_sessions : gmap RecordKey SyncSession;
  sync_checkpoints : gmap RecordKey (list SyncCheckpoint);
}.

Definition empty_memory : MemoryState := mk_memory ∅ ∅ ∅ ∅ ∅ ∅ ∅ ∅ ∅.

Definition with_conversations t (s : MemoryState) : MemoryState :=
  mk_memory t (messages s) (intents s) (deliveries s) (delivery_evidence s)
    (store_forward_jobs s) (store_forward_tombstones s) (sync_sessions s) (sync_checkpoints s).
Definition with_messages t (s : MemoryState) : MemoryState :=
  mk_memory (conversations s) t (intents s) (deliveries s) (delivery_evidence s)
    (store_forward_jobs s) (store_forward_tombstones s) (sync_sessions s) (sync_checkpoints s).
Definition with_intents t (s : MemoryState) : MemoryState :=
  mk_memory (conversations s) (messages s) t (deliveries s) (delivery_evidence s)
    (store_forward_jobs s) (store_forward_tombstones s) (sync_sessions s) (sync_checkpoints s).
Definition with_deliveries t (s : MemoryState) : MemoryState :=
  mk_memory (conversations s) (messages s) (intents s) t (delivery_evidence s)
    (store_forward_jobs s) (store_forward_tombstones s) (sync_sessions s) (sync_checkpoints s).
Definition with_evidence t (s : MemoryState) : MemoryState :=
  mk_memory (conversations s) (messages s) (intents s) (deliveries s) t
    (store_forward_jobs s) (store_forward_tombstones s) (sync_sessions s) (sync_checkpoints s).
Definition with_jobs t (s : MemoryState) : MemoryState :=
  mk_memory (conversations s) (messages s) (intents s) (deliveries s) (delivery_evidence s)
    t (store_forward_tombstones s) (sync_sessions s) (sync_checkpoints s).
Definition with_tombstones t (s : MemoryState) : MemoryState :=
  mk_memory (conversations s) (messages s) (intents s) (deliveries s) (delivery_evidence s)
    (store_forward_jobs s) t (sync_sessions s) (sync_checkpoints s).
Definition with_sync_sessions t (s : MemoryState) : MemoryState :=
  mk_memory (conversations s) (messages s) (intents s) (deliveries s) (delivery_evidence s)
    (store_forward_jobs s) (store_forward_tombstones s) t (sync_checkpoints s).
Definition with_sync_checkpoints t (s : MemoryState) : MemoryState :=
  mk_memory (conversations s) (messages s) (intents s) (deliveries s) (delivery_evidence s)
    (store_forward_jobs s) (store_forward_tombstones s) (sync_sessions s) t.

Abbreviation store_op A := (op MemoryState DurableStoreError A).

(** [map_err(|_| DurableStoreError::InvalidRecord)?]. *)
Definition or_invalid {E A} (r : result E A) : store_op A :=
  lift (map_err (λ _, StInvalidRecord) r).

(** [Ok(Duplicate)] for an equal record, [Err(Conflict)] otherwise. *)
Definition duplicate_or_conflict (same : bool) : store_op DurableRecordStatus :=
  lift (if same then Ok RecDuplicate else Err StConflict).

(** * Conversations, intents and messages *)

Definition persist_conversation (conversation : ConversationRecord) :
    store_op DurableRecordStatus :=
  or_invalid (validate_conversation conversation) ;;
  let key := record_key (cr_scope conversation)
               (conversation_id (cr_conversation conversation)) in
  s ← get;
  match cr_parent_conversation_id conversation with
  | Some parent_id =>
      parent ← lift (ok_or (conversations s !! record_key (cr_scope conversation) parent_id)
                       StInvalidRecord);
      or_invalid (validate_conversation_parent_kind
        (conversation_kind (cr_conversation conversation))
        (conversation_kind (cr_conversation parent)))
  | None => mret tt
  end ;;
  match conversations s !! key with
  | Some existing => duplicate_or_conflict (bool_decide (existing = conversation))
  | None =>
      put (with_conversations (<[key := conversation]> (conversations s)) s) ;;
      mret RecPersisted
  end.

Definition persist_communication_intent (intent : CommunicationIntent) :
    store_op DurableRecordStatus :=
  canonical ← or_invalid (canonical_communication_intent intent);
  let key := record_key (ci_scope canonical) (ci_intent_id canonical) in
  s ← get;
  match intents s !! key with
  | Some existing => duplicate_or_conflict (bool_decide (existing = canonical))
  | None => put (with_intents (<[key := canonical]> (intents s)) s) ;; mret RecPersisted
  end.

Definition communication_intent (scope : TenantScope) (intent_id : IntentId) :
    store_op (option CommunicationIntent) :=
  s ← get; mret (intents s !! record_key scope intent_id).

Definition persist_message_in_state (message : MessageEnvelope) : store_op DurableRecordStatus :=
  persisted ← or_invalid (canonical_message message);
  guard (negb (bool_decide (me_delivery_state persisted = DsCreated)
               || bool_decide (me_delivery_state persisted = DsPersisted))) StInvalidRecord ;;
  s ← get;
  conversation ← lift (ok_or (conversations s !! record_key (me_scope persisted)
                                (conversation_id (me_conversation persisted)))
                         StInvalidRecord);
  guard (negb (bool_decide (cr_conversation conversation = me_conversation persisted)))
    StConflict ;;
  let key := record_key (me_scope persisted) (me_message_id persisted) in
  let persisted := set_message_state DsPersisted persisted in
  match messages s !! key with
  | Some existing => duplicate_or_conflict (bool_decide (existing = persisted))
  | None => put (with_messages (<[key := persisted]> (messages s)) s) ;; mret RecPersisted
  end.

Definition message (scope : TenantScope) (message_id : MessageId) :
    store_op (option MessageEnvelope) :=
  s ← get; mret (messages s !! record_key scope message_id).

(** * Deliveries *)

Definition create_delivery_attempt (attempt : DeliveryAttempt)
    (persisted_evidence : DeliveryEvidence) : store_op DurableRecordStatus :=
  or_invalid (validate_delivery_attempt attempt) ;;
  or_invalid (validate_delivery_evidence attempt persisted_evidence DsPersisted) ;;
  let key := record_key (da_scope attempt) (da_delivery_id attempt) in
  s ← get;
  message ← lift (ok_or (messages s !! record_key (da_scope attempt) (da_message_id attempt))
                    StInvalidRecord);
  guard (negb (bool_decide (me_delivery_state message = DsPersisted))) StInvalidRecord ;;
  match deliveries s !! key with
  | Some existing =>
      guard (negb (bool_decide (existing = attempt))) StConflict ;;
      evidence ← lift (ok_or (delivery_evidence s !! key) StCorrupt);
      duplicate_or_conflict (bool_decide (head evidence = Some persisted_evidence))
  | None =>
      put (with_evidence (<[key := [persisted_evidence]]> (delivery_evidence s))
             (with_deliveries (<[key := attempt]> (deliveries s)) s)) ;;
      mret RecPersisted
  end.

(** [entry(key).or_default()] followed by the body; the empty journal stays. *)
Definition append_delivery_evidence (key : RecordKey) (evidence : DeliveryEvidence) :
    store_op DurableRecordStatus :=
  s ← get;
  let journal := default [] (delivery_evidence s !! key) in
  put (with_evidence (<[key := journal]> (delivery_evidence s)) s) ;;
  match List.find (λ item, (de_logical_order item =? de_logical_order evidence)%Z) journal with
  | Some existing => duplicate_or_conflict (bool_decide (existing = evidence))
  | None =>
      lift (map_err (λ _, StConflict)
        (validate_delivery_evidence_order (de_logical_order <$> last journal)
           (de_logical_order evidence))) ;;
      s ← get;
      put (with_evidence (<[key := journal ++ [evidence]]> (delivery_evidence s)) s) ;;
      mret RecPersisted
  end.

Definition proof_required (st : DeliveryState) : bool :=
  match st with DsAcknowledged | DsDelivered | DsRead => true | _ => false end.

Definition transition_delivery (scope : TenantScope) (delivery_id : DeliveryId)
    (expected_state next_state : DeliveryState) (evidence : option DeliveryEvidence) :
    store_op DurableRecordStatus :=
  let key := record_key scope delivery_id in
  s ← get;
  current ← lift (ok_or (deliveries s !! key) StInvalidRecord);
  guard (negb (bool_decide (da_state current = expected_state))) StConflict ;;
  or_invalid (validate_delivery_transition current next_state) ;;
  guard (proof_required next_state && bool_decide (evidence = None)) StInvalidRecord ;;
  match evidence with
  | Some evidence =>
      or_invalid (validate_delivery_evidence current evidence next_state) ;;
      append_delivery_evidence key evidence ;;
      mret tt
  | None => mret tt
  end ;;
  s ← get;
  attempt ← lift (ok_or (deliveries s !! key) StCorrupt);
  put (with_deliveries (<[key := set_attempt_state next_state attempt]> (deliveries s)) s) ;;
  mret RecPersisted.

Definition record_delivery_evidence (evidence : DeliveryEvidence) :
    store_op DurableRecordStatus :=
  let key := record_key (de_scope evidence) (de_delivery_id evidence) in
  s ← get;
  current ← lift (ok_or (deliveries s !! key) StInvalidRecord);
  or_invalid (validate_delivery_evidence_binding current evidence) ;;
  append_delivery_evidence key evidence.

Definition delivery_attempt (scope : TenantScope) (delivery_id : DeliveryId) :
    store_op (option DeliveryAttempt) :=
  s ← get; mret (deliveries s !! record_key scope delivery_id).

Definition pending_attempt (scope : TenantScope) (attempt : DeliveryAttempt) : bool :=
  bool_decide (da_scope attempt = scope)
  && match da_state attempt with
     | DsQueued | DsRoutePlanned | DsInFlight => true | _ => false end.

(** [binary_search_by(..).unwrap_or_else(|position| position)] on a buffer sorted
    by distinct identifiers: the first slot whose identifier is not smaller. *)
Definition insert_position (id : DeliveryId) (l : list DeliveryAttempt) : nat :=
  default (length l)
    (position (λ a, negb (bool_decide (opaque_cmp (da_delivery_id a) id = Lt))) l).

(** One iteration of the scan; [Vec::insert] shifts the rest to the right. *)
Definition pending_insert (limit : nat) (attempts : list DeliveryAttempt)
    (attempt : DeliveryAttempt) : list DeliveryAttempt :=
  let position := insert_position (da_delivery_id attempt) attempts in
  if position <? limit then
    let attempts := if length attempts =? limit then removelast attempts else attempts in
    take position attempts ++ attempt :: drop position attempts
  else attempts.

(** The scan over [deliveries.values()], in whatever order the table yields them. *)
Definition pending_scan (scope : TenantScope) (limit : nat) (values : list DeliveryAttempt) :
    list DeliveryAttempt :=
  foldl (pending_insert limit) [] (List.filter (pending_attempt scope) values).

Definition pending_delivery_attempts (scope : TenantScope) (limit : nat) :
    store_op (list DeliveryAttempt) :=
  guard ((limit =? 0) || (256 <? limit)) StInvalidRecord ;;
  s ← get;
  mret (pending_scan scope limit ((map_to_list (deliveries s)).*2)).

(** * Synchronisation *)

Definition create_sync_session (session : SyncSession) : store_op DurableRecordStatus :=
  canonical ← or_invalid (canonical_sync_session session);
  let key := record_key (sy_scope canonical) (sy_session_id canonical) in
  s ← get;
  match sync_sessions s !! key with
  | Some existing => duplicate_or_conflict (bool_decide (existing = canonical))
  | None =>
      put (with_sync_sessions (<[key := canonical]> (sync_sessions s)) s) ;;
      mret RecPersisted
  end.

Definition transition_sync (scope : TenantScope) (session_id : SessionId)
    (expected_state next_state : SyncState) : store_op DurableRecordStatus :=
  let key := record_key scope session_id in
  s ← get;
  session ← lift (ok_or (sync_sessions s !! key) StInvalidRecord);
  guard (negb (bool_decide (sy_state session = expected_state))) StConflict ;;
  if bool_decide (expected_state = next_state) then mret RecDuplicate else
  lift (map_err (λ _, StConflict) (validate_sync_transition expected_state next_state)) ;;
  put (with_sync_sessions (<[key := set_sync_state next_state session]> (sync_sessions s)) s) ;;
  mret RecPersisted.

Definition record_sync_checkpoint (checkpoint : SyncCheckpoint) :
    store_op DurableRecordStatus :=
  let key := record_key (ck_scope checkpoint) (ck_session_id checkpoint) in
  s ← get;
  session ← lift (ok_or (sync_sessions s !! key) StInvalidRecord);
  let journal := default [] (sync_checkpoints s !! key) in
  put (with_sync_checkpoints (<[key := journal]> (sync_checkpoints s)) s) ;;
  match List.find (λ item, (ck_generation item =? ck_generation checkpoint)%Z) journal with
  | Some existing => duplicate_or_conflict (bool_decide (existing = checkpoint))
  | None =>
      lift (map_err (λ error,
          match error with
          | SyInvalidCheckpointGeneration | SyAppliedItemsRegression => StConflict
          | _ => StInvalidRecord
          end) (validate_sync_checkpoint session (last journal) checkpoint)) ;;
      s ← get;
      put (with_sync_checkpoints
             (<[key := journal ++ [checkpoint]]> (sync_checkpoints s)) s) ;;
      mret RecPersisted
  end.

Definition sync_session (scope : TenantScope) (session_id : SessionId) :
    store_op (option SyncSession) :=
  s ← get; mret (sync_sessions s !! record_key scope session_id).

Definition latest_sync_checkpoint (scope : TenantScope) (session_id : SessionId) :
    store_op (option SyncCheckpoint) :=
  s ← get; mret (sync_checkpoints s !! record_key scope session_id ≫= last).
