(* ===== verification/StoreForwardStore.v ===== *)
(** The store-and-forward table of the in-memory store
    (crates/ucr-storage-memory/src/store_forward_store.rs): enqueueing, due
    selection, leases, attempt accounting, rescheduling and completion. *)

From S2P Require Import Prelude Ids Framing Extension Message Delivery StoreForward Sync Store.

Section store.
Context `{Sha256}.

Definition persist_store_forward_job (job : StoreForwardJob) : store_op DurableRecordStatus :=
  or_invalid (validate_store_forward_job job) ;;
  guard (negb (job_attempts_used job =? 0)%Z
         || bool_decide (is_Some (job_last_delivery_id job))) StInvalidRecord ;;
  fingerprint ← or_invalid (store_forward_job_fingerprint job);
  s ← get;
  guard (negb (bool_decide (is_Some (intents s !! record_key (job_scope job) (job_intent_id job))))
         || negb (bool_decide (is_Some
              (messages s !! record_key (job_scope job) (job_message_id job)))))
    StInvalidRecord ;;
  let key := record_key (job_scope job) (job_id job) in
  match store_forward_tombstones s !! key with
  | Some existing => duplicate_or_conflict (bool_decide (existing = fingerprint))
  | None =>
      match store_forward_jobs s !! key with
      | Some existing => duplicate_or_conflict (bool_decide (sf_fingerprint existing = fingerprint))
      | None =>
          put (with_jobs (<[key := mk_sf_state job fingerprint None]> (store_forward_jobs s)) s) ;;
          mret RecPersisted
      end
  end.

Definition store_forward_job (scope : TenantScope) (id : StoreForwardId) :
    store_op (option StoreForwardJob) :=
  s ← get; mret (sf_job <$> store_forward_jobs s !! record_key scope id).

(** [lease.is_some_and(|(_, until)| until > now)]. *)
Definition leased_at (now : Z) (value : MemoryStoreForwardState) : bool :=
  match sf_lease value with Some (_, until) => (now <? until)%Z | None => false end.

(** The last recorded delivery is [InFlight]; its transport acceptance is unknown. *)
Definition in_flight (s : MemoryState) (scope : TenantScope) (last : option DeliveryId) : bool :=
  match last with
  | Some delivery_id =>
      match deliveries s !! record_key scope delivery_id with
      | Some attempt => bool_decide (da_state attempt = DsInFlight)
      | None => false
      end
  | None => false
  end.

Definition due_job (s : MemoryState) (scope : TenantScope) (now : Z)
    (entry : RecordKey * MemoryStoreForwardState) : bool :=
  let '((job_scope_key, _), value) := entry in
  bool_decide (job_scope_key = scope_key scope)
  && negb (now <? job_next_attempt_at (sf_job value))%Z
  && negb (leased_at now value)
  && negb (in_flight s (job_scope (sf_job value)) (job_last_delivery_id (sf_job value))).

Definition due_key (value : MemoryStoreForwardState) : Z * bytes :=
  (job_next_attempt_at (sf_job value), as_wire_bytes (job_id (sf_job value))).

Definition due_store_forward_jobs (scope : TenantScope) (now_unix_ms : Z) (max_items : nat) :
    store_op (list StoreForwardId) :=
  or_invalid (validate_store_forward_page_size (Z.of_nat max_items)) ;;
  s ← get;
  let due := (List.filter (due_job s scope now_unix_ms)
                (map_to_list (store_forward_jobs s))).*2 in
  let due := sort_by (key_cmp due_key (pair_cmp Z.compare bytes_cmp)) due in
  mret ((λ value, job_id (sf_job value)) <$> take max_items due).

Definition claim_store_forward_job (scope : TenantScope) (id : StoreForwardId)
    (lease : StoreForwardLeaseId) (now_unix_ms lease_until_unix_ms : Z) :
    store_op (option StoreForwardLease) :=
  let key := record_key scope id in
  s ← get;
  match store_forward_jobs s !! key with
  | None => mret None
  | Some snapshot =>
      duration ← lift (ok_or (i64_try_from (lease_duration_ms (job_policy (sf_job snapshot))))
                         StInvalidRecord);
      max_lease_until ← lift (ok_or (checked_add_i64 now_unix_ms duration) StInvalidRecord);
      if (lease_until_unix_ms <=? now_unix_ms)%Z || (max_lease_until <? lease_until_unix_ms)%Z
         || (now_unix_ms <? job_next_attempt_at (sf_job snapshot))%Z
         || leased_at now_unix_ms snapshot
      then mret None
      else if in_flight s scope (job_last_delivery_id (sf_job snapshot)) then mret None
      else
        put (with_jobs (<[key := mk_sf_state (sf_job snapshot) (sf_fingerprint snapshot)
                                   (Some (lease, lease_until_unix_ms))]>
                          (store_forward_jobs s)) s) ;;
        mret (Some (mk_lease (sf_job snapshot) lease lease_until_unix_ms))
  end.

Definition require_lease (value : MemoryStoreForwardState) (lease : StoreForwardLease)
    (now_unix_ms : Z) : result DurableStoreError unit :=
  match sf_lease value with
  | None => Err StConflict
  | Some (id, until) =>
      reject_if (negb (bool_decide (id = lease_id lease)) || negb (until =? lease_until lease)%Z
                 || (until <=? now_unix_ms)%Z) StConflict
  end.

Definition lease_key (lease : StoreForwardLease) : RecordKey :=
  record_key (job_scope (lease_job lease)) (job_id (lease_job lease)).

(** [value.job = job] through the [get_mut] reference. *)
Definition write_job (key : RecordKey) (value : MemoryStoreForwardState) : store_op unit :=
  s ← get; put (with_jobs (<[key := value]> (store_forward_jobs s)) s).

Definition record_store_forward_attempt (lease : StoreForwardLease) (delivery_id : DeliveryId)
    (attempts_used now_unix_ms : Z) : store_op StoreForwardJob :=
  let key := lease_key lease in
  s ← get;
  snapshot ← lift (ok_or (store_forward_jobs s !! key) StInvalidRecord);
  lift (require_lease snapshot lease now_unix_ms) ;;
  let job := sf_job snapshot in
  guard (negb (attempts_used =? saturating_add_u16 (job_attempts_used job) 1)%Z
         || (max_delivery_attempts (job_policy job) <? attempts_used)%Z
         || negb (bool_decide (delivery_id
              = store_forward_delivery_id (job_scope job) (job_id job) attempts_used)))
    StConflict ;;
  attempt ← lift (ok_or (deliveries s !! record_key (job_scope job) delivery_id)
                    StInvalidRecord);
  guard (negb (bool_decide (da_message_id attempt = job_message_id job))
         || negb (bool_decide (da_state attempt = DsPersisted))) StConflict ;;
  let job := set_job_attempt attempts_used (Some delivery_id) job in
  write_job key (mk_sf_state job (sf_fingerprint snapshot) (sf_lease snapshot)) ;;
  or_invalid (validate_store_forward_job job) ;;
  mret job.

(** The job is rewritten and its lease dropped before the new job is validated. *)
Definition reschedule_store_forward_job (lease : StoreForwardLease)
    (next_attempt_at_unix_ms now_unix_ms : Z) : store_op StoreForwardJob :=
  let key := lease_key lease in
  s ← get;
  value ← lift (ok_or (store_forward_jobs s !! key) StInvalidRecord);
  lift (require_lease value lease now_unix_ms) ;;
  let job := set_job_next next_attempt_at_unix_ms (sf_job value) in
  write_job key (mk_sf_state job (sf_fingerprint value) None) ;;
  or_invalid (validate_store_forward_job job) ;;
  mret job.

Definition complete_store_forward_job (lease : StoreForwardLease) (now_unix_ms : Z) :
    store_op DurableRecordStatus :=
  let key := lease_key lease in
  s ← get;
  value ← lift (ok_or (store_forward_jobs s !! key) StInvalidRecord);
  lift (require_lease value lease now_unix_ms) ;;
  put (with_jobs (delete key (store_forward_jobs s))
         (with_tombstones (<[key := sf_fingerprint value]> (store_forward_tombstones s)) s)) ;;
  mret RecPersisted.

End store.
