(* ===== verification/StoreSpec.v ===== *)
(** The abstract specification of the durable store: the atomic effects any
    operation may have on the tables, and the refinement theorem that every
    operation of [Store.v] and [StoreForwardStore.v] is a sequence of them. *)

From S2P Require Import Prelude Ids Framing Extension Message Delivery StoreForward Sync.
From S2P Require Import Store StoreForwardStore.

(** * Effects *)

Definition message_key (m : MessageEnvelope) : RecordKey :=
  record_key (me_scope m) (me_message_id m).
Definition attempt_key (a : DeliveryAttempt) : RecordKey :=
  record_key (da_scope a) (da_delivery_id a).
Definition job_key (j : StoreForwardJob) : RecordKey := record_key (job_scope j) (job_id j).
Definition session_key (s : SyncSession) : RecordKey :=
  record_key (sy_scope s) (sy_session_id s).

Definition journal_of (s : MemoryState) (k : RecordKey) : list DeliveryEvidence :=
  default [] (delivery_evidence s !! k).
Definition checkpoints_of (s : MemoryState) (k : RecordKey) : list SyncCheckpoint :=
  default [] (sync_checkpoints s !! k).

(** Evidence that belongs to the attempt it is filed under. *)
Definition bound_to (a : DeliveryAttempt) (e : DeliveryEvidence) : Prop :=
  de_delivery_id e = da_delivery_id a ∧ de_scope e = da_scope a
  ∧ de_message_id e = da_message_id a.

Section spec.
Context `{Sha256}.

Inductive effect (s : MemoryState) : MemoryState → Prop :=
| ef_conversation k c :
    conversations s !! k = None →
    effect s (with_conversations (<[k := c]> (conversations s)) s)
| ef_intent k i :
    intents s !! k = None → effect s (with_intents (<[k := i]> (intents s)) s)
| ef_message m :
    messages s !! message_key m = None → me_delivery_state m = DsPersisted →
    effect s (with_messages (<[message_key m := m]> (messages s)) s)
| ef_attempt a e m :
    deliveries s !! attempt_key a = None → da_state a = DsPersisted → bound_to a e →
    de_kind e = EkPersistedLocal →
    messages s !! record_key (da_scope a) (da_message_id a) = Some m →
    effect s (with_evidence (<[attempt_key a := [e]]> (delivery_evidence s))
                (with_deliveries (<[attempt_key a := a]> (deliveries s)) s))
| ef_open_journal k :
    effect s (with_evidence (<[k := journal_of s k]> (delivery_evidence s)) s)
| ef_evidence k a e :
    deliveries s !! k = Some a → bound_to a e →
    Forall (λ e', de_logical_order e' ≠ de_logical_order e) (journal_of s k) →
    (∀ e', last (journal_of s k) = Some e' → de_logical_order e' ≤ de_logical_order e)%Z →
    effect s (with_evidence (<[k := journal_of s k ++ [e]]> (delivery_evidence s)) s)
| ef_transition k a st :
    deliveries s !! k = Some a → can_transition_delivery (da_state a) st = true →
    (proof_required st = true →
     ∃ e, e ∈ journal_of s k ∧ bound_to a e ∧ evidence_supports_state (de_kind e) st = true) →
    effect s (with_deliveries (<[k := set_attempt_state st a]> (deliveries s)) s)
| ef_enqueue j :
    store_forward_jobs s !! job_key j = None → store_forward_tombstones s !! job_key j = None →
    validate_store_forward_job j = Ok tt → job_attempts_used j = 0%Z →
    is_Some (messages s !! record_key (job_scope j) (job_message_id j)) →
    effect s (with_jobs (<[job_key j := mk_sf_state j (sha256 (store_forward_job_preimage j)) None]>
                           (store_forward_jobs s)) s)
| ef_claim k v id until now :
    store_forward_jobs s !! k = Some v → leased_at now v = false → (now < until)%Z →
    effect s (with_jobs (<[k := mk_sf_state (sf_job v) (sf_fingerprint v) (Some (id, until))]>
                           (store_forward_jobs s)) s)
| ef_attempt_used k v a :
    store_forward_jobs s !! k = Some v → is_Some (sf_lease v) →
    let n := saturating_add_u16 (job_attempts_used (sf_job v)) 1 in
    (n ≤ max_delivery_attempts (job_policy (sf_job v)))%Z →
    let d := store_forward_delivery_id (job_scope (sf_job v)) (job_id (sf_job v)) n in
    deliveries s !! record_key (job_scope (sf_job v)) d = Some a → da_state a = DsPersisted →
    effect s (with_jobs (<[k := mk_sf_state (set_job_attempt n (Some d) (sf_job v))
                                  (sf_fingerprint v) (sf_lease v)]> (store_forward_jobs s)) s)
| ef_reschedule k v next :
    store_forward_jobs s !! k = Some v → is_Some (sf_lease v) →
    effect s (with_jobs (<[k := mk_sf_state (set_job_next next (sf_job v)) (sf_fingerprint v) None]>
                           (store_forward_jobs s)) s)
| ef_complete k v :
    store_forward_jobs s !! k = Some v → is_Some (sf_lease v) →
    effect s (with_jobs (delete k (store_forward_jobs s))
                (with_tombstones (<[k := sf_fingerprint v]> (store_forward_tombstones s)) s))
| ef_sync_session y :
    sync_sessions s !! session_key y = None → sy_state y = SsPrepared →
    effect s (with_sync_sessions (<[session_key y := y]> (sync_sessions s)) s)
| ef_sync_transition k y st :
    sync_sessions s !! k = Some y → can_transition_sync (sy_state y) st = true →
    effect s (with_sync_sessions (<[k := set_sync_state st y]> (sync_sessions s)) s)
| ef_open_checkpoints k :
    effect s (with_sync_checkpoints (<[k := checkpoints_of s k]> (sync_checkpoints s)) s)
| ef_checkpoint k y c :
    sync_sessions s !! k = Some y →
    validate_sync_checkpoint y (last (checkpoints_of s k)) c = Ok tt →
    effect s (with_sync_checkpoints (<[k := checkpoints_of s k ++ [c]]> (sync_checkpoints s)) s).

(** * The operations *)

(** One call of a store operation, with any arguments and any outcome. *)
Inductive store_call :=
| ScConversation (c : ConversationRecord)
| ScIntent (i : CommunicationIntent)
| ScMessage (m : MessageEnvelope)
| ScAttempt (a : DeliveryAttempt) (e : DeliveryEvidence)
| ScTransition (scope : TenantScope) (id : DeliveryId) (from to : DeliveryState)
    (e : option DeliveryEvidence)
| ScEvidence (e : DeliveryEvidence)
| ScEnqueue (j : StoreForwardJob)
| ScClaim (scope : TenantScope) (id : StoreForwardId) (lease : StoreForwardLeaseId)
    (now until : Z)
| ScRecord (lease : StoreForwardLease) (d : DeliveryId) (n now : Z)
| ScReschedule (lease : StoreForwardLease) (next now : Z)
| ScComplete (lease : StoreForwardLease) (now : Z)
| ScSyncCreate (y : SyncSession)
| ScSyncTransition (scope : TenantScope) (id : SessionId) (from to : SyncState)
| ScCheckpoint (c : SyncCheckpoint).

(** The state after the call, whether it succeeded or failed. *)
Definition run_call (c : store_call) (s : MemoryState) : MemoryState :=
  match c with
  | ScConversation c => (persist_conversation c s).1
  | ScIntent i => (persist_communication_intent i s).1
  | ScMessage m => (persist_message_in_state m s).1
  | ScAttempt a e => (create_delivery_attempt a e s).1
  | ScTransition scope id from to e => (transition_delivery scope id from to e s).1
  | ScEvidence e => (record_delivery_evidence e s).1
  | ScEnqueue j => (persist_store_forward_job j s).1
  | ScClaim scope id lease now until => (claim_store_forward_job scope id lease now until s).1
  | ScRecord lease d n now => (record_store_forward_attempt lease d n now s).1
  | ScReschedule lease next now => (reschedule_store_forward_job lease next now s).1
  | ScComplete lease now => (complete_store_forward_job lease now s).1
  | ScSyncCreate y => (create_sync_session y s).1
  | ScSyncTransition scope id from to => (transition_sync scope id from to s).1
  | ScCheckpoint c => (record_sync_checkpoint c s).1
  end.
End spec.

(** * Refinement *)

(** Expose the branches of an operation. *)
Ltac op_unfold :=
  cbv [mbind op_bind mret op_ret lift get put guard or_invalid duplicate_or_conflict
       write_job map_err reject_if ok_or].
Ltac if_case H := match goal with |- context [if ?b then _ else _] => destruct b eqn:H end.
Ltac op_cases := op_unfold; repeat (case_match; simplify_eq/=); try apply rtc_refl.

(** Case analysis on an effect with fixed names. *)
Ltac effect_cases He :=
  destruct He as
    [k c Hc|k i Hi|m Hm Hst|a e m Ha Hst Hb Hk Hm|k|k a e Ha Hb Hne Hlast|k a st Ha Hc Hp
    |j Hj Ht Hv Hn Hm|k v id until now Hv Hl Hu|k v a Hv Hl n Hmax d Ha Hst|k v next Hv Hl
    |k v Hv Hl|y Hy Hst|k y st Hy Hc|k|k y c Hy Hv].

Section refinement.
Context `{Sha256}.

Lemma persist_conversation_effect c s : rtc effect s (persist_conversation c s).1.
Proof. unfold persist_conversation. op_cases; by apply rtc_once, ef_conversation. Qed.

Lemma persist_intent_effect i s : rtc effect s (persist_communication_intent i s).1.
Proof. unfold persist_communication_intent. op_cases. by apply rtc_once, ef_intent. Qed.

Lemma persist_message_effect m s : rtc effect s (persist_message_in_state m s).1.
Proof.
  unfold persist_message_in_state. op_cases.
  eapply rtc_once, (ef_message s (set_message_state DsPersisted _)); done.
Qed.

Lemma create_attempt_effect a e s : rtc effect s (create_delivery_attempt a e s).1.
Proof.
  unfold create_delivery_attempt. op_unfold.
  destruct (validate_delivery_attempt a) as [[]|] eqn:Ha; [|apply rtc_refl].
  destruct (validate_delivery_evidence a e DsPersisted) as [[]|] eqn:He; [|apply rtc_refl].
  unfold validate_delivery_attempt, validate_delivery_evidence in *. res_inv. bool_norm.
  op_cases. match goal with H : validate_delivery_evidence_binding _ _ = _ |- _ =>
    apply validate_delivery_evidence_binding_Ok in H end.
  eapply rtc_once, ef_attempt; [done..| |done]. by destruct (de_kind e).
Qed.

(** Appending keeps the journal or extends it; the named evidence is then in it. *)
Lemma append_evidence_effect k a e s s' r :
  deliveries s !! k = Some a → bound_to a e →
  append_delivery_evidence k e s = (s', r) →
  rtc effect s s' ∧ deliveries s' = deliveries s
  ∧ (∀ st, r = Ok st → e ∈ journal_of s' k).
Proof.
  intros Ha Hb Happ. set (s0 := with_evidence (<[k := journal_of s k]> (delivery_evidence s)) s).
  assert (effect s s0) as H0 by apply ef_open_journal.
  assert (journal_of s0 k = journal_of s k) as J0.
  { unfold journal_of at 1. cbn. by rewrite lookup_insert_eq. }
  unfold append_delivery_evidence in Happ. revert Happ. op_unfold.
  fold (journal_of s k). fold s0.
  destruct (List.find _ (journal_of s k)) as [e0|] eqn:Hf.
  - apply find_Some_elem in Hf as [Hin _]. case_bool_decide; intros [= <- <-];
      (split_and!; [by apply rtc_once|done|]); [|done].
    intros st _. rewrite J0. by subst.
  - apply find_None_Forall in Hf.
    destruct (validate_delivery_evidence_order _ _) as [[]|] eqn:Ho;
      intros [= <- <-]; (split_and!; [|done|]); try done; [|..|by apply rtc_once].
    + eapply rtc_l; [done|]. cbn.
      replace (<[k:=journal_of s k ++ [e]]> (<[k:=journal_of s k]> (delivery_evidence s)))
        with (<[k:=journal_of s0 k ++ [e]]> (delivery_evidence s0)) by (by rewrite J0).
      apply rtc_once, (ef_evidence s0 k a); [done..| |]; rewrite J0.
      * eapply Forall_impl; [exact Hf|]. intros x Hx. by apply Z.eqb_neq.
      * intros e' He'. rewrite He' in Ho. cbn in Ho. res_inv. bool_norm. lia.
    + intros st _. unfold journal_of. cbn. rewrite lookup_insert_eq. set_solver.
Qed.

Lemma record_evidence_effect e s : rtc effect s (record_delivery_evidence e s).1.
Proof.
  unfold record_delivery_evidence. op_unfold.
  destruct (deliveries s !! _) as [a|] eqn:Ha; [|apply rtc_refl].
  destruct (validate_delivery_evidence_binding a e) as [u|] eqn:Hb; [|apply rtc_refl].
  apply validate_delivery_evidence_binding_Ok in Hb.
  destruct (append_delivery_evidence _ e s) as [s' r] eqn:Happ.
  by destruct (append_evidence_effect _ a e s s' r Ha Hb Happ) as (H1 & _).
Qed.

Lemma transition_effect scope id from to e s :
  rtc effect s (transition_delivery scope id from to e s).1.
Proof.
  unfold transition_delivery. op_unfold. set (k := record_key scope id).
  destruct (deliveries s !! k) as [a|] eqn:Ha; [|apply rtc_refl]. cbn.
  if_case Hst; [apply rtc_refl|].
  destruct (validate_delivery_transition a to) as [[]|] eqn:Ht; [|apply rtc_refl].
  unfold validate_delivery_transition in Ht. destruct (can_transition_delivery _ to) eqn:Hc; [|done].
  destruct (proof_required to && bool_decide (e = None)) eqn:Hp; [apply rtc_refl|].
  destruct e as [e|].
  - destruct (validate_delivery_evidence a e to) as [[]|] eqn:He; [|apply rtc_refl].
    unfold validate_delivery_evidence in He. res_inv. bool_norm.
    match goal with H : validate_delivery_evidence_binding _ _ = _ |- _ =>
      apply validate_delivery_evidence_binding_Ok in H as Hb end.
    destruct (append_delivery_evidence k e s) as [s' [st|]] eqn:Happ;
      destruct (append_evidence_effect k a e s s' _ Ha Hb Happ) as (H1 & H2 & H3); [|done].
    rewrite H2, Ha. cbn. eapply rtc_r; [done|]. rewrite <- H2.
    apply ef_transition; [by rewrite H2|done|]. intros _. exists e. split_and!; eauto.
  - rewrite Ha. cbn. apply rtc_once, ef_transition; [done..|].
    intros Hpr. by rewrite Hpr in Hp.
Qed.

Lemma enqueue_effect j s : rtc effect s (persist_store_forward_job j s).1.
Proof.
  unfold persist_store_forward_job. op_unfold.
  destruct (validate_store_forward_job j) as [[]|] eqn:Hv; [|apply rtc_refl].
  unfold store_forward_job_fingerprint. rewrite Hv. op_cases. bool_norm. destruct_and?.
  by apply rtc_once, (ef_enqueue s j).
Qed.

Lemma claim_effect scope id lease now until s :
  rtc effect s (claim_store_forward_job scope id lease now until s).1.
Proof.
  unfold claim_store_forward_job. op_cases. bool_norm. destruct_and!.
  apply rtc_once, (ef_claim s _ _ lease until now); [done..|lia].
Qed.

Lemma require_lease_Some v lease now u : require_lease v lease now = Ok u → is_Some (sf_lease v).
Proof. unfold require_lease. destruct (sf_lease v); [eauto|done]. Qed.

Lemma record_attempt_effect lease d n now s :
  rtc effect s (record_store_forward_attempt lease d n now s).1.
Proof.
  unfold record_store_forward_attempt. op_unfold.
  destruct (store_forward_jobs s !! _) as [v|] eqn:Hv; [|apply rtc_refl]. cbn.
  destruct (require_lease v lease now) as [u|] eqn:Hl; [|apply rtc_refl].
  apply require_lease_Some in Hl. if_case Hg; [apply rtc_refl|]. bool_norm.
  destruct Hg as [[-> Hmax] ->].
  destruct (deliveries s !! _) as [a|] eqn:Ha; [|apply rtc_refl]. cbn.
  if_case Hs; [apply rtc_refl|]. bool_norm. destruct Hs as [_ Hs].
  pose proof (ef_attempt_used s _ v a Hv Hl Hmax Ha Hs) as He.
  case_match; cbn; by apply rtc_once.
Qed.

Lemma reschedule_effect lease next now s :
  rtc effect s (reschedule_store_forward_job lease next now s).1.
Proof.
  unfold reschedule_store_forward_job. op_unfold.
  destruct (store_forward_jobs s !! _) as [v|] eqn:Hv; [|apply rtc_refl]. cbn.
  destruct (require_lease v lease now) as [u|] eqn:Hl; [|apply rtc_refl].
  apply require_lease_Some in Hl. pose proof (ef_reschedule s _ v next Hv Hl).
  case_match; cbn; by apply rtc_once.
Qed.

Lemma complete_effect lease now s : rtc effect s (complete_store_forward_job lease now s).1.
Proof.
  unfold complete_store_forward_job. op_unfold.
  destruct (store_forward_jobs s !! _) as [v|] eqn:Hv; [|apply rtc_refl]. cbn.
  destruct (require_lease v lease now) as [u|] eqn:Hl; [|apply rtc_refl].
  apply require_lease_Some in Hl. by apply rtc_once, ef_complete.
Qed.

Lemma canonical_sync_session_state y c :
  canonical_sync_session y = Ok c → sy_state c = SsPrepared.
Proof. unfold canonical_sync_session. intros Hc. res_inv. subst. by bool_norm. Qed.

Lemma sync_create_effect y s : rtc effect s (create_sync_session y s).1.
Proof.
  unfold create_sync_session. op_unfold.
  destruct (canonical_sync_session y) as [c|] eqn:Hc; [|apply rtc_refl].
  apply canonical_sync_session_state in Hc. op_cases. by apply rtc_once, ef_sync_session.
Qed.

Lemma sync_transition_effect scope id from to s :
  rtc effect s (transition_sync scope id from to s).1.
Proof.
  unfold transition_sync, validate_sync_transition. op_cases. bool_norm. subst.
  by apply rtc_once, ef_sync_transition.
Qed.

Lemma checkpoint_effect c s : rtc effect s (record_sync_checkpoint c s).1.
Proof.
  unfold record_sync_checkpoint. op_unfold. set (k := record_key _ _).
  destruct (sync_sessions s !! k) as [y|] eqn:Hy; [|apply rtc_refl]. cbn.
  fold (checkpoints_of s k).
  set (s0 := with_sync_checkpoints (<[k := checkpoints_of s k]> (sync_checkpoints s)) s).
  assert (effect s s0) as H0 by apply ef_open_checkpoints.
  assert (checkpoints_of s0 k = checkpoints_of s k) as J0.
  { unfold checkpoints_of at 1. cbn. by rewrite lookup_insert_eq. }
  destruct (List.find _ _); [case_match; by apply rtc_once|].
  destruct (validate_sync_checkpoint _ _ _) as [[]|] eqn:Hv; [|by apply rtc_once].
  eapply rtc_l; [done|]. cbn.
  replace (<[k:=checkpoints_of s k ++ [c]]> (<[k:=checkpoints_of s k]> (sync_checkpoints s)))
    with (<[k:=checkpoints_of s0 k ++ [c]]> (sync_checkpoints s0)) by (by rewrite J0).
  apply rtc_once, (ef_checkpoint s0 k y); [done|]. by rewrite J0.
Qed.

(** Whatever an operation does, on success or failure, is a sequence of effects. *)
Lemma run_call_effects c s : rtc effect s (run_call c s).
Proof.
  destruct c; cbn; auto using persist_conversation_effect, persist_intent_effect,
    persist_message_effect, create_attempt_effect, transition_effect, record_evidence_effect,
    enqueue_effect, claim_effect, record_attempt_effect, reschedule_effect, complete_effect,
    sync_create_effect, sync_transition_effect, checkpoint_effect.
Qed.
End refinement.
