(* ===== verification/StoreDelivery.v ===== *)
(** Deliveries and synchronisation over every history of the store: the journal of
    an attempt is ordered evidence that backs its state, progress is one way, and
    an attempt is put in flight at most once.  At the end, the bounded scan of
    pending deliveries. *)

From S2P Require Import Prelude Ids Framing Extension Message Delivery StoreForward Sync.
From S2P Require Import Store StoreForwardStore StoreSpec.

Section histories.
Context `{Sha256}.

(** A history: store calls one after the other, each with its own outcome. *)
Definition run_calls (cs : list store_call) (s : MemoryState) : MemoryState :=
  foldl (λ s c, run_call c s) s cs.

Lemma run_calls_effects cs s : rtc effect s (run_calls cs s).
Proof.
  revert s. induction cs as [|c cs IH]; intros s; [done|].
  etrans; [apply run_call_effects|apply IH].
Qed.

(** An invariant of the effects is an invariant of every history. *)
Lemma history_invariant (P : MemoryState → Prop) cs s :
  (∀ s s', effect s s' → P s → P s') → P s → P (run_calls cs s).
Proof.
  intros Hstep Hs. pose proof (run_calls_effects cs s) as Hr.
  induction Hr; eauto.
Qed.

(** * Deliveries *)

Definition evidence_before (e e' : DeliveryEvidence) : Prop :=
  (de_logical_order e < de_logical_order e')%Z.

Record delivery_ok (s : MemoryState) (k : RecordKey) (a : DeliveryAttempt) : Prop := {
  dok_key : k = attempt_key a;
  dok_created : da_state a ≠ DsCreated;
  dok_message : is_Some (messages s !! record_key (da_scope a) (da_message_id a));
  dok_order : StronglySorted evidence_before (journal_of s k);
  dok_bound : Forall (bound_to a) (journal_of s k);
  dok_first : ∃ e, head (journal_of s k) = Some e ∧ de_kind e = EkPersistedLocal;
  dok_proof : proof_required (da_state a) = true →
    ∃ e, e ∈ journal_of s k ∧ evidence_supports_state (de_kind e) (da_state a) = true;
}.

Definition deliveries_ok (s : MemoryState) : Prop :=
  ∀ k a, deliveries s !! k = Some a → delivery_ok s k a.

Lemma delivery_ok_ext s s' k a :
  journal_of s' k = journal_of s k →
  (∀ k, is_Some (messages s !! k) → is_Some (messages s' !! k)) →
  delivery_ok s k a → delivery_ok s' k a.
Proof. intros Ej Em [H1 H2 H3 H4 H5 H6 H7]. split; rewrite ?Ej; auto. Qed.

Lemma journal_insert s k k' j :
  journal_of (with_evidence (<[k := j]> (delivery_evidence s)) s) k'
  = if decide (k = k') then j else journal_of s k'.
Proof.
  unfold journal_of. cbn. case_decide as E; subst.
  - by rewrite lookup_insert_eq.
  - by rewrite lookup_insert_ne.
Qed.

Lemma journal_snoc_sorted l e :
  StronglySorted evidence_before l →
  Forall (λ e', de_logical_order e' ≠ de_logical_order e) l →
  (∀ e', last l = Some e' → de_logical_order e' ≤ de_logical_order e)%Z →
  StronglySorted evidence_before (l ++ [e]).
Proof.
  intros Hs Hne Hlast. apply StronglySorted_snoc; [done|].
  destruct (last l) as [y|] eqn:El.
  - pose proof (StronglySorted_last _ _ _ Hs El) as Hy. specialize (Hlast y eq_refl).
    rewrite !Forall_forall in *. intros x Hx. specialize (Hy x Hx). specialize (Hne x Hx).
    unfold evidence_before in *. destruct Hy as [->|]; lia.
  - apply last_None in El as ->. constructor.
Qed.

Lemma effect_deliveries_ok s s' : effect s s' → deliveries_ok s → deliveries_ok s'.
Proof.
  intros He Hok. effect_cases He; intros k0 a0 Ha0; cbn in Ha0;
    try (eapply delivery_ok_ext; [..|by apply Hok]; done).
  - eapply delivery_ok_ext; [..|by apply Hok]; [done|]. intros k1 H1. cbn.
    destruct (decide (k1 = message_key m)) as [->|]; [rewrite lookup_insert_eq; eauto|].
    by rewrite lookup_insert_ne.
  - destruct (decide (k0 = attempt_key a)) as [->|Hk0].
    + rewrite lookup_insert_eq in Ha0. injection Ha0 as <-.
      assert (journal_of (with_evidence (<[attempt_key a := [e]]> (delivery_evidence s))
        (with_deliveries (<[attempt_key a := a]> (deliveries s)) s)) (attempt_key a) = [e]) as J.
      { unfold journal_of. cbn. by rewrite lookup_insert_eq. }
      split; rewrite ?J; [done|congruence|cbn; eauto|repeat constructor|by constructor| |].
      * eauto.
      * intros Hp. by rewrite Hst in Hp.
    + rewrite lookup_insert_ne in Ha0 by done.
      eapply delivery_ok_ext; [..|by apply Hok]; [|done].
      unfold journal_of. cbn. by rewrite lookup_insert_ne.
  - eapply delivery_ok_ext; [..|by apply Hok]; [|done].
    rewrite journal_insert. by case_decide as E; subst.
  - destruct (decide (k = k0)) as [<-|Hk0].
    + rewrite Ha in Ha0. injection Ha0 as <-. destruct (Hok k a Ha) as [K1 K2 K3 K4 K5 K6 K7].
      split; rewrite ?journal_insert, ?decide_True by done; try done.
      * by apply journal_snoc_sorted.
      * apply Forall_app. by split; [|constructor].
      * destruct K6 as (e0 & K6 & ?). exists e0. split; [|done]. by destruct (journal_of s k).
      * intros Hp. destruct (K7 Hp) as (e1 & ? & ?). exists e1. set_solver.
    + eapply delivery_ok_ext; [..|by apply Hok]; [|done].
      by rewrite journal_insert, decide_False.
  - destruct (decide (k = k0)) as [<-|Hk0].
    + rewrite lookup_insert_eq in Ha0. injection Ha0 as <-.
      destruct (Hok k a Ha) as [K1 K2 K3 K4 K5 K6 K7]. split; try done.
      * intros E. cbn in E. subst. by destruct (da_state a).
      * intros Hpr. destruct (Hp Hpr) as (e & ? & _ & ?). eauto.
    + rewrite lookup_insert_ne in Ha0 by done. by eapply delivery_ok_ext; [..|apply Hok].
Qed.

Lemma empty_deliveries_ok : deliveries_ok empty_memory.
Proof. intros k a Ha. unfold empty_memory in Ha. cbn in Ha. by rewrite lookup_empty in Ha. Qed.

(** ** Progress *)

Record delivery_progress (s s' : MemoryState) (k : RecordKey) (a a' : DeliveryAttempt) : Prop := {
  dp_key : deliveries s' !! k = Some a';
  dp_id : da_delivery_id a' = da_delivery_id a;
  dp_scope : da_scope a' = da_scope a;
  dp_message : da_message_id a' = da_message_id a;
  dp_state : a' = a ∨ delivery_rank (da_state a) < delivery_rank (da_state a');
  dp_journal : journal_of s k `prefix_of` journal_of s' k;
}.

Lemma delivery_progress_refl s k a :
  deliveries s !! k = Some a → delivery_progress s s k a a.
Proof. intros Ha. split; auto. Qed.

Lemma delivery_progress_trans s1 s2 s3 k a1 a2 a3 :
  delivery_progress s1 s2 k a1 a2 → delivery_progress s2 s3 k a2 a3 →
  delivery_progress s1 s3 k a1 a3.
Proof.
  intros [_ I1 I2 I3 I4 I5] [J0 J1 J2 J3 J4 J5].
  split; [done|congruence..| |by etrans].
  destruct I4 as [->|], J4 as [->|]; auto; right; lia.
Qed.

Lemma effect_delivery_progress s s' k a :
  effect s s' → deliveries s !! k = Some a → ∃ a', delivery_progress s s' k a a'.
Proof.
  intros He Ha1. rename k into k1, a into a1.
  effect_cases He; try (exists a1; by split; auto).
  - exists a1. assert (k1 ≠ attempt_key a) by congruence.
    split; cbn; auto; [by rewrite lookup_insert_ne|].
    unfold journal_of. cbn. by rewrite lookup_insert_ne.
  - exists a1. split; cbn; auto. rewrite journal_insert. by case_decide; subst.
  - exists a1. split; cbn; auto. rewrite journal_insert. case_decide; subst; [|done].
    by apply prefix_app_r.
  - destruct (decide (k = k1)) as [->|Hk1].
    + rewrite Ha in Ha1. injection Ha1 as ->. exists (set_attempt_state st a1).
      split; cbn; auto; [by rewrite lookup_insert_eq|right; by apply can_transition_rank].
    + exists a1. split; cbn; auto. by rewrite lookup_insert_ne.
Qed.

Lemma history_delivery_progress cs s k a :
  deliveries s !! k = Some a → ∃ a', delivery_progress s (run_calls cs s) k a a'.
Proof.
  intros Ha. pose proof (run_calls_effects cs s) as Hr. revert a Ha.
  induction Hr as [s|s s1 s2 He _ IH]; intros a Ha.
  { exists a. by apply delivery_progress_refl. }
  destruct (effect_delivery_progress _ _ _ _ He Ha) as (a1 & Hp1).
  destruct (IH a1 (dp_key _ _ _ _ _ Hp1)) as (a2 & Hp2).
  exists a2. by eapply delivery_progress_trans.
Qed.
End histories.

(** * A concrete history *)

#[local] Existing Instance toy_digest.

Definition store_scope : TenantScope := mk_scope (oid "acme") None.
Definition hello_conversation : ConversationRecord :=
  mk_conversation_record store_scope (mk_conversation (oid "room") CkDirect) None.
Definition hello_delivery : DeliveryAttempt :=
  mk_attempt (oid "d1") store_scope (oid "m1") DsPersisted.
Definition hello_evidence (kind : DeliveryEvidenceKind) (order : Z) : DeliveryEvidence :=
  mk_evidence (oid "d1") store_scope (oid "m1") kind order.

Definition flight_calls : list store_call :=
  [ScConversation hello_conversation; ScMessage quoting_message;
   ScAttempt hello_delivery (hello_evidence EkPersistedLocal 1);
   ScTransition store_scope (oid "d1") DsPersisted DsEncrypted None;
   ScTransition store_scope (oid "d1") DsEncrypted DsQueued None;
   ScTransition store_scope (oid "d1") DsQueued DsRoutePlanned None;
   ScTransition store_scope (oid "d1") DsRoutePlanned DsInFlight None].

Definition acknowledged_calls : list store_call :=
  flight_calls ++ [ScTransition store_scope (oid "d1") DsInFlight DsAcknowledged
                     (Some (hello_evidence EkAcceptedByTransport 2))].

(** * Properties *)

(** C20: in every history, a delivery attempt belongs to a persisted message, its
    journal is strictly ordered evidence about that attempt starting with local
    persistence, and a state that needs proof is backed by evidence of that kind. *)
Theorem delivery_state_is_backed_by_evidence `{Sha256} (cs : list store_call) (k : RecordKey)
    (a : DeliveryAttempt) (Ha : deliveries (run_calls cs empty_memory) !! k = Some a) :
  delivery_ok (run_calls cs empty_memory) k a.
Proof.
  revert k a Ha. apply (history_invariant deliveries_ok);
    [apply effect_deliveries_ok|apply empty_deliveries_ok].
Qed.

Lemma delivery_state_is_backed_by_evidence_witness :
  delivery_ok (run_calls acknowledged_calls empty_memory) (record_key store_scope (oid "d1"))
    (mk_attempt (oid "d1") store_scope (oid "m1") DsAcknowledged).
Proof.
  apply (delivery_state_is_backed_by_evidence acknowledged_calls
    (record_key store_scope (oid "d1"))
    (mk_attempt (oid "d1") store_scope (oid "m1") DsAcknowledged)).
  vm_compute. reflexivity.
Defined.

(** Delivery progress is one way: whatever calls follow, an attempt is never
    removed or rebound, its state stays or moves strictly forward, and recorded
    evidence is never rewritten or dropped. *)
Theorem delivery_progress_is_one_way `{Sha256} (cs : list store_call) (s : MemoryState)
    (k : RecordKey) (a : DeliveryAttempt) (Ha : deliveries s !! k = Some a) :
  ∃ a', delivery_progress s (run_calls cs s) k a a'.
Proof. by apply history_delivery_progress. Qed.

Lemma delivery_progress_is_one_way_witness :
  ∃ a', delivery_progress (run_calls flight_calls empty_memory)
          (run_calls [ScTransition store_scope (oid "d1") DsInFlight DsFailed None]
             (run_calls flight_calls empty_memory))
          (record_key store_scope (oid "d1"))
          (mk_attempt (oid "d1") store_scope (oid "m1") DsInFlight) a'.
Proof.
  apply (delivery_progress_is_one_way
    [ScTransition store_scope (oid "d1") DsInFlight DsFailed None]).
  vm_compute. reflexivity.
Defined.

(** An attempt that has been put in flight is never put in flight again, after
    any further calls: the transition that precedes a provider invocation fails
    with a conflict and changes nothing. *)
Theorem delivery_put_in_flight_once `{Sha256} (cs : list store_call) (s : MemoryState)
    (scope : TenantScope) (id : DeliveryId) (a : DeliveryAttempt)
    (evidence : option DeliveryEvidence)
    (Ha : deliveries s !! record_key scope id = Some a)
    (Hflown : delivery_rank DsInFlight ≤ delivery_rank (da_state a)) :
  transition_delivery scope id DsRoutePlanned DsInFlight evidence (run_calls cs s)
  = (run_calls cs s, Err StConflict).
Proof.
  destruct (history_delivery_progress cs s _ a Ha) as (a' & Hp).
  assert (da_state a' ≠ DsRoutePlanned) as Hne.
  { intros E. destruct (dp_state _ _ _ _ _ Hp) as [->|Hr]; [rewrite E in Hflown; cbn in *; lia|].
    rewrite E in Hr. cbn in *. lia. }
  unfold transition_delivery. op_unfold. rewrite (dp_key _ _ _ _ _ Hp).
  by rewrite bool_decide_eq_false_2.
Qed.

Lemma delivery_put_in_flight_once_witness :
  let s := run_calls flight_calls empty_memory in
  let later := run_calls [ScEvidence (hello_evidence EkReplicatedToRelay 7)] s in
  transition_delivery store_scope (oid "d1") DsRoutePlanned DsInFlight None later
  = (later, Err StConflict).
Proof.
  apply (delivery_put_in_flight_once [ScEvidence (hello_evidence EkReplicatedToRelay 7)]
    (run_calls flight_calls empty_memory) store_scope (oid "d1")
    (mk_attempt (oid "d1") store_scope (oid "m1") DsInFlight) None).
  - vm_compute. reflexivity.
  - apply le_n.
Defined.

(** * Pending deliveries

    The bounded scan of pending deliveries keeps only [limit] attempts while it walks the
    table; it returns exactly the first [limit] of the sorted backlog. *)

(** ** Insertion into a bounded sorted buffer *)

(** The first index that satisfies [f], or the length. *)
Definition first_index {A} (f : A → bool) (l : list A) : nat :=
  default (length l) (position f l).

Lemma first_index_cons {A} (f : A → bool) x l :
  first_index f (x :: l) = if f x then 0 else S (first_index f l).
Proof. unfold first_index. cbn. destruct (f x); [done|]. by destruct (position f l). Qed.

Lemma first_index_take {A} (f : A → bool) n l :
  first_index f (take n l) = Nat.min n (first_index f l).
Proof.
  revert n. induction l as [|x l IH]; intros [|n]; try done.
  cbn [take]. rewrite !first_index_cons. destruct (f x); [done|]. by rewrite IH.
Qed.

Lemma first_index_le {A} (f : A → bool) l : first_index f l ≤ length l.
Proof.
  induction l as [|x l IH]; [done|]. rewrite first_index_cons. cbn. destruct (f x); lia.
Qed.

Lemma insert_by_at {A} (cmp : A → A → comparison) x l :
  insert_by cmp x l
  = let i := first_index (λ y, negb (bool_decide (cmp x y = Gt))) l in
    take i l ++ x :: drop i l.
Proof.
  cbv zeta. induction l as [|y l IH]; [done|]. cbn [insert_by]. rewrite first_index_cons.
  destruct (cmp x y) eqn:E; cbn; [done|done|]. by rewrite IH.
Qed.

Lemma removelast_take {A} n (l : list A) : n < length l → removelast (take (S n) l) = take n l.
Proof.
  revert n. induction l as [|x l IH]; intros n Hn; cbn in *; [lia|].
  destruct n as [|n]; [done|]. destruct l as [|y l]; cbn in *; [lia|].
  f_equal. apply (IH n). lia.
Qed.

(** Dropping the largest element before inserting is the same as inserting into
    the whole list and keeping its prefix. *)
Lemma bounded_insert {A} (limit i : nat) (x : A) l :
  i ≤ length l →
  (if Nat.min limit i <? limit then
     let buffer := take limit l in
     let buffer := if length buffer =? limit then removelast buffer else buffer in
     take (Nat.min limit i) buffer ++ x :: drop (Nat.min limit i) buffer
   else take limit l)
  = take limit (take i l ++ x :: drop i l).
Proof.
  intros Hi. destruct (Nat.ltb_spec (Nat.min limit i) limit) as [Hlt|Hge].
  - rewrite Nat.min_r by lia. cbv zeta. rewrite length_take.
    rewrite take_app, length_take, (Nat.min_l i) by lia.
    rewrite take_take, (Nat.min_r limit i) by lia.
    destruct (limit - i) as [|m] eqn:Em; [lia|]. cbn [take].
    destruct (Nat.eqb_spec (Nat.min limit (length l)) limit) as [E|E].
    + destruct limit as [|n]; [lia|]. rewrite removelast_take by lia.
      rewrite take_take, Nat.min_l by lia. f_equal. f_equal.
      rewrite take_drop_commute. f_equal. f_equal. lia.
    + rewrite (take_ge l) by lia. f_equal. f_equal.
      rewrite take_ge; [done|]. rewrite length_drop. lia.
  - rewrite take_app_le by (rewrite length_take; lia). rewrite take_take. f_equal. lia.
Qed.

(** * The scan *)

Definition attempt_cmp : DeliveryAttempt → DeliveryAttempt → comparison :=
  key_cmp da_delivery_id opaque_cmp.

Lemma insert_position_first id l :
  insert_position id l
  = first_index (λ a, negb (bool_decide (opaque_cmp id (da_delivery_id a) = Gt))) l.
Proof.
  change (insert_position id l) with
    (first_index (λ a, negb (bool_decide (opaque_cmp (da_delivery_id a) id = Lt))) l).
  induction l as [|a l IH]; [done|]. rewrite !first_index_cons, IH.
  rewrite (cmp_opp id). by destruct (opaque_cmp id (da_delivery_id a)).
Qed.

(** One iteration of the scan on a full prefix. *)
Lemma pending_insert_take limit a l :
  pending_insert limit (take limit l) a = take limit (insert_by attempt_cmp a l).
Proof.
  unfold pending_insert. rewrite insert_position_first, first_index_take, insert_by_at.
  cbv zeta. rewrite <- bounded_insert by apply first_index_le. done.
Qed.

Lemma pending_fold limit p q :
  NoDup (da_delivery_id <$> p ++ q) →
  foldl (pending_insert limit) (take limit (sort_by attempt_cmp p)) q
  = take limit (sort_by attempt_cmp (p ++ q)).
Proof.
  revert p. induction q as [|a q IH]; intros p Hnd; [by rewrite app_nil_r|].
  cbn. rewrite pending_insert_take.
  change (insert_by attempt_cmp a (sort_by attempt_cmp p)) with (sort_by attempt_cmp (a :: p)).
  assert (a :: p ≡ₚ p ++ [a]) as Hp by by rewrite Permutation_app_comm.
  assert (NoDup (da_delivery_id <$> (p ++ [a]) ++ q)) as Hnd' by by rewrite <- app_assoc.
  unfold attempt_cmp. rewrite (sort_by_Permutation da_delivery_id opaque_cmp _ _ Hp).
  - fold attempt_cmp. rewrite IH by done. by rewrite <- app_assoc.
  - rewrite Hp. rewrite fmap_app in Hnd'. by apply NoDup_app in Hnd' as [? _].
Qed.

(** * Property *)

(** The bounded scan returns the [limit] smallest identifiers of the whole
    pending backlog in order, however the table enumerates its entries. *)
Theorem pending_scan_is_sorted_prefix (scope : TenantScope) (limit : nat)
    (values order : list DeliveryAttempt)
    (Hids : NoDup (da_delivery_id <$> List.filter (pending_attempt scope) values))
    (Horder : values ≡ₚ order) :
  pending_scan scope limit order
  = take limit (sort_by attempt_cmp (List.filter (pending_attempt scope) values)).
Proof.
  assert (List.filter (pending_attempt scope) values
    ≡ₚ List.filter (pending_attempt scope) order) as Hp by by apply filter_b_perm.
  unfold pending_scan. pose proof (pending_fold limit [] (List.filter (pending_attempt scope) order))
    as Hfold. change (sort_by attempt_cmp []) with (@nil DeliveryAttempt) in Hfold.
  cbn in Hfold. rewrite take_nil in Hfold. rewrite Hfold by by rewrite <- Hp.
  f_equal. symmetry. by apply (sort_by_Permutation da_delivery_id opaque_cmp).
Qed.

Definition queued (id : string) : DeliveryAttempt :=
  mk_attempt (oid id) store_scope (oid "m1") DsQueued.

Lemma pending_scan_is_sorted_prefix_witness :
  pending_scan store_scope 2 [queued "b"; hello_delivery; queued "c"; queued "a"]
  = [queued "a"; queued "b"].
Proof.
  rewrite (pending_scan_is_sorted_prefix store_scope 2
    [queued "c"; queued "a"; queued "b"; hello_delivery]
    [queued "b"; hello_delivery; queued "c"; queued "a"]).
  - vm_compute. reflexivity.
  - apply (bool_decide_unpack (NoDup _)). vm_compute. exact I.
  - apply (bool_decide_unpack (_ ≡ₚ _)). vm_compute. exact I.
Defined.
