(* ===== verification/StoreForwardTheorems.v ===== *)
(** Store-and-forward over every history of the store: attempt accounting, leases
    that exclude every other worker, completed jobs that stay completed, and the
    agreement between the due list and claiming. *)

From S2P Require Import Prelude Ids Framing Extension Message Delivery StoreForward Sync.
From S2P Require Import Store StoreForwardStore StoreSpec StoreDelivery.

Section jobs.
Context `{Sha256}.

(** * Attempt accounting *)

Definition attempt_link (j : StoreForwardJob) : option DeliveryId :=
  if (job_attempts_used j =? 0)%Z then None
  else Some (store_forward_delivery_id (job_scope j) (job_id j) (job_attempts_used j)).

Record job_ok (s : MemoryState) (k : RecordKey) (v : MemoryStoreForwardState) : Prop := {
  jok_key : k = job_key (sf_job v);
  jok_policy : validate_store_forward_policy (job_policy (sf_job v)) = Ok tt;
  jok_attempts : (0 ≤ job_attempts_used (sf_job v)
                  ≤ max_delivery_attempts (job_policy (sf_job v)))%Z;
  jok_budget : (max_delivery_attempts (job_policy (sf_job v))
                ≤ MAX_STORE_FORWARD_DELIVERY_ATTEMPTS)%Z;
  jok_link : job_last_delivery_id (sf_job v) = attempt_link (sf_job v);
  jok_tombstone : store_forward_tombstones s !! k = None;
}.

Definition jobs_ok (s : MemoryState) : Prop :=
  ∀ k v, store_forward_jobs s !! k = Some v → job_ok s k v.

Lemma job_ok_ext s s' k v :
  store_forward_tombstones s' !! k = store_forward_tombstones s !! k →
  job_ok s k v → job_ok s' k v.
Proof. intros E []. split; try done. by rewrite E. Qed.

Lemma validate_job_budget j :
  validate_store_forward_job j = Ok tt →
  validate_store_forward_policy (job_policy j) = Ok tt
  ∧ (max_delivery_attempts (job_policy j) ≤ MAX_STORE_FORWARD_DELIVERY_ATTEMPTS)%Z
  ∧ (job_attempts_used j ≤ max_delivery_attempts (job_policy j))%Z
  ∧ (job_attempts_used j = 0%Z → job_last_delivery_id j = None).
Proof.
  unfold validate_store_forward_job. intros Hv. apply bind_Ok in Hv as ([] & Hp & Hv).
  split; [done|]. unfold validate_store_forward_policy in Hp. res_inv. bool_norm. destruct_and?.
  split_and!; [lia|lia|]. intros E. destruct (job_last_delivery_id j) eqn:El; [|done].
  destruct_or?; naive_solver.
Qed.

Lemma effect_jobs_ok s s' : effect s s' → jobs_ok s → jobs_ok s'.
Proof.
  intros He Hok. effect_cases He; intros k0 v0 Hv0; cbn in Hv0;
    try (eapply job_ok_ext; [..|by apply Hok]; done).
  - apply lookup_insert_Some in Hv0 as [[<- <-]|[Hk0 Hv0]]; [|by eapply job_ok_ext, Hok].
    apply validate_job_budget in Hv as (Hp & Hb & Ha & Hlast).
    split; cbn; rewrite ?Hn in *; try done.
    rewrite Hlast by done. unfold attempt_link. by rewrite Hn.
  - apply lookup_insert_Some in Hv0 as [[<- <-]|[Hk0 Hv0]]; [|by eapply job_ok_ext, Hok].
    by destruct (Hok k v Hv).
  - apply lookup_insert_Some in Hv0 as [[<- <-]|[Hk0 Hv0]]; [|by eapply job_ok_ext, Hok].
    destruct (Hok k v Hv) as [K1 K2 K3 K4 K5 K6].
    assert (n = job_attempts_used (sf_job v) + 1)%Z as En.
    { unfold n, saturating_add_u16, u16_max, MAX_STORE_FORWARD_DELIVERY_ATTEMPTS in *. lia. }
    split; cbn; try done; [lia|]. unfold attempt_link. cbn.
    rewrite (proj2 (Z.eqb_neq n 0)) by lia. done.
  - apply lookup_insert_Some in Hv0 as [[<- <-]|[Hk0 Hv0]]; [|by eapply job_ok_ext, Hok].
    by destruct (Hok k v Hv).
  - apply lookup_delete_Some in Hv0 as [Hk0 Hv0].
    eapply job_ok_ext; [|by apply Hok]. cbn. by rewrite lookup_insert_ne.
Qed.

Lemma empty_jobs_ok : jobs_ok empty_memory.
Proof. intros k v Hv. unfold empty_memory in Hv. cbn in Hv. by rewrite lookup_empty in Hv. Qed.

Lemma history_jobs_ok cs : jobs_ok (run_calls cs empty_memory).
Proof. apply (history_invariant jobs_ok); [apply effect_jobs_ok|apply empty_jobs_ok]. Qed.

(** * Completion *)

Definition completed (s : MemoryState) (k : RecordKey) (f : bytes) : Prop :=
  store_forward_tombstones s !! k = Some f ∧ store_forward_jobs s !! k = None.

Lemma effect_completed k f s s' : effect s s' → completed s k f → completed s' k f.
Proof.
  intros He [Htomb Hnone]. rename k into k1. effect_cases He; try done; unfold completed; cbn.
  - split; [done|]. rewrite lookup_insert_ne; [done|]. intros <-. congruence.
  - split; [done|]. rewrite lookup_insert_ne; [done|]. congruence.
  - split; [done|]. rewrite lookup_insert_ne; [done|]. congruence.
  - split; [done|]. rewrite lookup_insert_ne; [done|]. congruence.
  - rewrite lookup_insert_ne by congruence. by rewrite lookup_delete_ne by congruence.
Qed.

(** * Leases *)

(** A call that does not come from the holder of the lease [(l, until)] while the
    lease is valid. *)
Definition foreign_call (l : StoreForwardLeaseId) (until : Z) (c : store_call) : Prop :=
  let other lease now :=
    lease_id lease ≠ l ∨ lease_until lease ≠ until ∨ (until ≤ now)%Z in
  match c with
  | ScClaim _ _ _ now _ => (now < until)%Z
  | ScRecord lease _ _ now => other lease now
  | ScReschedule lease _ now => other lease now
  | ScComplete lease now => other lease now
  | _ => True
  end.

Lemma append_evidence_jobs k e s :
  store_forward_jobs (append_delivery_evidence k e s).1 = store_forward_jobs s.
Proof. unfold append_delivery_evidence. op_unfold. by repeat (case_match; simplify_eq/=). Qed.

Lemma transition_jobs scope id from to e s :
  store_forward_jobs (transition_delivery scope id from to e s).1 = store_forward_jobs s.
Proof.
  unfold transition_delivery. op_unfold.
  destruct e as [e|]; [|by repeat (case_match; simplify_eq/=)].
  pose proof (append_evidence_jobs (record_key scope id) e s) as Hj.
  destruct (append_delivery_evidence (record_key scope id) e s) as [s' r]. cbn in Hj.
  by repeat (case_match; simplify_eq/=).
Qed.

Lemma require_lease_foreign v l until lease now :
  sf_lease v = Some (l, until) →
  lease_id lease ≠ l ∨ lease_until lease ≠ until ∨ (until ≤ now)%Z →
  require_lease v lease now = Err StConflict.
Proof.
  intros Hl Hf. unfold require_lease. rewrite Hl. apply reject_if_Err. split; [|done].
  bool_norm. naive_solver.
Qed.

Section leased.
Context (s : MemoryState) (k : RecordKey) (v : MemoryStoreForwardState).
Context (l : StoreForwardLeaseId) (until : Z).
Context (Hv : store_forward_jobs s !! k = Some v) (Hl : sf_lease v = Some (l, until)).

Lemma write_other k' v' :
  k' ≠ k → store_forward_jobs (with_jobs (<[k' := v']> (store_forward_jobs s)) s) !! k = Some v.
Proof. intros Hne. cbn. by rewrite lookup_insert_ne. Qed.

Lemma claim_foreign scope id lease now w :
  (now < until)%Z →
  store_forward_jobs (claim_store_forward_job scope id lease now w s).1 !! k = Some v.
Proof.
  intros Hnow. unfold claim_store_forward_job. op_unfold.
  destruct (decide (record_key scope id = k)) as [E|Hne].
  - rewrite E, Hv. cbv beta iota. unfold leased_at. rewrite Hl, (proj2 (Z.ltb_lt now until)) by done.
    repeat (case_match; simplify_eq/=); try done. by rewrite orb_true_r in *.
  - repeat (case_match; simplify_eq/=); try done. by rewrite lookup_insert_ne.
Qed.

Lemma record_foreign lease d n now :
  lease_id lease ≠ l ∨ lease_until lease ≠ until ∨ (until ≤ now)%Z →
  store_forward_jobs (record_store_forward_attempt lease d n now s).1 !! k = Some v.
Proof.
  intros Hf. unfold record_store_forward_attempt. op_unfold.
  destruct (decide (lease_key lease = k)) as [E|Hne].
  - by rewrite E, Hv, (require_lease_foreign v l until lease now Hl Hf).
  - repeat (case_match; simplify_eq/=); try done; by rewrite lookup_insert_ne.
Qed.

Lemma reschedule_foreign lease next now :
  lease_id lease ≠ l ∨ lease_until lease ≠ until ∨ (until ≤ now)%Z →
  store_forward_jobs (reschedule_store_forward_job lease next now s).1 !! k = Some v.
Proof.
  intros Hf. unfold reschedule_store_forward_job. op_unfold.
  destruct (decide (lease_key lease = k)) as [E|Hne].
  - by rewrite E, Hv, (require_lease_foreign v l until lease now Hl Hf).
  - repeat (case_match; simplify_eq/=); try done; by rewrite lookup_insert_ne.
Qed.

Lemma complete_foreign lease now :
  lease_id lease ≠ l ∨ lease_until lease ≠ until ∨ (until ≤ now)%Z →
  store_forward_jobs (complete_store_forward_job lease now s).1 !! k = Some v.
Proof.
  intros Hf. unfold complete_store_forward_job. op_unfold.
  destruct (decide (lease_key lease = k)) as [E|Hne].
  - by rewrite E, Hv, (require_lease_foreign v l until lease now Hl Hf).
  - repeat (case_match; simplify_eq/=); try done; by rewrite lookup_delete_ne.
Qed.

Lemma enqueue_keeps j :
  store_forward_jobs (persist_store_forward_job j s).1 !! k = Some v.
Proof.
  unfold persist_store_forward_job. op_unfold.
  repeat (case_match; simplify_eq/=); try done.
  rewrite lookup_insert_ne; [done|]. intros E. by rewrite E, Hv in *.
Qed.

Lemma foreign_call_keeps c :
  foreign_call l until c → store_forward_jobs (run_call c s) !! k = Some v.
Proof.
  destruct c; cbn; intros Hf; try (rewrite transition_jobs; done);
    auto using claim_foreign, record_foreign, reschedule_foreign, complete_foreign, enqueue_keeps.
  1-4,6-8: unfold persist_conversation, persist_communication_intent, persist_message_in_state,
    create_delivery_attempt, create_sync_session, transition_sync, record_sync_checkpoint;
    op_unfold; by repeat (case_match; simplify_eq/=).
  unfold record_delivery_evidence. op_unfold.
  repeat (case_match; simplify_eq/=); try done. by rewrite append_evidence_jobs.
Qed.
End leased.

Lemma foreign_calls_keep cs s k v l until :
  store_forward_jobs s !! k = Some v → sf_lease v = Some (l, until) →
  Forall (foreign_call l until) cs → store_forward_jobs (run_calls cs s) !! k = Some v.
Proof.
  intros Hv Hl Hcs. revert s Hv. induction Hcs as [|c cs Hc _ IH]; intros s Hv; [done|].
  cbn. apply IH. by apply (foreign_call_keeps s k v l until).
Qed.

(** * The due list *)

Section due.
Context (s : MemoryState) (Hok : jobs_ok s) (scope : TenantScope) (now : Z).
Context (Htyped : ∀ k v, store_forward_jobs s !! k = Some v → job_typed (sf_job v)).
Context (Hnow : is_i64 now) (Hroom : (now ≤ i64_max - MAX_STORE_FORWARD_LEASE_MS)%Z).

Definition due_entries : list (RecordKey * MemoryStoreForwardState) :=
  List.filter (due_job s scope now) (map_to_list (store_forward_jobs s)).

(** The conditions of a claim that do not depend on the requested lease. *)
Definition claimable (v : MemoryStoreForwardState) : Prop :=
  (job_next_attempt_at (sf_job v) ≤ now)%Z ∧ leased_at now v = false
  ∧ in_flight s scope (job_last_delivery_id (sf_job v)) = false.

Lemma elem_of_due k v :
  (k, v) ∈ due_entries ↔
  store_forward_jobs s !! k = Some v ∧ k = record_key scope (job_id (sf_job v)) ∧ claimable v.
Proof.
  unfold due_entries. rewrite list_elem_of_In, filter_In, <- list_elem_of_In, elem_of_map_to_list.
  split.
  - intros [Hv Hd]. destruct (Hok k v Hv) as [-> _ _ _ _ _]. unfold due_job, job_key in Hd.
    cbn in Hd. bool_norm. destruct Hd as [[[Hs%scope_key_inj Hn] Hlease] Hf].
    unfold claimable. unfold job_key in Hv. rewrite Hs in *. naive_solver.
  - intros (Hv & Hk & Hn & Hlease & Hf). split; [done|]. pose proof (jok_key _ _ _ (Hok k v Hv)) as E.
    rewrite E in Hk. unfold job_key in Hk. apply record_key_inj in Hk as [Hs _].
    rewrite E. unfold due_job, job_key. cbn. rewrite Hs, Hlease, Hf.
    rewrite bool_decide_eq_true_2 by done. cbn. by rewrite (proj2 (Z.ltb_ge _ _)).
Qed.

Definition lease_end (v : MemoryStoreForwardState) : Z :=
  (now + lease_duration_ms (job_policy (sf_job v)))%Z.

(** Asking for the full lease succeeds exactly on the claimable jobs. *)
Lemma claim_full_lease id lease v :
  store_forward_jobs s !! record_key scope id = Some v →
  (∃ s' L, claim_store_forward_job scope id lease now (lease_end v) s = (s', Ok (Some L)))
  ↔ claimable v.
Proof.
  intros Hv. pose proof (Htyped _ _ Hv) as [Ht _ _].
  pose proof (jok_policy _ _ _ (Hok _ _ Hv)) as Hp.
  apply validate_store_forward_policy_Ok in Hp as (_ & _ & _ & Hd); [|done].
  unfold claimable, lease_end, MAX_STORE_FORWARD_LEASE_MS, i64_max, is_i64 in *.
  unfold claim_store_forward_job. op_unfold. rewrite Hv.
  set (d := lease_duration_ms _) in *.
  rewrite (proj2 (i64_try_from_Some d d)) by (unfold i64_min, i64_max; lia).
  rewrite (proj2 (checked_add_i64_Some now d (now + d))) by (unfold i64_min, i64_max; lia).
  rewrite (proj2 (Z.leb_gt _ _)), Z.ltb_irrefl by lia. cbn.
  destruct (Z.ltb_spec now (job_next_attempt_at (sf_job v))), (leased_at now v),
    (in_flight s scope _); cbn; naive_solver lia.
Qed.

Lemma due_ids_NoDup : NoDup ((λ e, job_id (sf_job e.2)) <$> due_entries).
Proof.
  apply NoDup_fmap_2_strong.
  - intros [k v] [k' v'] [Hv [-> _]]%elem_of_due [Hv' [-> _]]%elem_of_due E. cbn in E.
    rewrite E in *. rewrite Hv in Hv'. by injection Hv' as ->.
  - apply NoDup_filter_b, NoDup_map_to_list.
Qed.
End due.
End jobs.

(** * A concrete history *)

#[local] Existing Instance toy_digest.

Definition hello_intent : CommunicationIntent :=
  mk_intent (oid "i1") store_scope (oid "bob-id") (str "hi")
    (mk_constraints [] [] None None None None) (mk_correlation (oid "corr") None None) [].
Definition hello_job : StoreForwardJob :=
  mk_job (oid "j1") store_scope (oid "i1") (oid "m1") (str "ciphertext") example_policy 0 1000 None.
Definition hello_lease : StoreForwardLease := mk_lease hello_job (oid "w1") 31000.

Definition enqueue_calls : list store_call :=
  [ScConversation hello_conversation; ScMessage quoting_message; ScIntent hello_intent;
   ScEnqueue hello_job].
Definition claim_calls : list store_call :=
  enqueue_calls ++ [ScClaim store_scope (oid "j1") (oid "w1") 1000 31000].

Definition hello_fingerprint : bytes := sha256 (store_forward_job_preimage hello_job).

(** * Properties *)

(** In every history a scheduled job never exceeds its attempt budget of at
    most 64, its last delivery is exactly the identifier derived from the number
    of attempts used, its policy stays valid, and it is not completed. *)
Theorem store_forward_attempts_are_accounted `{Sha256} (cs : list store_call) (k : RecordKey)
    (v : MemoryStoreForwardState)
    (Hv : store_forward_jobs (run_calls cs empty_memory) !! k = Some v) :
  job_ok (run_calls cs empty_memory) k v.
Proof. by apply history_jobs_ok. Qed.

Lemma store_forward_attempts_are_accounted_witness :
  job_ok (run_calls claim_calls empty_memory) (record_key store_scope (oid "j1"))
    (mk_sf_state hello_job hello_fingerprint (Some (oid "w1", 31000%Z))).
Proof.
  apply (store_forward_attempts_are_accounted claim_calls).
  vm_compute. reflexivity.
Defined.

(** While a lease is valid only its holder can touch the job: no call of
    another worker, no late call of the holder and no other store operation, in
    any number and order, changes the job or its lease. *)
Theorem store_forward_lease_excludes_others `{Sha256} (cs : list store_call) (s : MemoryState)
    (k : RecordKey) (v : MemoryStoreForwardState) (l : StoreForwardLeaseId) (until : Z)
    (Hv : store_forward_jobs s !! k = Some v) (Hl : sf_lease v = Some (l, until))
    (Hforeign : Forall (foreign_call l until) cs) :
  store_forward_jobs (run_calls cs s) !! k = Some v.
Proof. by apply (foreign_calls_keep cs s k v l until). Qed.

Lemma store_forward_lease_excludes_others_witness :
  let s := run_calls claim_calls empty_memory in
  let intruders :=
    [ScClaim store_scope (oid "j1") (oid "w2") 30999 50000;
     ScComplete (mk_lease hello_job (oid "w2") 31000) 2000;
     ScReschedule hello_lease 5000 31000] in
  store_forward_jobs (run_calls intruders s) !! record_key store_scope (oid "j1")
  = Some (mk_sf_state hello_job hello_fingerprint (Some (oid "w1", 31000%Z))).
Proof.
  apply (store_forward_lease_excludes_others
    [ScClaim store_scope (oid "j1") (oid "w2") 30999 50000;
     ScComplete (mk_lease hello_job (oid "w2") 31000) 2000;
     ScReschedule hello_lease 5000 31000]
    (run_calls claim_calls empty_memory) (record_key store_scope (oid "j1"))
    (mk_sf_state hello_job hello_fingerprint (Some (oid "w1", 31000%Z))) (oid "w1") 31000).
  - vm_compute. reflexivity.
  - reflexivity.
  - constructor; [cbn; lia|]. constructor; [left; discriminate|].
    constructor; [right; right; lia|constructor].
Defined.

(** A completed job stays completed: after any further calls its tombstone
    and the absence of the job remain, so enqueueing the same identifier again
    only reports a duplicate or a conflict. *)
Theorem completed_job_is_never_revived `{Sha256} (cs : list store_call) (s : MemoryState)
    (j : StoreForwardJob) (f : bytes)
    (Hdone : completed s (job_key j) f) :
  completed (run_calls cs s) (job_key j) f
  ∧ (persist_store_forward_job j (run_calls cs s)).2 ≠ Ok RecPersisted.
Proof.
  assert (completed (run_calls cs s) (job_key j) f) as Hc.
  { apply (history_invariant (λ s, completed s (job_key j) f)); [apply effect_completed|done]. }
  split; [done|]. destruct Hc as [Ht _]. unfold persist_store_forward_job. op_unfold.
  change (record_key (job_scope j) (job_id j)) with (job_key j). rewrite Ht.
  by repeat (case_match; simplify_eq/=).
Qed.

Lemma completed_job_is_never_revived_witness :
  let s := run_calls (claim_calls ++ [ScComplete hello_lease 2000]) empty_memory in
  completed (run_calls [ScEnqueue hello_job] s) (job_key hello_job) hello_fingerprint
  ∧ (persist_store_forward_job hello_job (run_calls [ScEnqueue hello_job] s)).2 ≠ Ok RecPersisted.
Proof.
  apply (completed_job_is_never_revived [ScEnqueue hello_job]
    (run_calls (claim_calls ++ [ScComplete hello_lease 2000]) empty_memory) hello_job).
  split; vm_compute; reflexivity.
Defined.

(** The due list and claiming agree: every listed job can be claimed for its
    full lease at that moment, the list has no repetition and at most the requested
    length, and a job that could be claimed is listed unless the page is full. *)
Theorem due_jobs_are_exactly_claimable `{Sha256} (cs : list store_call) (scope : TenantScope)
    (now : Z) (max_items : nat) (ids : list StoreForwardId) (lease : StoreForwardLeaseId)
    (Htyped : ∀ k v, store_forward_jobs (run_calls cs empty_memory) !! k = Some v →
              job_typed (sf_job v))
    (Hnow : is_i64 now) (Hroom : (now ≤ i64_max - MAX_STORE_FORWARD_LEASE_MS)%Z)
    (Hdue : (due_store_forward_jobs scope now max_items (run_calls cs empty_memory)).2 = Ok ids) :
  let s := run_calls cs empty_memory in
  let can_claim id v :=
    store_forward_jobs s !! record_key scope id = Some v
    ∧ ∃ s' L, claim_store_forward_job scope id lease now (lease_end now v) s = (s', Ok (Some L)) in
  length ids ≤ max_items ∧ NoDup ids
  ∧ (∀ id, id ∈ ids → ∃ v, can_claim id v)
  ∧ (∀ id v, can_claim id v → length ids < max_items → id ∈ ids).
Proof.
  intros s can_claim. pose proof (history_jobs_ok cs) as Hok. fold s in Hok, Hdue, Htyped.
  unfold due_store_forward_jobs in Hdue. revert Hdue. op_unfold.
  destruct (validate_store_forward_page_size _); [|done]. cbn. intros [= <-].
  set (sorted := sort_by _ _).
  assert (sorted ≡ₚ (due_entries s scope now).*2) as Hperm by apply sort_by_perm.
  assert (NoDup ((λ v, job_id (sf_job v)) <$> sorted)) as Hnd.
  { rewrite Hperm, <- list_fmap_compose. by apply due_ids_NoDup. }
  assert (∀ v, v ∈ sorted ↔ ∃ k, (k, v) ∈ due_entries s scope now) as Hin.
  { intros v. rewrite Hperm, list_elem_of_fmap. split.
    - intros ([k w] & -> & Hk). by exists k.
    - intros (k & Hk). by exists (k, v). }
  split_and!.
  - rewrite length_fmap, length_take. lia.
  - eapply sublist_NoDup; [exact Hnd|]. apply fmap_sublist, sublist_take.
  - intros id (v & -> & Hv)%list_elem_of_fmap.
    assert (v ∈ sorted) as Hs by (eapply elem_of_sublist; [exact Hv|apply sublist_take]).
    apply Hin in Hs as (k & (Hk & -> & Hcl)%elem_of_due); [|done].
    exists v. split; [done|]. by apply claim_full_lease.
  - intros id v [Hk Hcl] Hlen. rewrite length_fmap, length_take in Hlen.
    apply claim_full_lease in Hcl; [|done..]. apply list_elem_of_fmap.
    assert (id = job_id (sf_job v)) as Eid.
    { pose proof (jok_key _ _ _ (Hok _ _ Hk)) as E. unfold job_key in E.
      by apply record_key_inj in E as [_ ?]. }
    exists v. split; [done|]. rewrite take_ge by lia. apply Hin.
    exists (record_key scope id). apply elem_of_due; [done|]. by subst id.
Qed.

Lemma example_policy_typed : policy_typed example_policy.
Proof. split; vm_compute; (split; [discriminate|reflexivity]). Qed.

Lemma due_jobs_are_exactly_claimable_witness :
  let s := run_calls enqueue_calls empty_memory in
  let can_claim id v :=
    store_forward_jobs s !! record_key store_scope id = Some v
    ∧ ∃ s' L, claim_store_forward_job store_scope id (oid "w1") 2000 (lease_end 2000 v) s
              = (s', Ok (Some L)) in
  length [oid "j1"] ≤ 10 ∧ NoDup [oid "j1"]
  ∧ (∀ id, id ∈ [oid "j1"] → ∃ v, can_claim id v)
  ∧ (∀ id v, can_claim id v → length [oid "j1"] < 10 → id ∈ [oid "j1"]).
Proof.
  apply (due_jobs_are_exactly_claimable enqueue_calls store_scope 2000 10 [oid "j1"] (oid "w1")).
  - intros k v Hv.
    assert (store_forward_jobs (run_calls enqueue_calls empty_memory)
      = {[record_key store_scope (oid "j1") := mk_sf_state hello_job hello_fingerprint None]})
      as E by (vm_compute; reflexivity).
    rewrite E in Hv. apply lookup_singleton_Some in Hv as [_ <-].
    split; [exact example_policy_typed|split; vm_compute; congruence|split; vm_compute; congruence].
  - split; vm_compute; congruence.
  - vm_compute. congruence.
  - vm_compute. reflexivity.
Defined.

(** C38: a reschedule whose new time makes the job invalid reports an invalid record, but
    the stored job has already been rewritten with that time and its lease dropped: in the
    state it leaves, the holder can neither reschedule nor complete the job at any time. *)
Theorem rejected_reschedule_is_not_rolled_back `{Sha256} (lease : StoreForwardLease)
    (next now : Z) (s : MemoryState) (v : MemoryStoreForwardState) (e : StoreForwardError)
    (Hv : store_forward_jobs s !! lease_key lease = Some v)
    (Hl : require_lease v lease now = Ok tt)
    (He : validate_store_forward_job (set_job_next next (sf_job v)) = Err e) :
  let '(s', r) := reschedule_store_forward_job lease next now s in
  r = Err StInvalidRecord
  ∧ store_forward_jobs s' !! lease_key lease
    = Some (mk_sf_state (set_job_next next (sf_job v)) (sf_fingerprint v) None)
  ∧ (∀ next' now', (reschedule_store_forward_job lease next' now' s').2 = Err StConflict)
  ∧ (∀ now', (complete_store_forward_job lease now' s').2 = Err StConflict).
Proof.
  unfold reschedule_store_forward_job, complete_store_forward_job, write_job.
  op_unfold. rewrite Hv. cbn. rewrite Hl. cbn. rewrite He. cbn.
  rewrite lookup_insert_eq. by split_and!.
Qed.

Lemma rejected_reschedule_is_not_rolled_back_witness :
  let s := run_calls claim_calls empty_memory in
  let '(s', r) := reschedule_store_forward_job hello_lease 900001 2000 s in
  r = Err StInvalidRecord
  ∧ (store_forward_jobs s' !! lease_key hello_lease) ≫= sf_lease = None.
Proof.
  pose proof (rejected_reschedule_is_not_rolled_back hello_lease 900001 2000
    (run_calls claim_calls empty_memory)
    (mk_sf_state hello_job hello_fingerprint (Some (oid "w1", 31000%Z))) SfInvalidExpiry
    ltac:(by vm_compute) ltac:(by vm_compute) ltac:(by vm_compute)) as Hr.
  cbv zeta. destruct (reschedule_store_forward_job _ _ _ _) as [s' r].
  destruct Hr as (-> & -> & _). done.
Defined.
