(* ===== verification/SyncTheorems.v ===== *)
(** Synchronisation sessions over every history of the store: the checkpoint journal
    is a gapless monotone sequence, and a finished session never changes again. *)

From S2P Require Import Prelude Ids Framing Extension Message Delivery StoreForward Sync.
From S2P Require Import Store StoreForwardStore StoreSpec StoreDelivery.

Section sync.
Context `{Sha256}.

(** Generations count from one; applied items never decrease. *)
Definition journal_complete (j : list SyncCheckpoint) : Prop :=
  ck_generation <$> j = Z.of_nat <$> seq 1 (length j)
  ∧ StronglySorted (λ c c', ck_applied_items c ≤ ck_applied_items c')%Z j.

Record sync_ok (s : MemoryState) (k : RecordKey) (y : SyncSession) : Prop := {
  yok_key : k = session_key y;
  yok_journal : journal_complete (checkpoints_of s k);
  yok_bound : Forall (λ c, ck_session_id c = sy_session_id y ∧ ck_scope c = sy_scope y)
                (checkpoints_of s k);
}.

Lemma sync_ok_ext s s' k y :
  checkpoints_of s' k = checkpoints_of s k → sync_ok s k y → sync_ok s' k y.
Proof. intros E []. split; by rewrite ?E. Qed.

Lemma checkpoints_insert s k k' j :
  checkpoints_of (with_sync_checkpoints (<[k := j]> (sync_checkpoints s)) s) k'
  = if decide (k = k') then j else checkpoints_of s k'.
Proof.
  unfold checkpoints_of. cbn. case_decide as E; subst.
  - by rewrite lookup_insert_eq.
  - by rewrite lookup_insert_ne.
Qed.

Lemma validate_sync_checkpoint_Ok y p c u :
  validate_sync_checkpoint y p c = Ok u →
  ck_session_id c = sy_session_id y ∧ ck_scope c = sy_scope y
  ∧ is_terminal_sync_state (sy_state y) = false
  ∧ match p with
    | None => ck_generation c = 1%Z
    | Some p => ck_generation c = (ck_generation p + 1)%Z
                ∧ (ck_applied_items p ≤ ck_applied_items c)%Z
    end.
Proof.
  unfold validate_sync_checkpoint. intros Hv. destruct p; res_inv; bool_norm;
    destruct_and?; repeat match goal with H : checked_add_u64 _ _ = Some _ |- _ =>
      apply checked_add_u64_Some in H as [-> _] end; split_and!; try done;
    try (destruct (sy_state y); naive_solver).
Qed.

(** The journal stays complete when a validated checkpoint is appended. *)
Lemma journal_complete_snoc y j c :
  journal_complete j → validate_sync_checkpoint y (last j) c = Ok tt →
  journal_complete (j ++ [c]).
Proof.
  intros [Hg Hs] (_ & _ & _ & Hv)%validate_sync_checkpoint_Ok. split.
  - rewrite length_app, fmap_app, Hg. cbn. rewrite Nat.add_1_r, seq_S, fmap_app. cbn. do 2 f_equal.
    destruct (last j) as [p|] eqn:El.
    + destruct Hv as [-> _]. apply last_Some in El as [l ->].
      rewrite fmap_app, length_app, Nat.add_1_r, seq_S, fmap_app in Hg. cbn in Hg.
      apply app_inj_tail in Hg as [_ ->]. rewrite length_app. cbn. lia.
    + apply last_None in El as ->. by rewrite Hv.
  - apply StronglySorted_snoc; [done|]. destruct (last j) as [p|] eqn:El.
    + destruct Hv as [_ Hle]. pose proof (StronglySorted_last _ _ _ Hs El) as Hl.
      eapply Forall_impl; [exact Hl|]. intros x [->|?]; [done|]. cbn in *. lia.
    + apply last_None in El as ->. constructor.
Qed.

(** Without a session there are no checkpoints. *)
Definition sync_ok_at (s : MemoryState) (k : RecordKey) : Prop :=
  match sync_sessions s !! k with
  | Some y => sync_ok s k y
  | None => checkpoints_of s k = []
  end.

Definition syncs_ok (s : MemoryState) : Prop := ∀ k, sync_ok_at s k.

(** A step that leaves the session and the journal at [k] alone keeps their invariant. *)
Lemma sync_ok_at_ext s s' k :
  sync_sessions s' !! k = sync_sessions s !! k → checkpoints_of s' k = checkpoints_of s k →
  sync_ok_at s k → sync_ok_at s' k.
Proof.
  unfold sync_ok_at. intros -> E. destruct (sync_sessions s !! k); [by apply sync_ok_ext|congruence].
Qed.

Lemma effect_syncs_ok s s' : effect s s' → syncs_ok s → syncs_ok s'.
Proof.
  intros He Hok k0. specialize (Hok k0). effect_cases He; try (by apply (sync_ok_at_ext s)).
  - destruct (decide (session_key y = k0)) as [<-|Hk].
    + unfold sync_ok_at in *. cbn. rewrite Hy in Hok. rewrite lookup_insert_eq.
      split; [done|..];
        change (checkpoints_of (with_sync_sessions _ s)) with (checkpoints_of s);
        rewrite Hok; [by split; [|constructor]|constructor].
    + apply (sync_ok_at_ext s); [by apply lookup_insert_ne|done..].
  - destruct (decide (k = k0)) as [<-|Hk].
    + unfold sync_ok_at in *. cbn. rewrite Hy in Hok. rewrite lookup_insert_eq. by destruct Hok.
    + apply (sync_ok_at_ext s); [by apply lookup_insert_ne|done..].
  - apply (sync_ok_at_ext s); [done| |done]. rewrite checkpoints_insert. by case_decide; subst.
  - destruct (decide (k = k0)) as [<-|Hk].
    + unfold sync_ok_at in *. cbn. rewrite Hy in *. destruct Hok as [K1 K2 K3].
      split; rewrite ?checkpoints_insert, ?decide_True by done; [done|by eapply journal_complete_snoc|].
      apply validate_sync_checkpoint_Ok in Hv as (? & ? & _).
      apply Forall_app. by split; [|constructor].
    + apply (sync_ok_at_ext s); [done| |done]. by rewrite checkpoints_insert, decide_False.
Qed.

Lemma history_syncs_ok cs : syncs_ok (run_calls cs empty_memory).
Proof.
  apply (history_invariant syncs_ok); [apply effect_syncs_ok|].
  intros k. unfold sync_ok_at, empty_memory, checkpoints_of. cbn. by rewrite !lookup_empty.
Qed.

(** ** Finished sessions *)

Definition finished (k : RecordKey) (y : SyncSession) (j : list SyncCheckpoint)
    (s : MemoryState) : Prop :=
  sync_sessions s !! k = Some y ∧ checkpoints_of s k = j.

Lemma effect_finished k y j s s' :
  is_terminal_sync_state (sy_state y) = true →
  effect s s' → finished k y j s → finished k y j s'.
Proof.
  intros Hterm He [Hy0 Hj0]. rename k into k0, y into y0, j into j0.
  effect_cases He; try done; unfold finished; cbn.
  - rewrite lookup_insert_ne by congruence. done.
  - split; [|done]. rewrite lookup_insert_ne; [done|]. intros ->.
    rewrite Hy0 in Hy. injection Hy as ->. by destruct (sy_state y), st.
  - split; [done|]. rewrite checkpoints_insert. by case_decide; subst.
  - split; [done|]. rewrite checkpoints_insert. case_decide; [|done]. subst.
    rewrite Hy0 in Hy. injection Hy as ->.
    apply validate_sync_checkpoint_Ok in Hv as (_ & _ & Ht & _). congruence.
Qed.

(** Whatever sequence of store calls is made, accepted or rejected, every stored
    synchronisation session lives under its own scope and id, and its checkpoint journal
    is exactly the generations one to its length, with applied items that never
    decrease, each checkpoint naming that session and scope. *)
Theorem sync_checkpoints_are_gapless (cs : list store_call) (k : RecordKey) (y : SyncSession) :
  let s := run_calls cs empty_memory in
  sync_sessions s !! k = Some y →
  k = session_key y
  ∧ ck_generation <$> checkpoints_of s k = Z.of_nat <$> seq 1 (length (checkpoints_of s k))
  ∧ StronglySorted (λ c c', ck_applied_items c ≤ ck_applied_items c')%Z (checkpoints_of s k)
  ∧ Forall (λ c, ck_session_id c = sy_session_id y ∧ ck_scope c = sy_scope y)
      (checkpoints_of s k).
Proof.
  intros s Hy. pose proof (history_syncs_ok cs k) as Hok. unfold sync_ok_at in Hok.
  fold s in Hok. rewrite Hy in Hok. by destruct Hok as [? [] ?].
Qed.

(** Once a synchronisation session is completed, cancelled or failed, no later
    sequence of store calls changes the session or its checkpoint journal. *)
Theorem finished_sync_session_is_final (cs : list store_call) (s : MemoryState)
    (k : RecordKey) (y : SyncSession) :
  sync_sessions s !! k = Some y → is_terminal_sync_state (sy_state y) = true →
  sync_sessions (run_calls cs s) !! k = Some y
  ∧ checkpoints_of (run_calls cs s) k = checkpoints_of s k.
Proof.
  intros Hy Ht. apply (history_invariant (finished k y (checkpoints_of s k))); [|done].
  intros s1 s2. by apply effect_finished.
Qed.
End sync.

(** * Witnesses *)

#[local] Existing Instance toy_digest.

Definition nightly_sync : SyncSession :=
  mk_sync_session (oid "y1") store_scope (oid "e1") (oid "e2") SlDeviceNode
    (mk_selection SmFull []) SsPrepared.
Definition nightly_checkpoint (n items : Z) : SyncCheckpoint :=
  mk_checkpoint (oid "y1") store_scope n [1%Z] items.
Definition nightly_calls : list store_call :=
  [ScSyncCreate nightly_sync; ScSyncTransition store_scope (oid "y1") SsPrepared SsActive;
   ScCheckpoint (nightly_checkpoint 1 10); ScCheckpoint (nightly_checkpoint 2 25)].

Lemma sync_checkpoints_are_gapless_witness :
  let s := run_calls nightly_calls empty_memory in
  length (checkpoints_of s (session_key nightly_sync)) = 2
  ∧ session_key nightly_sync = session_key (set_sync_state SsActive nightly_sync).
Proof.
  split; [by vm_compute|].
  by apply (sync_checkpoints_are_gapless nightly_calls (session_key nightly_sync)
              (set_sync_state SsActive nightly_sync)).
Defined.

Lemma finished_sync_session_is_final_witness :
  let s := run_calls (nightly_calls ++ [ScSyncTransition store_scope (oid "y1") SsActive SsCompleted])
             empty_memory in
  checkpoints_of (run_calls [ScCheckpoint (nightly_checkpoint 3 30)] s) (session_key nightly_sync)
  = checkpoints_of s (session_key nightly_sync).
Proof.
  by apply (finished_sync_session_is_final _ _ (session_key nightly_sync)
              (set_sync_state SsCompleted nightly_sync)).
Defined.
