(* ===== verification/Call.v ===== *)
(** Call signalling: the transport-independent call session state machine
    (crates/ucr-model/src/call.rs, crates/ucr-protocol/src/call.rs).

    A Rust function that takes [&mut CallSession] and returns a [Result] is a
    function to [result CallSession]: its only caller discards the mutated
    session on an error.  SHA-256 is a parameter of the two fingerprints. *)

From S2P Require Import Prelude Ids.

(** * Data *)

Inductive CallSignallingState :=
| CsInviting | CsRinging | CsActive | CsReconnecting | CsTerminated.
#[global] Instance CallSignallingState_eq_dec : EqDecision CallSignallingState.
Proof. solve_decision. Defined.

Inductive CallParticipantState :=
| CpInvited | CpRinging | CpAccepted | CpRejected | CpBusy | CpLeft.
#[global] Instance CallParticipantState_eq_dec : EqDecision CallParticipantState.
Proof. solve_decision. Defined.

Inductive CallTerminationReason :=
| CtRejected | CtBusy | CtCancelled | CtTimedOut | CtCompleted | CtFailed.
#[global] Instance CallTerminationReason_eq_dec : EqDecision CallTerminationReason.
Proof. solve_decision. Defined.

Inductive CallReconnectPhase := CrStarted | CrRestored.
#[global] Instance CallReconnectPhase_eq_dec : EqDecision CallReconnectPhase.
Proof. solve_decision. Defined.

Inductive CallParticipantUpdateKind := CuAdd | CuRemove.
#[global] Instance CallParticipantUpdateKind_eq_dec : EqDecision CallParticipantUpdateKind.
Proof. solve_decision. Defined.

Record CallParticipant := mk_participant {
  cp_principal : PrincipalRef;
  cp_state : CallParticipantState;
  cp_joined_revision : Z; (* u64 *)
  cp_left_revision : option Z; (* Option<u64> *)
}.
#[global] Instance CallParticipant_eq_dec : EqDecision CallParticipant.
Proof. solve_decision. Defined.

Record CallSession := mk_session {
  cs_scope : TenantScope;
  cs_call_id : CallId;
  cs_conversation : ConversationRef;
  cs_initiated_by : PrincipalRef;
  cs_participants : list CallParticipant;
  cs_signalling_state : CallSignallingState;
  cs_reconnecting_participant : option PrincipalRef;
  cs_media_negotiation_ref : option OpaqueId;
  cs_media_negotiation_generation : Z; (* u64 *)
  cs_replication_generation : Z; (* u64 *)
  cs_revision : Z; (* u64 *)
  cs_termination_reason : option CallTerminationReason;
}.
#[global] Instance CallSession_eq_dec : EqDecision CallSession.
Proof. solve_decision. Defined.

Inductive CallSignalKind :=
| SkRinging
| SkAccept
| SkReject
| SkBusy
| SkCancel
| SkTimeout
| SkReconnect (phase : CallReconnectPhase)
| SkParticipantUpdate (participant : PrincipalRef) (kind : CallParticipantUpdateKind)
| SkMediaRenegotiation (negotiation_ref : OpaqueId)
| SkTerminate (reason : CallTerminationReason).
#[global] Instance CallSignalKind_eq_dec : EqDecision CallSignalKind.
Proof. solve_decision. Defined.

Record CallSignal := mk_signal {
  sg_event_id : EventId;
  sg_scope : TenantScope;
  sg_call_id : CallId;
  sg_expected_revision : Z; (* u64 *)
  sg_kind : CallSignalKind;
}.
#[global] Instance CallSignal_eq_dec : EqDecision CallSignal.
Proof. solve_decision. Defined.

Inductive CallSignallingError :=
| CeInvalidConversationKind | CeInvalidSession | CeInvalidParticipant
| CeDuplicateParticipant | CeTooManyParticipants | CeScopeMismatch | CeCallMismatch
| CeRevisionMismatch | CePermissionDenied | CeInvalidTransition
| CeParticipantNotActive | CeParticipantAlreadyExists | CeWouldRemoveInitiator
| CeOverflow.
#[global] Instance CallSignallingError_eq_dec : EqDecision CallSignallingError.
Proof. solve_decision. Defined.

Definition MAX_CALL_PARTICIPANTS : Z := 1024.

(** Field assignments [session.field = value]. *)
Definition set_participants (l : list CallParticipant) (s : CallSession) : CallSession :=
  mk_session (cs_scope s) (cs_call_id s) (cs_conversation s) (cs_initiated_by s) l
    (cs_signalling_state s) (cs_reconnecting_participant s) (cs_media_negotiation_ref s)
    (cs_media_negotiation_generation s) (cs_replication_generation s) (cs_revision s)
    (cs_termination_reason s).

Definition set_signalling (st : CallSignallingState) (s : CallSession) : CallSession :=
  mk_session (cs_scope s) (cs_call_id s) (cs_conversation s) (cs_initiated_by s)
    (cs_participants s) st (cs_reconnecting_participant s) (cs_media_negotiation_ref s)
    (cs_media_negotiation_generation s) (cs_replication_generation s) (cs_revision s)
    (cs_termination_reason s).

Definition set_reconnecting (r : option PrincipalRef) (s : CallSession) : CallSession :=
  mk_session (cs_scope s) (cs_call_id s) (cs_conversation s) (cs_initiated_by s)
    (cs_participants s) (cs_signalling_state s) r (cs_media_negotiation_ref s)
    (cs_media_negotiation_generation s) (cs_replication_generation s) (cs_revision s)
    (cs_termination_reason s).

Definition set_media (r : option OpaqueId) (g : Z) (s : CallSession) : CallSession :=
  mk_session (cs_scope s) (cs_call_id s) (cs_conversation s) (cs_initiated_by s)
    (cs_participants s) (cs_signalling_state s) (cs_reconnecting_participant s) r g
    (cs_replication_generation s) (cs_revision s) (cs_termination_reason s).

Definition set_counters (revision generation : Z) (s : CallSession) : CallSession :=
  mk_session (cs_scope s) (cs_call_id s) (cs_conversation s) (cs_initiated_by s)
    (cs_participants s) (cs_signalling_state s) (cs_reconnecting_participant s)
    (cs_media_negotiation_ref s) (cs_media_negotiation_generation s) generation revision
    (cs_termination_reason s).

Definition set_termination (r : option CallTerminationReason) (s : CallSession) : CallSession :=
  mk_session (cs_scope s) (cs_call_id s) (cs_conversation s) (cs_initiated_by s)
    (cs_participants s) (cs_signalling_state s) (cs_reconnecting_participant s)
    (cs_media_negotiation_ref s) (cs_media_negotiation_generation s)
    (cs_replication_generation s) (cs_revision s) r.

(** [participant.state = st; participant.left_revision = lr]. *)
Definition set_participant_state (st : CallParticipantState) (lr : option Z)
    (p : CallParticipant) : CallParticipant :=
  mk_participant (cp_principal p) st (cp_joined_revision p) lr.

(** * Canonical sessions *)

Definition is_call_conversation_kind (kind : ConversationKind) : bool :=
  match kind with CkDirect | CkPrivateGroup | CkPublicGroup => true | _ => false end.

Definition is_group_kind (kind : ConversationKind) : bool :=
  match kind with CkPrivateGroup | CkPublicGroup => true | _ => false end.

Definition compare_participants (left right : CallParticipant) : comparison :=
  key_cmp cp_principal principal_cmp left right.

(** [participant] and [participant_mut]. *)
Definition participant (s : CallSession) (principal : PrincipalRef) : option CallParticipant :=
  List.find (λ v, bool_decide (cp_principal v = principal)) (cs_participants s).

Definition participant_mut (s : CallSession) (principal : PrincipalRef) :
    result CallSignallingError (nat * CallParticipant) :=
  i ← ok_or (position (λ v, bool_decide (cp_principal v = principal)) (cs_participants s))
        CeParticipantNotActive;
  v ← ok_or (cs_participants s !! i) CeParticipantNotActive;
  Ok (i, v).

(** Writing through the reference [participant_mut] returned. *)
Definition write_participant (i : nat) (v : CallParticipant) (s : CallSession) : CallSession :=
  set_participants (<[i := v]> (cs_participants s)) s.

Definition live_state (st : CallParticipantState) : bool :=
  match st with CpInvited | CpRinging | CpAccepted => true | _ => false end.

Definition pending_state (st : CallParticipantState) : bool :=
  match st with CpInvited | CpRinging => true | _ => false end.

Definition validate_participant (p : CallParticipant) (session_revision : Z) :
    result CallSignallingError unit :=
  reject_if (session_revision <? cp_joined_revision p)%Z CeInvalidParticipant ;;
  match cp_state p with
  | CpLeft =>
      left ← ok_or (cp_left_revision p) CeInvalidParticipant;
      reject_if ((left <? cp_joined_revision p)%Z || (session_revision <? left)%Z)
        CeInvalidParticipant
  | _ => reject_if (bool_decide (is_Some (cp_left_revision p))) CeInvalidParticipant
  end.

(** [state == Accepted && left_revision.is_none()], negated in the code. *)
Definition accepted_in (p : CallParticipant) : bool :=
  bool_decide (cp_state p = CpAccepted) && bool_decide (cp_left_revision p = None).

Definition remote_participants (s : CallSession) : list CallParticipant :=
  List.filter (λ v, negb (bool_decide (cp_principal v = cs_initiated_by s)))
    (cs_participants s).

(** The last [match] of [canonical_call_session], arm by arm. *)
Definition lifecycle_invalid (s : CallSession) : bool :=
  let remote := remote_participants s in
  let any_accepted := existsb (λ v, bool_decide (cp_state v = CpAccepted)) remote in
  let any_ringing := existsb (λ v, bool_decide (cp_state v = CpRinging)) remote in
  let any_pending := existsb (λ v, pending_state (cp_state v)) remote in
  let has_reason := bool_decide (is_Some (cs_termination_reason s)) in
  match cs_signalling_state s with
  | CsInviting => (any_accepted || any_ringing) || negb any_pending || has_reason
  | CsRinging => (any_accepted || negb any_ringing) || has_reason
  | CsActive | CsReconnecting => negb any_accepted || has_reason
  | CsTerminated => negb has_reason
  end.

Definition reconnect_check (s : CallSession) : result CallSignallingError unit :=
  match cs_signalling_state s with
  | CsReconnecting =>
      reconnecting ← ok_or (cs_reconnecting_participant s) CeInvalidSession;
      value ← ok_or (participant s reconnecting) CeInvalidSession;
      reject_if (negb (accepted_in value)) CeInvalidSession
  | _ => reject_if (bool_decide (is_Some (cs_reconnecting_participant s))) CeInvalidSession
  end.

Definition media_invalid (s : CallSession) : bool :=
  let g := cs_media_negotiation_generation s in
  let r := bool_decide (is_Some (cs_media_negotiation_ref s)) in
  negb (((g =? 0)%Z && negb r) || ((1 <=? g)%Z && r)).

Definition canonical_call_session (session : CallSession) :
    result CallSignallingError CallSession :=
  reject_if (negb (is_call_conversation_kind (conversation_kind (cs_conversation session))))
    CeInvalidConversationKind ;;
  reject_if (len (cs_participants session) <? 2)%Z CeInvalidSession ;;
  reject_if (MAX_CALL_PARTICIPANTS <? len (cs_participants session))%Z
    CeTooManyParticipants ;;
  let canonical := set_participants
    (sort_by compare_participants (cs_participants session)) session in
  reject_if (windows_any (λ a b, bool_decide (cp_principal a = cp_principal b))
    (cs_participants canonical)) CeDuplicateParticipant ;;
  try_for_each (λ p, validate_participant p (cs_revision canonical))
    (cs_participants canonical) ;;
  initiator ← ok_or (participant canonical (cs_initiated_by canonical)) CeInvalidSession;
  reject_if (negb (accepted_in initiator)) CeInvalidSession ;;
  reject_if (media_invalid canonical) CeInvalidSession ;;
  reconnect_check canonical ;;
  reject_if (lifecycle_invalid canonical) CeInvalidSession ;;
  Ok canonical.

Definition canonical_call_creation (session : CallSession) (actor_scope : TenantScope)
    (actor : PrincipalRef) : result CallSignallingError CallSession :=
  reject_if (negb (bool_decide (actor_scope = cs_scope session))) CeScopeMismatch ;;
  reject_if (negb (bool_decide (actor = cs_initiated_by session))) CePermissionDenied ;;
  reject_if (negb (cs_revision session =? 0)%Z
             || negb (cs_replication_generation session =? 0)%Z
             || negb (cs_media_negotiation_generation session =? 0)%Z
             || bool_decide (is_Some (cs_media_negotiation_ref session))
             || bool_decide (is_Some (cs_reconnecting_participant session))
             || bool_decide (is_Some (cs_termination_reason session))
             || negb (bool_decide (cs_signalling_state session = CsInviting)))
    CeInvalidSession ;;
  canonical ← canonical_call_session session;
  try_for_each (λ p,
    let expected := if bool_decide (cp_principal p = cs_initiated_by canonical)
                    then CpAccepted else CpInvited in
    reject_if (negb (bool_decide (cp_state p = expected))
               || negb (cp_joined_revision p =? 0)%Z
               || bool_decide (is_Some (cp_left_revision p))) CeInvalidParticipant)
    (cs_participants canonical) ;;
  Ok canonical.

Definition active_call_participant (s : CallSession) (actor : PrincipalRef) : bool :=
  match participant s actor with
  | Some v => live_state (cp_state v) && bool_decide (cp_left_revision v = None)
  | None => false
  end.

(** * Signal handlers *)

Definition terminate (reason : CallTerminationReason) (s : CallSession) : CallSession :=
  set_termination (Some reason) (set_signalling CsTerminated (set_reconnecting None s)).

Definition settle_if_no_viable_remote (reason : CallTerminationReason) (s : CallSession) :
    CallSession :=
  let remote v := negb (bool_decide (cp_principal v = cs_initiated_by s)) in
  if negb (existsb (λ v, remote v && live_state (cp_state v)) (cs_participants s)) then
    terminate reason s
  else if existsb (λ v, remote v && bool_decide (cp_state v = CpAccepted))
            (cs_participants s) then
    if bool_decide (cs_signalling_state s = CsReconnecting) then s
    else set_signalling CsActive s
  else if existsb (λ v, bool_decide (cp_state v = CpRinging)) (cs_participants s) then
    set_signalling CsRinging (set_reconnecting None s)
  else
    set_signalling CsInviting (set_reconnecting None s).

Definition apply_ringing (s : CallSession) (actor : PrincipalRef) :
    result CallSignallingError CallSession :=
  '(i, v) ← participant_mut s actor;
  reject_if (bool_decide (cp_principal v = cs_initiated_by s)
             || negb (bool_decide (cp_state v = CpInvited))) CeInvalidTransition ;;
  let s := write_participant i (set_participant_state CpRinging (cp_left_revision v) v) s in
  match cs_signalling_state s with
  | CsActive | CsReconnecting => Ok s
  | _ => Ok (set_signalling CsRinging s)
  end.

Definition apply_accept (s : CallSession) (actor : PrincipalRef) :
    result CallSignallingError CallSession :=
  '(i, v) ← participant_mut s actor;
  reject_if (bool_decide (cp_principal v = cs_initiated_by s)
             || negb (pending_state (cp_state v))) CeInvalidTransition ;;
  let s := write_participant i (set_participant_state CpAccepted (cp_left_revision v) v) s in
  if bool_decide (cs_signalling_state s = CsReconnecting) then Ok s
  else Ok (set_signalling CsActive s).

Definition reject_or_busy (s : CallSession) (actor : PrincipalRef)
    (state : CallParticipantState) : result CallSignallingError CallSession :=
  '(i, v) ← participant_mut s actor;
  reject_if (bool_decide (cp_principal v = cs_initiated_by s)
             || negb (pending_state (cp_state v))) CeInvalidTransition ;;
  Ok (write_participant i (set_participant_state state (cp_left_revision v) v) s).

Definition apply_decline (s : CallSession) (actor : PrincipalRef)
    (participant_state : CallParticipantState) (reason : CallTerminationReason) :
    result CallSignallingError CallSession :=
  s ← reject_or_busy s actor participant_state;
  Ok (settle_if_no_viable_remote reason s).

Definition require_initiator_without_remote_accept (s : CallSession) (actor : PrincipalRef) :
    result CallSignallingError unit :=
  reject_if (negb (bool_decide (actor = cs_initiated_by s))
    || existsb (λ v, negb (bool_decide (cp_principal v = cs_initiated_by s))
                     && bool_decide (cp_state v = CpAccepted)) (cs_participants s))
    CePermissionDenied.

Definition apply_pre_accept_termination (s : CallSession) (actor : PrincipalRef)
    (reason : CallTerminationReason) : result CallSignallingError CallSession :=
  require_initiator_without_remote_accept s actor ;;
  Ok (terminate reason s).

Definition apply_reconnect (s : CallSession) (actor : PrincipalRef)
    (phase : CallReconnectPhase) : result CallSignallingError CallSession :=
  value ← ok_or (participant s actor) CePermissionDenied;
  reject_if (negb (bool_decide (cp_state value = CpAccepted))) CePermissionDenied ;;
  match phase, cs_signalling_state s with
  | CrStarted, CsActive =>
      Ok (set_signalling CsReconnecting (set_reconnecting (Some actor) s))
  | CrRestored, CsReconnecting =>
      reject_if (negb (bool_decide (cs_reconnecting_participant s = Some actor)))
        CePermissionDenied ;;
      Ok (set_signalling CsActive (set_reconnecting None s))
  | _, _ => Err CeInvalidTransition
  end.

Definition add_participant (s : CallSession) (actor target : PrincipalRef) (revision : Z) :
    result CallSignallingError CallSession :=
  reject_if (negb (bool_decide (actor = cs_initiated_by s))) CePermissionDenied ;;
  reject_if (MAX_CALL_PARTICIPANTS <=? len (cs_participants s))%Z CeTooManyParticipants ;;
  reject_if (bool_decide (is_Some (participant s target))) CeParticipantAlreadyExists ;;
  Ok (set_participants
        (cs_participants s ++ [mk_participant target CpInvited revision None]) s).

Definition remove_participant (s : CallSession) (actor target : PrincipalRef) (revision : Z) :
    result CallSignallingError CallSession :=
  reject_if (bool_decide (target = cs_initiated_by s)) CeWouldRemoveInitiator ;;
  reject_if (negb (bool_decide (actor = cs_initiated_by s))
             && negb (bool_decide (actor = target))) CePermissionDenied ;;
  '(i, v) ← participant_mut s target;
  reject_if (negb (live_state (cp_state v))) CeInvalidTransition ;;
  let s := write_participant i (set_participant_state CpLeft (Some revision) v) s in
  let s := if bool_decide (cs_reconnecting_participant s = Some target)
           then set_signalling CsActive (set_reconnecting None s) else s in
  Ok (settle_if_no_viable_remote CtCompleted s).

Definition apply_participant_update (s : CallSession) (actor target : PrincipalRef)
    (kind : CallParticipantUpdateKind) (revision : Z) :
    result CallSignallingError CallSession :=
  match kind with
  | CuAdd => add_participant s actor target revision
  | CuRemove => remove_participant s actor target revision
  end.

Definition apply_media_renegotiation (s : CallSession) (actor : PrincipalRef)
    (negotiation_ref : OpaqueId) : result CallSignallingError CallSession :=
  let accepted := match participant s actor with
                  | Some v => bool_decide (cp_state v = CpAccepted)
                  | None => false
                  end in
  reject_if (negb (bool_decide (cs_signalling_state s = CsActive)
                   || bool_decide (cs_signalling_state s = CsReconnecting))
             || negb accepted) CePermissionDenied ;;
  g ← ok_or (checked_add_u64 (cs_media_negotiation_generation s) 1) CeOverflow;
  Ok (set_media (Some negotiation_ref) g s).

Definition apply_explicit_termination (s : CallSession) (actor : PrincipalRef)
    (reason : CallTerminationReason) : result CallSignallingError CallSession :=
  reject_if (negb (bool_decide (reason = CtCompleted) || bool_decide (reason = CtFailed)))
    CeInvalidTransition ;;
  value ← ok_or (participant s actor) CePermissionDenied;
  reject_if (negb (bool_decide (actor = cs_initiated_by s))
             && (negb (bool_decide (cp_state value = CpAccepted))
                 || is_group_kind (conversation_kind (cs_conversation s))))
    CePermissionDenied ;;
  Ok (terminate reason s).

(** The dispatch inside [apply_call_signal]. *)
Definition dispatch_call_signal (next : CallSession) (actor : PrincipalRef)
    (kind : CallSignalKind) (revision : Z) : result CallSignallingError CallSession :=
  match kind with
  | SkRinging => apply_ringing next actor
  | SkAccept => apply_accept next actor
  | SkReject => apply_decline next actor CpRejected CtRejected
  | SkBusy => apply_decline next actor CpBusy CtBusy
  | SkCancel => apply_pre_accept_termination next actor CtCancelled
  | SkTimeout => apply_pre_accept_termination next actor CtTimedOut
  | SkReconnect phase => apply_reconnect next actor phase
  | SkParticipantUpdate target kind =>
      apply_participant_update next actor target kind revision
  | SkMediaRenegotiation negotiation_ref =>
      apply_media_renegotiation next actor negotiation_ref
  | SkTerminate reason => apply_explicit_termination next actor reason
  end.

(** Everything [apply_call_signal] does before its final canonicalisation. *)
Definition call_signal_body (current : CallSession) (actor_scope : TenantScope)
    (actor : PrincipalRef) (signal : CallSignal) : result CallSignallingError CallSession :=
  next ← canonical_call_session current;
  reject_if (negb (bool_decide (actor_scope = cs_scope next))
             || negb (bool_decide (sg_scope signal = cs_scope next))) CeScopeMismatch ;;
  reject_if (negb (bool_decide (sg_call_id signal = cs_call_id next))) CeCallMismatch ;;
  reject_if (negb (sg_expected_revision signal =? cs_revision next)%Z) CeRevisionMismatch ;;
  reject_if (bool_decide (cs_signalling_state next = CsTerminated)) CeInvalidTransition ;;
  reject_if (negb (active_call_participant next actor)) CePermissionDenied ;;
  revision ← ok_or (checked_add_u64 (cs_revision next) 1) CeOverflow;
  generation ← ok_or (checked_add_u64 (cs_replication_generation next) 1) CeOverflow;
  next ← dispatch_call_signal next actor (sg_kind signal) revision;
  Ok (set_counters revision generation next).

Definition apply_call_signal (current : CallSession) (actor_scope : TenantScope)
    (actor : PrincipalRef) (signal : CallSignal) : result CallSignallingError CallSession :=
  next ← call_signal_body current actor_scope actor signal;
  canonical_call_session next.

(** * Group membership projection *)

(** The participants [reconcile_group_call_membership] revokes. *)
Definition revoked_participant (initiator : PrincipalRef) (active_members : list PrincipalRef)
    (p : CallParticipant) : bool :=
  negb (bool_decide (cp_principal p = initiator)) && live_state (cp_state p)
  && bool_decide (cp_left_revision p = None)
  && negb (existsb (λ m, bool_decide (m = cp_principal p)) active_members).

(** The state change itself, before the counters and the canonicalisation. *)
Definition revoke_members (next : CallSession) (active_members : list PrincipalRef)
    (revision : Z) : CallSession :=
  let is_current_member p := existsb (λ m, bool_decide (m = p)) active_members in
  if negb (is_current_member (cs_initiated_by next)) then terminate CtCompleted next
  else
    let reconnect_owner_revoked :=
      match cs_reconnecting_participant next with
      | Some owner => negb (is_current_member owner)
      | None => false
      end in
    let next := set_participants
      ((λ p, if revoked_participant (cs_initiated_by next) active_members p
             then set_participant_state CpLeft (Some revision) p else p)
         <$> cs_participants next) next in
    let next := if reconnect_owner_revoked
                then set_signalling CsActive (set_reconnecting None next) else next in
    settle_if_no_viable_remote CtCompleted next.

Definition reconcile_group_call_membership (current : CallSession)
    (active_members : list PrincipalRef) : result CallSignallingError CallSession :=
  next ← canonical_call_session current;
  reject_if (negb (is_group_kind (conversation_kind (cs_conversation next))))
    CeInvalidConversationKind ;;
  if bool_decide (cs_signalling_state next = CsTerminated) then Ok next else
  let initiator_revoked :=
    negb (existsb (λ m, bool_decide (m = cs_initiated_by next)) active_members) in
  let has_revoked_active_participant :=
    existsb (revoked_participant (cs_initiated_by next) active_members)
      (cs_participants next) in
  if negb initiator_revoked && negb has_revoked_active_participant then Ok next else
  revision ← ok_or (checked_add_u64 (cs_revision next) 1) CeOverflow;
  generation ← ok_or (checked_add_u64 (cs_replication_generation next) 1) CeOverflow;
  canonical_call_session
    (set_counters revision generation (revoke_members next active_members revision)).

(** * Fingerprints *)

Definition CALL_CREATION_FINGERPRINT_V1_DOMAIN : bytes := str "UCR-CALL-CREATION-V1" ++ [0%Z].
Definition CALL_SIGNAL_FINGERPRINT_V1_DOMAIN : bytes := str "UCR-CALL-SIGNAL-V1" ++ [0%Z].

Definition push_bytes (value : bytes) : bytes := len_prefixed 4 value.

Definition push_scope (scope : TenantScope) : bytes :=
  push_bytes (as_wire_bytes (tenant_id scope)) ++
  match namespace_id scope with
  | Some namespace => 1%Z :: push_bytes (as_wire_bytes namespace)
  | None => [0%Z]
  end.

Definition push_principal (principal : PrincipalRef) : bytes :=
  principal_kind_code (principal_kind principal)
    :: push_bytes (as_wire_bytes (principal_id principal)).

Definition conversation_kind_code (kind : ConversationKind) : Z :=
  match kind with
  | CkDirect => 1 | CkPrivateGroup => 2 | CkPublicGroup => 3 | CkBroadcast => 4
  | CkCommunity => 5 | CkRoom => 6 | CkTopic => 7 | CkThread => 8 | CkSystem => 9
  end.

Definition termination_reason_code (reason : CallTerminationReason) : Z :=
  match reason with
  | CtRejected => 1 | CtBusy => 2 | CtCancelled => 3 | CtTimedOut => 4
  | CtCompleted => 5 | CtFailed => 6
  end.

Definition origin_participants (s : CallSession) : list CallParticipant :=
  List.filter (λ v, (cp_joined_revision v =? 0)%Z) (cs_participants s).

(** The bytes [call_creation_fingerprint] feeds to the hasher. *)
Definition call_creation_preimage (session : CallSession) : result CallSignallingError bytes :=
  canonical ← canonical_call_session session;
  let origin := origin_participants canonical in
  reject_if ((len origin <? 2)%Z
    || negb (existsb (λ v, bool_decide (cp_principal v = cs_initiated_by canonical)) origin))
    CeInvalidSession ;;
  reject_if (u32_max <? len origin)%Z CeOverflow ;;
  Ok (CALL_CREATION_FINGERPRINT_V1_DOMAIN
      ++ push_scope (cs_scope canonical)
      ++ push_bytes (as_wire_bytes (cs_call_id canonical))
      ++ push_bytes (as_wire_bytes (conversation_id (cs_conversation canonical)))
      ++ [conversation_kind_code (conversation_kind (cs_conversation canonical))]
      ++ push_principal (cs_initiated_by canonical)
      ++ be_bytes 4 (len origin)
      ++ flat_map (λ v, push_principal (cp_principal v)) origin).

Definition signal_kind_bytes (kind : CallSignalKind) : bytes :=
  match kind with
  | SkRinging => [1]
  | SkAccept => [2]
  | SkReject => [3]
  | SkBusy => [4]
  | SkCancel => [5]
  | SkTimeout => [6]
  | SkReconnect phase => [7; match phase with CrStarted => 1 | CrRestored => 2 end]
  | SkParticipantUpdate participant kind =>
      8 :: push_principal participant
        ++ [match kind with CuAdd => 1 | CuRemove => 2 end]
  | SkMediaRenegotiation negotiation_ref => 9 :: push_bytes (as_wire_bytes negotiation_ref)
  | SkTerminate reason => [10; termination_reason_code reason]
  end%Z.

Definition call_signal_preimage (signal : CallSignal) : bytes :=
  CALL_SIGNAL_FINGERPRINT_V1_DOMAIN
    ++ push_bytes (as_wire_bytes (sg_event_id signal))
    ++ push_scope (sg_scope signal)
    ++ push_bytes (as_wire_bytes (sg_call_id signal))
    ++ be_bytes 8 (sg_expected_revision signal)
    ++ signal_kind_bytes (sg_kind signal).

Definition call_creation_fingerprint (sha256 : bytes → bytes) (session : CallSession) :
    result CallSignallingError bytes :=
  preimage ← call_creation_preimage session;
  Ok (sha256 preimage).

Definition call_signal_fingerprint (sha256 : bytes → bytes) (signal : CallSignal) :
    result CallSignallingError bytes :=
  Ok (sha256 (call_signal_preimage signal)).

Definition call_signal_event_type (signal : CallSignal) : string :=
  match sg_kind signal with
  | SkRinging => "ucr.call.ringing"
  | SkAccept => "ucr.call.accepted"
  | SkReject => "ucr.call.rejected"
  | SkBusy => "ucr.call.busy"
  | SkCancel => "ucr.call.cancelled"
  | SkTimeout => "ucr.call.timed_out"
  | SkReconnect CrStarted => "ucr.call.reconnect_started"
  | SkReconnect CrRestored => "ucr.call.reconnect_restored"
  | SkParticipantUpdate _ _ => "ucr.call.participant_updated"
  | SkMediaRenegotiation _ => "ucr.call.media_renegotiation_signalled"
  | SkTerminate _ => "ucr.call.terminated"
  end.
