(* ===== verification/CallFacts.v ===== *)
(** Correctness of call signalling: the session invariant [call_wf], its
    equivalence with canonicalisation, and its preservation by every handler. *)

From S2P Require Import Prelude Ids Call.

#[global] Arguments participant : simpl never.
#[global] Arguments validate_participant : simpl never.

(** * The session invariant *)

Definition sort_session (s : CallSession) : CallSession :=
  set_participants (sort_by compare_participants (cs_participants s)) s.

(** The part of the invariant that does not mention the signalling state; the
    revision bound is a parameter because handlers run before the counters move. *)
Record call_base (rev : Z) (s : CallSession) : Prop := {
  wf_kind : is_call_conversation_kind (conversation_kind (cs_conversation s)) = true;
  wf_len : (2 ≤ len (cs_participants s) ≤ MAX_CALL_PARTICIPANTS)%Z;
  wf_sorted : strict_sorted cp_principal principal_cmp (cs_participants s);
  wf_valid : Forall (λ p, validate_participant p rev = Ok tt) (cs_participants s);
  wf_initiator : ∃ p, participant s (cs_initiated_by s) = Some p ∧ accepted_in p = true;
  wf_media : media_invalid s = false;
}.

Record call_wf (s : CallSession) : Prop := {
  wf_base : call_base (cs_revision s) s;
  wf_reconnect : reconnect_check s = Ok tt;
  wf_lifecycle : lifecycle_invalid s = false;
}.

Lemma set_participants_id s : set_participants (cs_participants s) s = s.
Proof. by destruct s. Qed.

Lemma sort_session_sorted s :
  strict_sorted cp_principal principal_cmp (cs_participants s) → sort_session s = s.
Proof.
  intros Hs. unfold sort_session.
  change compare_participants with (key_cmp cp_principal principal_cmp).
  rewrite sort_by_strict by (apply _ || done). apply set_participants_id.
Qed.

(** Canonicalisation succeeds exactly on the sessions whose sorted form
    satisfies the invariant, and returns that form. *)
Lemma canonical_call_session_Ok s c :
  canonical_call_session s = Ok c ↔ c = sort_session s ∧ call_wf c.
Proof.
  unfold canonical_call_session. split.
  - intros H. res_inv. subst. split; [done|]. bool_norm. split; [split|..]; try done.
    + unfold len in *. cbn. rewrite sort_by_length. lia.
    + apply (no_window_dup_strict cp_principal principal_cmp); [|done].
      apply (sort_by_sorted cp_principal principal_cmp).
    + eauto.
  - intros [-> [[Hk Hl Hs Hv (p & Hp & Hacc) Hm] Hr Hlc]].
    assert (len (cs_participants (sort_session s)) = len (cs_participants s)) as El.
    { unfold len. cbn. by rewrite sort_by_length. }
    rewrite El in Hl. change (cs_conversation (sort_session s)) with (cs_conversation s) in Hk.
    rewrite Hk. cbn [negb reject_if mbind result_bind].
    rewrite (proj2 (Z.ltb_ge _ 2)), (proj2 (Z.ltb_ge _ (len _))) by lia.
    cbn [reject_if mbind result_bind]. fold (sort_session s).
    replace (windows_any _ _) with false
      by (symmetry; apply (strict_no_window_dup cp_principal principal_cmp); done).
    cbn [reject_if mbind result_bind].
    rewrite (proj2 (try_for_each_Ok _ _ tt) Hv). cbn [mbind result_bind].
    rewrite Hp. cbn [ok_or mbind result_bind]. rewrite Hacc. cbn [negb reject_if mbind result_bind].
    rewrite Hm. cbn [reject_if mbind result_bind]. rewrite Hr. cbn [reject_if mbind result_bind].
    by rewrite Hlc.
Qed.

Lemma canonical_call_session_wf s : call_wf s → canonical_call_session s = Ok s.
Proof.
  intros H. apply canonical_call_session_Ok. split; [|done].
  symmetry. apply sort_session_sorted. apply H.
Qed.

(** * Participants *)

(** Some participant other than the initiator whose state satisfies [Q]. *)
Definition remote_b (init : PrincipalRef) (Q : CallParticipantState → bool)
    (v : CallParticipant) : bool :=
  negb (bool_decide (cp_principal v = init)) && Q (cp_state v).
Definition any_remote (s : CallSession) (Q : CallParticipantState → bool) : bool :=
  existsb (remote_b (cs_initiated_by s) Q) (cs_participants s).

Definition is_accepted (st : CallParticipantState) : bool := bool_decide (st = CpAccepted).
Definition is_ringing (st : CallParticipantState) : bool := bool_decide (st = CpRinging).

(** The lifecycle check as a table over three facts about the remotes. *)
Definition lifecycle_bad (st : CallSignallingState) (acc ring pend reason : bool) : bool :=
  match st with
  | CsInviting => (acc || ring) || negb pend || reason
  | CsRinging => (acc || negb ring) || reason
  | CsActive | CsReconnecting => negb acc || reason
  | CsTerminated => negb reason
  end.

Lemma lifecycle_invalid_eq s :
  lifecycle_invalid s =
  lifecycle_bad (cs_signalling_state s) (any_remote s is_accepted)
    (any_remote s is_ringing) (any_remote s pending_state)
    (bool_decide (is_Some (cs_termination_reason s))).
Proof. unfold lifecycle_invalid, remote_participants. by rewrite !existsb_filter. Qed.

Lemma lifecycle_active s :
  any_remote s is_accepted = true → cs_termination_reason s = None →
  cs_signalling_state s = CsActive ∨ cs_signalling_state s = CsReconnecting →
  lifecycle_invalid s = false.
Proof. intros Ha Hr [Hs|Hs]; by rewrite lifecycle_invalid_eq, Hs, Ha, Hr. Qed.

(** The reference [participant_mut] returns points into the list. *)
Lemma participant_mut_Ok s q i v :
  participant_mut s q = Ok (i, v) →
  ∃ l1 l2, cs_participants s = l1 ++ v :: l2 ∧ cp_principal v = q
    ∧ ∀ v', write_participant i v' s = set_participants (l1 ++ v' :: l2) s.
Proof.
  unfold participant_mut. intros H. res_inv. simplify_eq.
  match goal with H : position _ _ = Some _ |- _ =>
    apply position_split in H as (l1 & y & l2 & E & Hi & Hy & _ & Hins) end.
  rewrite Hi in *. simplify_eq. apply bool_decide_eq_true in Hy.
  exists l1, l2. split_and!; [done..|]. intros v'. unfold write_participant. by rewrite Hins.
Qed.

Lemma validate_participant_mono p rev rev' :
  (rev ≤ rev')%Z → validate_participant p rev = Ok tt → validate_participant p rev' = Ok tt.
Proof.
  intros Hrev H. unfold validate_participant in *. res_inv. bool_norm.
  rewrite (proj2 (Z.ltb_ge _ _)) by lia. cbn. destruct (cp_state p); try done.
  res_inv. bool_norm.
  match goal with H : cp_left_revision p = _ |- _ => rewrite H end. cbn.
  rewrite !(proj2 (Z.ltb_ge _ _)) by lia. done.
Qed.

Section replace_one.
(** One participant replaced in place, as every state-changing handler does. *)
Context (s : CallSession) (l1 l2 : list CallParticipant) (v v' : CallParticipant).
Context (Hps : cs_participants s = l1 ++ v :: l2).
Context (Hkeep : cp_principal v' = cp_principal v).
Let s' := set_participants (l1 ++ v' :: l2) s.

Lemma replace_sorted :
  strict_sorted cp_principal principal_cmp (cs_participants s) →
  strict_sorted cp_principal principal_cmp (cs_participants s').
Proof using Hps Hkeep.
  apply strict_sorted_keys. rewrite Hps. cbn. rewrite !fmap_app. cbn. by rewrite Hkeep.
Qed.

Lemma replace_len : len (cs_participants s') = len (cs_participants s).
Proof using Hps. rewrite Hps. unfold len. cbn. by rewrite !length_app. Qed.

Lemma replace_any Q :
  any_remote s' Q
  = existsb (remote_b (cs_initiated_by s) Q) l1
    || remote_b (cs_initiated_by s) Q v' || existsb (remote_b (cs_initiated_by s) Q) l2.
Proof using. unfold any_remote. cbn. rewrite existsb_app. cbn. by rewrite orb_assoc. Qed.

Lemma original_any Q :
  any_remote s Q
  = existsb (remote_b (cs_initiated_by s) Q) l1
    || remote_b (cs_initiated_by s) Q v || existsb (remote_b (cs_initiated_by s) Q) l2.
Proof using Hps.
  unfold any_remote. rewrite Hps, existsb_app. cbn. by rewrite orb_assoc.
Qed.

Lemma replace_participant_ne q :
  q ≠ cp_principal v → participant s' q = participant s q.
Proof using Hps Hkeep.
  intros Hne. unfold participant. rewrite Hps. cbn. rewrite !find_app. cbn.
  rewrite Hkeep. by rewrite (bool_decide_eq_false_2 (cp_principal v = q)) by congruence.
Qed.

Lemma replace_base rev rev' :
  (rev ≤ rev')%Z → call_base rev s → cp_principal v ≠ cs_initiated_by s →
  validate_participant v' rev' = Ok tt → call_base rev' s'.
Proof using Hps Hkeep.
  intros Hrev [Hk Hl Hs Hv (p & Hp & Hacc) Hm] Hne Hv'.
  split; try done.
  - by rewrite replace_len.
  - by apply replace_sorted.
  - rewrite Hps, Forall_app, Forall_cons in Hv. cbn. rewrite Forall_app, Forall_cons.
    destruct Hv as (Hv1 & _ & Hv2). split_and!; [|done|]; eapply Forall_impl;
      eauto using validate_participant_mono.
  - exists p. split; [|done]. rewrite <- Hp. by apply replace_participant_ne.
Qed.
End replace_one.

(** * Settling *)

Lemma call_base_ext rev s s' :
  cs_conversation s' = cs_conversation s → cs_participants s' = cs_participants s →
  cs_initiated_by s' = cs_initiated_by s →
  cs_media_negotiation_ref s' = cs_media_negotiation_ref s →
  cs_media_negotiation_generation s' = cs_media_negotiation_generation s →
  call_base rev s → call_base rev s'.
Proof.
  intros Ec Ep Ei Er Eg [Hk Hl Hs Hv Hi Hm].
  split; unfold participant, media_invalid in *;
    rewrite ?Ec, ?Ep, ?Ei, ?Er, ?Eg; done.
Qed.

Section base_facts.
Context (rev : Z) (s : CallSession) (Hb : call_base rev s).

Lemma base_NoDup : NoDup (cp_principal <$> cs_participants s).
Proof using Hb. eapply strict_sorted_NoDup, Hb. apply _. Qed.

Lemma participant_Some q v :
  participant s q = Some v ↔ v ∈ cs_participants s ∧ cp_principal v = q.
Proof using Hb. apply find_key_Some, base_NoDup. Qed.

Lemma initiator_accepted v :
  v ∈ cs_participants s → cp_principal v = cs_initiated_by s → accepted_in v = true.
Proof using Hb.
  intros Hv Hp. destruct (wf_initiator _ _ Hb) as (p & Hfind & Hacc).
  rewrite (proj2 (participant_Some _ v) (conj Hv Hp)) in Hfind. naive_solver.
Qed.

(** A participant that is not [Accepted] is not the initiator. *)
Lemma not_accepted_remote v :
  v ∈ cs_participants s → cp_state v ≠ CpAccepted → cp_principal v ≠ cs_initiated_by s.
Proof using Hb.
  intros Hv Hst E. pose proof (initiator_accepted v Hv E) as H.
  unfold accepted_in in H. bool_norm. naive_solver.
Qed.

Lemma ringing_remote :
  existsb (λ v, bool_decide (cp_state v = CpRinging)) (cs_participants s)
  = any_remote s is_ringing.
Proof using Hb.
  apply existsb_ext. intros v Hv. unfold remote_b, is_ringing.
  case_bool_decide as Hst; [|by rewrite andb_false_r].
  rewrite bool_decide_eq_false_2; [done|]. apply not_accepted_remote; [done|congruence].
Qed.
End base_facts.

Lemma any_remote_live s :
  any_remote s live_state = any_remote s is_accepted || any_remote s pending_state.
Proof.
  unfold any_remote. induction (cs_participants s) as [|v l IH]; [done|]. cbn.
  rewrite IH. unfold remote_b. destruct (bool_decide _), (cp_state v); cbn;
    repeat match goal with |- context [existsb ?f ?l] => destruct (existsb f l) end; done.
Qed.

Lemma any_remote_ringing_pending s :
  any_remote s is_ringing = true → any_remote s pending_state = true.
Proof.
  apply existsb_impl. intros v _. unfold remote_b, is_ringing.
  destruct (bool_decide _), (cp_state v); done.
Qed.

Lemma settle_eq reason rev s :
  call_base rev s →
  settle_if_no_viable_remote reason s =
  if negb (any_remote s live_state) then terminate reason s
  else if any_remote s is_accepted then
    if bool_decide (cs_signalling_state s = CsReconnecting) then s
    else set_signalling CsActive s
  else if any_remote s is_ringing then set_signalling CsRinging (set_reconnecting None s)
  else set_signalling CsInviting (set_reconnecting None s).
Proof.
  intros Hb. unfold settle_if_no_viable_remote. by rewrite (ringing_remote rev s Hb).
Qed.

(** After a participant stopped being live, settling restores the invariant. *)
Lemma settle_ok reason rev s :
  call_base rev s → cs_termination_reason s = None →
  (if bool_decide (cs_signalling_state s = CsReconnecting)
   then any_remote s is_accepted = true → reconnect_check s = Ok tt
   else cs_reconnecting_participant s = None) →
  let s' := settle_if_no_viable_remote reason s in
  call_base rev s' ∧ reconnect_check s' = Ok tt ∧ lifecycle_invalid s' = false.
Proof.
  intros Hb Hreason Hrec. cbv zeta. rewrite (settle_eq _ rev), any_remote_live by done.
  destruct (any_remote s is_accepted) eqn:Ha, (any_remote s pending_state) eqn:Hp,
    (any_remote s is_ringing) eqn:Hr; cbn [negb orb];
    try (apply any_remote_ringing_pending in Hr; congruence);
    try case_bool_decide as Hst;
    (split; [by apply (call_base_ext rev s)|]);
    rewrite lifecycle_invalid_eq;
    (split; [try by apply Hrec|
             unfold any_remote in *; cbn; rewrite ?Ha, ?Hp, ?Hr, ?Hreason, ?Hst; done]);
    cbn; rewrite ?Hrec; done.
Qed.

(** * Handlers *)

(** What a handler owes its caller: the sorted result is well formed at the next
    revision (before the counters are written) and the identity of the call is kept. *)
Record step_ok (rev : Z) (s s' : CallSession) : Prop := {
  so_base : call_base rev (sort_session s');
  so_reconnect : reconnect_check (sort_session s') = Ok tt;
  so_lifecycle : lifecycle_invalid (sort_session s') = false;
  so_scope : cs_scope s' = cs_scope s;
  so_call_id : cs_call_id s' = cs_call_id s;
  so_conversation : cs_conversation s' = cs_conversation s;
  so_initiated_by : cs_initiated_by s' = cs_initiated_by s;
}.

Lemma step_ok_sorted rev s s' :
  call_base rev s' → reconnect_check s' = Ok tt → lifecycle_invalid s' = false →
  cs_scope s' = cs_scope s → cs_call_id s' = cs_call_id s →
  cs_conversation s' = cs_conversation s → cs_initiated_by s' = cs_initiated_by s →
  step_ok rev s s'.
Proof.
  intros Hb Hr Hl. intros. assert (sort_session s' = s') as E
    by apply sort_session_sorted, Hb.
  split; by rewrite ?E.
Qed.

Lemma settle_frame reason s :
  let s' := settle_if_no_viable_remote reason s in
  cs_scope s' = cs_scope s ∧ cs_call_id s' = cs_call_id s
  ∧ cs_conversation s' = cs_conversation s ∧ cs_initiated_by s' = cs_initiated_by s.
Proof.
  cbv zeta. unfold settle_if_no_viable_remote. by repeat case_match.
Qed.

Lemma reconnect_check_idle s :
  cs_signalling_state s ≠ CsReconnecting → cs_reconnecting_participant s = None →
  reconnect_check s = Ok tt.
Proof.
  intros Hst E. unfold reconnect_check. rewrite E. by destruct (cs_signalling_state s).
Qed.

Lemma call_base_mono rev rev' s : (rev ≤ rev')%Z → call_base rev s → call_base rev' s.
Proof.
  intros Hrev [Hk Hl Hs Hv Hi Hm]. split; try done.
  eapply Forall_impl; [exact Hv|]. intros p. by apply validate_participant_mono.
Qed.

Section handlers.
Context (s : CallSession) (Hwf : call_wf s) (Hlive : cs_signalling_state s ≠ CsTerminated).
Let rev := (cs_revision s + 1)%Z.

Lemma wf_reason_none : cs_termination_reason s = None.
Proof.
  pose proof (wf_lifecycle _ Hwf) as H. rewrite lifecycle_invalid_eq in H.
  destruct (cs_termination_reason s); [|done].
  rewrite (bool_decide_eq_true_2 (is_Some _)) in H by eauto.
  destruct (cs_signalling_state s); cbn in H; bool_norm; naive_solver.
Qed.

Lemma wf_idle : cs_signalling_state s ≠ CsReconnecting → cs_reconnecting_participant s = None.
Proof.
  intros Hst. pose proof (wf_reconnect _ Hwf) as H. unfold reconnect_check in H.
  destruct (cs_signalling_state s); try done; apply reject_if_Ok in H; bool_norm;
    by apply eq_None_not_Some.
Qed.

Lemma wf_owner : cs_signalling_state s = CsReconnecting →
  ∃ r p, cs_reconnecting_participant s = Some r ∧ participant s r = Some p
    ∧ accepted_in p = true.
Proof.
  intros Hst. pose proof (wf_reconnect _ Hwf) as H. unfold reconnect_check in H.
  rewrite Hst in H. res_inv. bool_norm. eauto.
Qed.

Lemma base_next : call_base rev s.
Proof. eapply call_base_mono; [|apply Hwf]. unfold rev. lia. Qed.

Lemma terminate_ok reason : step_ok rev s (terminate reason s).
Proof.
  apply step_ok_sorted; try done. by apply (call_base_ext rev s), base_next.
Qed.

Section one_participant.
Context (l1 l2 : list CallParticipant) (v v' : CallParticipant).
Context (Hps : cs_participants s = l1 ++ v :: l2) (Hkeep : cp_principal v' = cp_principal v).
Context (Hne : cp_principal v ≠ cs_initiated_by s).
Context (Hvalid : validate_participant v' rev = Ok tt).
Let s1 := set_participants (l1 ++ v' :: l2) s.

Lemma one_base : call_base rev s1.
Proof.
  eapply replace_base; [done..| |apply Hwf|done|done]. unfold rev. lia.
Qed.

(** The reconnect owner is untouched unless it is the replaced participant. *)
Lemma one_reconnect :
  cs_reconnecting_participant s ≠ Some (cp_principal v) → reconnect_check s1 = Ok tt.
Proof.
  intros Hr. pose proof (wf_reconnect _ Hwf) as H. unfold reconnect_check in *. cbn.
  destruct (cs_signalling_state s) eqn:Hst; try done.
  destruct (wf_owner Hst) as (r & p & E & Hp & Hacc). rewrite E in *. cbn in *.
  unfold s1. by rewrite (replace_participant_ne s l1 l2 v v') by congruence.
Qed.

Lemma one_owner : cp_state v ≠ CpAccepted →
  cs_reconnecting_participant s ≠ Some (cp_principal v).
Proof using Hwf Hlive Hps.
  clear Hvalid Hkeep Hne v' s1. intros Hst E. destruct (decide (cs_signalling_state s = CsReconnecting)) as [Hs|Hs].
  - destruct (wf_owner Hs) as (r & p & Er & Hp & Hacc). simplify_eq.
    assert (participant s (cp_principal v) = Some v) as Ev.
    { eapply participant_Some; [apply Hwf|]. split; [|done]. rewrite Hps. set_solver. }
    simplify_eq. unfold accepted_in in Hacc. bool_norm. naive_solver.
  - by rewrite wf_idle in E.
Qed.

(** The remotes other than the replaced one. *)
Lemma one_any Q :
  Q (cp_state v) = Q (cp_state v') → any_remote s1 Q = any_remote s Q.
Proof.
  intros E. rewrite (original_any s l1 l2 v Hps). unfold s1. rewrite replace_any.
  unfold remote_b. by rewrite Hkeep, E.
Qed.

Lemma one_any_new Q : Q (cp_state v') = true → any_remote s1 Q = true.
Proof.
  intros E. unfold s1. rewrite replace_any. unfold remote_b at 2.
  rewrite Hkeep, bool_decide_eq_false_2, E by done. cbn. by rewrite orb_true_r.
Qed.

(** A participant that stops being pending or live, then settling. *)
Lemma one_settle reason :
  step_ok rev s (settle_if_no_viable_remote reason
    (if bool_decide (cs_reconnecting_participant s = Some (cp_principal v))
     then set_signalling CsActive (set_reconnecting None s1) else s1)).
Proof.
  set (s2 := if bool_decide _ then _ else _).
  assert (call_base rev s2) as Hb2.
  { unfold s2. case_bool_decide; [by apply (call_base_ext rev s1), one_base|apply one_base]. }
  assert (cs_termination_reason s2 = None) as Hr2.
  { unfold s2. case_bool_decide; apply wf_reason_none. }
  destruct (settle_ok reason rev s2 Hb2 Hr2) as (H1 & H2 & H3).
  - unfold s2. destruct (decide (cs_reconnecting_participant s = Some (cp_principal v))).
    + by rewrite (bool_decide_eq_true_2 (_ = Some _)).
    + rewrite (bool_decide_eq_false_2 (_ = Some _)) by done.
      case_bool_decide as Hst; [by intros _; apply one_reconnect|by apply wf_idle].
  - destruct (settle_frame reason s2) as (F1 & F2 & F3 & F4).
    apply step_ok_sorted; [done..| | | |]; rewrite ?F1, ?F2, ?F3, ?F4;
      unfold s2; by case_bool_decide.
Qed.

(** A pending participant that stays viable, with the new signalling state. *)
Lemma one_signalling st :
  cp_state v ≠ CpAccepted →
  st = cs_signalling_state s
    ∨ st ≠ CsReconnecting ∧ cs_signalling_state s ≠ CsReconnecting →
  lifecycle_bad st (any_remote s1 is_accepted) (any_remote s1 is_ringing)
    (any_remote s1 pending_state) false = false →
  step_ok rev s (set_signalling st s1).
Proof.
  intros Hv Hst Hl. apply step_ok_sorted; try done.
  - by apply (call_base_ext rev s1), one_base.
  - destruct Hst as [->|[Hst Hs]].
    + apply one_reconnect, one_owner, Hv.
    + apply reconnect_check_idle; [done|]. by apply wf_idle.
  - rewrite lifecycle_invalid_eq. cbn. rewrite wf_reason_none. exact Hl.
Qed.
End one_participant.

Lemma valid_next p : p ∈ cs_participants s → validate_participant p rev = Ok tt.
Proof.
  intros Hp. pose proof (wf_valid _ _ base_next) as H. rewrite Forall_forall in H. auto.
Qed.

(** A state other than [Left] keeps the missing left revision. *)
Lemma valid_restate p st :
  p ∈ cs_participants s → cp_state p ≠ CpLeft → st ≠ CpLeft →
  validate_participant (set_participant_state st (cp_left_revision p) p) rev = Ok tt.
Proof.
  intros Hp%valid_next Hl Hst. unfold validate_participant in *. cbn.
  by destruct (cp_state p), st.
Qed.

Lemma valid_left p :
  p ∈ cs_participants s →
  validate_participant (set_participant_state CpLeft (Some rev) p) rev = Ok tt.
Proof.
  intros Hp. pose proof (wf_valid _ _ (wf_base _ Hwf)) as H. rewrite Forall_forall in H.
  specialize (H p Hp). unfold validate_participant in *. res_inv. bool_norm. cbn.
  unfold rev. rewrite !(proj2 (Z.ltb_ge _ _)) by lia. done.
Qed.

#[local] Hint Resolve mid_elem : core.

(** The handlers that go through [participant_mut]: name the split. *)
Ltac on_participant l1 l2 v Hps :=
  match goal with H : participant_mut _ _ = Ok _ |- _ =>
    apply participant_mut_Ok in H as (l1 & l2 & Hps & ? & Hw); rewrite Hw in *;
    clear Hw; assert (v ∈ cs_participants s) by eauto
  end.

Lemma wf_lifecycle_table :
  lifecycle_bad (cs_signalling_state s) (any_remote s is_accepted)
    (any_remote s is_ringing) (any_remote s pending_state) false = false.
Proof.
  pose proof (wf_lifecycle _ Hwf) as H. rewrite lifecycle_invalid_eq, wf_reason_none in H.
  exact H.
Qed.

Lemma ringing_ok actor s' : apply_ringing s actor = Ok s' → step_ok rev s s'.
Proof.
  unfold apply_ringing. intros H. res_inv. destruct x as [i v]. res_inv. bool_norm.
  destruct_and!. on_participant l1 l2 v Hps.
  assert (∃ st, s' = set_signalling st (set_participants
      (l1 ++ set_participant_state CpRinging (cp_left_revision v) v :: l2) s)
    ∧ st = match cs_signalling_state s with CsActive => CsActive
           | CsReconnecting => CsReconnecting | _ => CsRinging end) as (st & -> & Hst).
  { cbn in H. eexists. split; [|done]. by destruct (cs_signalling_state s) eqn:E;
      simplify_eq; rewrite <- ?E. }
  pose proof wf_lifecycle_table as Ht.
  eapply one_signalling; try done; try congruence.
  - by apply valid_restate; [|congruence|].
  - destruct (cs_signalling_state s); naive_solver.
  - rewrite (one_any l1 l2 v _ Hps (eq_refl : cp_principal (set_participant_state _ _ v) = _)
      is_accepted) by (cbn; by destruct (cp_state v)).
    rewrite (one_any_new l1 l2 v (set_participant_state _ _ v) eq_refl) by done.
    subst st. destruct (cs_signalling_state s); cbn in *; bool_norm; naive_solver.
Qed.

Lemma accept_ok actor s' : apply_accept s actor = Ok s' → step_ok rev s s'.
Proof.
  unfold apply_accept. intros H. res_inv. destruct x as [i v]. res_inv. bool_norm.
  destruct_and!. on_participant l1 l2 v Hps.
  set (v' := set_participant_state CpAccepted (cp_left_revision v) v) in *.
  assert (∃ st, s' = set_signalling st (set_participants (l1 ++ v' :: l2) s)
    ∧ (st = CsReconnecting ∨ st = CsActive)
    ∧ (st = CsReconnecting ↔ cs_signalling_state s = CsReconnecting))
    as (st & -> & Hst & Hrec).
  { cbn in H. case_bool_decide as E; simplify_eq.
    - exists (cs_signalling_state s). auto.
    - exists CsActive. split_and!; [done|by right|done]. }
  eapply (one_signalling _ _ _ v'); try done.
  - apply valid_restate; [done| |done]. by destruct (cp_state v).
  - by destruct (cp_state v).
  - destruct Hst; naive_solver.
  - rewrite (one_any_new l1 l2 v v' eq_refl) by done. by destruct Hst as [-> | ->].
Qed.

Lemma decline_ok actor st reason s' :
  st = CpRejected ∨ st = CpBusy → apply_decline s actor st reason = Ok s' → step_ok rev s s'.
Proof.
  intros Hst. unfold apply_decline, reject_or_busy. intros H. res_inv. destruct x0 as [i v].
  res_inv. bool_norm. destruct_and!. subst. on_participant l1 l2 v Hps.
  assert (cp_state v ≠ CpAccepted ∧ cp_state v ≠ CpLeft) as [Hna Hnl] by by destruct (cp_state v).
  assert (validate_participant (set_participant_state st (cp_left_revision v) v) rev = Ok tt).
  { apply valid_restate; naive_solver. }
  pose proof (one_settle l1 l2 v (set_participant_state st (cp_left_revision v) v) Hps eq_refl)
    as Hone.
  rewrite (bool_decide_eq_false_2 _ (one_owner l1 l2 v Hps Hna)) in Hone. auto.
Qed.

Lemma pre_accept_termination_ok actor reason s' :
  apply_pre_accept_termination s actor reason = Ok s' → step_ok rev s s'.
Proof.
  unfold apply_pre_accept_termination. intros H. res_inv. subst. apply terminate_ok.
Qed.

Lemma explicit_termination_ok actor reason s' :
  apply_explicit_termination s actor reason = Ok s' → step_ok rev s s'.
Proof.
  unfold apply_explicit_termination. intros H. res_inv. subst. apply terminate_ok.
Qed.

Lemma valid_accepted p :
  p ∈ cs_participants s → cp_state p = CpAccepted → accepted_in p = true.
Proof.
  intros Hp%valid_next Hst. unfold validate_participant in Hp. rewrite Hst in Hp. res_inv.
  bool_norm. unfold accepted_in. rewrite Hst. cbn. apply bool_decide_eq_true.
  by apply eq_None_not_Some.
Qed.

Lemma reconnect_ok actor phase s' :
  apply_reconnect s actor phase = Ok s' → step_ok rev s s'.
Proof.
  unfold apply_reconnect. intros H. res_inv. bool_norm.
  pose proof wf_lifecycle_table as Ht. pose proof wf_reason_none as Hn.
  pose proof valid_accepted as Hva.
  destruct phase, (cs_signalling_state s) eqn:Est; res_inv; subst; cbn in Ht; bool_norm;
    (apply step_ok_sorted;
      [by apply (call_base_ext rev s), base_next| | |done..]); try done;
    try (apply lifecycle_active; [apply Ht|done|by cbn; auto]).
  unfold reconnect_check. cbn.
  match goal with H : participant s actor = Some _ |- _ => rename H into Hp end.
  change (participant (set_signalling _ _) actor) with (participant s actor).
  rewrite Hp. cbn. rewrite Hva; [done| |done].
  by apply (participant_Some _ _ (wf_base _ Hwf)) in Hp as [? _].
Qed.

Lemma remove_participant_ok actor target s' :
  remove_participant s actor target rev = Ok s' → step_ok rev s s'.
Proof.
  unfold remove_participant. intros H. res_inv. destruct x1 as [i v]. res_inv. bool_norm.
  destruct_and?. on_participant l1 l2 v Hps. subst.
  eapply (one_settle l1 l2 v); try done. by apply valid_left.
Qed.

Lemma media_renegotiation_ok actor r s' :
  apply_media_renegotiation s actor r = Ok s' → step_ok rev s s'.
Proof.
  unfold apply_media_renegotiation. intros H. res_inv. subst.
  pose proof base_next as [Hk Hl Hs Hv Hi Hm].
  apply step_ok_sorted; [|apply Hwf..|done|done|done|done].
  split; try done. unfold media_invalid in *. cbn.
  match goal with H : checked_add_u64 _ _ = Some _ |- _ => apply checked_add_u64_Some in H as [-> _] end.
  bool_norm. destruct_or?; destruct_and?;  cbn; bool_norm; lia.
Qed.

Section one_more.
(** A fresh [Invited] participant appended, then sorted into place. *)
Context (target : PrincipalRef) (Hfresh : participant s target = None).
Let new := mk_participant target CpInvited rev None.
Let s' := set_participants (cs_participants s ++ [new]) s.
Let c := sort_session s'.

Lemma more_perm : cs_participants c ≡ₚ cs_participants s ++ [new].
Proof. apply sort_by_perm. Qed.

Lemma more_NoDup : NoDup (cp_principal <$> (cs_participants s ++ [new])).
Proof.
  rewrite fmap_app. apply NoDup_app. split; [eapply base_NoDup, base_next|].
  split; [|apply NoDup_singleton]. intros q (p & -> & Hp)%list_elem_of_fmap.
  cbn. rewrite list_elem_of_singleton. intros E.
  apply find_None_Forall in Hfresh. rewrite Forall_forall in Hfresh.
  specialize (Hfresh p Hp). by apply bool_decide_eq_false in Hfresh.
Qed.

Lemma more_participant q p : participant s q = Some p → participant c q = Some p.
Proof.
  unfold participant. rewrite !find_key_Some; [rewrite more_perm; set_solver|..].
  - rewrite more_perm. apply more_NoDup.
  - eapply base_NoDup, base_next.
Qed.

Lemma more_any Q :
  any_remote c Q = any_remote s Q || remote_b (cs_initiated_by s) Q new.
Proof.
  unfold any_remote. rewrite (existsb_perm _ _ _ more_perm), existsb_app. cbn.
  by rewrite orb_false_r.
Qed.

Lemma more_base :
  (len (cs_participants s) < MAX_CALL_PARTICIPANTS)%Z → call_base rev c.
Proof.
  intros Hmax. destruct base_next as [Hk Hl Hs Hv (p & Hp & Hacc) Hm]. split; try done.
  - unfold len in *. rewrite more_perm, length_app. cbn. lia.
  - apply (sort_by_NoDup cp_principal principal_cmp), more_NoDup.
  - rewrite more_perm, Forall_app. split; [done|]. constructor; [|constructor].
    unfold validate_participant. cbn. by rewrite Z.ltb_irrefl.
  - exists p. split; [by apply more_participant|done].
Qed.

Lemma more_reconnect : reconnect_check c = Ok tt.
Proof.
  destruct (decide (cs_signalling_state s = CsReconnecting)) as [Hst|Hst].
  - destruct (wf_owner Hst) as (r & p & E & Hp%more_participant & Hacc).
    unfold reconnect_check. cbn. rewrite Hst, E. cbn.
    rewrite Hp. cbn. by rewrite Hacc.
  - by apply reconnect_check_idle, wf_idle.
Qed.

Lemma more_lifecycle : lifecycle_invalid c = false.
Proof.
  assert (target ≠ cs_initiated_by s) as Hne.
  { intros ->. destruct (wf_initiator _ _ base_next) as (p & Hp & _). congruence. }
  pose proof wf_lifecycle_table as Ht.
  rewrite lifecycle_invalid_eq, !more_any. cbn. rewrite wf_reason_none.
  unfold remote_b. cbn. rewrite bool_decide_eq_false_2 by done. cbn.
  rewrite !orb_false_r, orb_true_r.
  destruct (cs_signalling_state s); cbn in *; bool_norm; naive_solver.
Qed.
End one_more.

Lemma add_participant_ok actor target s' :
  add_participant s actor target rev = Ok s' → step_ok rev s s'.
Proof.
  unfold add_participant. intros H. res_inv. bool_norm. subst.
  match goal with H : ¬ is_Some _ |- _ => apply eq_None_not_Some in H end.
  split; [by apply more_base|by apply more_reconnect|by apply more_lifecycle|done..].
Qed.

Lemma dispatch_ok actor kind s' :
  dispatch_call_signal s actor kind rev = Ok s' → step_ok rev s s'.
Proof.
  destruct kind as [| | | | | |phase|target []|r|reason]; cbn;
    eauto using ringing_ok, accept_ok, decline_ok, pre_accept_termination_ok, reconnect_ok,
      add_participant_ok, remove_participant_ok, media_renegotiation_ok,
      explicit_termination_ok.
Qed.

Section revoked.
(** Group membership revocation: some remotes become [Left], in place. *)
Context (members : list PrincipalRef).
Let gone := revoked_participant (cs_initiated_by s) members.
Let leave p := if gone p then set_participant_state CpLeft (Some rev) p else p.
Let s1 := set_participants (leave <$> cs_participants s) s.

Lemma leave_principal p : cp_principal (leave p) = cp_principal p.
Proof. unfold leave. by case_match. Qed.

Lemma revoked_participant_lookup q : participant s1 q = leave <$> participant s q.
Proof. apply find_key_fmap, leave_principal. Qed.

Lemma revoked_base : call_base rev s1.
Proof.
  destruct base_next as [Hk Hl Hs Hv (p & Hp & Hacc) Hm]. split; try done.
  - unfold len in *. cbn. by rewrite length_fmap.
  - eapply strict_sorted_keys; [|exact Hs]. cbn. rewrite <- list_fmap_compose.
    apply list_fmap_ext. intros i x _. symmetry. apply leave_principal.
  - cbn. apply Forall_fmap, Forall_forall. intros x Hx. unfold leave. cbn.
    case_match; [by apply valid_left|by apply valid_next].
  - exists p. split; [|done]. cbn. rewrite revoked_participant_lookup, Hp. cbn.
    apply (participant_Some _ _ (wf_base _ Hwf)) in Hp as [_ Hp].
    unfold leave, gone, revoked_participant. by rewrite (bool_decide_eq_true_2 (_ = _)).
Qed.

Let is_member q := existsb (λ m, bool_decide (m = q)) members.

Lemma revoked_settle :
  let owner_revoked := match cs_reconnecting_participant s with
                       | Some owner => negb (is_member owner) | None => false end in
  step_ok rev s (settle_if_no_viable_remote CtCompleted
    (if owner_revoked then set_signalling CsActive (set_reconnecting None s1) else s1)).
Proof.
  set (b := match cs_reconnecting_participant s with
            | Some owner => negb (is_member owner) | None => false end). cbv zeta.
  set (s2 := if b then _ else _).
  assert (call_base rev s2) as Hb2.
  { unfold s2. case_match; [by apply (call_base_ext rev s1), revoked_base|].
    apply revoked_base. }
  assert (cs_termination_reason s2 = None) as Hr2.
  { unfold s2. case_match; apply wf_reason_none. }
  destruct (settle_ok CtCompleted rev s2 Hb2 Hr2) as (H1 & H2 & H3).
  - unfold s2. destruct b eqn:Eb; [done|]. case_bool_decide as Hst; [|by apply wf_idle].
    intros _. destruct (wf_owner Hst) as (r & p & E & Hp & Hacc).
    unfold b in Eb. rewrite E in Eb. bool_norm. unfold reconnect_check.
    change (cs_reconnecting_participant s1) with (cs_reconnecting_participant s).
    rewrite Hst, E. cbn. rewrite revoked_participant_lookup, Hp. cbn.
    apply (participant_Some _ _ (wf_base _ Hwf)) in Hp as [_ Hp].
    unfold leave, gone, revoked_participant. rewrite Hp. unfold is_member in Eb.
    rewrite Eb, andb_false_r. by rewrite Hacc.
  - destruct (settle_frame CtCompleted s2) as (F1 & F2 & F3 & F4).
    apply step_ok_sorted; [done..| | | |]; rewrite ?F1, ?F2, ?F3, ?F4;
      unfold s2; by case_match.
Qed.
End revoked.

Lemma revoke_members_ok members : step_ok rev s (revoke_members s members rev).
Proof.
  unfold revoke_members. case_match; [apply terminate_ok|apply revoked_settle].
Qed.
End handlers.
