(* ===== verification/CallSafety.v ===== *)
(** Call signalling as a transition system: exact authority of every signal,
    preservation of the session invariant, tombstones that never regain
    authority, and a creation fingerprint that stays retryable. *)

From S2P Require Import Prelude Ids Call CallFacts.

(** * One accepted signal *)

Lemma finish_wf rev gen s s' :
  step_ok rev s s' → call_wf (sort_session (set_counters rev gen s')).
Proof.
  intros [Hb Hr Hl _ _ _ _]. split; [|exact Hr|exact Hl].
  by apply (call_base_ext rev (sort_session s')).
Qed.

Lemma finish_canonical rev gen s s' :
  step_ok rev s s' →
  canonical_call_session (set_counters rev gen s')
  = Ok (sort_session (set_counters rev gen s')).
Proof. intros H. apply canonical_call_session_Ok. eauto using finish_wf. Qed.

(** The guards that precede the dispatch, on a canonical session. *)
Record signal_guard (s : CallSession) (actor_scope : TenantScope) (actor : PrincipalRef)
    (signal : CallSignal) : Prop := {
  sgd_actor_scope : actor_scope = cs_scope s;
  sgd_signal_scope : sg_scope signal = cs_scope s;
  sgd_call : sg_call_id signal = cs_call_id s;
  sgd_revision : sg_expected_revision signal = cs_revision s;
  sgd_live : cs_signalling_state s ≠ CsTerminated;
  sgd_actor : active_call_participant s actor = true;
  sgd_room : (cs_revision s + 1 ≤ u64_max)%Z;
  sgd_generation : (cs_replication_generation s + 1 ≤ u64_max)%Z;
}.

Lemma call_signal_body_Ok current actor_scope actor signal next :
  call_signal_body current actor_scope actor signal = Ok next ↔
  ∃ s s', canonical_call_session current = Ok s ∧ signal_guard s actor_scope actor signal
    ∧ dispatch_call_signal s actor (sg_kind signal) (cs_revision s + 1) = Ok s'
    ∧ next = set_counters (cs_revision s + 1) (cs_replication_generation s + 1) s'.
Proof.
  unfold call_signal_body. split.
  - intros H. res_inv. repeat match goal with
      H : checked_add_u64 _ _ = Some _ |- _ => apply checked_add_u64_Some in H as [-> ?] end.
    bool_norm. destruct_and?. subst. do 2 eexists. split_and!; [done| |done|done].
    split; done.
  - intros (s & s' & Hc & [G1 G2 G3 G4 G5 G6 G7 G8] & Hd & ->). rewrite Hc. cbn.
    rewrite !(bool_decide_eq_true_2 _ G1), !(bool_decide_eq_true_2 _ G2),
      (bool_decide_eq_true_2 _ G3), (bool_decide_eq_false_2 _ G5), G4, Z.eqb_refl, G6.
    cbn. rewrite !(proj2 (checked_add_u64_Some _ _ _)) by eauto. cbn. by rewrite Hd.
Qed.

Lemma dispatch_step_ok current actor kind s s' :
  canonical_call_session current = Ok s → cs_signalling_state s ≠ CsTerminated →
  dispatch_call_signal s actor kind (cs_revision s + 1) = Ok s' →
  step_ok (cs_revision s + 1) s s'.
Proof. intros [_ Hwf]%canonical_call_session_Ok Hl. exact (dispatch_ok s Hwf Hl actor kind s'). Qed.

Lemma apply_call_signal_Ok current actor_scope actor signal c :
  apply_call_signal current actor_scope actor signal = Ok c ↔
  ∃ s s', canonical_call_session current = Ok s ∧ signal_guard s actor_scope actor signal
    ∧ dispatch_call_signal s actor (sg_kind signal) (cs_revision s + 1) = Ok s'
    ∧ c = sort_session
            (set_counters (cs_revision s + 1) (cs_replication_generation s + 1) s').
Proof.
  unfold apply_call_signal. rewrite bind_Ok. setoid_rewrite call_signal_body_Ok. split.
  - intros (next & (s & s' & Hc & Hg & Hd & ->) & Hf).
    exists s, s'. split_and!; [done..|]. by apply canonical_call_session_Ok in Hf as [-> _].
  - intros (s & s' & Hc & Hg & Hd & ->). eexists. split; [by eauto 10|].
    eapply finish_canonical, dispatch_step_ok; eauto using sgd_live.
Qed.

(** * Participant evolution *)

(** What one step may do to a participant: a tombstone is final, identity and
    join revision are fixed. *)
Definition tombstone (p : CallParticipant) : Prop := live_state (cp_state p) = false.

Record participant_evolves (p p' : CallParticipant) : Prop := {
  pe_principal : cp_principal p' = cp_principal p;
  pe_joined : cp_joined_revision p' = cp_joined_revision p;
  pe_tombstone : tombstone p → p' = p;
}.

#[global] Instance participant_evolves_refl : Reflexive participant_evolves.
Proof. done. Qed.

Lemma restate_evolves p st lr :
  live_state (cp_state p) = true → participant_evolves p (set_participant_state st lr p).
Proof. intros H. split; try done. unfold tombstone. congruence. Qed.

Record evolves (rev : Z) (l l' : list CallParticipant) : Prop := {
  ev_old p : p ∈ l → ∃ p', p' ∈ l' ∧ participant_evolves p p';
  ev_new p' : p' ∈ l' →
    (∃ p, p ∈ l ∧ participant_evolves p p') ∨ cp_joined_revision p' = rev;
}.

#[global] Instance evolves_proper rev : Proper ((≡ₚ) ==> (≡ₚ) ==> iff) (evolves rev).
Proof.
  assert (∀ l1 l2 k1 k2, l1 ≡ₚ l2 → k1 ≡ₚ k2 → evolves rev l1 k1 → evolves rev l2 k2) as Hperm.
  { intros l1 l2 k1 k2 El Ek [Ho Hn]. split.
    - intros p Hp. rewrite <- El in Hp. destruct (Ho p Hp) as (p' & Hp' & ?).
      exists p'. by rewrite <- Ek.
    - intros p' Hp'. rewrite <- Ek in Hp'. destruct (Hn p' Hp') as [(p & Hp & ?)|]; [left|by right].
      exists p. by rewrite <- El. }
  intros l1 l2 El k1 k2 Ek. split; by apply Hperm.
Qed.

Lemma evolves_refl rev l : evolves rev l l.
Proof. split; intros p Hp; [exists p|left; exists p]; done. Qed.

Lemma evolves_replace rev l1 l2 v v' :
  participant_evolves v v' → evolves rev (l1 ++ v :: l2) (l1 ++ v' :: l2).
Proof.
  intros Hv. split.
  - intros p. rewrite elem_of_app, elem_of_cons. intros [?|[->|?]].
    + exists p. set_solver.
    + exists v'. set_solver.
    + exists p. set_solver.
  - intros p. rewrite elem_of_app, elem_of_cons. intros [?|[->|?]]; left.
    + exists p. set_solver.
    + exists v. set_solver.
    + exists p. set_solver.
Qed.

Lemma evolves_append rev l v : cp_joined_revision v = rev → evolves rev l (l ++ [v]).
Proof.
  intros Hv. split.
  - intros p Hp. exists p. set_solver.
  - intros p. rewrite elem_of_app, list_elem_of_singleton. intros [?| ->]; [left; exists p|right]; done.
Qed.

Lemma evolves_map rev l f : (∀ p, participant_evolves p (f p)) → evolves rev l (f <$> l).
Proof.
  intros Hf. split.
  - intros p Hp. exists (f p). split; [by apply list_elem_of_fmap_2|done].
  - intros p (q & -> & Hq)%list_elem_of_fmap. eauto.
Qed.

Lemma settle_participants reason s :
  cs_participants (settle_if_no_viable_remote reason s) = cs_participants s.
Proof. unfold settle_if_no_viable_remote. by repeat case_match. Qed.

Lemma release_participants (b : bool) s :
  cs_participants (if b then set_signalling CsActive (set_reconnecting None s) else s)
  = cs_participants s.
Proof. by destruct b. Qed.

(** A handler that writes one live participant. *)
Lemma write_evolves s q i v rev st lr :
  participant_mut s q = Ok (i, v) → live_state (cp_state v) = true →
  evolves rev (cs_participants s)
    (cs_participants (write_participant i (set_participant_state st lr v) s)).
Proof.
  intros (l1 & l2 & Hps & _ & Hw)%participant_mut_Ok Hv.
  rewrite Hw, Hps. cbn. by apply evolves_replace, restate_evolves.
Qed.

Lemma pending_live st : pending_state st = true → live_state st = true.
Proof. by destruct st. Qed.
#[local] Hint Resolve evolves_refl write_evolves pending_live : core.

Lemma dispatch_evolves s actor kind rev s' :
  dispatch_call_signal s actor kind rev = Ok s' →
  evolves rev (cs_participants s) (cs_participants s').
Proof.
  destruct kind as [| | | | | |phase|target []|r|reason]; cbn;
    unfold apply_ringing, apply_accept, apply_decline, reject_or_busy,
      apply_pre_accept_termination, apply_reconnect, add_participant, remove_participant,
      apply_media_renegotiation, apply_explicit_termination;
    intros H; res_inv; repeat case_match; res_inv; simplify_eq;
    rewrite ?settle_participants; bool_norm; destruct_and?;
    eauto using evolves_append; try (cbn; by eauto).
  all: first [by apply evolves_append | eapply (write_evolves s _ _ _ rev); [eassumption|]];
    first [by eauto|by match goal with H : cp_state _ = _ |- _ => rewrite H end].
Qed.

Lemma revoke_evolves s members rev :
  evolves rev (cs_participants s) (cs_participants (revoke_members s members rev)).
Proof.
  unfold revoke_members. case_match; [apply evolves_refl|]. rewrite settle_participants, release_participants.
  apply evolves_map. intros p. destruct (revoked_participant _ _ p) eqn:E; [|done].
  apply restate_evolves. unfold revoked_participant in E. bool_norm. tauto.
Qed.

(** * The transition system *)

(** Every way a committed call session moves: a signal or a Group membership
    projection. *)
Inductive call_step : CallSession → CallSession → Prop :=
| step_signal s actor_scope actor signal c :
    apply_call_signal s actor_scope actor signal = Ok c → call_step s c
| step_membership s members c :
    reconcile_group_call_membership s members = Ok c → call_step s c.

Definition initiator_member (s : CallSession) (members : list PrincipalRef) : bool :=
  existsb (λ m, bool_decide (m = cs_initiated_by s)) members.

(** On a canonical session, reconciliation changes nothing or moves one revision. *)
Lemma reconcile_Ok s members c :
  call_wf s → reconcile_group_call_membership s members = Ok c →
  c = s ∧ (cs_signalling_state s = CsTerminated
           ∨ initiator_member s members = true
             ∧ existsb (revoked_participant (cs_initiated_by s) members)
                 (cs_participants s) = false)
  ∨ cs_signalling_state s ≠ CsTerminated ∧
    c = sort_session (set_counters (cs_revision s + 1) (cs_replication_generation s + 1)
          (revoke_members s members (cs_revision s + 1))).
Proof.
  intros Hwf. unfold reconcile_group_call_membership.
  rewrite canonical_call_session_wf by done. cbn [mbind result_bind].
  intros H. apply bind_Ok in H as ([] & _ & H).
  case_bool_decide as Hst; [by injection H as <-; auto|].
  case_match eqn:E.
  - injection H as <-. left. split; [done|right]. bool_norm. unfold initiator_member.
    bool_norm. tauto.
  - right. split; [done|]. apply bind_Ok in H as (r & Hr & H). apply bind_Ok in H as (g & Hg & H).
    apply ok_or_Ok, checked_add_u64_Some in Hr as [-> _], Hg as [-> _].
    by apply canonical_call_session_Ok in H as [-> _].
Qed.

Record step_facts (s c : CallSession) : Prop := {
  sf_wf : call_wf c;
  sf_scope : cs_scope c = cs_scope s;
  sf_call_id : cs_call_id c = cs_call_id s;
  sf_conversation : cs_conversation c = cs_conversation s;
  sf_initiated_by : cs_initiated_by c = cs_initiated_by s;
  sf_evolves : evolves (cs_revision s + 1) (cs_participants s) (cs_participants c);
  sf_counters : c = s ∨
    cs_revision c = (cs_revision s + 1)%Z
    ∧ cs_replication_generation c = (cs_replication_generation s + 1)%Z
    ∧ cs_signalling_state s ≠ CsTerminated;
}.

Lemma step_ok_facts s s' :
  cs_signalling_state s ≠ CsTerminated →
  step_ok (cs_revision s + 1) s s' →
  evolves (cs_revision s + 1) (cs_participants s) (cs_participants s') →
  step_facts s (sort_session
    (set_counters (cs_revision s + 1) (cs_replication_generation s + 1) s')).
Proof.
  intros Hl Hok Hev. split; try apply Hok; [by eapply finish_wf| |by right].
  unfold sort_session. cbn [cs_participants set_participants]. by rewrite sort_by_perm.
Qed.

Lemma call_step_facts s c : call_wf s → call_step s c → step_facts s c.
Proof.
  intros Hwf Hs. inversion Hs as [? sc actor signal ? H|? members ? H]; subst; clear Hs.
  - apply apply_call_signal_Ok in H as (s0 & s' & Hc & Hg & Hd & ->).
    rewrite canonical_call_session_wf in Hc by done. injection Hc as <-.
    apply step_ok_facts; [apply Hg| |by eapply dispatch_evolves].
    eapply dispatch_step_ok; [by apply canonical_call_session_wf|apply Hg|done].
  - apply reconcile_Ok in H as [[-> _]|[Hl ->]]; [|..|done].
    + split; try done. by left.
    + apply step_ok_facts; [done|by apply revoke_members_ok|apply revoke_evolves].
Qed.

Lemma call_steps_wf s c : call_wf s → rtc call_step s c → call_wf c.
Proof. intros Hwf H. induction H; eauto using call_step_facts, sf_wf. Qed.

(** A tombstone survives every sequence of steps unchanged. *)
Lemma call_steps_tombstone s c p :
  call_wf s → rtc call_step s c → p ∈ cs_participants s → tombstone p →
  p ∈ cs_participants c.
Proof.
  intros Hwf H Hp Ht. induction H as [|s s' c Hs _ IH]; [done|].
  pose proof (call_step_facts _ _ Hwf Hs) as F.
  apply IH; [apply F|]. destruct (ev_old _ _ _ (sf_evolves _ _ F) p Hp) as (p' & Hp' & Hev).
  by rewrite (pe_tombstone _ _ Hev Ht) in Hp'.
Qed.

Lemma tombstone_inactive s p :
  call_wf s → p ∈ cs_participants s → tombstone p →
  active_call_participant s (cp_principal p) = false.
Proof.
  intros Hwf Hp Ht. unfold active_call_participant.
  rewrite (proj2 (participant_Some _ _ (wf_base _ Hwf) _ p)) by done.
  unfold tombstone in Ht. by rewrite Ht.
Qed.

(** * Authority *)

(** Who may send what, stated over the canonical session alone. *)
Definition actor_state (s : CallSession) (actor : PrincipalRef) : option CallParticipantState :=
  cp_state <$> participant s actor.

Definition signal_admitted (s : CallSession) (actor : PrincipalRef) (kind : CallSignalKind) :
    bool :=
  match kind with
  | SkRinging => bool_decide (actor_state s actor = Some CpInvited)
  | SkAccept | SkReject | SkBusy =>
      match actor_state s actor with Some st => pending_state st | None => false end
  | SkCancel | SkTimeout =>
      bool_decide (actor = cs_initiated_by s) && negb (any_remote s is_accepted)
  | SkReconnect CrStarted =>
      bool_decide (cs_signalling_state s = CsActive)
      && bool_decide (actor_state s actor = Some CpAccepted)
  | SkReconnect CrRestored =>
      bool_decide (cs_signalling_state s = CsReconnecting)
      && bool_decide (cs_reconnecting_participant s = Some actor)
  | SkParticipantUpdate target CuAdd =>
      bool_decide (actor = cs_initiated_by s)
      && (len (cs_participants s) <? MAX_CALL_PARTICIPANTS)%Z
      && bool_decide (participant s target = None)
  | SkParticipantUpdate target CuRemove =>
      negb (bool_decide (target = cs_initiated_by s))
      && (bool_decide (actor = cs_initiated_by s) || bool_decide (actor = target))
      && match actor_state s target with Some st => live_state st | None => false end
  | SkMediaRenegotiation _ =>
      (bool_decide (cs_signalling_state s = CsActive)
       || bool_decide (cs_signalling_state s = CsReconnecting))
      && bool_decide (actor_state s actor = Some CpAccepted)
      && (cs_media_negotiation_generation s + 1 <=? u64_max)%Z
  | SkTerminate reason =>
      (bool_decide (reason = CtCompleted) || bool_decide (reason = CtFailed))
      && (bool_decide (actor = cs_initiated_by s)
          || bool_decide (actor_state s actor = Some CpAccepted)
             && negb (is_group_kind (conversation_kind (cs_conversation s))))
  end.

Lemma participant_mut_find s q :
  match participant s q with
  | Some v => ∃ i, participant_mut s q = Ok (i, v)
  | None => participant_mut s q = Err CeParticipantNotActive
  end.
Proof.
  unfold participant, participant_mut.
  destruct (position _ _) as [i|] eqn:Hp.
  - apply position_split in Hp as (l1 & v & l2 & E & Hi & Hv & Hl1 & _). cbn. rewrite Hi. cbn.
    rewrite E, find_app, (proj2 (find_None_Forall _ l1)) by done. cbn. rewrite Hv. by exists i.
  - apply position_None in Hp. by rewrite (proj2 (find_None_Forall _ _)).
Qed.

Lemma is_ok_bind {E A B} (r : result E A) (k : A → result E B) :
  is_ok (r ≫= k) = match r with Ok a => is_ok (k a) | Err _ => false end.
Proof. by destruct r. Qed.

Lemma is_ok_reject {E B} (b : bool) (e : E) (k : unit → result E B) :
  is_ok (reject_if b e ≫= k) = negb b && is_ok (k tt).
Proof. by destruct b. Qed.

Lemma is_ok_ok_or {E A B} (o : option A) (e : E) (k : A → result E B) :
  is_ok (ok_or o e ≫= k) = match o with Some a => is_ok (k a) | None => false end.
Proof. by destruct o. Qed.

Lemma state_not_initiator s v q :
  call_wf s → participant s q = Some v → cp_state v ≠ CpAccepted →
  bool_decide (cp_principal v = cs_initiated_by s) = false.
Proof.
  intros Hwf Hv Hst. apply bool_decide_eq_false.
  eapply not_accepted_remote; [apply Hwf| |done].
  by apply (participant_Some _ _ (wf_base _ Hwf)) in Hv as [? _].
Qed.

Lemma dispatch_admitted s actor kind rev :
  call_wf s → active_call_participant s actor = true →
  is_ok (dispatch_call_signal s actor kind rev) = signal_admitted s actor kind.
Proof.
  intros Hwf Hact. unfold active_call_participant in Hact.
  destruct (participant s actor) as [v|] eqn:Hv; [|done].
  pose proof (participant_mut_find s actor) as Hm. rewrite Hv in Hm. destruct Hm as [i Hm].
  pose proof (state_not_initiator s v actor Hwf Hv) as Hni.
  destruct kind as [| | | | | |[]|target []|r|reason]; cbn -[is_ok];
    unfold actor_state; rewrite ?Hv; cbn -[is_ok].
  1-4: unfold apply_ringing, apply_accept, apply_decline, reject_or_busy;
    rewrite ?is_ok_bind, Hm; cbn -[is_ok]; rewrite ?is_ok_reject;
    destruct (cp_state v), (bool_decide (cp_principal v = cs_initiated_by s)); cbn;
    try (by specialize (Hni ltac:(done))); by repeat case_match.
  1-2: unfold apply_pre_accept_termination, require_initiator_without_remote_accept;
    rewrite is_ok_reject; cbn; rewrite andb_true_r, negb_orb, negb_involutive; done.
  - unfold apply_reconnect. rewrite Hv, is_ok_ok_or, is_ok_reject, negb_involutive.
    rewrite andb_comm. by destruct (cs_signalling_state s), (cp_state v).
  - unfold apply_reconnect. rewrite Hv, is_ok_ok_or, is_ok_reject, negb_involutive.
    destruct (decide (cs_signalling_state s = CsReconnecting)) as [Hst|Hst].
    + destruct (wf_owner s Hwf Hst) as (r & p & E & Hp & Hacc). rewrite Hst, E.
      rewrite is_ok_reject, negb_involutive. cbn.
      destruct (decide (r = actor)) as [->|Hne].
      * rewrite Hv in Hp. injection Hp as ->. unfold accepted_in in Hacc. bool_norm.
        destruct Hacc as [-> _]. by rewrite !bool_decide_eq_true_2.
      * rewrite (bool_decide_eq_false_2 (Some r = _)) by congruence. by rewrite andb_false_r.
    + rewrite (bool_decide_eq_false_2 (_ = CsReconnecting)) by done.
      destruct (cs_signalling_state s); by rewrite ?andb_false_r.
  - unfold add_participant. rewrite !is_ok_reject, !negb_involutive. cbn. rewrite andb_true_r.
    rewrite <- Z.ltb_antisym. rewrite andb_assoc. do 2 f_equal. 
    destruct (participant s target); done.
  - unfold remove_participant. rewrite !is_ok_reject, negb_andb, !negb_involutive, is_ok_bind.
    pose proof (participant_mut_find s target) as Ht. rewrite <- andb_assoc. f_equal. f_equal.
    destruct (participant s target); [destruct Ht as [j Ht]|]; rewrite Ht; [|done].
    rewrite is_ok_reject, negb_involutive. cbn. by rewrite andb_true_r.
  - unfold apply_media_renegotiation. rewrite Hv, is_ok_reject, negb_orb, !negb_involutive.
    unfold checked_add_u64. f_equal; [by destruct (cp_state v)|]. case_match; done.
  - unfold apply_explicit_termination. rewrite Hv, is_ok_reject, is_ok_ok_or, is_ok_reject.
    rewrite !negb_involutive, negb_andb, negb_orb, !negb_involutive. cbn. rewrite andb_true_r.
    by destruct (cp_state v).
Qed.

(** * Membership revocation *)

Lemma live_not_left s p :
  call_wf s → p ∈ cs_participants s → live_state (cp_state p) = true →
  cp_left_revision p = None.
Proof.
  intros Hwf Hp Hl. pose proof (wf_valid _ _ (wf_base _ Hwf)) as H.
  rewrite Forall_forall in H. specialize (H p Hp). unfold validate_participant in H.
  destruct (cp_state p); try done; res_inv; bool_norm; by apply eq_None_not_Some.
Qed.

Lemma member_b (q : PrincipalRef) members :
  existsb (λ m, bool_decide (m = q)) members = true ↔ q ∈ members.
Proof.
  rewrite existsb_true, Exists_exists. setoid_rewrite bool_decide_eq_true. naive_solver.
Qed.

(** The participants after a revocation: everyone that is not revoked is
    untouched, and if the call goes on every live one is a current member. *)
Lemma revoke_members_elem s members rev p :
  p ∈ cs_participants s →
  revoked_participant (cs_initiated_by s) members p = false →
  p ∈ cs_participants (revoke_members s members rev).
Proof.
  intros Hp Hr. unfold revoke_members. case_match; [done|]. rewrite settle_participants, release_participants.
  cbn. apply list_elem_of_fmap. exists p. by rewrite Hr.
Qed.

Lemma revoke_members_live s members rev p :
  call_wf s →
  cs_signalling_state (revoke_members s members rev) ≠ CsTerminated →
  p ∈ cs_participants (revoke_members s members rev) → live_state (cp_state p) = true →
  cp_principal p ∈ members.
Proof.
  intros Hwf. unfold revoke_members.
  destruct (existsb (λ m, bool_decide (m = cs_initiated_by s)) members) eqn:Hi; [|done].
  cbn [negb]. intros _. rewrite settle_participants, release_participants.
  cbn. intros (q & -> & Hq)%list_elem_of_fmap Hl.
  destruct (revoked_participant _ _ q) eqn:Er; [done|].
  apply member_b. unfold revoked_participant in Er.
  rewrite Hl, (bool_decide_eq_true_2 (cp_left_revision q = None)) in Er
    by by apply (live_not_left s).
  case_bool_decide as E; [by rewrite E|]. cbn in Er. by apply negb_false_iff.
Qed.
