(* ===== verification/CallFingerprint.v ===== *)
(** Call fingerprints: the hashed bytes determine the signal, and the creation
    fingerprint is a function of the original invitation only. *)

From S2P Require Import Prelude Ids Call CallFacts CallSafety.

(** * The encoders are prefix free *)

Lemma push_bytes_id_pf :
  prefix_free (λ _, True) (λ id : OpaqueId, push_bytes (as_wire_bytes id)).
Proof. apply opaque_id_pf. lia. Qed.

Lemma push_scope_pf : prefix_free (λ _, True) push_scope.
Proof.
  intros [t n] [t' n'] r r' _ _ E. unfold push_scope in E. cbn in E.
  rewrite <- !app_assoc in E. apply push_bytes_id_pf in E as [<- E]; [|done..].
  destruct n, n'; apply cons_inv in E as [? E]; try done.
  by apply push_bytes_id_pf in E as [<- <-].
Qed.

Lemma push_principal_pf : prefix_free (λ _, True) push_principal.
Proof.
  intros [i k] [i' k'] r r' _ _ E. unfold push_principal in E. cbn in E.
  apply cons_inv in E as [Hk E]. apply principal_kind_code_inj in Hk as ->.
  by apply push_bytes_id_pf in E as [<- <-].
Qed.

Lemma signal_kind_bytes_pf : prefix_free (λ _, True) signal_kind_bytes.
Proof.
  intros k k' r r' _ _ E.
  destruct k as [| | | | | |p|q u|m|t], k' as [| | | | | |p'|q' u'|m'|t']; cbn in E;
    try (apply cons_inv in E as [E0 E]; first [discriminate E0|by subst]).
  - destruct p, p'; by simplify_eq.
  - apply cons_inv in E as [_ E]. rewrite <- !app_assoc in E.
    apply push_principal_pf in E as [<- E]; [|done..]. destruct u, u'; by simplify_eq.
  - apply cons_inv in E as [_ E]. by apply push_bytes_id_pf in E as [<- <-].
  - destruct t, t'; by simplify_eq.
Qed.

(** The bytes of a signal determine every field of the signal. *)
Lemma call_signal_preimage_inj a b :
  is_u64 (sg_expected_revision a) → is_u64 (sg_expected_revision b) →
  call_signal_preimage a = call_signal_preimage b → a = b.
Proof.
  destruct a as [e s c r k], b as [e' s' c' r' k']. cbn. intros Hr Hr' E.
  unfold call_signal_preimage in E. apply app_inv_head in E. cbn in E.
  apply push_bytes_id_pf in E as [<- E]; [|done..].
  apply push_scope_pf in E as [<- E]; [|done..].
  apply push_bytes_id_pf in E as [<- E]; [|done..].
  apply prefix_free_be in E as [<- E]; [|done..].
  by apply (prefix_free_end _ _ _ _ signal_kind_bytes_pf) in E as <-.
Qed.

(** * The creation fingerprint *)

(** The hashed bytes of a canonical session, by its identity and its original
    invitees. *)
Definition creation_bytes (s : CallSession) (origin : list PrincipalRef) : bytes :=
  CALL_CREATION_FINGERPRINT_V1_DOMAIN
  ++ push_scope (cs_scope s)
  ++ push_bytes (as_wire_bytes (cs_call_id s))
  ++ push_bytes (as_wire_bytes (conversation_id (cs_conversation s)))
  ++ [conversation_kind_code (conversation_kind (cs_conversation s))]
  ++ push_principal (cs_initiated_by s)
  ++ be_bytes 4 (len origin)
  ++ flat_map push_principal origin.

Definition origin_principals (s : CallSession) : list PrincipalRef :=
  cp_principal <$> origin_participants s.

Lemma call_creation_preimage_wf s :
  call_wf s →
  call_creation_preimage s =
  (reject_if ((len (origin_principals s) <? 2)%Z
     || negb (existsb (λ q, bool_decide (q = cs_initiated_by s)) (origin_principals s)))
     CeInvalidSession ;;
   reject_if (u32_max <? len (origin_principals s))%Z CeOverflow ;;
   Ok (creation_bytes s (origin_principals s))).
Proof.
  intros Hwf. unfold call_creation_preimage. rewrite canonical_call_session_wf by done.
  cbn [mbind result_bind].
  unfold creation_bytes, origin_principals, len.
  by rewrite existsb_fmap, flat_map_fmap, length_fmap.
Qed.

Lemma origin_principals_sorted s :
  call_wf s → strict_sorted id principal_cmp (origin_principals s).
Proof.
  intros Hwf. pose proof (wf_sorted _ _ (wf_base _ Hwf)) as Hs.
  unfold origin_principals, origin_participants.
  induction Hs as [|p l Hs IH Hp]; cbn; [constructor|].
  destruct (cp_joined_revision p =? 0)%Z; [|done]. cbn. constructor; [done|].
  rewrite Forall_fmap. apply Forall_forall. intros q Hq. rewrite Forall_forall in Hp.
  apply Hp. apply list_elem_of_In. apply list_elem_of_In, filter_In in Hq. tauto.
Qed.

Lemma elem_of_origin s q :
  q ∈ origin_principals s ↔
  ∃ p, p ∈ cs_participants s ∧ cp_joined_revision p = 0%Z ∧ cp_principal p = q.
Proof.
  unfold origin_principals, origin_participants. rewrite list_elem_of_fmap. split.
  - intros (p & -> & Hp). apply list_elem_of_In, filter_In in Hp as [Hp E].
    apply list_elem_of_In in Hp. bool_norm. eauto.
  - intros (p & Hp & E & <-). exists p. split; [done|]. apply list_elem_of_In, filter_In.
    rewrite <- list_elem_of_In. by rewrite E.
Qed.

(** The original invitees never change: later participants join at a later
    revision. *)
Lemma step_origin s c :
  (0 ≤ cs_revision s)%Z → call_wf s → call_step s c →
  origin_principals c = origin_principals s.
Proof.
  intros Hrev Hwf Hs. pose proof (call_step_facts _ _ Hwf Hs) as F.
  pose proof (sf_evolves _ _ F) as [Ho Hn].
  apply (strict_sorted_unique id principal_cmp);
    [by apply origin_principals_sorted, F|by apply origin_principals_sorted|].
  apply NoDup_Permutation.
  1,2: rewrite <- (list_fmap_id (origin_principals _));
    eapply (strict_sorted_NoDup id principal_cmp), origin_principals_sorted; done || apply F.
  intros q. rewrite !elem_of_origin. split.
  - intros (p' & Hp' & Ej & <-). destruct (Hn p' Hp') as [(p & Hp & [E1 E2 _])|E]; [|lia].
    exists p. split_and!; congruence.
  - intros (p & Hp & Ej & <-). destruct (Ho p Hp) as (p' & Hp' & [E1 E2 _]).
    exists p'. split_and!; congruence.
Qed.

Lemma steps_creation_preimage s c :
  (0 ≤ cs_revision s)%Z → call_wf s → rtc call_step s c →
  call_creation_preimage c = call_creation_preimage s.
Proof.
  intros Hrev Hwf H. induction H as [|s s' c Hs _ IH]; [done|].
  pose proof (call_step_facts _ _ Hwf Hs) as F. rewrite IH; [|destruct (sf_counters _ _ F);
    [by subst|lia]|apply F].
  rewrite !call_creation_preimage_wf, (step_origin s s') by (done || apply F).
  unfold creation_bytes.
  by rewrite (sf_scope _ _ F), (sf_call_id _ _ F), (sf_conversation _ _ F),
    (sf_initiated_by _ _ F).
Qed.
