(* ===== verification/CallTheorems.v ===== *)
(** The correctness theorems of call signalling, and the concrete group call
    that exercises each of them. *)

From S2P Require Import Prelude Ids Call CallFacts CallSafety CallFingerprint.

(** * A concrete group call *)

Definition acme : TenantScope := mk_scope (oid "acme") (Some (oid "prod")).
Definition alice : PrincipalRef := mk_principal (oid "alice") PkPerson.
Definition bob : PrincipalRef := mk_principal (oid "bob") PkPerson.
Definition carol : PrincipalRef := mk_principal (oid "carol") PkPerson.

(** Alice has invited Bob and Carol; nobody answered yet. *)
Definition invited_call : CallSession :=
  mk_session acme (oid "call-1") (mk_conversation (oid "room-1") CkPrivateGroup) alice
    [mk_participant alice CpAccepted 0 None; mk_participant bob CpInvited 0 None;
     mk_participant carol CpInvited 0 None]
    CsInviting None None 0 0 0 None.

Definition signal_at (revision : Z) (kind : CallSignalKind) : CallSignal :=
  mk_signal (oid "event-1") acme (oid "call-1") revision kind.

Definition session_of {E} (r : result E CallSession) : CallSession :=
  match r with Ok s => s | Err _ => invited_call end.

(** Bob declines, then Carol accepts. *)
Definition declined_call : CallSession :=
  session_of (apply_call_signal invited_call acme bob (signal_at 0 SkReject)).
Definition accepted_call : CallSession :=
  session_of (apply_call_signal declined_call acme carol (signal_at 1 SkAccept)).
Definition ended_call : CallSession :=
  session_of (apply_call_signal accepted_call acme alice (signal_at 2 (SkTerminate CtCompleted))).

Lemma canonical_wf s : canonical_call_session s = Ok s → call_wf s.
Proof. by intros [_ ?]%canonical_call_session_Ok. Qed.

(** * Canonical sessions *)

(** Canonicalisation does not depend on the order in which participants are
    listed, errors included. *)
Theorem canonical_call_session_order_insensitive (s : CallSession) (l : list CallParticipant)
    (Hperm : cs_participants s ≡ₚ l) :
  canonical_call_session (set_participants l s) = canonical_call_session s.
Proof.
  unfold canonical_call_session. cbn [cs_participants cs_conversation set_participants].
  assert (len l = len (cs_participants s)) as -> by (unfold len; by rewrite Hperm).
  destruct (decide (NoDup (cp_principal <$> cs_participants s))) as [Hnd|Hd].
  - change compare_participants with (key_cmp cp_principal principal_cmp).
    by rewrite (sort_by_Permutation cp_principal principal_cmp _ _ Hperm Hnd).
  - assert (∀ k, cs_participants s ≡ₚ k →
      windows_any (λ a b, bool_decide (cp_principal a = cp_principal b))
        (sort_by compare_participants k) = true) as Hw.
    { intros k Hk. apply not_false_iff_true.
      intros Hnd%(sort_by_windows cp_principal principal_cmp k). by rewrite <- Hk in Hnd. }
    by rewrite !Hw by done.
Qed.

Lemma canonical_call_session_order_insensitive_witness :
  canonical_call_session
    (set_participants (reverse (cs_participants invited_call)) invited_call)
  = Ok invited_call.
Proof.
  rewrite (canonical_call_session_order_insensitive invited_call).
  - vm_compute. reflexivity.
  - symmetry. apply reverse_Permutation.
Defined.

(** Canonicalisation is idempotent, and what it returns is the sorted
    session and satisfies the session invariant. *)
Theorem canonical_call_session_idempotent (s c : CallSession)
    (Hc : canonical_call_session s = Ok c) :
  canonical_call_session c = Ok c ∧ call_wf c ∧ cs_participants c ≡ₚ cs_participants s.
Proof.
  apply canonical_call_session_Ok in Hc as [-> Hwf]. split_and!; [|done|apply sort_by_perm].
  by apply canonical_call_session_wf.
Qed.

Lemma canonical_call_session_idempotent_witness :
  canonical_call_session invited_call = Ok invited_call ∧ call_wf invited_call
  ∧ cs_participants invited_call ≡ₚ cs_participants invited_call.
Proof.
  apply (canonical_call_session_idempotent invited_call invited_call).
  vm_compute. reflexivity.
Defined.

(** * Signals *)

(** C13: a call signal is accepted by a well-formed call exactly when the scope, call
    and revision it names are current, the call is live, the actor is a live participant, the
    counters have room, and the authority table [signal_admitted] allows it. *)
Theorem apply_call_signal_exact_authority (s : CallSession) (actor_scope : TenantScope)
    (actor : PrincipalRef) (signal : CallSignal) (Hwf : call_wf s) :
  is_ok (apply_call_signal s actor_scope actor signal) = true ↔
  signal_guard s actor_scope actor signal ∧ signal_admitted s actor (sg_kind signal) = true.
Proof.
  pose proof (canonical_call_session_wf s Hwf) as Hs. split.
  - destruct (apply_call_signal _ _ _ _) as [c|] eqn:E; [intros _|done].
    apply apply_call_signal_Ok in E as (s0 & s' & Hc & Hg & Hd & _).
    rewrite Hs in Hc. injection Hc as <-. split; [done|].
    rewrite <- (dispatch_admitted s actor _ (cs_revision s + 1) Hwf (sgd_actor _ _ _ _ Hg)).
    by rewrite Hd.
  - intros [Hg Ha].
    rewrite <- (dispatch_admitted s actor _ (cs_revision s + 1) Hwf (sgd_actor _ _ _ _ Hg)) in Ha.
    destruct (dispatch_call_signal _ _ _ _) as [s'|] eqn:Hd; [|done].
    by rewrite (proj2 (apply_call_signal_Ok s actor_scope actor signal _))
      by (exists s, s'; eauto).
Qed.

Lemma apply_call_signal_exact_authority_witness :
  is_ok (apply_call_signal accepted_call acme bob (signal_at 2 SkAccept)) = true ↔
  signal_guard accepted_call acme bob (signal_at 2 SkAccept)
  ∧ signal_admitted accepted_call bob SkAccept = true.
Proof.
  apply (apply_call_signal_exact_authority accepted_call acme bob (signal_at 2 SkAccept)).
  apply canonical_wf. vm_compute. reflexivity.
Defined.

(** An accepted signal yields a session that satisfies the invariant, moves
    revision and replication generation by exactly one, and keeps the call's
    scope, id, conversation and initiator. *)
Theorem apply_call_signal_invariant (current c : CallSession) (actor_scope : TenantScope)
    (actor : PrincipalRef) (signal : CallSignal)
    (Hc : apply_call_signal current actor_scope actor signal = Ok c) :
  call_wf c
  ∧ cs_revision c = (cs_revision current + 1)%Z
  ∧ cs_replication_generation c = (cs_replication_generation current + 1)%Z
  ∧ (cs_revision c ≤ u64_max)%Z ∧ (cs_replication_generation c ≤ u64_max)%Z
  ∧ cs_scope c = cs_scope current ∧ cs_call_id c = cs_call_id current
  ∧ cs_conversation c = cs_conversation current
  ∧ cs_initiated_by c = cs_initiated_by current.
Proof.
  apply apply_call_signal_Ok in Hc as (s & s' & Hs & Hg & Hd & ->).
  pose proof (dispatch_step_ok _ _ _ _ _ Hs (sgd_live _ _ _ _ Hg) Hd) as Hok.
  apply canonical_call_session_Ok in Hs as [-> Hwf].
  split; [by eapply finish_wf|]. cbn.
  rewrite (so_scope _ _ _ Hok), (so_call_id _ _ _ Hok), (so_conversation _ _ _ Hok),
    (so_initiated_by _ _ _ Hok).
  split_and!; try done; apply Hg.
Qed.

Lemma apply_call_signal_invariant_witness :
  call_wf accepted_call ∧ cs_revision accepted_call = 2%Z
  ∧ cs_replication_generation accepted_call = 2%Z
  ∧ (cs_revision accepted_call ≤ u64_max)%Z
  ∧ (cs_replication_generation accepted_call ≤ u64_max)%Z
  ∧ cs_scope accepted_call = acme ∧ cs_call_id accepted_call = oid "call-1"
  ∧ cs_conversation accepted_call = cs_conversation declined_call
  ∧ cs_initiated_by accepted_call = alice.
Proof.
  apply (apply_call_signal_invariant declined_call accepted_call acme carol
    (signal_at 1 SkAccept)).
  vm_compute. reflexivity.
Defined.

(** Once the guards and the handler of a signal have succeeded, the final
    canonicalisation of [apply_call_signal] never rejects the result. *)
Theorem apply_call_signal_final_check_total (current next : CallSession)
    (actor_scope : TenantScope) (actor : PrincipalRef) (signal : CallSignal)
    (Hbody : call_signal_body current actor_scope actor signal = Ok next) :
  ∃ c, canonical_call_session next = Ok c
       ∧ apply_call_signal current actor_scope actor signal = Ok c.
Proof.
  unfold apply_call_signal. rewrite Hbody. cbn.
  apply call_signal_body_Ok in Hbody as (s & s' & Hs & Hg & Hd & ->).
  eexists. split; eapply finish_canonical, dispatch_step_ok; eauto using sgd_live.
Qed.

Lemma apply_call_signal_final_check_total_witness :
  ∃ c, canonical_call_session accepted_call = Ok c
       ∧ apply_call_signal declined_call acme carol (signal_at 1 SkAccept) = Ok c.
Proof.
  apply (apply_call_signal_final_check_total declined_call accepted_call acme carol
    (signal_at 1 SkAccept)).
  vm_compute. reflexivity.
Defined.

(** * Histories *)

(** C27: a participant that rejected, was busy or left keeps exactly that record
    through every later sequence of signals and membership projections, and no
    signal of theirs is ever accepted again. *)
Theorem call_tombstone_never_regains_authority (s c : CallSession) (p : CallParticipant)
    (actor_scope : TenantScope) (signal : CallSignal)
    (Hwf : call_wf s) (Hp : p ∈ cs_participants s) (Ht : live_state (cp_state p) = false)
    (Hsteps : rtc call_step s c) :
  participant c (cp_principal p) = Some p
  ∧ is_ok (apply_call_signal c actor_scope (cp_principal p) signal) = false.
Proof.
  pose proof (call_steps_wf _ _ Hwf Hsteps) as Hc.
  pose proof (call_steps_tombstone _ _ _ Hwf Hsteps Hp Ht) as Hpc. split.
  - by apply (participant_Some _ _ (wf_base _ Hc)).
  - destruct (apply_call_signal _ _ _ _) eqn:E; [|done].
    apply apply_call_signal_Ok in E as (s0 & s' & Hs & Hg & _).
    rewrite canonical_call_session_wf in Hs by done. injection Hs as <-.
    pose proof (sgd_actor _ _ _ _ Hg) as H. by rewrite tombstone_inactive in H.
Qed.

Lemma call_tombstone_never_regains_authority_witness :
  participant ended_call bob = Some (mk_participant bob CpRejected 0 None)
  ∧ is_ok (apply_call_signal ended_call acme bob (signal_at 3 SkAccept)) = false.
Proof.
  apply (call_tombstone_never_regains_authority declined_call ended_call
    (mk_participant bob CpRejected 0 None) acme (signal_at 3 SkAccept)).
  - apply canonical_wf. vm_compute. reflexivity.
  - apply list_elem_of_In. vm_compute. auto.
  - reflexivity.
  - apply rtc_l with accepted_call.
    + apply step_signal with acme carol (signal_at 1 SkAccept). vm_compute. reflexivity.
    + apply rtc_once, step_signal with acme alice (signal_at 2 (SkTerminate CtCompleted)).
      vm_compute. reflexivity.
Defined.

(** A terminated call is final: no sequence of signals and membership
    projections changes it. *)
Theorem terminated_call_is_final (s c : CallSession)
    (Hwf : call_wf s) (Hterm : cs_signalling_state s = CsTerminated)
    (Hsteps : rtc call_step s c) : c = s.
Proof.
  induction Hsteps as [|s s' c Hs _ IH]; [done|].
  pose proof (call_step_facts _ _ Hwf Hs) as F.
  destruct (sf_counters _ _ F) as [->|(_ & _ & Hl)]; [by apply IH|done].
Qed.

Lemma terminated_call_is_final_witness : ended_call = ended_call.
Proof.
  apply (terminated_call_is_final ended_call ended_call).
  - apply canonical_wf. vm_compute. reflexivity.
  - vm_compute. reflexivity.
  - apply rtc_once, step_membership with [alice; carol]. vm_compute. reflexivity.
Defined.

(** A retried StartCall keeps matching: the creation fingerprint of a call
    is the same after every sequence of signals and membership projections. *)
Theorem call_creation_fingerprint_stable (sha256 : bytes → bytes) (s c : CallSession)
    (Hrev : is_u64 (cs_revision s)) (Hwf : call_wf s) (Hsteps : rtc call_step s c) :
  call_creation_fingerprint sha256 c = call_creation_fingerprint sha256 s.
Proof.
  unfold call_creation_fingerprint. rewrite (steps_creation_preimage s c); [done| |done..].
  apply Hrev.
Qed.

Lemma call_creation_fingerprint_stable_witness :
  call_creation_fingerprint (λ b, b) ended_call
  = call_creation_fingerprint (λ b, b) declined_call.
Proof.
  apply (call_creation_fingerprint_stable (λ b, b) declined_call ended_call).
  - vm_compute. split; [discriminate|reflexivity].
  - apply canonical_wf. vm_compute. reflexivity.
  - apply rtc_l with accepted_call.
    + apply step_signal with acme carol (signal_at 1 SkAccept). vm_compute. reflexivity.
    + apply rtc_once, step_signal with acme alice (signal_at 2 (SkTerminate CtCompleted)).
      vm_compute. reflexivity.
Defined.

(** Equal signal fingerprints mean equal signals, unless they exhibit a
    collision of the hash itself. *)
Theorem call_signal_fingerprint_binds (sha256 : bytes → bytes) (a b : CallSignal)
    (Ha : is_u64 (sg_expected_revision a)) (Hb : is_u64 (sg_expected_revision b))
    (Heq : call_signal_fingerprint sha256 a = call_signal_fingerprint sha256 b) :
  a = b ∨ (call_signal_preimage a ≠ call_signal_preimage b
           ∧ sha256 (call_signal_preimage a) = sha256 (call_signal_preimage b)).
Proof.
  injection Heq as Heq. destruct (decide (call_signal_preimage a = call_signal_preimage b));
    [left; by apply call_signal_preimage_inj|by right].
Qed.

Lemma call_signal_fingerprint_binds_witness :
  signal_at 1 SkAccept = signal_at 1 SkReject
  ∨ (call_signal_preimage (signal_at 1 SkAccept) ≠ call_signal_preimage (signal_at 1 SkReject)
     ∧ @nil Z = []).
Proof.
  apply (call_signal_fingerprint_binds (λ _, []) (signal_at 1 SkAccept) (signal_at 1 SkReject)).
  - vm_compute. split; [discriminate|reflexivity].
  - vm_compute. split; [discriminate|reflexivity].
  - reflexivity.
Defined.

(** * Group membership *)

(** After a Group membership projection the call satisfies the invariant,
    every live participant of a call that goes on is a current member, members
    and tombstones keep their records, and the counters moved by at most one. *)
Theorem reconcile_group_call_membership_correct (s c : CallSession)
    (members : list PrincipalRef) (Hwf : call_wf s)
    (Hc : reconcile_group_call_membership s members = Ok c) :
  call_wf c
  ∧ (cs_signalling_state c ≠ CsTerminated →
     ∀ p, p ∈ cs_participants c → live_state (cp_state p) = true → cp_principal p ∈ members)
  ∧ (∀ p, p ∈ cs_participants s →
     cp_principal p ∈ members ∨ live_state (cp_state p) = false → p ∈ cs_participants c)
  ∧ (c = s ∨ cs_revision c = (cs_revision s + 1)%Z).
Proof.
  pose proof (call_step_facts _ _ Hwf (step_membership _ _ _ Hc)) as F.
  split; [apply F|]. apply reconcile_Ok in Hc as [[-> Hsame]|[Hl ->]]; [| |done].
  - split_and!; [|done|by left]. intros Hst p Hp Hlive. apply member_b.
    destruct Hsame as [?|[Hi Hr]]; [done|]. rewrite existsb_false, Forall_forall in Hr.
    specialize (Hr p Hp). unfold revoked_participant in Hr.
    rewrite Hlive, (bool_decide_eq_true_2 (cp_left_revision p = None)) in Hr
      by by apply (live_not_left s).
    case_bool_decide as E; [by rewrite E|]. cbn in Hr. by apply negb_false_iff.
  - split_and!; [| |by right].
    + intros Hst p Hp. apply elem_of_sort_by in Hp. exact (revoke_members_live s members _ p Hwf Hst Hp).
    + intros p Hp Hor. apply elem_of_sort_by. apply revoke_members_elem; [done|].
      unfold revoked_participant. destruct Hor as [Hm|Ht].
      * apply member_b in Hm. by rewrite Hm, andb_false_r.
      * by rewrite Ht, andb_false_r.
Qed.

Lemma reconcile_group_call_membership_witness :
  let c := session_of (reconcile_group_call_membership declined_call [alice; bob]) in
  call_wf c
  ∧ (cs_signalling_state c ≠ CsTerminated →
     ∀ p, p ∈ cs_participants c → live_state (cp_state p) = true →
          cp_principal p ∈ [alice; bob])
  ∧ (∀ p, p ∈ cs_participants declined_call →
     cp_principal p ∈ [alice; bob] ∨ live_state (cp_state p) = false → p ∈ cs_participants c)
  ∧ (c = declined_call ∨ cs_revision c = (cs_revision declined_call + 1)%Z).
Proof.
  apply (reconcile_group_call_membership_correct declined_call _ [alice; bob]).
  - apply canonical_wf. vm_compute. reflexivity.
  - vm_compute. reflexivity.
Defined.
