(* ===== verification/BTree.v ===== *)
(** [BTreeMap<String, V>] as the sorted list of its entries, the order in which the
    code iterates over it. *)

From S2P Require Import Prelude Ids.

Definition btree (V : Type) : Type := list (bytes * V).

Fixpoint btree_insert {V} (k : bytes) (v : V) (m : btree V) : btree V :=
  match m with
  | [] => [(k, v)]
  | (k', v') :: m' =>
      match bytes_cmp k k' with
      | Lt => (k, v) :: m
      | Eq => (k, v) :: m'
      | Gt => (k', v') :: btree_insert k v m'
      end
  end.

Definition btree_get {V} (k : bytes) (m : btree V) : option V :=
  snd <$> List.find (λ e, bool_decide (e.1 = k)) m.

Abbreviation btree_wf := (strict_sorted fst bytes_cmp).

Section btree.
Context {V : Type}.
Implicit Types (m : btree V) (k : bytes) (v : V).

Lemma btree_keys_lt k v m :
  btree_wf ((k, v) :: m) ↔ Forall (λ e, bytes_cmp k e.1 = Lt) m ∧ btree_wf m.
Proof. unfold strict_sorted. rewrite StronglySorted_cons. done. Qed.

Lemma btree_insert_lower k0 k v m :
  bytes_cmp k0 k = Lt → Forall (λ e, bytes_cmp k0 e.1 = Lt) m →
  Forall (λ e, bytes_cmp k0 e.1 = Lt) (btree_insert k v m).
Proof.
  intros Hk. induction m as [|[k' v'] m IH]; cbn; [by repeat constructor|].
  intros [Hk' Hm]%Forall_cons. destruct (bytes_cmp k k'); repeat constructor; auto.
Qed.

Lemma btree_insert_wf k v m : btree_wf m → btree_wf (btree_insert k v m).
Proof.
  induction m as [|[k' v'] m IH]; cbn; [by repeat constructor|].
  intros [Hlt Hm]%btree_keys_lt. destruct (bytes_cmp k k') eqn:E; apply btree_keys_lt.
  - apply cmp_eq_iff in E as ->. done.
  - split; [|by apply btree_keys_lt]. constructor; [done|].
    eapply Forall_impl; [exact Hlt|]. intros e He. by eapply cmp_lt_trans.
  - split; [|auto]. apply btree_insert_lower; [|done]. by rewrite cmp_opp, E.
Qed.

Lemma elem_of_btree_insert k v m e :
  btree_wf m → e ∈ btree_insert k v m ↔ e = (k, v) ∨ (e.1 ≠ k ∧ e ∈ m).
Proof.
  induction m as [|[k' v'] m IH]; cbn.
  { rewrite list_elem_of_singleton. set_solver. }
  intros [Hlt Hm]%btree_keys_lt. rewrite Forall_forall in Hlt.
  assert (∀ x, bytes_cmp k x = Lt → x ≠ k) as Hne by (intros x Hx ->; by rewrite (cmp_refl bytes_cmp) in Hx).
  destruct (bytes_cmp k k') eqn:E; rewrite ?elem_of_cons, ?IH by done.
  - apply cmp_eq_iff in E as ->. split; [|naive_solver].
    intros [->|He]; [by left|]. right. split; [|by right]. apply Hne. by apply Hlt.
  - split; [|naive_solver]. intros [->|[->|He]]; [by left| |]; right.
    + split; [by apply Hne|by left].
    + split; [|by right]. apply Hne. eapply cmp_lt_trans; [done|]. by apply Hlt.
  - split; [|naive_solver]. intros [->|[->|[? He]]]; [right|by left|naive_solver].
    split; [cbn|by left]. intros ->. by rewrite (cmp_refl bytes_cmp) in E.
Qed.

Lemma btree_key_unique k v v' m : btree_wf m → (k, v) ∈ m → (k, v') ∈ m → v = v'.
Proof.
  intros Hs%strict_sorted_NoDup Hv Hv'; [|apply _].
  apply list_elem_of_lookup_1 in Hv as [i Hi], Hv' as [j Hj].
  assert (i = j) as ->; [|congruence].
  eapply NoDup_lookup; [exact Hs| |]; rewrite list_lookup_fmap;
    [by rewrite Hi|by rewrite Hj].
Qed.

Lemma btree_get_Some k v m : btree_wf m → btree_get k m = Some v ↔ (k, v) ∈ m.
Proof.
  intros Hs. unfold btree_get. destruct (List.find _ m) as [[k' v']|] eqn:E; cbn.
  - apply find_Some_elem in E as [He Hk]. apply bool_decide_eq_true in Hk. cbn in Hk. subst k'.
    split; [intros [= ->]; done|]. intros. f_equal. by eapply btree_key_unique.
  - apply find_None_Forall in E. rewrite Forall_forall in E. split; [done|].
    intros He. specialize (E _ He). by rewrite bool_decide_eq_false in E.
Qed.

(** Entries determine the map. *)
Lemma btree_ext m m' :
  btree_wf m → btree_wf m' → (∀ k v, (k, v) ∈ m ↔ (k, v) ∈ m') → m = m'.
Proof.
  intros Hs Hs' Hm. eapply (strict_sorted_unique fst bytes_cmp); [done..|].
  apply NoDup_Permutation.
  - by apply (NoDup_fmap_1 fst), (strict_sorted_NoDup fst bytes_cmp).
  - by apply (NoDup_fmap_1 fst), (strict_sorted_NoDup fst bytes_cmp).
  - by intros [k v].
Qed.
End btree.
