(* ===== verification/Capability.v ===== *)
(** Capability descriptors and their negotiation (crates/ucr-protocol/src/capability.rs). *)

From S2P Require Import Prelude Ids Extension BTree.

Inductive CapabilityMaturity :=
| CmExperimental | CmPrepared | CmBeta | CmProduction | CmDeprecated | CmDisabled.
#[global] Instance CapabilityMaturity_eq_dec : EqDecision CapabilityMaturity.
Proof. solve_decision. Defined.

Record CapabilityDescriptor := mk_capability {
  cap_id : bytes; (* String *)
  cap_maturity : CapabilityMaturity;
  cap_extensions : list ProtocolExtension;
}.
#[global] Instance CapabilityDescriptor_eq_dec : EqDecision CapabilityDescriptor.
Proof. solve_decision. Defined.

Record CapabilityRequirement := mk_requirement {
  req_id : bytes;
  req_minimum : CapabilityMaturity;
  req_allow_deprecated : bool;
}.

Inductive CapabilityError :=
| CpInvalidIdentifier | CpDuplicateAdvertisement | CpInvalidRequirement | CpMissingRequired
| CpRequiredBelowMaturity | CpInvalidExtension | CpDuplicateExtension | CpTooManyExtensions
| CpExtensionPayloadTooLarge | CpCriticalExtensionRequiresExplicitNegotiation.
#[global] Instance CapabilityError_eq_dec : EqDecision CapabilityError.
Proof. solve_decision. Defined.

Definition map_capability_extension_error (error : ExtensionError) : CapabilityError :=
  match error with
  | ExInvalidNamespace | ExUnsupportedCritical => CpInvalidExtension
  | ExTooManyExtensions => CpTooManyExtensions
  | ExDuplicateExtension => CpDuplicateExtension
  | ExPayloadTooLarge => CpExtensionPayloadTooLarge
  end.

Definition validate_capability_id (id : bytes) : result CapabilityError unit :=
  map_err (λ _, CpInvalidIdentifier) (validate_namespaced_identifier id).

Definition canonical_capability_descriptor (capability : CapabilityDescriptor) :
    result CapabilityError CapabilityDescriptor :=
  validate_capability_id (cap_id capability) ;;
  extensions ← map_err map_capability_extension_error
                 (canonical_protocol_extensions (cap_extensions capability));
  Ok (mk_capability (cap_id capability) (cap_maturity capability) extensions).

Definition canonical_capabilities (capabilities : list CapabilityDescriptor) :
    result CapabilityError (list CapabilityDescriptor) :=
  collected ← try_collect canonical_capability_descriptor capabilities;
  let canonical := sort_by (key_cmp cap_id bytes_cmp) collected in
  reject_if (windows_any (same_key cap_id) canonical) CpDuplicateAdvertisement ;;
  Ok canonical.

Definition stability_rank (maturity : CapabilityMaturity) : option Z :=
  match maturity with
  | CmExperimental => Some 1 | CmPrepared => Some 2 | CmBeta => Some 3 | CmProduction => Some 4
  | CmDeprecated | CmDisabled => None
  end%Z.

Definition maturity_from_rank (rank : Z) : CapabilityMaturity :=
  (if rank =? 1 then CmExperimental else if rank =? 2 then CmPrepared
   else if rank =? 3 then CmBeta else if rank =? 4 then CmProduction else CmDisabled)%Z.

Definition combine_maturity (left right : CapabilityMaturity) : option CapabilityMaturity :=
  if bool_decide (left = CmDisabled) || bool_decide (right = CmDisabled) then None
  else if bool_decide (left = CmDeprecated) || bool_decide (right = CmDeprecated)
  then Some CmDeprecated
  else left_rank ← stability_rank left;
       right_rank ← stability_rank right;
       Some (maturity_from_rank (if (left_rank <? right_rank)%Z then left_rank else right_rank)).

(** The loop of [index_capabilities]: the ids seen so far and the map built so far. *)
Fixpoint index_capabilities_from (seen : list bytes) (index : btree CapabilityMaturity)
    (capabilities : list CapabilityDescriptor) :
    result CapabilityError (btree CapabilityMaturity) :=
  match capabilities with
  | [] => Ok index
  | capability :: rest =>
      validate_capability_id (cap_id capability) ;;
      reject_if (existsb (λ id, bool_decide (id = cap_id capability)) seen)
        CpDuplicateAdvertisement ;;
      index_capabilities_from (cap_id capability :: seen)
        (btree_insert (cap_id capability) (cap_maturity capability) index) rest
  end.
Definition index_capabilities := index_capabilities_from [] [].

(** One local entry met with the remote index. *)
Definition negotiate_entry (remote negotiated : btree CapabilityMaturity)
    (entry : bytes * CapabilityMaturity) : btree CapabilityMaturity :=
  match btree_get entry.1 remote with
  | None => negotiated
  | Some remote_maturity =>
      match combine_maturity entry.2 remote_maturity with
      | Some maturity => btree_insert entry.1 maturity negotiated
      | None => negotiated
      end
  end.

Definition check_requirement (negotiated : btree CapabilityMaturity)
    (requirement : CapabilityRequirement) : result CapabilityError unit :=
  validate_capability_id (req_id requirement) ;;
  minimum_rank ← ok_or (stability_rank (req_minimum requirement)) CpInvalidRequirement;
  actual ← ok_or (btree_get (req_id requirement) negotiated) CpMissingRequired;
  if bool_decide (actual = CmDeprecated) then
    reject_if (negb (req_allow_deprecated requirement)) CpRequiredBelowMaturity
  else
    reject_if (match stability_rank actual with
               | None => true
               | Some rank => rank <? minimum_rank
               end)%Z CpRequiredBelowMaturity.

Definition negotiate_capabilities (local remote : list CapabilityDescriptor)
    (requirements : list CapabilityRequirement) :
    result CapabilityError (list CapabilityDescriptor) :=
  local ← canonical_capabilities local;
  remote ← canonical_capabilities remote;
  reject_if (existsb ext_critical (flat_map cap_extensions (local ++ remote)))
    CpCriticalExtensionRequiresExplicitNegotiation ;;
  local ← index_capabilities local;
  remote ← index_capabilities remote;
  let negotiated := foldl (negotiate_entry remote) [] local in
  try_for_each (check_requirement negotiated) requirements ;;
  Ok ((λ entry, mk_capability entry.1 entry.2 []) <$> negotiated).

(** * Facts *)

(** [left] and [right] agree on the capability up to the order of arguments. *)
Lemma combine_maturity_comm left right : combine_maturity left right = combine_maturity right left.
Proof. by destruct left, right. Qed.

(** The advertised maturity of a capability. *)
Definition advertises (capabilities : list CapabilityDescriptor) (id : bytes)
    (maturity : CapabilityMaturity) : Prop :=
  ∃ c, c ∈ capabilities ∧ cap_id c = id ∧ cap_maturity c = maturity.

Lemma canonical_capability_descriptor_Ok c c' :
  canonical_capability_descriptor c = Ok c' → cap_id c' = cap_id c ∧ cap_maturity c' = cap_maturity c.
Proof. unfold canonical_capability_descriptor. intros. res_inv. by subst. Qed.

Lemma canonical_capabilities_Ok caps canonical :
  canonical_capabilities caps = Ok canonical →
  NoDup (cap_id <$> canonical) ∧ (∀ id m, advertises canonical id m ↔ advertises caps id m).
Proof.
  unfold canonical_capabilities. intros H. res_inv. subst. bool_norm.
  match goal with H : Forall2 _ _ _ |- _ => rename H into HF end.
  split.
  - match goal with H : windows_any _ _ = false |- _ =>
      apply (sort_by_windows cap_id bytes_cmp) in H end. by rewrite sort_by_perm.
  - unfold advertises. intros id m. setoid_rewrite elem_of_sort_by. split; intros (c & Hc & <- & <-).
    + apply list_elem_of_lookup_1 in Hc as [i Hi].
      destruct (Forall2_lookup_r _ _ _ _ _ HF Hi) as (c0 & H0 & E).
      apply canonical_capability_descriptor_Ok in E as [-> ->].
      exists c0. split; [by eapply list_elem_of_lookup_2|done].
    + apply list_elem_of_lookup_1 in Hc as [i Hi].
      destruct (Forall2_lookup_l _ _ _ _ _ HF Hi) as (c0 & H0 & E).
      apply canonical_capability_descriptor_Ok in E as [E1 E2].
      exists c0. split; [by eapply list_elem_of_lookup_2|done].
Qed.

(** Indexing a list without repeated ids: the map has exactly its entries. *)
Lemma index_capabilities_from_Ok seen index caps index' :
  btree_wf index → (∀ k v, (k, v) ∈ index → k ∈ seen) →
  index_capabilities_from seen index caps = Ok index' →
  btree_wf index' ∧ ∀ id m, (id, m) ∈ index' ↔ (id, m) ∈ index ∨ advertises caps id m.
Proof.
  unfold advertises. revert seen index. induction caps as [|c caps IH]; intros seen index Hs Hseen; cbn.
  { intros [= <-]. set_solver. }
  intros H. res_inv. bool_norm.
  match goal with H : Forall _ seen |- _ => rename H into Hd end.
  rewrite Forall_forall in Hd.
  edestruct IH as [Hw Hm]; [by apply btree_insert_wf| |done|].
  { intros k v [[= -> ->]|[_ Hk]]%elem_of_btree_insert; [set_solver| |done].
    apply list_elem_of_further. by eapply Hseen. }
  split; [done|]. intros id m. rewrite Hm, elem_of_btree_insert by done. cbn.
  setoid_rewrite elem_of_cons. split.
  - naive_solver.
  - intros [Hin|(c' & [->|Hc'] & <- & <-)]; [|naive_solver..].
    left. right. split; [|done]. intros ->. apply Hseen in Hin. specialize (Hd _ Hin).
    by apply bool_decide_eq_false in Hd.
Qed.

Lemma index_capabilities_Ok caps index :
  index_capabilities caps = Ok index →
  btree_wf index ∧ ∀ id m, (id, m) ∈ index ↔ advertises caps id m.
Proof.
  intros H. edestruct index_capabilities_from_Ok as [Hw Hm]; [| |exact H|].
  - constructor.
  - set_solver.
  - split; [done|]. intros id m. rewrite Hm. set_solver.
Qed.

(** The negotiation loop, from any map over other keys. *)
Lemma negotiate_entries_Ok remote local acc :
  btree_wf remote → btree_wf acc → NoDup (fst <$> local) →
  (∀ k v, (k, v) ∈ acc → k ∉ fst <$> local) →
  let negotiated := foldl (negotiate_entry remote) acc local in
  btree_wf negotiated ∧
  ∀ id m, (id, m) ∈ negotiated ↔
    (id, m) ∈ acc ∨ ∃ lm rm, (id, lm) ∈ local ∧ (id, rm) ∈ remote ∧ combine_maturity lm rm = Some m.
Proof.
  intros Hr. revert acc. induction local as [|[k lm] local IH]; intros acc Ha Hnd Hk; cbn.
  { split; [done|]. set_solver. }
  apply NoDup_cons in Hnd as [Hfresh Hnd].
  assert (btree_wf (negotiate_entry remote acc (k, lm)) ∧
    ∀ id m, (id, m) ∈ negotiate_entry remote acc (k, lm) ↔
      (id, m) ∈ acc ∨ (id = k ∧ ∃ rm, (k, rm) ∈ remote ∧ combine_maturity lm rm = Some m)) as [Hw Hm].
  { unfold negotiate_entry. cbn. destruct (btree_get k remote) as [rm|] eqn:Eg.
    - apply btree_get_Some in Eg; [|done]. destruct (combine_maturity lm rm) as [m0|] eqn:Ec.
      + split; [by apply btree_insert_wf|]. intros id m. rewrite elem_of_btree_insert by done. cbn.
        split; [naive_solver|]. intros [Hin|(E1 & rm' & Hrm' & E')].
        * right. split; [|done]. intros ->. apply Hk in Hin. set_solver.
        * left. subst id. assert (rm' = rm) as -> by (by apply (btree_key_unique k _ _ remote)). congruence.
      + split; [done|]. intros id m. split; [by left|]. intros [|(E1 & rm' & Hrm' & E')]; [done|].
        assert (rm' = rm) as -> by (by apply (btree_key_unique k _ _ remote)). congruence.
    - split; [done|]. intros id m. split; [by left|]. intros [|(E1 & rm' & Hrm' & _)]; [done|].
      apply btree_get_Some in Hrm'; [|done]. congruence. }
  destruct (IH (negotiate_entry remote acc (k, lm)) Hw Hnd) as [Hw' Hm'].
  { intros k' v [Hin|[-> _]]%Hm; [apply Hk in Hin; set_solver|done]. }
  split; [done|]. intros id m. rewrite Hm', Hm. setoid_rewrite elem_of_cons. naive_solver.
Qed.

(** A requirement is satisfied by the negotiated maturity. *)
Definition requirement_met (caps : list CapabilityDescriptor) (r : CapabilityRequirement) : Prop :=
  ∃ m, advertises caps (req_id r) m
       ∧ (if decide (m = CmDeprecated) then req_allow_deprecated r = true
          else ∃ have need, stability_rank m = Some have ∧ stability_rank (req_minimum r) = Some need
                            ∧ (need ≤ have)%Z).

Lemma check_requirement_Ok negotiated r u :
  btree_wf negotiated → check_requirement negotiated r = Ok u →
  requirement_met ((λ e, mk_capability e.1 e.2 []) <$> negotiated) r.
Proof.
  intros Hw H. unfold check_requirement in H. res_inv.
  match goal with H : btree_get _ _ = Some ?m |- _ =>
    apply btree_get_Some in H; [|done]; rename H into Hin; exists m end.
  split; [by eexists; split; [apply list_elem_of_fmap_2, Hin|]|].
  case_decide as Em.
  - rewrite bool_decide_eq_true_2 in * by done. res_inv. by bool_norm.
  - rewrite bool_decide_eq_false_2 in * by done. res_inv. bool_norm.
    match goal with H : match ?r with _ => _ end = false |- _ => destruct r as [have|] eqn:E; [|done] end.
    bool_norm. eauto 10.
Qed.

(** The negotiated map: strictly sorted, and exactly the common usable capabilities. *)
Definition negotiated_exactly (local remote : list CapabilityDescriptor)
    (negotiated : btree CapabilityMaturity) : Prop :=
  btree_wf negotiated ∧
  ∀ id m, (id, m) ∈ negotiated ↔
    ∃ lm rm, advertises local id lm ∧ advertises remote id rm ∧ combine_maturity lm rm = Some m.

Lemma negotiated_exactly_comm local remote negotiated :
  negotiated_exactly local remote negotiated → negotiated_exactly remote local negotiated.
Proof.
  intros [Hw Hm]. split; [done|]. intros id m. rewrite Hm.
  setoid_rewrite combine_maturity_comm at 1. naive_solver.
Qed.

Lemma negotiated_exactly_unique local remote m m' :
  negotiated_exactly local remote m → negotiated_exactly local remote m' → m = m'.
Proof.
  intros [Hw Hm] [Hw' Hm']. apply btree_ext; [done..|]. intros k v. by rewrite Hm, Hm'.
Qed.

(** What a successful negotiation has computed, and enough to repeat it. *)
Lemma negotiate_capabilities_inv local remote requirements caps :
  negotiate_capabilities local remote requirements = Ok caps →
  ∃ negotiated,
    caps = (λ e, mk_capability e.1 e.2 []) <$> negotiated
    ∧ negotiated_exactly local remote negotiated
    ∧ try_for_each (check_requirement negotiated) requirements = Ok tt
    ∧ is_ok (negotiate_capabilities remote local []) = true.
Proof.
  unfold negotiate_capabilities. intros H.
  apply bind_Ok in H as (cl & Hcl & H). apply bind_Ok in H as (cr & Hcr & H).
  apply bind_Ok in H as ([] & Hcrit%reject_if_Ok & H).
  apply bind_Ok in H as (il & Hil & H). apply bind_Ok in H as (ir & Hir & H).
  apply bind_Ok in H as ([] & Hreq & H). injection H as <-.
  apply canonical_capabilities_Ok in Hcl as Hal, Hcr as Har.
  apply index_capabilities_Ok in Hil as Hbl, Hir as Hbr.
  eexists. split; [done|]. split_and!; [|done|].
  - destruct (negotiate_entries_Ok ir il []) as [Hw Hm].
    + apply Hbr.
    + constructor.
    + apply (strict_sorted_NoDup fst bytes_cmp), Hbl.
    + set_solver.
    + split; [done|]. intros id m. rewrite Hm. setoid_rewrite (proj2 Hbl).
      setoid_rewrite (proj2 Hbr). setoid_rewrite (proj2 Hal). setoid_rewrite (proj2 Har).
      set_solver.
  - rewrite Hcr. cbn. rewrite Hcl. cbn.
    rewrite flat_map_app, existsb_app, orb_comm, <- existsb_app, <- flat_map_app, Hcrit. cbn.
    rewrite Hir. cbn. by rewrite Hil.
Qed.

(** A successful negotiation lists in id order exactly the capabilities both peers
    advertise and neither disables, each at the lower maturity and deprecated if either
    side deprecates it; every requirement is met by the result; and the peers reach the
    same result whichever of them is called local. *)
Theorem negotiate_capabilities_correct (local remote : list CapabilityDescriptor)
    (requirements : list CapabilityRequirement) (caps : list CapabilityDescriptor)
    (Hok : negotiate_capabilities local remote requirements = Ok caps) :
  strict_sorted cap_id bytes_cmp caps
  ∧ (∀ id m, advertises caps id m ↔
       ∃ lm rm, advertises local id lm ∧ advertises remote id rm ∧ combine_maturity lm rm = Some m)
  ∧ Forall (requirement_met caps) requirements
  ∧ negotiate_capabilities remote local requirements = Ok caps.
Proof.
  apply negotiate_capabilities_inv in Hok as (n & -> & Hn & Hreq & Hok').
  pose proof Hn as [Hw Hm]. split_and!.
  - clear -Hw. induction Hw as [|[k v] m Hs IH Hk]; cbn; [constructor|]. constructor; [done|].
    rewrite Forall_fmap. done.
  - intros id m. rewrite <- Hm. split.
    + intros (c & ([k v] & -> & Hc)%list_elem_of_fmap & <- & <-). done.
    + intros Hin. by eexists; split; [apply list_elem_of_fmap_2, Hin|].
  - apply try_for_each_Ok in Hreq. eapply Forall_impl; [exact Hreq|].
    intros r Hr. by apply (check_requirement_Ok n r tt).
  - destruct (negotiate_capabilities remote local []) as [caps'|] eqn:E; [|done].
    apply negotiate_capabilities_inv in E as Hinv. destruct Hinv as (n' & -> & Hn' & _).
    apply negotiated_exactly_comm in Hn.
    assert (n' = n) as -> by (by eapply (negotiated_exactly_unique remote local)).
    unfold negotiate_capabilities in E |- *.
    apply bind_Ok in E as (cl & -> & E). apply bind_Ok in E as (cr & Hcr & E). cbn. rewrite Hcr.
    apply bind_Ok in E as ([] & Hcrit & E). cbn. rewrite Hcrit.
    apply bind_Ok in E as (il & Hil & E). apply bind_Ok in E as (ir & Hir & E).
    cbn. rewrite Hil. cbn. rewrite Hir. cbn in E |- *. injection E as E.
    assert (foldl (negotiate_entry ir) [] il = n) as ->; [|by rewrite Hreq].
    revert E. apply (list_fmap_eq_inj (λ e, mk_capability e.1 e.2 [])). intros [] []; cbn; congruence.
Qed.

Definition chat_capability (m : CapabilityMaturity) : CapabilityDescriptor :=
  mk_capability (str "ucr.chat") m [].

Lemma negotiate_capabilities_correct_witness :
  negotiate_capabilities [chat_capability CmBeta]
    [mk_capability (str "ucr.call") CmProduction []; chat_capability CmProduction]
    [mk_requirement (str "ucr.chat") CmPrepared false] = Ok [chat_capability CmBeta].
Proof.
  apply (negotiate_capabilities_correct
    [mk_capability (str "ucr.call") CmProduction []; chat_capability CmProduction]
    [chat_capability CmBeta]).
  vm_compute. reflexivity.
Defined.
