(* ===== verification/Endpoint.v ===== *)
(** Endpoint descriptors and external identity keys
    (crates/ucr-protocol/src/addressing.rs). *)

From S2P Require Import Prelude Ids Extension Capability.

Definition MAX_ADDRESS_VALUE_LEN : Z := 2 * 1024.
Definition MAX_EXTERNAL_ENTITY_ID_LEN : Z := 2 * 1024.
Definition MAX_ENDPOINT_ADDRESSES : Z := 64.
Definition MAX_ENDPOINT_CAPABILITIES : Z := 256.

Inductive EndpointKind :=
| EkDevice | EkExternalAccount | EkWebSession | EkPersonalNode | EkOrganizationNode
| EkTemporaryPeer.
#[global] Instance EndpointKind_eq_dec : EqDecision EndpointKind.
Proof. solve_decision. Defined.

Record EndpointAddress := mk_address { addr_scheme : bytes; addr_value : bytes }.
#[global] Instance EndpointAddress_eq_dec : EqDecision EndpointAddress.
Proof. solve_decision. Defined.

Record EndpointDescriptor := mk_endpoint {
  ep_endpoint_id : EndpointId;
  ep_kind : EndpointKind;
  ep_identity_id : option IdentityId;
  ep_device_id : option DeviceId;
  ep_capabilities : list CapabilityDescriptor;
  ep_addresses : list EndpointAddress;
}.

Inductive AddressingError :=
| AdInvalidScheme | AdEmptyAddressValue | AdAddressValueTooLong | AdTooManyAddresses
| AdDuplicateAddress | AdTooManyCapabilities | AdDuplicateCapability | AdInvalidCapability
| AdInvalidCapabilityExtension | AdCapabilityExtensionBudgetExceeded
| AdDeviceEndpointMissingDevice | AdDeviceEndpointMissingIdentity | AdDeviceBindingWithoutIdentity
| AdInvalidExternalNamespace | AdEmptyExternalEntityId | AdExternalEntityIdTooLong.
#[global] Instance AddressingError_eq_dec : EqDecision AddressingError.
Proof. solve_decision. Defined.

Definition validate_endpoint_address (address : EndpointAddress) : result AddressingError unit :=
  map_err (λ _, AdInvalidScheme) (validate_namespaced_identifier (addr_scheme address)) ;;
  reject_if (bool_decide (addr_value address = [])) AdEmptyAddressValue ;;
  reject_if (MAX_ADDRESS_VALUE_LEN <? len (addr_value address))%Z AdAddressValueTooLong.

Definition map_capability_error (error : CapabilityError) : AddressingError :=
  match error with
  | CpInvalidIdentifier => AdInvalidCapability
  | CpInvalidExtension | CpDuplicateExtension => AdInvalidCapabilityExtension
  | CpTooManyExtensions | CpExtensionPayloadTooLarge => AdCapabilityExtensionBudgetExceeded
  | CpDuplicateAdvertisement | CpInvalidRequirement | CpMissingRequired | CpRequiredBelowMaturity
  | CpCriticalExtensionRequiresExplicitNegotiation => AdInvalidCapability
  end.

(** Validate each item and reject a key that was seen before: the loops over addresses
    and over capabilities. *)
Fixpoint validate_unique {E A K} `{EqDecision K} (check : A → result E unit) (key : A → K)
    (duplicate : E) (seen : list K) (items : list A) : result E unit :=
  match items with
  | [] => Ok tt
  | item :: rest =>
      check item ;;
      reject_if (existsb (λ k, bool_decide (k = key item)) seen) duplicate ;;
      validate_unique check key duplicate (key item :: seen) rest
  end.

Definition validate_endpoint_capability (capability : CapabilityDescriptor) :
    result AddressingError unit :=
  map_err map_capability_error (canonical_capability_descriptor capability) ;; Ok tt.

Definition validate_endpoint_descriptor (endpoint : EndpointDescriptor) :
    result AddressingError unit :=
  reject_if (MAX_ENDPOINT_ADDRESSES <? len (ep_addresses endpoint))%Z AdTooManyAddresses ;;
  reject_if (MAX_ENDPOINT_CAPABILITIES <? len (ep_capabilities endpoint))%Z
    AdTooManyCapabilities ;;
  (if bool_decide (ep_kind endpoint = EkDevice) then
     reject_if (bool_decide (ep_device_id endpoint = None)) AdDeviceEndpointMissingDevice ;;
     reject_if (bool_decide (ep_identity_id endpoint = None)) AdDeviceEndpointMissingIdentity
   else
     reject_if (negb (bool_decide (ep_device_id endpoint = None))
                && bool_decide (ep_identity_id endpoint = None)) AdDeviceBindingWithoutIdentity) ;;
  validate_unique validate_endpoint_address (λ a, (addr_scheme a, addr_value a))
    AdDuplicateAddress [] (ep_addresses endpoint) ;;
  validate_unique validate_endpoint_capability cap_id AdDuplicateCapability []
    (ep_capabilities endpoint).

Definition validate_external_identity_binding_key (external_namespace external_entity_id : bytes) :
    result AddressingError unit :=
  map_err (λ _, AdInvalidExternalNamespace) (validate_namespaced_identifier external_namespace) ;;
  reject_if (bool_decide (external_entity_id = [])) AdEmptyExternalEntityId ;;
  reject_if (MAX_EXTERNAL_ENTITY_ID_LEN <? len external_entity_id)%Z AdExternalEntityIdTooLong.
