(* ===== verification/Interaction.v ===== *)
(** Programs as trees of calls, and reasoning about them under every environment.

    A program over an interface [C] makes calls of [C] and continues with the answers; it
    is finite, so every program terminates once its calls are answered.  A monitor watches
    the calls and their answers, [safe] is the weakest precondition that holds whatever the
    answers are, and the last section runs any number of programs over one shared state,
    interleaved call by call. *)

From S2P Require Import Prelude.

(** * Programs *)

Inductive tree (C : Type → Type) (A : Type) : Type :=
| Ret (a : A)
| Call {B} (c : C B) (k : B → tree C A).
#[global] Arguments Ret {C A} a.
#[global] Arguments Call {C A B} c k.

Fixpoint prog_bind {C A B} (p : tree C A) (f : A → tree C B) : tree C B :=
  match p with
  | Ret a => f a
  | Call c k => Call c (λ b, prog_bind (k b) f)
  end.

#[global] Instance prog_ret {C} : MRet (tree C) := λ A, Ret.
#[global] Instance prog_mbind {C} : MBind (tree C) := λ A B f p, prog_bind p f.

(** Programs that may fail: [?] is the bind. *)
Definition etree (C : Type → Type) (E A : Type) : Type := tree C (result E A).
#[global] Instance eprog_ret {C E} : MRet (etree C E) := λ A a, Ret (Ok a).
#[global] Instance eprog_bind {C E} : MBind (etree C E) := λ A B f p,
  prog_bind p (λ r, match r with Ok a => f a | Err e => Ret (Err e) end).

Definition pure {C E A} (r : result E A) : etree C E A := Ret r.
Definition run_prog {C E A} (p : tree C A) : etree C E A := prog_bind p (λ a, Ret (Ok a)).
Definition eprog_map_err {C E F A} (f : E → F) (p : etree C E A) : etree C F A :=
  prog_bind p (λ r, Ret (map_err f r)).

(** * Behaviours and monitors *)

(** One call with the answer it got. *)
Inductive observation (C : Type → Type) :=
| Observed {B} (c : C B) (b : B).
#[global] Arguments Observed {C B} c b.

(** The complete behaviours of a program: the calls in order, and the result. *)
Inductive behaves {C A} : tree C A → list (observation C) → A → Prop :=
| behaves_ret a : behaves (Ret a) [] a
| behaves_call {B} (c : C B) (b : B) k tr a :
    behaves (k b) tr a → behaves (Call c k) (Observed c b :: tr) a.

Class Monitor (C : Type → Type) (M : Type) := {
  permitted {B} (c : C B) (m : M) : Prop;
  observe {B} (c : C B) (b : B) (m : M) : M;
}.

Section safe.
Context {C : Type → Type} {M : Type} `{!Monitor C M}.

Fixpoint safe {A} (p : tree C A) (m : M) (Q : M → A → Prop) : Prop :=
  match p with
  | Ret a => Q m a
  | Call c k => permitted c m ∧ ∀ b, safe (k b) (observe c b m) Q
  end.

Lemma safe_mono {A} (p : tree C A) m (Q Q' : M → A → Prop) :
  (∀ m a, Q m a → Q' m a) → safe p m Q → safe p m Q'.
Proof.
  intros HQ. revert m. induction p as [a|B c k IH]; intros m; cbn; [apply HQ|].
  intros [Hp Hk]. split; [done|]. intros b. by apply IH.
Qed.

Lemma safe_bind {A B} (p : tree C A) (f : A → tree C B) m (Q : M → B → Prop) :
  safe p m (λ m' a, safe (f a) m' Q) → safe (prog_bind p f) m Q.
Proof.
  revert m. induction p as [a|X c k IH]; intros m; cbn; [done|].
  intros [Hp Hk]. split; [done|]. intros b. by apply IH.
Qed.

Lemma safe_ebind {E A B} (p : etree C E A) (f : A → etree C E B) m (Q : M → result E B → Prop) :
  safe p m (λ m' r, match r with Ok a => safe (f a) m' Q | Err e => Q m' (Err e) end) →
  safe (p ≫= f) m Q.
Proof.
  intros Hs. apply safe_bind. eapply safe_mono; [|exact Hs]. intros m' [a|e]; done.
Qed.

Lemma safe_pure {E A B} (r : result E A) (f : A → etree C E B) m (Q : M → result E B → Prop) :
  (∀ a, r = Ok a → safe (f a) m Q) → (∀ e, r = Err e → Q m (Err e)) → safe (pure r ≫= f) m Q.
Proof. intros Hf He. apply safe_ebind. destruct r; cbn; auto. Qed.

Definition observe_all (tr : list (observation C)) (m : M) : M :=
  foldl (λ m o, match o with Observed c b => observe c b m end) m tr.

(** Every behaviour ends in the postcondition. *)
Lemma safe_behaves {A} (p : tree C A) m (Q : M → A → Prop) tr a :
  safe p m Q → behaves p tr a → Q (observe_all tr m) a.
Proof.
  intros Hs Hb. revert m Hs. induction Hb as [a|B c b k tr a Hb IH]; intros m; cbn; [done|].
  intros [_ Hk]. by apply IH.
Qed.

(** Every call of a behaviour was permitted when it was made. *)
Lemma safe_permits {A} (p : tree C A) m (Q : M → A → Prop) tr a B (c : C B) b tr1 tr2 :
  safe p m Q → behaves p tr a → tr = tr1 ++ Observed c b :: tr2 →
  permitted c (observe_all tr1 m).
Proof.
  intros Hs Hb. revert m tr1 Hs. induction Hb as [a|B' c' b' k tr a Hb IH]; intros m tr1; cbn.
  { by intros _ ?%(app_cons_not_nil _ _ _). }
  intros [Hp Hk] E. destruct tr1 as [|o tr1]; cbn in E.
  - assert (Observed c' b' = Observed c b) as Eo by congruence.
    refine (match Eo in _ = o return match o with Observed c _ => permitted c m end with
            | eq_refl => Hp end).
  - injection E as <- E. by apply (IH _ tr1).
Qed.

(** ** Programs the monitor does not notice *)

(** A call is silent when it is always permitted and never changes the monitor. *)
Definition silent {B} (c : C B) : Prop :=
  ∀ m, permitted c m ∧ ∀ b, observe c b m = m.

Definition quiet {A} (p : tree C A) : Prop := ∀ m, safe p m (λ m' _, m' = m).

Lemma quiet_safe {A} (p : tree C A) m (Q : M → A → Prop) :
  quiet p → (∀ a, Q m a) → safe p m Q.
Proof. intros Hq HQ. eapply safe_mono; [|apply Hq]. by intros m' a ->. Qed.

Lemma quiet_call {A B} (c : C B) (k : B → tree C A) :
  silent c → (∀ b, quiet (k b)) → quiet (Call c k).
Proof.
  intros Hc Hk m. destruct (Hc m) as [Hp Ho]. split; [done|]. intros b. rewrite Ho. apply Hk.
Qed.

Lemma quiet_ret {A} (a : A) : quiet (Ret a).
Proof. by intros m. Qed.

Lemma quiet_bind {A B} (p : tree C A) (f : A → tree C B) :
  quiet p → (∀ a, quiet (f a)) → quiet (prog_bind p f).
Proof. intros Hp Hf m. apply safe_bind. apply quiet_safe; [done|]. intros a. apply Hf. Qed.

Lemma quiet_ebind {E A B} (p : etree C E A) (f : A → etree C E B) :
  quiet p → (∀ a, quiet (f a)) → quiet (p ≫= f).
Proof. intros Hp Hf. apply quiet_bind; [done|]. intros [a|e]; [apply Hf|apply quiet_ret]. Qed.

(** After a quiet program the rest may rely on the monitor being unchanged. *)
Lemma safe_quiet_ebind {E A B} (p : etree C E A) (f : A → etree C E B) m (Q : M → result E B → Prop) :
  quiet p → (∀ e, Q m (Err e)) → (∀ a, safe (f a) m Q) → safe (p ≫= f) m Q.
Proof. intros Hp He Hf. apply safe_ebind, quiet_safe; [done|]. intros [a|e]; auto. Qed.
End safe.

(** Peel a program into its calls; silent calls are discharged by [silent_tac]. *)
Ltac quiet_tac silent_tac :=
  repeat first
    [ progress intros
    | apply quiet_ret
    | apply quiet_ebind
    | apply quiet_bind
    | apply quiet_call; [solve [silent_tac]|]
    | match goal with
      | |- quiet (if ?b then _ else _) => destruct b
      | |- quiet (match ?x with _ => _ end) => destruct x
      end
    | eassumption ].

(** * Changing the monitor *)

(** A program that is safe for one monitor is safe for another that permits what the
    first permits, as long as the two stay related. *)
Lemma safe_simulation {C} {M1 M2 : Type} `{!Monitor C M1, !Monitor C M2} (R : M1 → M2 → Prop) {A}
    (p : tree C A) (m1 : M1) (m2 : M2) (Q : M1 → A → Prop) :
  (∀ B (c : C B) m1 m2, R m1 m2 → permitted c m1 →
     permitted c m2 ∧ ∀ b, R (observe c b m1) (observe c b m2)) →
  R m1 m2 → safe p m1 Q → safe p m2 (λ m2' a, ∃ m1', R m1' m2' ∧ Q m1' a).
Proof.
  intros Hsim. revert m1 m2. induction p as [a|B c k IH]; intros m1 m2 HR; cbn; [by eauto|].
  intros [Hp Hk]. destruct (Hsim _ c m1 m2 HR Hp) as [Hp' Ho]. split; [done|].
  intros b. eapply IH; [apply Ho|apply Hk].
Qed.

(** * Trace languages *)

(** A worker: the calls it has still to make, and the events so far. *)
Record worker (C : Type → Type) (Ev R : Type) := mk_worker {
  wk_prog : tree C R;
  wk_trace : list Ev;
}.
#[global] Arguments mk_worker {C Ev R}.
#[global] Arguments wk_prog {C Ev R}.
#[global] Arguments wk_trace {C Ev R}.

Section traces.
Context {C : Type → Type} {Ev R : Type}.
(** The events a call records, given its answer, and the traces a worker may leave. *)
Context (events : ∀ B, C B → B → list Ev) (T : list Ev → Prop).

(** A worker may make a call only if the events it records keep its trace in [T]. *)
Definition trace_monitor : Monitor C (list Ev) := {|
  permitted B c tr := ∀ b, events B c b ≠ [] → T (tr ++ events B c b);
  observe B c b tr := tr ++ events B c b;
|}.

Lemma silent_events {B} (c : C B) :
  (∀ b, events B c b = []) → @silent C _ trace_monitor B c.
Proof. intros Hc m. split; [intros b; by rewrite Hc|]. intros b. cbn. by rewrite Hc, app_nil_r. Qed.

Definition worker_ok (w : worker C Ev R) : Prop :=
  T (wk_trace w) ∧ @safe C _ trace_monitor _ (wk_prog w) (wk_trace w) (λ tr _, T tr).

Lemma worker_ok_call {B} (c : C B) k tr b :
  worker_ok (mk_worker (Call c k) tr) → worker_ok (mk_worker (k b) (tr ++ events B c b)).
Proof.
  intros [Htr [Hp Hk]]. split; [|apply Hk]. cbn in *.
  destruct (events B c b) eqn:E; [by rewrite app_nil_r|]. rewrite <- E. apply Hp. by rewrite E.
Qed.
End traces.

(** * Programs over a shared state *)

(** What a call can do to the shared state and answer, and the events it records. *)
Class Interface (C : Type → Type) (S Ev : Type) := {
  reacts B (c : C B) (s s' : S) (b : B) : Prop;
  events B (c : C B) (b : B) : list Ev;
}.
#[global] Arguments reacts {C S Ev _ B}.
#[global] Arguments events {C S Ev _ B}.

(** The shared state, the workers, and the events of all of them in the order they
    happened. *)
Record system (C : Type → Type) (S Ev R : Type) := mk_system {
  sys_store : S;
  sys_workers : list (worker C Ev R);
  sys_log : list Ev;
}.
#[global] Arguments mk_system {C S Ev R}.
#[global] Arguments sys_store {C S Ev R}.
#[global] Arguments sys_workers {C S Ev R}.
#[global] Arguments sys_log {C S Ev R}.

Section interleaving.
Context {C : Type → Type} {S Ev R : Type} `{!Interface C S Ev}.
(** The programs workers may start with, and what the rest of the world may do. *)
Context (starts : tree C R → Prop) (others : S → S → Prop).

(** One step: a worker starts, a worker makes its next call, or something else changes
    the shared state.  A worker that crashed is one that takes no more steps. *)
Inductive step : system C S Ev R → system C S Ev R → Prop :=
| step_start s ws log p :
    starts p → step (mk_system s ws log) (mk_system s (ws ++ [mk_worker p []]) log)
| step_call s ws log i B (c : C B) k tr s' b :
    ws !! i = Some (mk_worker (Call c k) tr) →
    reacts c s s' b →
    step (mk_system s ws log)
      (mk_system s' (<[i := mk_worker (k b) (tr ++ events c b)]> ws) (log ++ events c b))
| step_other s ws log s' :
    others s s' → step (mk_system s ws log) (mk_system s' ws log).

Lemma step_workers_ok T sys sys' :
  T [] →
  (∀ p, starts p → @safe C _ (trace_monitor (@events C S Ev _) T) _ p [] (λ tr _, T tr)) →
  step sys sys' →
  Forall (worker_ok (@events C S Ev _) T) (sys_workers sys) →
  Forall (worker_ok (@events C S Ev _) T) (sys_workers sys').
Proof.
  intros HT Hstarts [s ws log p Hp|s ws log i B c k tr s' b Hi _|s ws log s' _] Hw; cbn in *; [| |done].
  - apply Forall_app. split; [done|]. apply Forall_singleton. split; [done|]. by apply Hstarts.
  - apply Forall_insert; [done|]. apply (worker_ok_call (@events C S Ev _)). by eapply Forall_lookup_1.
Qed.

(** ** Running one worker to its end *)

Fixpoint run_worker {W} (exec : ∀ B, C B → W * S → (W * S) * B) (p : tree C R) (st : W * S)
    (tr : list Ev) : (W * S) * list Ev * R :=
  match p with
  | Ret a => (st, tr, a)
  | Call c k => let '(st', b) := exec _ c st in run_worker exec (k b) st' (tr ++ events c b)
  end.

Lemma run_worker_reaches {W} (exec : ∀ B, C B → W * S → (W * S) * B) p st tr ws log i :
  (∀ B (c : C B) st, reacts c st.2 (exec _ c st).1.2 (exec _ c st).2) →
  ws !! i = Some (mk_worker p tr) →
  let '(st', tr', a) := run_worker exec p st tr in
  ∃ ev, tr' = tr ++ ev ∧
  rtc step (mk_system st.2 ws log) (mk_system st'.2 (<[i := mk_worker (Ret a) tr']> ws) (log ++ ev)).
Proof.
  intros Hexec. revert st tr ws log. induction p as [a|B c k IH]; intros st tr ws log Hi; cbn.
  { exists []. rewrite !app_nil_r. by rewrite list_insert_id. }
  specialize (Hexec _ c st). destruct (exec _ c st) as [st1 b]; cbn in Hexec.
  specialize (IH b st1 (tr ++ events c b)
    (<[i := mk_worker (k b) (tr ++ events c b)]> ws) (log ++ events c b)).
  destruct (run_worker _ _ _ _) as [[st' tr'] a]. rewrite list_insert_insert_eq in IH.
  destruct IH as (ev & -> & IH); [apply list_lookup_insert_eq; by eapply lookup_lt_Some|].
  exists (events c b ++ ev). rewrite app_assoc. split; [done|].
  eapply rtc_l; [by eapply step_call|]. by rewrite app_assoc.
Qed.

(** Running workers one after the other. *)
Fixpoint run_all {W} (exec : ∀ B, C B → W * S → (W * S) * B) (ps : list (tree C R)) (st : W * S)
    (ws : list (worker C Ev R)) (log : list Ev) : system C S Ev R :=
  match ps with
  | [] => mk_system st.2 ws log
  | p :: ps =>
      let '(st', tr, a) := run_worker exec p st [] in
      run_all exec ps st' (ws ++ [mk_worker (Ret a) tr]) (log ++ tr)
  end.

Lemma run_all_reaches {W} (exec : ∀ B, C B → W * S → (W * S) * B) ps st ws log :
  (∀ B (c : C B) st, reacts c st.2 (exec _ c st).1.2 (exec _ c st).2) →
  Forall starts ps →
  rtc step (mk_system st.2 ws log) (run_all exec ps st ws log).
Proof.
  intros Hexec Hps. revert st ws log. induction Hps as [|p ps Hp _ IH]; intros st ws log; cbn; [done|].
  pose proof (run_worker_reaches exec p st [] (ws ++ [mk_worker p []]) log (length ws) Hexec) as Hr.
  destruct (run_worker exec p st []) as [[st' tr] a].
  destruct Hr as (ev & -> & Hr); [by rewrite lookup_app_r, Nat.sub_diag by lia|].
  rewrite insert_app_r_alt, Nat.sub_diag in Hr by lia. cbn in Hr.
  eapply rtc_l; [by apply step_start|]. etrans; [exact Hr|]. apply IH.
Qed.
End interleaving.
