(* ===== verification/Program.v ===== *)
(** Programs that talk to the outside: the calls the runtime makes on its trait objects
    (transport providers, policy, clock, device lifecycle), on the operating system's
    randomness and on the durable store.

    A program is a tree of these calls.  External calls are answered by the environment, a
    parameter of the model that may answer differently every time; store calls run the
    operations of the in-memory store on the shared state. *)

From S2P Require Import Prelude Ids Framing Extension Capability Message Delivery.
From S2P Require Import StoreForward Sync Store StoreForwardStore Endpoint Interaction.

(** * Vocabulary of the external traits (crates/ucr-core/src/lib.rs) *)

Record RouteCandidate := mk_route {
  rc_endpoint_id : EndpointId;
  rc_transport_capability : bytes; (* String *)
  rc_address : EndpointAddress;
}.
#[global] Instance RouteCandidate_eq_dec : EqDecision RouteCandidate.
Proof. solve_decision. Defined.

Inductive TransportHealth := ThHealthy | ThDegraded | ThUnavailable.
#[global] Instance TransportHealth_eq_dec : EqDecision TransportHealth.
Proof. solve_decision. Defined.

Inductive CanonicalTransportError :=
| TeUnavailable | TeTimeout | TeRejected | TePolicyDenied | TeUnsupportedCapability
| TeResourceExhausted | TeMalformedResponse | TeInternal.
#[global] Instance CanonicalTransportError_eq_dec : EqDecision CanonicalTransportError.
Proof. solve_decision. Defined.

Inductive TransportFailureDisposition := TdNotAccepted | TdAcceptanceUnknown.
#[global] Instance TransportFailureDisposition_eq_dec : EqDecision TransportFailureDisposition.
Proof. solve_decision. Defined.

Record ClassifiedTransportFailure := mk_failure {
  cf_error : CanonicalTransportError;
  cf_disposition : TransportFailureDisposition;
}.

Inductive PolicyDecision := PdAllow | PdDeny | PdPendingNoAllowedRoute.
#[global] Instance PolicyDecision_eq_dec : EqDecision PolicyDecision.
Proof. solve_decision. Defined.

Inductive DeviceLifecycleState := DlActive | DlStale | DlReverificationRequired | DlExpired | DlRevoked.
#[global] Instance DeviceLifecycleState_eq_dec : EqDecision DeviceLifecycleState.
Proof. solve_decision. Defined.

Record DeviceDescriptor := mk_device {
  dev_device_id : DeviceId;
  dev_identity_id : IdentityId;
  dev_state : DeviceLifecycleState;
}.

Inductive IdGenerationError := IgOsRandomUnavailable | IgInternalEncoding.
#[global] Instance IdGenerationError_eq_dec : EqDecision IdGenerationError.
Proof. solve_decision. Defined.

(** A [&dyn TransportProvider]: which provider object is called. *)
Definition ProviderRef : Type := nat.

(** * Calls *)

(** Calls answered by the environment, with the type of the answer. *)
Inductive external_call : Type → Type :=
| Health (provider : ProviderRef) : external_call TransportHealth
| Capabilities (provider : ProviderRef) : external_call (list CapabilityDescriptor)
| Transmit (provider : ProviderRef) (scope : TenantScope) (route : RouteCandidate)
    (envelope : bytes) : external_call (result CanonicalTransportError unit)
| TransmitClassified (provider : ProviderRef) (scope : TenantScope) (route : RouteCandidate)
    (envelope : bytes) : external_call (result ClassifiedTransportFailure unit)
| EvaluateIntent (intent : CommunicationIntent) : external_call PolicyDecision
| LookupDevice (scope : TenantScope) (device : DeviceId) :
    external_call (result DurableStoreError (option DeviceDescriptor))
| NowUnixMs : external_call Z
| FillRandom : external_call (option bytes).

(** Calls on the durable store. *)
Inductive durable_call : Type → Type :=
| GetIntent (scope : TenantScope) (id : IntentId) : durable_call (option CommunicationIntent)
| GetMessage (scope : TenantScope) (id : MessageId) : durable_call (option MessageEnvelope)
| GetJob (scope : TenantScope) (id : StoreForwardId) : durable_call (option StoreForwardJob)
| GetAttempt (scope : TenantScope) (id : DeliveryId) : durable_call (option DeliveryAttempt)
| DueJobs (scope : TenantScope) (now : Z) (limit : nat) : durable_call (list StoreForwardId)
| CreateAttempt (a : DeliveryAttempt) (e : DeliveryEvidence) : durable_call DurableRecordStatus
| Transition (scope : TenantScope) (id : DeliveryId) (from to : DeliveryState)
    (e : option DeliveryEvidence) : durable_call DurableRecordStatus
| PersistJob (job : StoreForwardJob) : durable_call DurableRecordStatus
| ClaimJob (scope : TenantScope) (id : StoreForwardId) (lease : StoreForwardLeaseId)
    (now until : Z) : durable_call (option StoreForwardLease)
| RecordAttempt (lease : StoreForwardLease) (id : DeliveryId) (attempts now : Z) :
    durable_call StoreForwardJob
| Reschedule (lease : StoreForwardLease) (next now : Z) : durable_call StoreForwardJob
| CompleteJob (lease : StoreForwardLease) (now : Z) : durable_call DurableRecordStatus.

Inductive command : Type → Type :=
| External {B} (c : external_call B) : command B
| Durable {B} (c : durable_call B) : command (result DurableStoreError B).

(** What a store call does to the shared state. *)
Definition exec_durable `{Sha256} {B} (c : durable_call B) : store_op B :=
  match c with
  | GetIntent scope id => communication_intent scope id
  | GetMessage scope id => message scope id
  | GetJob scope id => store_forward_job scope id
  | GetAttempt scope id => delivery_attempt scope id
  | DueJobs scope now limit => due_store_forward_jobs scope now limit
  | CreateAttempt a e => create_delivery_attempt a e
  | Transition scope id from to e => transition_delivery scope id from to e
  | PersistJob job => persist_store_forward_job job
  | ClaimJob scope id lease now until => claim_store_forward_job scope id lease now until
  | RecordAttempt lease id attempts now => record_store_forward_attempt lease id attempts now
  | Reschedule lease next now => reschedule_store_forward_job lease next now
  | CompleteJob lease now => complete_store_forward_job lease now
  end.

(** * Programs *)

Abbreviation prog := (tree command).
Abbreviation eprog := (etree command).

Definition ask {B} (c : external_call B) : prog B := Call (External c) Ret.
Definition asks {E B} (c : external_call B) : eprog E B := Call (External c) (λ b, Ret (Ok b)).
(** A store call whose error is converted with [From]. *)
Definition durable {E B} (f : DurableStoreError → E) (c : durable_call B) : eprog E B :=
  Call (Durable c) (λ r, Ret (map_err f r)).

Lemma safe_asks {E B C M} `{!Monitor command M} (c : external_call C) (f : C → eprog E B) (m : M)
    (Q : M → result E B → Prop) :
  permitted (External c) m → (∀ b, safe (f b) (observe (External c) b m) Q) →
  safe (asks c ≫= f) m Q.
Proof. intros Hp Hf. by split. Qed.

(** * Running a program alone *)

(** The environment: its own state and the answers it gives. *)
Class Environment (W : Type) := answer : ∀ B, external_call B → W → W * B.

Section run.
Context `{Sha256} {W : Type} `{Environment W}.

Definition exec {B} (c : command B) (st : W * MemoryState) : (W * MemoryState) * B :=
  match c with
  | External c => let '(w, b) := answer _ c st.1 in ((w, st.2), b)
  | Durable c => let '(s, r) := exec_durable c st.2 in ((st.1, s), r)
  end.

Fixpoint run {A} (p : prog A) (st : W * MemoryState) : (W * MemoryState) * A :=
  match p with
  | Ret a => (st, a)
  | Call c k => let '(st', b) := exec c st in run (k b) st'
  end.

Lemma run_bind {A B} (p : prog A) (f : A → prog B) st :
  run (prog_bind p f) st = let '(st', a) := run p st in run (f a) st'.
Proof.
  revert st. induction p as [a|X c k IH]; intros st; cbn; [done|].
  destruct (exec c st) as [st' b]. apply IH.
Qed.
End run.
