(* ===== verification/Orchestrator.v ===== *)
(** Route planning (crates/ucr-protocol/src/transport_orchestrator.rs and
    crates/ucr-transport-orchestrator/src/lib.rs): hard constraints filter the
    discovered routes, telemetry and hints order what is left, and the primary route
    can be transmitted once. *)

From S2P Require Import Prelude Ids Framing Extension Capability Message Delivery.
From S2P Require Import StoreForward Sync Store StoreForwardStore Endpoint Interaction Program.

(** * Bounded inputs *)

Definition MAX_TRANSPORT_ROUTE_CANDIDATES : Z := 64.
Definition MAX_TRANSPORT_HINTS : Z := 3.
Definition MAX_TRANSPORT_BANDWIDTH_BPS : Z := 10000000000.
Definition MAX_TRANSPORT_LATENCY_MS : Z := 120000.
Definition MAX_TRANSPORT_PRIORITY_CLASS : Z := 7.

Inductive TransportRoutingHint := HintUrgent | HintPreferLocal | HintAvoidExpensive.
#[global] Instance TransportRoutingHint_eq_dec : EqDecision TransportRoutingHint.
Proof. solve_decision. Defined.

Inductive MediaThermalState := MtNominal | MtElevated | MtSerious | MtCritical.
#[global] Instance MediaThermalState_eq_dec : EqDecision MediaThermalState.
Proof. solve_decision. Defined.

Record TransportRouteTelemetry := mk_telemetry {
  tt_estimated_bandwidth_bps : Z; (* u64 *)
  tt_packet_loss_basis_points : Z; (* u16 *)
  tt_jitter_ms : Z; (* u32 *)
  tt_rtt_ms : Z; (* u32 *)
  tt_cost_microunits : Z; (* u64 *)
  tt_energy_cost_percent : Z; (* u8 *)
  tt_reliability_basis_points : Z; (* u16 *)
  tt_recipient_reachable : bool;
  tt_privacy_profile : option bytes;
  tt_region : option bytes;
}.

Record TransportResourceSnapshot := mk_resources {
  rs_battery_percent : Z; (* u8 *)
  rs_external_power : bool;
  rs_thermal_state : MediaThermalState;
}.

Inductive TransportOrchestratorProtocolError :=
| OpTooManyCandidates | OpTooManyHints | OpDuplicateHint | OpBandwidthOutOfRange
| OpPacketLossOutOfRange | OpLatencyOutOfRange | OpEnergyCostOutOfRange | OpReliabilityOutOfRange
| OpBatteryOutOfRange | OpPolicyValueTooLong | OpPriorityClassOutOfRange.
#[global] Instance TransportOrchestratorProtocolError_eq_dec :
  EqDecision TransportOrchestratorProtocolError.
Proof. solve_decision. Defined.

Abbreviation protocol_check := (result TransportOrchestratorProtocolError unit).

Definition validate_transport_route_candidate_count (count : Z) : protocol_check :=
  reject_if (MAX_TRANSPORT_ROUTE_CANDIDATES <? count)%Z OpTooManyCandidates.

Definition validate_transport_route_telemetry (value : TransportRouteTelemetry) : protocol_check :=
  reject_if (MAX_TRANSPORT_BANDWIDTH_BPS <? tt_estimated_bandwidth_bps value)%Z
    OpBandwidthOutOfRange ;;
  reject_if (10000 <? tt_packet_loss_basis_points value)%Z OpPacketLossOutOfRange ;;
  reject_if ((MAX_TRANSPORT_LATENCY_MS <? tt_jitter_ms value)%Z
             || (MAX_TRANSPORT_LATENCY_MS <? tt_rtt_ms value)%Z) OpLatencyOutOfRange ;;
  reject_if (100 <? tt_energy_cost_percent value)%Z OpEnergyCostOutOfRange ;;
  reject_if (10000 <? tt_reliability_basis_points value)%Z OpReliabilityOutOfRange ;;
  reject_if (longer_than MAX_INTENT_POLICY_VALUE_LEN (tt_privacy_profile value)
             || longer_than MAX_INTENT_POLICY_VALUE_LEN (tt_region value)) OpPolicyValueTooLong.

Definition validate_transport_resource_snapshot (value : TransportResourceSnapshot) :
    protocol_check :=
  reject_if (100 <? rs_battery_percent value)%Z OpBatteryOutOfRange.

(** The derived [Ord] of the enum: declaration order. *)
Definition hint_rank (hint : TransportRoutingHint) : Z :=
  match hint with HintUrgent => 0 | HintPreferLocal => 1 | HintAvoidExpensive => 2 end.

Definition canonical_transport_routing_hints (hints : list TransportRoutingHint) :
    result TransportOrchestratorProtocolError (list TransportRoutingHint) :=
  reject_if (MAX_TRANSPORT_HINTS <? len hints)%Z OpTooManyHints ;;
  all_distinct OpDuplicateHint [] hints ;;
  Ok (sort_by (key_cmp hint_rank Z.compare) hints).

Definition validate_transport_priority_class (priority_class : option Z) : protocol_check :=
  match priority_class with
  | Some value => reject_if (MAX_TRANSPORT_PRIORITY_CLASS <? value)%Z OpPriorityClassOutOfRange
  | None => Ok tt
  end.

(** * Plans *)

Inductive TransportOrchestratorError :=
| ToIntent (e : IntentError) | ToProtocol (e : TransportOrchestratorProtocolError)
| ToInvalidEndpoint | ToTooManyRoutes | ToDuplicateRoute | ToPolicyDenied | ToPolicyPending
| ToDeviceLifecycleUnavailable | ToNoEligibleRoute.

Record TransportRouteOption := mk_option {
  ro_provider : ProviderRef;
  ro_route : RouteCandidate;
  ro_recipient_endpoint : EndpointDescriptor;
  ro_telemetry : TransportRouteTelemetry;
}.

Record PlanBinding := mk_binding {
  pb_intent_id : IntentId;
  pb_scope : TenantScope;
  pb_target_identity_id : IdentityId;
  pb_constraints : IntentConstraints;
  pb_protected_device_gate : bool;
}.

Record TransportRouteDecision := mk_decision {
  rd_endpoint_id : EndpointId;
  rd_transport_capability : bytes;
  rd_rank : Z; (* u16 *)
}.

Record PlannedTransportRoute := mk_planned {
  pr_provider : ProviderRef;
  pr_route : RouteCandidate;
  pr_decision : TransportRouteDecision;
  pr_protected_device_id : option DeviceId;
}.

Record TransportPlan := mk_plan {
  tp_binding : PlanBinding;
  tp_ranked_routes : list PlannedTransportRoute;
}.

Inductive ProtectedRouteBinding := PbNonDevice | PbDevice (device : DeviceId) | PbIneligible.

Definition device_allows_protected_access (device : DeviceDescriptor) : bool :=
  match dev_state device with DlActive => true | _ => false end.

(** [device.is_some_and(|device| device.identity_id == .. && device_allows_..)]. *)
Definition device_admitted (intent : CommunicationIntent) (device : option DeviceDescriptor) : bool :=
  match device with
  | Some device => bool_decide (dev_identity_id device = ci_target_identity_id intent)
                   && device_allows_protected_access device
  | None => false
  end.

Definition protected_device_option_binding (intent : CommunicationIntent)
    (option : TransportRouteOption) : eprog TransportOrchestratorError ProtectedRouteBinding :=
  if negb (bool_decide (ep_kind (ro_recipient_endpoint option) = EkDevice))
  then mret PbNonDevice
  else match ep_device_id (ro_recipient_endpoint option) with
       | None => mret PbIneligible
       | Some device_id =>
           found ← asks (LookupDevice (ci_scope intent) device_id);
           device ← pure (map_err (λ _, ToDeviceLifecycleUnavailable) found);
           mret (if device_admitted intent device then PbDevice device_id else PbIneligible)
       end.

Definition capability_is_usable (capabilities : list CapabilityDescriptor) (required : bytes) : bool :=
  existsb (λ capability,
    bool_decide (cap_id capability = required)
    && match cap_maturity capability with CmPrepared | CmBeta | CmProduction => true | _ => false end)
    capabilities.

(** The intent's transport constraints on one route. *)
Definition constraints_admit (c : IntentConstraints) (route : RouteCandidate)
    (telemetry : TransportRouteTelemetry) : bool :=
  let capability := rc_transport_capability route in
  let same x := bool_decide (x = capability) in
  negb (negb (bool_decide (ic_allowed_transport_capabilities c = []))
        && negb (existsb same (ic_allowed_transport_capabilities c)))
  && negb (existsb same (ic_forbidden_transport_capabilities c))
  && negb (negb (bool_decide (ic_privacy_profile c = tt_privacy_profile telemetry))
           && negb (bool_decide (ic_privacy_profile c = None)))
  && negb (negb (bool_decide (ic_region_constraint c = tt_region telemetry))
           && negb (bool_decide (ic_region_constraint c = None)))
  && negb (match ic_max_cost_microunits c with
           | Some max => (max <? tt_cost_microunits telemetry)%Z
           | None => false
           end).

Definition option_is_eligible (intent : CommunicationIntent) (option : TransportRouteOption) :
    prog bool :=
  let route := ro_route option in
  let endpoint := ro_recipient_endpoint option in
  health ← ask (Health (ro_provider option));
  if bool_decide (health = ThUnavailable) || negb (tt_recipient_reachable (ro_telemetry option))
  then Ret false
  else if negb (bool_decide (rc_endpoint_id route = ep_endpoint_id endpoint))
          || negb (bool_decide (ep_identity_id endpoint = Some (ci_target_identity_id intent)))
          || negb (existsb (λ a, bool_decide (a = rc_address route)) (ep_addresses endpoint))
  then Ret false
  else
    capabilities ← ask (Capabilities (ro_provider option));
    if negb (capability_is_usable capabilities (rc_transport_capability route))
       || negb (capability_is_usable (ep_capabilities endpoint) (rc_transport_capability route))
    then Ret false
    else Ret (constraints_admit (ci_constraints intent) route (ro_telemetry option)).

(** * Ranking *)

Record RouteScore := mk_score {
  sc_availability : Z; (* u8 *)
  sc_latency : Z; (* u64 *)
  sc_loss : Z; (* u16 *)
  sc_reliability_inverse : Z; (* u16 *)
  sc_bandwidth_inverse : Z; (* u64 *)
  sc_cost : Z; (* u64 *)
  sc_energy : Z; (* u64 *)
  sc_local_penalty : Z; (* u8 *)
}.

Definition has_hint (hint : TransportRoutingHint) (hints : list TransportRoutingHint) : bool :=
  existsb (λ h, bool_decide (h = hint)) hints.

Definition resource_pressure (resources : TransportResourceSnapshot) : Z :=
  let thermal_pressure := match rs_thermal_state resources with
    | MtNominal => 0 | MtElevated => 25 | MtSerious => 60 | MtCritical => 100 end%Z in
  let battery_pressure :=
    if rs_external_power resources then 0%Z else (100 - rs_battery_percent resources)%Z in
  (1 + battery_pressure + thermal_pressure)%Z.

Definition health_rank (health : TransportHealth) : Z :=
  match health with ThHealthy => 0 | ThDegraded => 1 | ThUnavailable => 2 end.

(** The score of an option whose provider answered [health]. *)
Definition score_of (resources : TransportResourceSnapshot) (hints : list TransportRoutingHint)
    (option : TransportRouteOption) (health : TransportHealth) : RouteScore :=
  let t := ro_telemetry option in
  mk_score (health_rank health) (tt_rtt_ms t + tt_jitter_ms t) (tt_packet_loss_basis_points t)
    (10000 - tt_reliability_basis_points t)
    (MAX_TRANSPORT_BANDWIDTH_BPS - tt_estimated_bandwidth_bps t) (tt_cost_microunits t)
    (saturating_mul_u64 (tt_energy_cost_percent t) (resource_pressure resources))
    (if has_hint HintPreferLocal hints
        && negb (starts_with (rc_transport_capability (ro_route option)) (str "ucr.transport.local."))
     then 1 else 0).

Definition route_score (resources : TransportResourceSnapshot) (hints : list TransportRoutingHint)
    (option : TransportRouteOption) : prog RouteScore :=
  health ← ask (Health (ro_provider option));
  Ret (score_of resources hints option health).

Definition compare_scores (intent : CommunicationIntent) (hints : list TransportRoutingHint)
    (left right : RouteScore) : comparison :=
  let priority := ic_priority_class (ci_constraints intent) in
  let urgent := has_hint HintUrgent hints
                || match priority with Some value => (value <=? 1)%Z | None => false end in
  let economy := match priority with Some value => (6 <=? value)%Z | None => false end in
  let compare field ordering := then_with ordering (Z.compare (field left) (field right)) in
  let ordering := Z.compare (sc_availability left) (sc_availability right) in
  let ordering := if has_hint HintPreferLocal hints then compare sc_local_penalty ordering
                  else ordering in
  let ordering := if has_hint HintAvoidExpensive hints then compare sc_cost ordering
                  else ordering in
  let ordering :=
    if urgent then
      compare sc_cost (compare sc_energy (compare sc_bandwidth_inverse
        (compare sc_reliability_inverse (compare sc_loss (compare sc_latency ordering)))))
    else if economy then
      compare sc_bandwidth_inverse (compare sc_latency (compare sc_loss
        (compare sc_reliability_inverse (compare sc_cost (compare sc_energy ordering)))))
    else
      compare sc_cost (compare sc_energy (compare sc_bandwidth_inverse
        (compare sc_latency (compare sc_loss (compare sc_reliability_inverse ordering))))) in
  compare sc_local_penalty ordering.

Definition stable_route_cmp (left right : RouteCandidate) : comparison :=
  then_with (then_with (then_with
    (bytes_cmp (rc_transport_capability left) (rc_transport_capability right))
    (opaque_cmp (rc_endpoint_id left) (rc_endpoint_id right)))
    (bytes_cmp (addr_scheme (rc_address left)) (addr_scheme (rc_address right))))
    (bytes_cmp (addr_value (rc_address left)) (addr_value (rc_address right))).

(** A scored option with the device it was bound to. *)
Record EligibleRoute := mk_eligible {
  el_score : RouteScore;
  el_option : TransportRouteOption;
  el_protected_device_id : option DeviceId;
}.

Definition eligible_cmp (intent : CommunicationIntent) (hints : list TransportRoutingHint)
    (left right : EligibleRoute) : comparison :=
  then_with (compare_scores intent hints (el_score left) (el_score right))
    (stable_route_cmp (ro_route (el_option left)) (ro_route (el_option right))).

(** * Planning *)

Definition RouteKey : Type := OpaqueId * bytes * bytes * bytes.
Definition route_key (route : RouteCandidate) : RouteKey :=
  (rc_endpoint_id route, rc_transport_capability route, addr_scheme (rc_address route),
   addr_value (rc_address route)).

(** The device binding of one option: [None] when the option is skipped. *)
Definition option_binding (protected : bool) (intent : CommunicationIntent)
    (option : TransportRouteOption) :
    eprog TransportOrchestratorError (Datatypes.option (Datatypes.option DeviceId)) :=
  if protected then
    binding ← protected_device_option_binding intent option;
    mret (match binding with
          | PbNonDevice => Some None
          | PbDevice device => Some (Some device)
          | PbIneligible => None
          end)
  else mret (Some None).

(** The loop over the discovered options. *)
Fixpoint collect_eligible (protected : bool) (intent : CommunicationIntent)
    (resources : TransportResourceSnapshot) (hints : list TransportRoutingHint)
    (seen : list RouteKey) (eligible : list EligibleRoute) (options : list TransportRouteOption) :
    eprog TransportOrchestratorError (list EligibleRoute) :=
  match options with
  | [] => mret eligible
  | option :: rest =>
      pure (map_err ToProtocol (validate_transport_route_telemetry (ro_telemetry option))) ;;
      pure (map_err (λ _, ToInvalidEndpoint)
              (validate_endpoint_descriptor (ro_recipient_endpoint option))) ;;
      binding ← option_binding protected intent option;
      match binding with
      | None => collect_eligible protected intent resources hints seen eligible rest
      | Some device =>
          let key := route_key (ro_route option) in
          pure (reject_if (existsb (λ k, bool_decide (k = key)) seen) ToDuplicateRoute) ;;
          admitted ← run_prog (option_is_eligible intent option);
          if (admitted : bool) then
            score ← run_prog (route_score resources hints option);
            collect_eligible protected intent resources hints (key :: seen)
              (eligible ++ [mk_eligible score option device]) rest
          else collect_eligible protected intent resources hints (key :: seen) eligible rest
      end
  end.

Fixpoint rank_routes (index : Z) (eligible : list EligibleRoute) :
    result TransportOrchestratorError (list PlannedTransportRoute) :=
  match eligible with
  | [] => Ok []
  | e :: rest =>
      reject_if (u16_max <? index + 1)%Z ToTooManyRoutes ;;
      let route := ro_route (el_option e) in
      let planned := mk_planned (ro_provider (el_option e)) route
        (mk_decision (rc_endpoint_id route) (rc_transport_capability route) (index + 1))
        (el_protected_device_id e) in
      ranked ← rank_routes (index + 1) rest;
      Ok (planned :: ranked)
  end.

Definition plan_binding (intent : CommunicationIntent) (protected : bool) : PlanBinding :=
  mk_binding (ci_intent_id intent) (ci_scope intent) (ci_target_identity_id intent)
    (ci_constraints intent) protected.

(** [plan] and [plan_protected] are this with [protected] false and true. *)
Definition plan_internal (protected : bool) (intent : CommunicationIntent)
    (resources : TransportResourceSnapshot) (hints : list TransportRoutingHint)
    (options : list TransportRouteOption) : eprog TransportOrchestratorError TransportPlan :=
  intent ← pure (map_err ToIntent (canonical_communication_intent intent));
  pure (map_err ToProtocol (validate_transport_resource_snapshot resources)) ;;
  pure (map_err ToProtocol
          (validate_transport_priority_class (ic_priority_class (ci_constraints intent)))) ;;
  hints ← pure (map_err ToProtocol (canonical_transport_routing_hints hints));
  pure (map_err (λ _, ToTooManyRoutes) (validate_transport_route_candidate_count (len options))) ;;
  decision ← asks (EvaluateIntent intent);
  pure (match decision with
        | PdAllow => Ok tt
        | PdDeny => Err ToPolicyDenied
        | PdPendingNoAllowedRoute => Err ToPolicyPending
        end) ;;
  eligible ← collect_eligible protected intent resources hints [] [] options;
  pure (reject_if (bool_decide (length eligible = 0)) ToNoEligibleRoute) ;;
  ranked ← pure (rank_routes 0 (sort_by (eligible_cmp intent hints) eligible));
  mret (mk_plan (plan_binding intent protected) ranked).

(** * Transmission of the primary route *)

Definition revalidate_protected_route (intent : CommunicationIntent)
    (planned : PlannedTransportRoute) : eprog CanonicalTransportError unit :=
  match pr_protected_device_id planned with
  | None => mret tt
  | Some device_id =>
      found ← asks (LookupDevice (ci_scope intent) device_id);
      device ← pure (map_err (λ _, TeInternal) found);
      pure (reject_if (negb (device_admitted intent device)) TePolicyDenied)
  end.

Definition envelope_out_of_bounds (envelope : bytes) : bool :=
  bool_decide (envelope = []) || (DEFAULT_MAX_PAYLOAD_LEN <? len envelope)%Z.

Definition binding_mismatch (binding : PlanBinding) (intent : CommunicationIntent) : bool :=
  negb (bool_decide (pb_intent_id binding = ci_intent_id intent))
  || negb (bool_decide (pb_scope binding = ci_scope intent))
  || negb (bool_decide (pb_target_identity_id binding = ci_target_identity_id intent))
  || negb (bool_decide (pb_constraints binding = ci_constraints intent)).

(** [transmit_primary] and [transmit_primary_protected] are this with [protected] false
    and true. *)
Definition transmit_primary_inner (protected : bool) (intent : CommunicationIntent)
    (plan : TransportPlan) (envelope : bytes) : eprog CanonicalTransportError unit :=
  canonical ← pure (map_err (λ _, TePolicyDenied) (canonical_communication_intent intent));
  pure (reject_if (negb (Bool.eqb (pb_protected_device_gate (tp_binding plan)) protected))
          TePolicyDenied) ;;
  pure (reject_if (binding_mismatch (tp_binding plan) canonical) TePolicyDenied) ;;
  decision ← asks (EvaluateIntent canonical);
  pure (reject_if (negb (bool_decide (decision = PdAllow))) TePolicyDenied) ;;
  pure (reject_if (envelope_out_of_bounds envelope) TeResourceExhausted) ;;
  primary ← pure (ok_or (head (tp_ranked_routes plan)) TeUnavailable);
  health ← asks (Health (pr_provider primary));
  pure (reject_if (bool_decide (health = ThUnavailable)) TeUnavailable) ;;
  capabilities ← asks (Capabilities (pr_provider primary));
  pure (reject_if (negb (capability_is_usable capabilities
                           (rc_transport_capability (pr_route primary)))) TeUnsupportedCapability) ;;
  (if protected then revalidate_protected_route canonical primary else mret tt) ;;
  sent ← asks (Transmit (pr_provider primary) (ci_scope canonical) (pr_route primary) envelope);
  pure sent.
