(* ===== verification/Failover.v ===== *)
(** Cross-route failover (crates/ucr-transport-orchestrator/src/failover.rs and
    crates/ucr-protocol/src/transport_failover.rs): the ranked routes are tried in
    order, and the next one only after the previous provider has proved that it did not
    accept the envelope. *)

From S2P Require Import Prelude Ids Framing Extension Capability Message Delivery.
From S2P Require Import StoreForward Sync Store StoreForwardStore Endpoint Interaction Program Orchestrator.

Definition MAX_TRANSPORT_FAILOVER_ROUTE_ATTEMPTS : Z := 64.

Record TransportFailoverPolicy := mk_failover_policy {
  fo_max_route_attempts : Z; (* u16 *)
  fo_expires_at : option Z; (* i64 *)
}.

Inductive TransportFailoverProtocolError := FpZeroRouteAttemptBudget | FpTooManyRouteAttempts.

Definition validate_transport_failover_policy (policy : TransportFailoverPolicy) :
    result TransportFailoverProtocolError unit :=
  reject_if (fo_max_route_attempts policy =? 0)%Z FpZeroRouteAttemptBudget ;;
  reject_if (MAX_TRANSPORT_FAILOVER_ROUTE_ATTEMPTS <? fo_max_route_attempts policy)%Z
    FpTooManyRouteAttempts.

Inductive TransportFailoverAttemptOutcome :=
| FaSkippedUnavailable | FaSkippedUnsupportedCapability | FaFailedBeforeAcceptance
| FaAcceptanceUnknown | FaAcceptedByTransport | FaTerminalFailure.
#[global] Instance TransportFailoverAttemptOutcome_eq_dec :
  EqDecision TransportFailoverAttemptOutcome.
Proof. solve_decision. Defined.

Inductive TransportFailoverStopReason :=
| FsAcceptedByTransport | FsRoutesExhausted | FsAttemptBudgetExhausted | FsDeadlineExpired
| FsPolicyChanged | FsAcceptanceUnknown | FsTerminalFailure.
#[global] Instance TransportFailoverStopReason_eq_dec : EqDecision TransportFailoverStopReason.
Proof. solve_decision. Defined.

Record TransportFailoverAttemptDecision := mk_failover_attempt {
  fd_route : TransportRouteDecision;
  fd_outcome : TransportFailoverAttemptOutcome;
}.

Record TransportFailoverDecision := mk_failover_decision {
  fd_attempts : list TransportFailoverAttemptDecision;
  fd_stop_reason : TransportFailoverStopReason;
}.

Record TransportFailoverExecutionError := mk_failover_error {
  fe_error : CanonicalTransportError;
  fe_decision : TransportFailoverDecision;
}.

Definition failover_error (error : CanonicalTransportError)
    (attempts : list TransportFailoverAttemptDecision) (reason : TransportFailoverStopReason) :
    TransportFailoverExecutionError :=
  mk_failover_error error (mk_failover_decision attempts reason).

Definition attempt (planned : PlannedTransportRoute) (outcome : TransportFailoverAttemptOutcome) :
    TransportFailoverAttemptDecision :=
  mk_failover_attempt (pr_decision planned) outcome.

Definition cross_route_retryable (error : CanonicalTransportError) : bool :=
  match error with TeUnavailable | TeTimeout | TeUnsupportedCapability => true | _ => false end.

Definition deadline_expired (policy : TransportFailoverPolicy) : prog bool :=
  match fo_expires_at policy with
  | Some expires_at => now ← ask NowUnixMs; Ret (expires_at <=? now)%Z
  | None => Ret false
  end.

Abbreviation failover_prog A := (eprog TransportFailoverExecutionError A).

Definition pre_route_gate (intent : CommunicationIntent) (policy : TransportFailoverPolicy)
    (attempts : list TransportFailoverAttemptDecision) : failover_prog unit :=
  expired ← run_prog (deadline_expired policy);
  pure (reject_if expired (failover_error TeTimeout attempts FsDeadlineExpired)) ;;
  decision ← asks (EvaluateIntent intent);
  pure (reject_if (negb (bool_decide (decision = PdAllow)))
          (failover_error TePolicyDenied attempts FsPolicyChanged)).

Definition accepted (attempts : list TransportFailoverAttemptDecision)
    (planned : PlannedTransportRoute) : TransportFailoverDecision :=
  mk_failover_decision (attempts ++ [attempt planned FaAcceptedByTransport]) FsAcceptedByTransport.

(** The loop over the ranked routes with its local variables; the counter is a [u16]
    below the budget whenever it is incremented, so it does not wrap. *)
Fixpoint try_routes (protected : bool) (intent : CommunicationIntent) (envelope : bytes)
    (policy : TransportFailoverPolicy) (attempts : list TransportFailoverAttemptDecision)
    (provider_attempts : Z) (last_error : CanonicalTransportError)
    (routes : list PlannedTransportRoute) : failover_prog TransportFailoverDecision :=
  match routes with
  | [] => pure (Err (failover_error last_error attempts FsRoutesExhausted))
  | planned :: rest =>
      pre_route_gate intent policy attempts ;;
      health ← asks (Health (pr_provider planned));
      if bool_decide (health = ThUnavailable) then
        try_routes protected intent envelope policy
          (attempts ++ [attempt planned FaSkippedUnavailable]) provider_attempts TeUnavailable rest
      else
        capabilities ← asks (Capabilities (pr_provider planned));
        if negb (capability_is_usable capabilities (rc_transport_capability (pr_route planned))) then
          try_routes protected intent envelope policy
            (attempts ++ [attempt planned FaSkippedUnsupportedCapability]) provider_attempts
            TeUnsupportedCapability rest
        else
          pure (reject_if (fo_max_route_attempts policy <=? provider_attempts)%Z
                  (failover_error last_error attempts FsAttemptBudgetExhausted)) ;;
          (if protected
           then eprog_map_err (λ error, failover_error error attempts FsPolicyChanged)
                  (revalidate_protected_route intent planned)
           else mret tt) ;;
          sent ← asks (TransmitClassified (pr_provider planned) (ci_scope intent)
                         (pr_route planned) envelope);
          match sent with
          | Ok _ => mret (accepted attempts planned)
          | Err failure =>
              if bool_decide (cf_disposition failure = TdAcceptanceUnknown) then
                pure (Err (failover_error (cf_error failure)
                             (attempts ++ [attempt planned FaAcceptanceUnknown])
                             FsAcceptanceUnknown))
              else if cross_route_retryable (cf_error failure) then
                try_routes protected intent envelope policy
                  (attempts ++ [attempt planned FaFailedBeforeAcceptance])
                  (provider_attempts + 1) (cf_error failure) rest
              else
                pure (Err (failover_error (cf_error failure)
                             (attempts ++ [attempt planned FaTerminalFailure]) FsTerminalFailure))
          end
  end.

Definition execute_ranked_routes (protected : bool) (intent : CommunicationIntent)
    (plan : TransportPlan) (envelope : bytes) (policy : TransportFailoverPolicy) :
    failover_prog TransportFailoverDecision :=
  try_routes protected intent envelope policy [] 0 TeUnavailable (tp_ranked_routes plan).

Definition validate_execution (protected : bool) (intent : CommunicationIntent)
    (plan : TransportPlan) (envelope : bytes) (policy : TransportFailoverPolicy) :
    result TransportFailoverExecutionError CommunicationIntent :=
  reject_if (negb (is_ok (validate_transport_failover_policy policy)))
    (failover_error TeRejected [] FsTerminalFailure) ;;
  canonical ← map_err (λ _, failover_error TePolicyDenied [] FsPolicyChanged)
                (canonical_communication_intent intent);
  reject_if (binding_mismatch (tp_binding plan) canonical
             || negb (Bool.eqb (pb_protected_device_gate (tp_binding plan)) protected))
    (failover_error TePolicyDenied [] FsPolicyChanged) ;;
  reject_if (envelope_out_of_bounds envelope)
    (failover_error TeResourceExhausted [] FsTerminalFailure) ;;
  Ok canonical.

(** [transmit_with_failover] and [transmit_with_failover_protected] are this with
    [protected] false and true. *)
Definition transmit_with_failover_inner (protected : bool) (intent : CommunicationIntent)
    (plan : TransportPlan) (envelope : bytes) (policy : TransportFailoverPolicy) :
    failover_prog TransportFailoverDecision :=
  canonical ← pure (validate_execution protected intent plan envelope policy);
  execute_ranked_routes protected canonical plan envelope policy.
