(* ===== verification/FailoverTheorems.v ===== *)
(** What failover guarantees under every provider, policy, clock and device answer. *)

From S2P Require Import Prelude Ids Framing Extension Capability Message Delivery.
From S2P Require Import StoreForward Sync Store StoreForwardStore Endpoint Program Orchestrator.
From S2P Require Import Failover Interaction.

(** * Provider invocations *)

Record invocation := mk_invocation {
  iv_provider : ProviderRef;
  iv_scope : TenantScope;
  iv_route : RouteCandidate;
  iv_envelope : bytes;
  iv_answer : result ClassifiedTransportFailure unit;
}.

(** The invocations of [transmit_classified] in a behaviour, in order. *)
Definition invocation_of {B} (c : command B) : B → list invocation :=
  match c with
  | External c =>
      match c in external_call B return B → list invocation with
      | TransmitClassified p scope route env => λ b, [mk_invocation p scope route env b]
      | _ => λ _, []
      end
  | Durable _ => λ _, []
  end.

Definition invocations (tr : list (observation command)) : list invocation :=
  flat_map (λ o, match o with Observed c b => invocation_of c b end) tr.

(** The provider's answer proves that the envelope was not accepted. *)
Definition not_accepted (i : invocation) : Prop :=
  ∃ f, iv_answer i = Err f ∧ cf_disposition f = TdNotAccepted.

(** Failover makes no store call and no unclassified transmission, and invokes a provider
    only within the budget and after proven non-acceptance of all before. *)
Definition may_call {B} (limit : Z) (log : list invocation) (c : command B) : Prop :=
  match c with
  | External c =>
      match c with
      | Transmit _ _ _ _ => False
      | TransmitClassified _ _ _ _ => Forall not_accepted log ∧ (len log < limit)%Z
      | _ => True
      end
  | Durable _ => False
  end.

#[global] Instance invocation_monitor (policy : TransportFailoverPolicy) :
  Monitor command (list invocation) := {|
  permitted _ c log := may_call (fo_max_route_attempts policy) log c;
  observe _ c b log := log ++ invocation_of c b;
|}.

Lemma observe_invocations policy tr (log : list invocation) :
  @observe_all _ _ (invocation_monitor policy) tr log = log ++ invocations tr.
Proof.
  unfold observe_all, invocations. revert log. induction tr as [|[B c b] tr IH]; intros log; cbn.
  - by rewrite app_nil_r.
  - rewrite IH. cbn. by rewrite app_assoc.
Qed.

(** [later] are invocations on some of [routes], in their order, for this execution. *)
Definition in_plan_order (intent : CommunicationIntent) (envelope : bytes)
    (routes : list PlannedTransportRoute) (log : list invocation) : Prop :=
  (λ i, (iv_provider i, iv_route i)) <$> log
    `sublist_of` (λ p, (pr_provider p, pr_route p)) <$> routes
  ∧ Forall (λ i, iv_scope i = ci_scope intent ∧ iv_envelope i = envelope) log.

(** How the result of an execution follows from the invocations it made. *)
Definition justified (log : list invocation)
    (r : result TransportFailoverExecutionError TransportFailoverDecision) : Prop :=
  match r with
  | Ok d => fd_stop_reason d = FsAcceptedByTransport
            ∧ ∃ before i, log = before ++ [i] ∧ Forall not_accepted before ∧ iv_answer i = Ok tt
  | Err e =>
      if decide (fd_stop_reason (fe_decision e) = FsAcceptanceUnknown)
      then ∃ before i f, log = before ++ [i] ∧ Forall not_accepted before
                         ∧ iv_answer i = Err f ∧ cf_disposition f = TdAcceptanceUnknown
      else Forall not_accepted log
  end.

(** Validation keeps the scope of the intent, and its errors are not ambiguous. *)
Lemma canonical_intent_scope intent canonical :
  canonical_communication_intent intent = Ok canonical → ci_scope canonical = ci_scope intent.
Proof. unfold canonical_communication_intent. intros. res_inv. by subst. Qed.

Lemma validate_execution_scope protected intent plan envelope policy canonical :
  validate_execution protected intent plan envelope policy = Ok canonical →
  ci_scope canonical = ci_scope intent.
Proof.
  unfold validate_execution. intros. res_inv. subst. by apply canonical_intent_scope.
Qed.

Lemma validate_execution_error protected intent plan envelope policy e :
  validate_execution protected intent plan envelope policy = Err e →
  fd_stop_reason (fe_decision e) ≠ FsAcceptanceUnknown.
Proof.
  unfold validate_execution. destruct (negb (is_ok _)); cbn; [intros [= E]; by subst e|].
  destruct (canonical_communication_intent intent); cbn; [|intros [= E]; by subst e].
  destruct (_ || _); cbn; [intros [= E]; by subst e|].
  destruct (envelope_out_of_bounds _); cbn; [|done]. intros [= E]. by subst e.
Qed.

Section failover.
Context (policy : TransportFailoverPolicy).
#[local] Existing Instance invocation_monitor | 0.
Abbreviation safe := (@safe _ _ (invocation_monitor policy) _).

(** A gate makes no invocation, and its error is not ambiguous. *)
Definition gate {A} (p : failover_prog A) : Prop :=
  ∀ log : list invocation, safe p log (λ log' r,
    log' = log ∧ match r with
                 | Ok _ => True
                 | Err e => fd_stop_reason (fe_decision e) ≠ FsAcceptanceUnknown
                 end).

Lemma pre_route_gate_gate intent attempts : gate (pre_route_gate intent policy attempts).
Proof.
  intros log. unfold pre_route_gate, deadline_expired.
  assert (∀ b, safe (pure (reject_if b (failover_error TeTimeout attempts FsDeadlineExpired)) ;;
    decision ← asks (EvaluateIntent intent);
    pure (reject_if (negb (bool_decide (decision = PdAllow)))
            (failover_error TePolicyDenied attempts FsPolicyChanged))) log
    (λ log' r, log' = log ∧ match r with
      | Ok _ => True
      | Err e => fd_stop_reason (fe_decision e) ≠ FsAcceptanceUnknown
      end)) as Hrest.
  { intros []; cbn; [done|]. split; [done|]. intros d. rewrite app_nil_r. by destruct d. }
  destruct (fo_expires_at policy); [|apply (Hrest false)].
  cbn. split; [done|]. intros now. rewrite app_nil_r. apply (Hrest (_ <=? _)%Z).
Qed.

Lemma revalidate_gate (protected : bool) intent planned attempts :
  gate (if protected
        then eprog_map_err (λ error, failover_error error attempts FsPolicyChanged)
               (revalidate_protected_route intent planned)
        else mret tt).
Proof.
  intros log. destruct protected; [|done].
  unfold revalidate_protected_route. destruct (pr_protected_device_id planned); [|done].
  cbn. split; [done|]. intros [d|e]; cbn; rewrite app_nil_r; [|done].
  by destruct (device_admitted intent d).
Qed.

(** Running a gate before the rest. *)
Lemma gate_then {A B} (p : failover_prog A) (f : A → failover_prog B) (log : list invocation) Q :
  gate p → (∀ e, fd_stop_reason (fe_decision e) ≠ FsAcceptanceUnknown → Q log (Err e)) →
  (∀ a, safe (f a) log Q) → safe (p ≫= f) log Q.
Proof.
  intros Hp He Hf. apply safe_ebind. eapply safe_mono; [|apply Hp].
  intros log' [a|e] [-> Hr]; auto.
Qed.

Section try_routes.
Context (protected : bool) (intent : CommunicationIntent) (envelope : bytes).

(** What one execution of the loop over [routes] adds to the log [log]. *)
Definition loop_post (log : list invocation) (routes : list PlannedTransportRoute)
    (log' : list invocation)
    (r : result TransportFailoverExecutionError TransportFailoverDecision) : Prop :=
  ∃ new, log' = log ++ new ∧ in_plan_order intent envelope routes new
         ∧ (len log' ≤ fo_max_route_attempts policy)%Z ∧ justified log' r.

Lemma loop_post_skip log planned routes log' r :
  loop_post log routes log' r → loop_post log (planned :: routes) log' r.
Proof.
  intros (new & -> & [Hs Hf] & Hrest). exists new. split_and!; [done| |apply Hrest..].
  split; [|done]. by apply sublist_cons.
Qed.

(** The loop stops without another invocation. *)
Lemma loop_post_stop log routes e :
  Forall not_accepted log → (len log ≤ fo_max_route_attempts policy)%Z →
  fd_stop_reason (fe_decision e) ≠ FsAcceptanceUnknown → loop_post log routes log (Err e).
Proof.
  intros Hlog Hlen Hr. exists []. rewrite app_nil_r. split_and!; [done| |done|].
  - split; [apply sublist_nil_l|constructor].
  - cbn. by rewrite decide_False.
Qed.

Definition sent_on (planned : PlannedTransportRoute) (b : result ClassifiedTransportFailure unit) :
    invocation :=
  mk_invocation (pr_provider planned) (ci_scope intent) (pr_route planned) envelope b.

(** The loop stops after this invocation. *)
Lemma loop_post_last log planned routes b r :
  (len log < fo_max_route_attempts policy)%Z →
  justified (log ++ [sent_on planned b]) r →
  loop_post log (planned :: routes) (log ++ [sent_on planned b]) r.
Proof.
  intros Hlen Hj. exists [sent_on planned b]. split_and!; [done| |unfold len in *;
    rewrite length_app; cbn; lia|done].
  split; [|by repeat constructor]. cbn. apply sublist_skip, sublist_nil_l.
Qed.

(** The loop goes on after this invocation. *)
Lemma loop_post_next log planned routes b log' r :
  loop_post (log ++ [sent_on planned b]) routes log' r →
  loop_post log (planned :: routes) log' r.
Proof.
  intros (new & -> & [Hs Hf] & Hrest). exists (sent_on planned b :: new).
  rewrite <- app_assoc in *. split_and!; [done| |apply Hrest..].
  split; [by apply sublist_skip|by constructor].
Qed.

Lemma try_routes_safe routes attempts n last_error (log : list invocation) :
  Forall not_accepted log → len log = n → (n ≤ fo_max_route_attempts policy)%Z →
  safe (try_routes protected intent envelope policy attempts n last_error routes) log
    (loop_post log routes).
Proof.
  revert attempts n last_error log.
  induction routes as [|planned routes IH]; intros attempts n last_error log Hlog Hlen Hmax; cbn.
  { by apply loop_post_stop; [|lia|]. }
  apply gate_then; [apply pre_route_gate_gate|intros; apply loop_post_stop; [done|lia|done]|].
  intros _. cbn. split; [done|]. intros health. rewrite app_nil_r.
  destruct (bool_decide (health = ThUnavailable)).
  { eapply safe_mono; [apply loop_post_skip|by apply IH]. }
  cbn. split; [done|]. intros caps. rewrite app_nil_r.
  destruct (negb _).
  { eapply safe_mono; [apply loop_post_skip|by apply IH]. }
  destruct (_ <=? _)%Z eqn:Hbudget; cbn; [by apply loop_post_stop; [|lia|]|]. bool_norm.
  apply gate_then; [apply revalidate_gate|intros; apply loop_post_stop; [done|lia|done]|].
  intros _. cbn. split; [by split; [|lia]|]. intros [[]|failure]; fold (sent_on planned).
  { apply loop_post_last; [lia|]. split; [done|]. eauto 10. }
  destruct (bool_decide _) eqn:Hd; bool_norm.
  { apply loop_post_last; [lia|]. unfold justified. rewrite decide_True by done.
    by eexists log, _, failure. }
  assert (not_accepted (sent_on planned (Err failure))) as Hnot.
  { exists failure. split; [done|]. by destruct (cf_disposition failure). }
  destruct (cross_route_retryable _).
  - eapply safe_mono; [apply loop_post_next|]. apply IH; [by apply Forall_app; repeat constructor| |lia].
    unfold len in *. rewrite length_app. cbn. lia.
  - apply loop_post_last; [lia|]. unfold justified. rewrite decide_False by done.
    by apply Forall_app; repeat constructor.
Qed.
End try_routes.

(** The whole execution, in any budget of at least zero. *)
Lemma transmit_with_failover_safe protected intent plan envelope :
  (0 ≤ fo_max_route_attempts policy)%Z →
  safe (transmit_with_failover_inner protected intent plan envelope policy) []
    (loop_post intent envelope [] (tp_ranked_routes plan)).
Proof.
  intros Hbudget. unfold transmit_with_failover_inner. apply safe_ebind. cbn.
  destruct (validate_execution _ _ _ _ _) as [canonical|e] eqn:Hv.
  - apply validate_execution_scope in Hv. unfold execute_ranked_routes.
    eapply safe_mono; [|apply (try_routes_safe protected canonical); [constructor|done|done]].
    intros log' r' (new & ? & Hin & ?). exists new. unfold in_plan_order in *.
    rewrite Hv in Hin. done.
  - apply loop_post_stop; [constructor|done|]. by eapply validate_execution_error.
Qed.
End failover.

(** * Properties *)

(** C7: whatever the providers, the policy, the clock and the device store answer,
    one failover execution invokes at most the budgeted number of routes, in plan
    order, always with the intent's scope and the given envelope; every invocation but
    the last is one whose provider proved non-acceptance; success means the last one was
    accepted; an ambiguous stop means the last one was ambiguous; and after any other
    error no provider has accepted the envelope. *)
Theorem failover_never_duplicates_acceptance (protected : bool) (intent : CommunicationIntent)
    (plan : TransportPlan) (envelope : bytes) (policy : TransportFailoverPolicy)
    (tr : list (observation command))
    (r : result TransportFailoverExecutionError TransportFailoverDecision)
    (Hbudget : (0 ≤ fo_max_route_attempts policy)%Z)
    (Hrun : behaves (transmit_with_failover_inner protected intent plan envelope policy) tr r) :
  (len (invocations tr) ≤ fo_max_route_attempts policy)%Z
  ∧ in_plan_order intent envelope (tp_ranked_routes plan) (invocations tr)
  ∧ justified (invocations tr) r.
Proof.
  pose proof (transmit_with_failover_safe policy protected intent plan envelope Hbudget) as Hs.
  destruct (safe_behaves _ _ _ _ _ Hs Hrun) as (new & E & Hrest).
  rewrite observe_invocations in *. cbn in *. subst new. naive_solver.
Qed.

(** * Witness *)

Definition relay_scope : TenantScope := mk_scope (oid "acme") None.
Definition relay_intent : CommunicationIntent :=
  mk_intent (oid "i1") relay_scope (oid "bob-id") (str "hi")
    (mk_constraints [] [] None None None None) (mk_correlation (oid "corr") None None) [].
Definition relay_route (endpoint : OpaqueId) : RouteCandidate :=
  mk_route endpoint (str "ucr.transport.local.tcp") (mk_address (str "ucr.tcp") (str "10.0.0.1:7")).
Definition relay_planned (provider : nat) (endpoint : OpaqueId) (rank : Z) : PlannedTransportRoute :=
  mk_planned provider (relay_route endpoint)
    (mk_decision endpoint (str "ucr.transport.local.tcp") rank) None.
Definition relay_plan : TransportPlan :=
  mk_plan (plan_binding relay_intent false)
    [relay_planned 0 (oid "e1") 1; relay_planned 1 (oid "e2") 2].
Definition relay_capabilities : list CapabilityDescriptor :=
  [mk_capability (str "ucr.transport.local.tcp") CmBeta []].

(** The first provider times out and proves non-acceptance, the second accepts. *)
Definition relay_trace : list (observation command) :=
  let timeout := mk_failure TeTimeout TdNotAccepted in
  [Observed (External (EvaluateIntent relay_intent)) PdAllow;
   Observed (External (Health 0)) ThHealthy;
   Observed (External (Capabilities 0)) relay_capabilities;
   Observed (External (TransmitClassified 0 relay_scope (relay_route (oid "e1")) (str "env")))
     (Err timeout);
   Observed (External (EvaluateIntent relay_intent)) PdAllow;
   Observed (External (Health 1)) ThDegraded;
   Observed (External (Capabilities 1)) relay_capabilities;
   Observed (External (TransmitClassified 1 relay_scope (relay_route (oid "e2")) (str "env")))
     (Ok tt)].

Lemma failover_never_duplicates_acceptance_witness :
  len (invocations relay_trace) = 2%Z
  ∧ justified (invocations relay_trace)
      (Ok (mk_failover_decision
             [attempt (relay_planned 0 (oid "e1") 1) FaFailedBeforeAcceptance;
              attempt (relay_planned 1 (oid "e2") 2) FaAcceptedByTransport]
             FsAcceptedByTransport)).
Proof.
  split; [by vm_compute|].
  apply (failover_never_duplicates_acceptance false relay_intent relay_plan (str "env")
           (mk_failover_policy 2 None)); [done|].
  repeat first [eapply behaves_call | apply behaves_ret].
Defined.
