(* ===== verification/OrchestratorTheorems.v ===== *)
(** What a route plan guarantees whatever the environment answers, and that planning
    does not depend on the order in which routes were discovered. *)

From S2P Require Import Prelude Ids Framing Extension Capability Message Delivery.
From S2P Require Import StoreForward Sync Store StoreForwardStore Endpoint Program Orchestrator.
From S2P Require Import Interaction FailoverTheorems.

(** Planning only asks the environment; only its result matters here. *)
#[local] Instance no_monitor : Monitor command unit := {|
  permitted _ c _ := match c with External _ => True | Durable _ => False end;
  observe _ _ _ m := m;
|}.

Abbreviation always p Q := (safe p tt (λ _ r, Q r)).

(** * Soundness *)

(** The hard constraints on one planned route, as far as they do not depend on what the
    provider answered. *)
Record route_admitted (protected : bool) (intent : CommunicationIntent)
    (o : TransportRouteOption) (device : option DeviceId) : Prop := {
  ra_reachable : tt_recipient_reachable (ro_telemetry o) = true;
  ra_endpoint : rc_endpoint_id (ro_route o) = ep_endpoint_id (ro_recipient_endpoint o);
  ra_identity : ep_identity_id (ro_recipient_endpoint o) = Some (ci_target_identity_id intent);
  ra_address : rc_address (ro_route o) ∈ ep_addresses (ro_recipient_endpoint o);
  ra_capability :
    capability_is_usable (ep_capabilities (ro_recipient_endpoint o))
      (rc_transport_capability (ro_route o)) = true;
  ra_constraints : constraints_admit (ci_constraints intent) (ro_route o) (ro_telemetry o) = true;
  ra_telemetry : validate_transport_route_telemetry (ro_telemetry o) = Ok tt;
  ra_device :
    device = if protected && bool_decide (ep_kind (ro_recipient_endpoint o) = EkDevice)
             then ep_device_id (ro_recipient_endpoint o) else None;
  ra_device_known :
    protected = true → ep_kind (ro_recipient_endpoint o) = EkDevice → device ≠ None;
}.

Definition eligible_ok (protected : bool) (intent : CommunicationIntent)
    (options : list TransportRouteOption) (e : EligibleRoute) : Prop :=
  el_option e ∈ options ∧ route_admitted protected intent (el_option e) (el_protected_device_id e).

Definition eligible_key (e : EligibleRoute) : RouteKey := route_key (ro_route (el_option e)).

(** A program that never fails can be run before the rest. *)
Lemma always_run_prog {E A B} (p : prog A) (f : A → eprog E B) (P : A → Prop)
    (Q : unit → result E B → Prop) :
  always p P → (∀ a, P a → safe (f a) tt Q) → safe (run_prog p ≫= f) tt Q.
Proof.
  intros Hp Hf. apply safe_ebind, safe_bind. eapply safe_mono; [|exact Hp].
  intros [] a Ha. by apply Hf.
Qed.

Lemma option_is_eligible_sound intent o :
  always (option_is_eligible intent o) (λ admitted, admitted = true →
    tt_recipient_reachable (ro_telemetry o) = true
    ∧ rc_endpoint_id (ro_route o) = ep_endpoint_id (ro_recipient_endpoint o)
    ∧ ep_identity_id (ro_recipient_endpoint o) = Some (ci_target_identity_id intent)
    ∧ rc_address (ro_route o) ∈ ep_addresses (ro_recipient_endpoint o)
    ∧ capability_is_usable (ep_capabilities (ro_recipient_endpoint o))
        (rc_transport_capability (ro_route o)) = true
    ∧ constraints_admit (ci_constraints intent) (ro_route o) (ro_telemetry o) = true).
Proof.
  unfold option_is_eligible. split; [done|]. intros health. cbn [prog_bind mbind prog_mbind].
  destruct (_ || negb (tt_recipient_reachable _)) eqn:H1; [done|].
  destruct (_ || negb (existsb _ _)) eqn:H2; [done|].
  split; [done|]. intros caps. cbn.
  destruct (_ || negb (capability_is_usable (ep_capabilities _) _)) eqn:H3; [done|].
  cbn. intros H4. bool_norm. destruct H1 as [_ H1], H3 as [_ H3], H2 as [[? ?] Ha].
  apply Exists_exists in Ha as (a & Ha & ->%bool_decide_eq_true).
  done.
Qed.

Lemma option_binding_sound protected intent o :
  always (option_binding protected intent o) (λ r, ∀ device, r = Ok (Some device) →
    (device = if protected && bool_decide (ep_kind (ro_recipient_endpoint o) = EkDevice)
              then ep_device_id (ro_recipient_endpoint o) else None)
    ∧ (protected = true → ep_kind (ro_recipient_endpoint o) = EkDevice → device ≠ None)).
Proof.
  unfold option_binding, protected_device_option_binding.
  destruct protected; [|by intros d [= <-]].
  destruct (bool_decide _) eqn:Hk; bool_norm; cbn; [|by intros d [= <-]].
  destruct (ep_device_id _) as [d|]; cbn; [|done].
  split; [done|]. intros [found|e]; cbn; [|done].
  destruct (device_admitted intent found); cbn; [|done]. by intros d' [= <-].
Qed.

Lemma collect_eligible_sound protected intent resources hints options0 seen eligible options :
  options ⊆ options0 → Forall (eligible_ok protected intent options0) eligible →
  NoDup (eligible_key <$> eligible) → eligible_key <$> eligible ⊆ seen →
  always (collect_eligible protected intent resources hints seen eligible options) (λ r,
    ∀ l, r = Ok l → Forall (eligible_ok protected intent options0) l ∧ NoDup (eligible_key <$> l)
                    ∧ length l ≤ length eligible + length options).
Proof.
  revert seen eligible. induction options as [|o options IH];
    intros seen eligible Hsub Hok Hnd Hseen; cbn [collect_eligible].
  { intros l [= <-]. cbn. split_and!; [done..|lia]. }
  assert (∀ seen' eligible', Forall (eligible_ok protected intent options0) eligible' →
    NoDup (eligible_key <$> eligible') → eligible_key <$> eligible' ⊆ seen' →
    length eligible' ≤ S (length eligible) →
    always (collect_eligible protected intent resources hints seen' eligible' options) (λ r,
      ∀ l, r = Ok l → Forall (eligible_ok protected intent options0) l
        ∧ NoDup (eligible_key <$> l) ∧ length l ≤ length eligible + length (o :: options))) as Hgo.
  { intros. eapply safe_mono; [|apply IH; [|done..]]; [|by intros x Hx; apply Hsub; right]. cbn. intros _ r Hr l Hl.
    destruct (Hr l Hl) as (? & ? & ?). split_and!; [done..|lia]. }
  apply safe_pure; [intros [] Ht%map_err_Ok|done].
  apply safe_pure; [intros _ _|done].
  apply safe_ebind. eapply safe_mono; [|apply option_binding_sound].
  intros [] [[device|]|e] Hb; [|by apply Hgo; auto|done].
  destruct (Hb device eq_refl) as [Hd Hd'].
  apply safe_pure; [intros _ Hdup%reject_if_Ok; bool_norm|done].
  eapply always_run_prog; [apply option_is_eligible_sound|].
  intros [] Hadm; [|apply Hgo; auto; intros k Hk; right; by apply Hseen].
  destruct Hadm as (A1 & A2 & A3 & A4 & A5 & A6); [done|].
  eapply (always_run_prog _ _ (λ _, True)).
  { cbn. by split. }
  intros score _. apply Hgo.
  - apply Forall_app. split; [done|]. constructor; [|constructor].
    split; [apply Hsub; by left|by split].
  - rewrite fmap_app. apply NoDup_app. split_and!; [done| |apply NoDup_singleton].
    intros k Hk ->%list_elem_of_singleton. rewrite Forall_forall in Hdup.
    apply Hseen in Hk. apply Hdup in Hk. by apply bool_decide_eq_false in Hk.
  - rewrite fmap_app. intros k [Hk|Hk]%elem_of_app; [right; by apply Hseen|].
    apply list_elem_of_singleton in Hk as ->. by left.
  - rewrite length_app. cbn. lia.
Qed.

(** * The ranking is a total order *)

(** The fields [compare_scores] compares, in order. *)
Definition score_fields (intent : CommunicationIntent) (hints : list TransportRoutingHint) :
    list (RouteScore → Z) :=
  let priority := ic_priority_class (ci_constraints intent) in
  let urgent := has_hint HintUrgent hints
                || match priority with Some value => (value <=? 1)%Z | None => false end in
  let economy := match priority with Some value => (6 <=? value)%Z | None => false end in
  [sc_availability]
  ++ (if has_hint HintPreferLocal hints then [sc_local_penalty] else [])
  ++ (if has_hint HintAvoidExpensive hints then [sc_cost] else [])
  ++ (if urgent then [sc_latency; sc_loss; sc_reliability_inverse; sc_bandwidth_inverse; sc_energy;
                      sc_cost]
      else if economy then [sc_energy; sc_cost; sc_reliability_inverse; sc_loss; sc_latency;
                            sc_bandwidth_inverse]
      else [sc_reliability_inverse; sc_loss; sc_latency; sc_bandwidth_inverse; sc_energy; sc_cost])
  ++ [sc_local_penalty].

Definition score_vector (intent : CommunicationIntent) (hints : list TransportRoutingHint)
    (score : RouteScore) : list Z :=
  (λ f, f score) <$> score_fields intent hints.

Lemma then_with_assoc a b c : then_with (then_with a b) c = then_with a (then_with b c).
Proof. by destruct a. Qed.

Lemma sort_by_ext {A} (c c' : A → A → comparison) l :
  (∀ x y, c x y = c' x y) → sort_by c l = sort_by c' l.
Proof.
  intros Hc. unfold sort_by. induction l as [|x l IH]; cbn; [done|]. rewrite IH.
  generalize (foldr (insert_by c') [] l). intros k.
  induction k as [|y k IHk]; cbn; [done|]. by rewrite Hc, IHk.
Qed.

Lemma then_with_Eq a : then_with a Eq = a.
Proof. by destruct a. Qed.

Lemma compare_scores_lexicographic intent hints left right :
  compare_scores intent hints left right
  = list_cmp Z.compare (score_vector intent hints left) (score_vector intent hints right).
Proof.
  unfold compare_scores, score_vector, score_fields.
  generalize (has_hint HintPreferLocal hints), (has_hint HintAvoidExpensive hints),
    (has_hint HintUrgent hints). intros b1 b2 b3.
  destruct (ic_priority_class _) as [v|]; [destruct (v <=? 1)%Z, (6 <=? v)%Z|];
    destruct b1, b2, b3; cbn [orb app fmap list_fmap list_cmp];
    by rewrite ?then_with_assoc, ?then_with_Eq.
Qed.

Abbreviation route_tuple := (bytes * OpaqueId * bytes * bytes)%type.
Definition route_sort_key (route : RouteCandidate) : route_tuple :=
  (rc_transport_capability route, rc_endpoint_id route, addr_scheme (rc_address route),
   addr_value (rc_address route)).
Abbreviation route_tuple_cmp :=
  (pair_cmp (pair_cmp (pair_cmp bytes_cmp opaque_cmp) bytes_cmp) bytes_cmp).

Abbreviation rank_cmp := (pair_cmp (list_cmp Z.compare) route_tuple_cmp).

Section ranking.
Context (intent : CommunicationIntent) (hints : list TransportRoutingHint).

Definition rank_key (e : EligibleRoute) : list Z * route_tuple :=
  (score_vector intent hints (el_score e), route_sort_key (ro_route (el_option e))).

Lemma sort_eligible l : sort_by (eligible_cmp intent hints) l = sort_by (key_cmp rank_key rank_cmp) l.
Proof.
  apply sort_by_ext. intros e e'. unfold eligible_cmp. by rewrite compare_scores_lexicographic.
Qed.

Lemma rank_key_NoDup l : NoDup (eligible_key <$> l) → NoDup (rank_key <$> l).
Proof.
  intros Hnd. apply (NoDup_fmap_1 (λ k, let '(_, (c, e, s, v)) := k in (e, c, s, v) : RouteKey)).
  by rewrite <- list_fmap_compose.
Qed.
End ranking.

(** * The plan *)

Definition planned_route (rank : Z) (e : EligibleRoute) : PlannedTransportRoute :=
  let route := ro_route (el_option e) in
  mk_planned (ro_provider (el_option e)) route
    (mk_decision (rc_endpoint_id route) (rc_transport_capability route) rank)
    (el_protected_device_id e).

Lemma rank_routes_Ok index l ranked :
  rank_routes index l = Ok ranked →
  ranked = imap (λ i, planned_route (index + 1 + Z.of_nat i)) l.
Proof.
  revert index ranked. induction l as [|e l IH]; intros index ranked; cbn; [by intros [= <-]|].
  intros Hr. res_inv. subst. f_equal.
  - unfold planned_route. by rewrite Z.add_0_r.
  - match goal with H : rank_routes _ _ = _ |- _ => apply IH in H as -> end.
    apply imap_ext. intros i x _. cbn. f_equal. lia.
Qed.

(** What a plan is: the ranked enumeration of admitted routes, best first. *)
Record plan_sound (protected : bool) (intent : CommunicationIntent)
    (hints : list TransportRoutingHint) (options : list TransportRouteOption)
    (plan : TransportPlan) (l : list EligibleRoute) : Prop := {
  ps_binding : tp_binding plan = plan_binding intent protected;
  ps_routes : tp_ranked_routes plan = imap (λ i, planned_route (1 + Z.of_nat i)) l;
  ps_admitted : Forall (eligible_ok protected intent options) l;
  ps_distinct : NoDup (eligible_key <$> l);
  ps_ordered : strict_sorted (rank_key intent hints) rank_cmp l;
  ps_count : 1 ≤ length l ≤ 64;
}.

Lemma plan_internal_sound protected intent resources hints options :
  always (plan_internal protected intent resources hints options) (λ r, ∀ plan, r = Ok plan →
    ∃ canonical hints' l,
      canonical_communication_intent intent = Ok canonical
      ∧ canonical_transport_routing_hints hints = Ok hints'
      ∧ plan_sound protected canonical hints' options plan l).
Proof.
  unfold plan_internal.
  apply safe_pure; [intros canonical Hc%map_err_Ok|done].
  apply safe_pure; [intros _ _|done]. apply safe_pure; [intros _ _|done].
  apply safe_pure; [intros hints' Hh%map_err_Ok|done].
  apply safe_pure; [intros [] Hcount%map_err_Ok|done].
  apply safe_asks; [done|intros decision].
  apply safe_pure; [intros _ _|done].
  apply safe_ebind. eapply safe_mono;
    [|apply (collect_eligible_sound _ _ _ _ options); [done|constructor|constructor|set_solver]].
  intros [] [l|e] Hl; [|done]. destruct (Hl l eq_refl) as (Hok & Hnd & Hlen).
  apply safe_pure; [intros _ Hne%reject_if_Ok|done]. bool_norm.
  apply safe_pure; [intros ranked Hr%rank_routes_Ok|done]. intros plan [= <-].
  exists canonical, hints', (sort_by (eligible_cmp canonical hints') l).
  split_and!; [done..|]. rewrite sort_eligible in *. split; cbn.
  - done.
  - by rewrite Hr.
  - by rewrite sort_by_perm.
  - by rewrite sort_by_perm.
  - apply (sort_by_NoDup (rank_key canonical hints') rank_cmp). by apply rank_key_NoDup.
  - rewrite sort_by_length. unfold validate_transport_route_candidate_count in Hcount.
    res_inv. bool_norm. unfold len, MAX_TRANSPORT_ROUTE_CANDIDATES in *. cbn in Hlen. lia.
Qed.

(** * Planning does not depend on the order of discovery *)

Section deterministic.
(** An environment without state gives the same answers throughout the planning. *)
Context `{Sha256} `{!Environment unit} (s : MemoryState).

Definition eval {A} (p : prog A) : A := (run p (tt, s)).2.

Lemma run_external {A} (p : prog A) (Q : A → Prop) :
  always p Q → run p (tt, s) = ((tt, s), eval p) ∧ Q (eval p).
Proof.
  unfold eval. induction p as [a|B c k IH]; cbn; [done|].
  destruct c as [B c|B c]; [|by intros []]. intros [_ Hk]. cbn.
  destruct (answer _ c tt) as [[] b]. apply IH, Hk.
Qed.

Lemma eval_bind {A B} (p : prog A) (f : A → prog B) Q :
  always p Q → eval (prog_bind p f) = eval (f (eval p)).
Proof.
  intros [Hp _]%run_external. unfold eval at 1. rewrite run_bind, Hp. done.
Qed.

Lemma eval_ebind {E A B} (p : eprog E A) (f : A → eprog E B) Q :
  always p Q → eval (p ≫= f) = match eval p with Ok a => eval (f a) | Err e => Err e end.
Proof.
  intros Hp. etrans; [by apply (eval_bind p _ Q)|]. by destruct (eval p).
Qed.

Lemma eval_pure {E A B} (r : result E A) (f : A → eprog E B) :
  eval (pure r ≫= f) = match r with Ok a => eval (f a) | Err e => Err e end.
Proof. by destruct r. Qed.

Lemma eval_asks {E B C} (c : external_call C) (f : C → eprog E B) :
  eval (asks c ≫= f) = eval (f (answer _ c tt).2).
Proof. unfold eval. cbn. by destruct (answer _ c tt) as [[] b]. Qed.

Lemma eval_run_prog {E A B} (p : prog A) (f : A → eprog E B) Q :
  always p Q → eval (run_prog p ≫= f) = eval (f (eval p)).
Proof.
  intros Hp. unfold run_prog. rewrite (eval_ebind _ _ (λ _, True)).
  - by rewrite (eval_bind p _ Q).
  - apply safe_bind. eapply safe_mono; [|exact Hp]. done.
Qed.

Section options.
Context (protected : bool) (intent : CommunicationIntent) (resources : TransportResourceSnapshot)
        (hints : list TransportRoutingHint).

(** What one option contributes: the route key it reserves and the eligible route. *)
Definition verdict (o : TransportRouteOption) :
    result TransportOrchestratorError (list RouteKey * list EligibleRoute) :=
  map_err ToProtocol (validate_transport_route_telemetry (ro_telemetry o)) ;;
  map_err (λ _, ToInvalidEndpoint) (validate_endpoint_descriptor (ro_recipient_endpoint o)) ;;
  binding ← eval (option_binding protected intent o);
  Ok (match binding with
      | None => ([], [])
      | Some device =>
          ([route_key (ro_route o)],
           if eval (option_is_eligible intent o)
           then [mk_eligible (eval (route_score resources hints o)) o device] else [])
      end).

Definition contribution (o : TransportRouteOption) : list RouteKey * list EligibleRoute :=
  match verdict o with Ok v => v | Err _ => ([], []) end.

Lemma collect_step seen eligible o options :
  eval (collect_eligible protected intent resources hints seen eligible (o :: options))
  = match verdict o with
    | Err e => Err e
    | Ok (keys, routes) =>
        if existsb (λ k, existsb (λ k', bool_decide (k' = k)) seen) keys then Err ToDuplicateRoute
        else eval (collect_eligible protected intent resources hints (keys ++ seen)
                     (eligible ++ routes) options)
    end.
Proof.
  cbn [collect_eligible]. unfold verdict. rewrite eval_pure.
  destruct (map_err ToProtocol _) as [[]|]; [|done]. cbn [mbind result_bind]. rewrite eval_pure.
  destruct (map_err _ (validate_endpoint_descriptor _)) as [[]|]; [|done].
  cbn [mbind result_bind]. rewrite (eval_ebind _ _ _ (option_binding_sound protected intent o)).
  destruct (eval (option_binding protected intent o)) as [[device|]|]; cbn [mbind result_bind];
    [|by rewrite app_nil_r|done].
  rewrite eval_pure. cbn [existsb]. rewrite orb_false_r.
  destruct (existsb _ seen); [done|]. cbn [reject_if].
  rewrite (eval_run_prog _ _ _ (option_is_eligible_sound intent o)).
  destruct (eval (option_is_eligible intent o)); [|by rewrite app_nil_r].
  rewrite (eval_run_prog (route_score resources hints o) _ (λ _, True)); [done|by split].
Qed.

Lemma collect_eval options seen eligible l :
  eval (collect_eligible protected intent resources hints seen eligible options) = Ok l ↔
  Forall (λ o, is_ok (verdict o) = true) options
  ∧ NoDup (flat_map (fst ∘ contribution) options)
  ∧ Forall (λ k, k ∉ seen) (flat_map (fst ∘ contribution) options)
  ∧ l = eligible ++ flat_map (snd ∘ contribution) options.
Proof.
  revert seen eligible. induction options as [|o options IH]; intros seen eligible.
  { cbn. rewrite app_nil_r. split; [intros [= <-]; repeat constructor|naive_solver]. }
  rewrite collect_step, Forall_cons. cbn [flat_map]. unfold contribution at 1 3 5. cbn [compose].
  destruct (verdict o) as [[keys routes]|e] eqn:Ev; [|naive_solver].
  assert (keys = [] ∨ ∃ k, keys = [k]) as Hkeys.
  { unfold verdict in Ev. res_inv. repeat case_match; simplify_eq; eauto. }
  cbn [fst snd]. rewrite app_assoc. destruct Hkeys as [->|[k ->]]; cbn [existsb app].
  - rewrite IH. naive_solver.
  - rewrite orb_false_r, NoDup_cons, Forall_cons. destruct (existsb _ seen) eqn:Ed; bool_norm.
    + apply Exists_exists in Ed as (k' & Hk' & ->%bool_decide_eq_true). naive_solver.
    + rewrite IH. rewrite Forall_forall in Ed.
      assert (k ∉ seen) as Hk.
      { intros Hk. apply Ed in Hk. by apply bool_decide_eq_false in Hk. }
      rewrite !Forall_forall. set_solver.
Qed.
End options.

(** The part of planning after the options have been classified. *)
Definition finish_plan (protected : bool) (intent : CommunicationIntent)
    (hints : list TransportRoutingHint) (eligible : list EligibleRoute) :
    result TransportOrchestratorError TransportPlan :=
  reject_if (bool_decide (length eligible = 0)) ToNoEligibleRoute ;;
  ranked ← rank_routes 0 (sort_by (eligible_cmp intent hints) eligible);
  Ok (mk_plan (plan_binding intent protected) ranked).

Lemma finish_plan_perm protected intent hints l l' :
  l ≡ₚ l' → NoDup (eligible_key <$> l) →
  finish_plan protected intent hints l = finish_plan protected intent hints l'.
Proof.
  intros Hp Hnd. unfold finish_plan. rewrite !sort_eligible.
  rewrite (sort_by_Permutation (rank_key intent hints) rank_cmp l l'); [|done|by apply rank_key_NoDup].
  assert (length l = length l') as -> by by rewrite Hp. done.
Qed.

Lemma collect_all_sound protected intent resources hints options :
  always (collect_eligible protected intent resources hints [] [] options) (λ r,
    ∀ l, r = Ok l → NoDup (eligible_key <$> l)).
Proof.
  eapply safe_mono; [|apply (collect_eligible_sound protected intent resources hints options)].
  - intros [] r Hr l Hl. by destruct (Hr l Hl) as (_ & ? & _).
  - done.
  - constructor.
  - constructor.
  - by intros k Hk%elem_of_nil.
Qed.

Lemma collect_perm protected intent resources hints options options' l :
  options ≡ₚ options' →
  eval (collect_eligible protected intent resources hints [] [] options) = Ok l →
  ∃ l', eval (collect_eligible protected intent resources hints [] [] options') = Ok l'
        ∧ l ≡ₚ l' ∧ NoDup (eligible_key <$> l).
Proof.
  intros Hp Hl.
  pose proof (proj2 (run_external _ _ (collect_all_sound protected intent resources hints options))
    l Hl) as Hnd.
  apply collect_eval in Hl as (H1 & H2 & H3 & ->).
  set (f := contribution protected intent resources hints) in *.
  pose proof (Permutation_flat_map (fst ∘ f) Hp) as Hk.
  pose proof (Permutation_flat_map (snd ∘ f) Hp) as Hr.
  exists (flat_map (snd ∘ f) options'). split_and!; [|done..].
  apply collect_eval. fold f. split_and!; [by eapply Permutation_Forall|..|done].
  - by rewrite <- Hk.
  - by eapply Permutation_Forall.
Qed.

Lemma eval_plan protected intent resources hints options :
  eval (plan_internal protected intent resources hints options) =
  match map_err ToIntent (canonical_communication_intent intent) with
  | Err e => Err e
  | Ok canonical =>
      map_err ToProtocol (validate_transport_resource_snapshot resources) ;;
      map_err ToProtocol
        (validate_transport_priority_class (ic_priority_class (ci_constraints canonical))) ;;
      hints ← map_err ToProtocol (canonical_transport_routing_hints hints);
      map_err (λ _, ToTooManyRoutes) (validate_transport_route_candidate_count (len options)) ;;
      match (answer _ (EvaluateIntent canonical) tt).2 with
      | PdAllow => Ok tt
      | PdDeny => Err ToPolicyDenied
      | PdPendingNoAllowedRoute => Err ToPolicyPending
      end ;;
      eligible ← eval (collect_eligible protected canonical resources hints [] [] options);
      finish_plan protected canonical hints eligible
  end.
Proof.
  unfold plan_internal. rewrite eval_pure. destruct (map_err ToIntent _) as [canonical|]; [|done].
  do 2 (rewrite eval_pure; destruct (map_err ToProtocol _) as [[]|]; [cbn [mbind result_bind]|done]).
  rewrite eval_pure. destruct (map_err ToProtocol _) as [hints'|]; [|done].
  cbn [mbind result_bind]. rewrite eval_pure. destruct (map_err _ _) as [[]|]; [|done].
  cbn [mbind result_bind]. rewrite eval_asks.
  generalize ((answer _ (EvaluateIntent canonical) tt).2). intros decision.
  rewrite eval_pure. destruct (match decision with PdAllow => _ | _ => _ end) as [[]|]; [|done].
  cbn [mbind result_bind]. rewrite (eval_ebind _ _ _ (collect_all_sound protected canonical
    resources hints' options)).
  destruct (eval (collect_eligible _ _ _ _ _ _ _)) as [l|]; [|done]. cbn [mbind result_bind].
  unfold finish_plan. rewrite eval_pure. destruct (reject_if _ _) as [[]|]; [|done].
  cbn [mbind result_bind]. rewrite eval_pure. by destruct (rank_routes _ _).
Qed.
End deterministic.

(** * Properties *)

(** Whatever the providers, the policy and the device store answer, a plan binds the
    canonical intent, lists between one and sixty-four distinct routes ranked one, two,
    three and so on in strictly increasing lexicographic order of score, and every
    planned route is one of the offered options that reaches the target identity's
    endpoint and satisfies the intent's capability, privacy, region and cost
    constraints; hints and telemetry only order, they never admit.  In protected mode a
    device endpoint is planned only with the device its lifecycle was checked for. *)
Theorem plan_admits_only_constrained_routes (protected : bool) (intent : CommunicationIntent)
    (resources : TransportResourceSnapshot) (hints : list TransportRoutingHint)
    (options : list TransportRouteOption) (tr : list (observation command)) (plan : TransportPlan)
    (Hplan : behaves (plan_internal protected intent resources hints options) tr (Ok plan)) :
  ∃ canonical hints' l,
    canonical_communication_intent intent = Ok canonical
    ∧ canonical_transport_routing_hints hints = Ok hints'
    ∧ plan_sound protected canonical hints' options plan l.
Proof.
  by apply (safe_behaves _ _ _ _ _ (plan_internal_sound protected intent resources hints options) Hplan).
Qed.

(** While the environment's answers do not change, the plan does not depend on the
    order in which the routes were discovered: every reordering of the options gives
    the same plan. *)
Theorem plan_is_order_insensitive `{Sha256} `{!Environment unit} (s : MemoryState)
    (protected : bool) (intent : CommunicationIntent) (resources : TransportResourceSnapshot)
    (hints : list TransportRoutingHint) (options options' : list TransportRouteOption)
    (plan : TransportPlan) (Hperm : options ≡ₚ options')
    (Hplan : (run (plan_internal protected intent resources hints options) (tt, s)).2 = Ok plan) :
  (run (plan_internal protected intent resources hints options') (tt, s)).2 = Ok plan.
Proof.
  fold (eval s (plan_internal protected intent resources hints options)) in Hplan.
  fold (eval s (plan_internal protected intent resources hints options')).
  revert Hplan. rewrite !eval_plan, <- (len_perm options options' Hperm).
  destruct (map_err ToIntent _) as [canonical|]; [|done].
  destruct (validate_transport_resource_snapshot resources); cbn [map_err mbind result_bind]; [|done].
  destruct (validate_transport_priority_class _); cbn [map_err mbind result_bind]; [|done].
  destruct (canonical_transport_routing_hints hints) as [hints'|];
    cbn [map_err mbind result_bind]; [|done].
  destruct (validate_transport_route_candidate_count _); cbn [map_err mbind result_bind]; [|done].
  destruct (match (answer _ _ tt).2 with PdAllow => _ | _ => _ end) as [[]|];
    cbn [mbind result_bind]; [|done].
  destruct (eval s (collect_eligible _ _ _ _ _ _ options)) as [l|] eqn:Hl;
    cbn [mbind result_bind]; [|done].
  destruct (collect_perm s protected canonical resources hints' options options' l Hperm Hl)
    as (l' & -> & Hp & Hnd).
  by rewrite (finish_plan_perm protected canonical hints' l l').
Qed.

(** * Witnesses *)

(** An environment in which every provider is healthy and accepts. *)
Definition friendly : Environment unit := λ B c w,
  match c in external_call B return unit * B with
  | Health _ => (w, ThHealthy)
  | Capabilities _ => (w, relay_capabilities)
  | Transmit _ _ _ _ => (w, Ok tt)
  | TransmitClassified _ _ _ _ => (w, Ok tt)
  | EvaluateIntent _ => (w, PdAllow)
  | LookupDevice _ _ => (w, Ok None)
  | NowUnixMs => (w, 2000%Z)
  | FillRandom => (w, Some (replicate 16 7%Z))
  end.

Definition bob_route (endpoint : OpaqueId) (rtt : Z) : TransportRouteOption :=
  mk_option 0 (relay_route endpoint)
    (mk_endpoint endpoint EkPersonalNode (Some (oid "bob-id")) None relay_capabilities
       [mk_address (str "ucr.tcp") (str "10.0.0.1:7")])
    (mk_telemetry 1000 0 1 rtt 1 1 9000 true None None).
Definition bob_option : TransportRouteOption := bob_route (oid "e1") 1.
Definition bob_detour : TransportRouteOption := bob_route (oid "e2") 40.

Definition idle_resources : TransportResourceSnapshot := mk_resources 50 true MtNominal.

Definition bob_plan : TransportPlan :=
  mk_plan (plan_binding relay_intent false)
    [relay_planned 0 (oid "e1") 1; relay_planned 0 (oid "e2") 2].

(** The slower route is discovered first and ranked second. *)
Definition bob_trace : list (observation command) :=
  [Observed (External (EvaluateIntent relay_intent)) PdAllow;
   Observed (External (Health 0)) ThHealthy;
   Observed (External (Capabilities 0)) relay_capabilities;
   Observed (External (Health 0)) ThHealthy;
   Observed (External (Health 0)) ThHealthy;
   Observed (External (Capabilities 0)) relay_capabilities;
   Observed (External (Health 0)) ThHealthy].

Lemma plan_admits_only_constrained_routes_witness :
  ∃ canonical hints' l,
    canonical_communication_intent relay_intent = Ok canonical
    ∧ canonical_transport_routing_hints [] = Ok hints'
    ∧ plan_sound false canonical hints' [bob_detour; bob_option] bob_plan l.
Proof.
  apply (plan_admits_only_constrained_routes false relay_intent idle_resources []
           [bob_detour; bob_option] bob_trace).
  repeat first [eapply behaves_call | apply behaves_ret].
Defined.

#[local] Existing Instance toy_digest.
#[local] Existing Instance friendly.

Lemma plan_is_order_insensitive_witness :
  (run (plan_internal false relay_intent idle_resources [] [bob_option; bob_detour])
     (tt, empty_memory)).2 = Ok bob_plan.
Proof.
  apply (plan_is_order_insensitive empty_memory false relay_intent idle_resources []
           [bob_detour; bob_option]); [constructor|].
  vm_compute. reflexivity.
Defined.
