(* ===== verification/StoreForwardRuntime.v ===== *)
(** The sender-side store-and-forward worker (crates/ucr-store-forward/src/lib.rs). *)

From S2P Require Import Prelude Ids Framing Extension Capability Message Delivery.
From S2P Require Import StoreForward Sync Store StoreForwardStore Endpoint Interaction Program Orchestrator.
From S2P Require Import Failover.

Definition STORE_FORWARD_INTERNET_CAPABILITY : bytes := str "ucr.transport.internet.tcp".
Definition STORE_FORWARD_LOCAL_CAPABILITY : bytes := str "ucr.transport.local.tcp".

Inductive StoreForwardRuntimeError :=
| ReStore (e : DurableStoreError) | ReProtocol (e : StoreForwardError)
| ReIdGeneration (e : IdGenerationError) | ReMissingJob | ReMissingIntent | ReMissingMessage
| ReUnsupportedDeliveryPolicy | ReOrchestrator (e : TransportOrchestratorError).

Abbreviation runtime_prog A := (eprog StoreForwardRuntimeError A).
Abbreviation store c := (durable ReStore c).

Definition generate_opaque_id : eprog IdGenerationError OpaqueId :=
  filled ← asks FillRandom;
  random ← pure (ok_or filled IgOsRandomUnavailable);
  pure (map_err (λ _, IgInternalEncoding) (encode_native_opaque_id random)).

Definition validate_delivery_policy (message : MessageEnvelope) (job : StoreForwardJob) :
    result StoreForwardRuntimeError unit :=
  reject_if (negb (bool_decide (me_delivery_state message = DsPersisted))
             || bool_decide (me_delivery_policy message = DpBestEffort))
    ReUnsupportedDeliveryPolicy ;;
  reject_if (bool_decide (me_delivery_policy message = DpExpiring)
             && bool_decide (expires_at_unix_ms (job_policy job) = None)) ReUnsupportedDeliveryPolicy.

Definition enqueue_canonical_job (job : StoreForwardJob) : runtime_prog DurableRecordStatus :=
  pure (map_err ReProtocol (validate_store_forward_job job)) ;;
  pure (reject_if (negb (job_attempts_used job =? 0)%Z
                   || negb (bool_decide (job_last_delivery_id job = None)))
          (ReProtocol SfInvalidAttemptState)) ;;
  found ← store (GetIntent (job_scope job) (job_intent_id job));
  intent ← pure (ok_or found ReMissingIntent);
  found ← store (GetMessage (job_scope job) (job_message_id job));
  message ← pure (ok_or found ReMissingMessage);
  pure (validate_delivery_policy message job) ;;
  pure (reject_if (negb (bool_decide (ci_scope intent = job_scope job))
                   || negb (bool_decide (me_scope message = job_scope job)))
          (ReStore StInvalidRecord)) ;;
  store (PersistJob job).

Definition load_canonical_job (scope : TenantScope) (id : StoreForwardId) :
    runtime_prog (option StoreForwardJob) :=
  job ← store (GetJob scope id);
  pure (match job with
        | Some value => map_err ReProtocol (validate_store_forward_job value)
        | None => Ok tt
        end) ;;
  mret job.

Definition last_attempt (job : StoreForwardJob) : runtime_prog (option DeliveryAttempt) :=
  match job_last_delivery_id job with
  | Some delivery_id =>
      found ← store (GetAttempt (job_scope job) delivery_id);
      attempt ← pure (ok_or found (ReStore StCorrupt));
      mret (Some attempt)
  | None => mret None
  end.

Definition claim (job : StoreForwardJob) (now : Z) : runtime_prog (option StoreForwardLease) :=
  lease_id ← eprog_map_err ReIdGeneration generate_opaque_id;
  lease_ms ← pure (ok_or (i64_try_from (lease_duration_ms (job_policy job)))
                     (ReStore StInvalidRecord));
  lease_until ← pure (ok_or (checked_add_i64 now lease_ms) (ReStore StInvalidRecord));
  store (ClaimJob (job_scope job) (job_id job) lease_id now lease_until).

Definition finish_existing (job : StoreForwardJob) (now : Z) (outcome : StoreForwardOutcome) :
    runtime_prog StoreForwardOutcome :=
  if (now <? job_next_attempt_at job)%Z then mret SoNotDue
  else
    lease ← claim job now;
    match lease with
    | Some lease => store (CompleteJob lease now) ;; mret outcome
    | None => mret SoBusy
    end.

Definition expire_existing (job : StoreForwardJob) (last : option DeliveryAttempt) (now : Z) :
    runtime_prog StoreForwardOutcome :=
  lease ← claim job now;
  match lease with
  | None => mret SoBusy
  | Some lease =>
      match last with
      | Some attempt =>
          match da_state attempt with
          | DsRead | DsFailed | DsExpired => mret tt
          | state => store (Transition (da_scope attempt) (da_delivery_id attempt) state DsExpired None)
                     ;; mret tt
          end
      | None => mret tt
      end ;;
      store (CompleteJob lease now) ;;
      mret SoExpired
  end.

Definition expired_at (policy : StoreForwardPolicy) (now : Z) : bool :=
  match expires_at_unix_ms policy with Some expiry => (expiry <=? now)%Z | None => false end.

Definition in_state (last : option DeliveryAttempt) (states : list DeliveryState) : bool :=
  match last with
  | Some attempt => existsb (λ st, bool_decide (st = da_state attempt)) states
  | None => false
  end.

Definition resolve_existing_state (job : StoreForwardJob) (last : option DeliveryAttempt) (now : Z) :
    runtime_prog (option StoreForwardOutcome) :=
  if in_state last [DsInFlight] then mret (Some SoAcceptanceUnknown)
  else if in_state last [DsAcknowledged; DsDelivered; DsRead] then
    outcome ← finish_existing job now SoAcceptedByTransport; mret (Some outcome)
  else if expired_at (job_policy job) now then
    outcome ← expire_existing job last now; mret (Some outcome)
  else if in_state last [DsExpired] then
    outcome ← finish_existing job now SoExpired; mret (Some outcome)
  else if in_state last [DsFailed]
          && (max_delivery_attempts (job_policy job) <=? job_attempts_used job)%Z then
    outcome ← finish_existing job now SoAttemptsExhausted; mret (Some outcome)
  else mret (if (now <? job_next_attempt_at job)%Z then Some SoNotDue else None).

Definition load_job_owners (job : StoreForwardJob) :
    runtime_prog (CommunicationIntent * MessageEnvelope) :=
  found ← store (GetIntent (job_scope job) (job_intent_id job));
  intent ← pure (ok_or found ReMissingIntent);
  found ← store (GetMessage (job_scope job) (job_message_id job));
  message ← pure (ok_or found ReMissingMessage);
  pure (validate_delivery_policy message job) ;;
  mret (intent, message).

Definition direct_option (policy : DeliveryPolicy) (option : TransportRouteOption) : bool :=
  let capability := rc_transport_capability (ro_route option) in
  let is_local := bool_decide (capability = STORE_FORWARD_LOCAL_CAPABILITY) in
  let is_direct := is_local || bool_decide (capability = STORE_FORWARD_INTERNET_CAPABILITY) in
  match policy with
  | DpLocalOnly | DpPrivateNetworkOnly => is_local
  | DpBestEffort => false
  | DpDurable | DpUrgent | DpExpiring | DpDirectOnly | DpNoRelay | DpNoExternalBridge => is_direct
  end.

Definition filter_direct_options (policy : DeliveryPolicy) (options : list TransportRouteOption) :
    list TransportRouteOption :=
  List.filter (direct_option policy) options.

Definition reschedule_no_route (lease : StoreForwardLease) (now : Z) :
    runtime_prog StoreForwardOutcome :=
  let backoff_ordinal := Z.max (job_attempts_used (lease_job lease)) 1 in
  next ← pure (map_err ReProtocol
                 (store_forward_next_attempt_at now (job_policy (lease_job lease)) backoff_ordinal));
  store (Reschedule lease next now) ;;
  mret SoRescheduledNoRoute.

(** * One delivery attempt *)

Section runtime.
Context `{Sha256}.

Definition create_retry_attempt (lease : StoreForwardLease) : runtime_prog (DeliveryAttempt * Z) :=
  let job := lease_job lease in
  let ordinal := saturating_add_u16 (job_attempts_used job) 1 in
  pure (reject_if ((ordinal =? 0)%Z || (max_delivery_attempts (job_policy job) <? ordinal)%Z)
          (ReProtocol SfInvalidAttemptState)) ;;
  let delivery_id := store_forward_delivery_id (job_scope job) (job_id job) ordinal in
  let attempt := mk_attempt delivery_id (job_scope job) (job_message_id job) DsPersisted in
  let evidence := mk_evidence delivery_id (job_scope job) (job_message_id job) EkPersistedLocal 1 in
  store (CreateAttempt attempt evidence) ;;
  now ← asks NowUnixMs;
  store (RecordAttempt lease delivery_id ordinal now) ;;
  mret (attempt, ordinal).

(** One transition of the attempt, and the attempt with its new state. *)
Definition advance (attempt : DeliveryAttempt) (from to : DeliveryState) :
    runtime_prog DeliveryAttempt :=
  store (Transition (da_scope attempt) (da_delivery_id attempt) from to None) ;;
  mret (set_attempt_state to attempt).

Definition normalize_pre_route_attempt (attempt : DeliveryAttempt) : runtime_prog DeliveryAttempt :=
  attempt ← (if bool_decide (da_state attempt = DsPersisted)
             then advance attempt DsPersisted DsEncrypted else mret attempt);
  attempt ← (if bool_decide (da_state attempt = DsEncrypted)
             then advance attempt DsEncrypted DsQueued else mret attempt);
  pure (reject_if (negb (bool_decide (da_state attempt = DsQueued)
                         || bool_decide (da_state attempt = DsRoutePlanned)))
          (ReStore StConflict)) ;;
  mret attempt.

Record PreparedAttempt := mk_prepared {
  pa_attempt : DeliveryAttempt;
  pa_attempts_used : Z; (* u16 *)
}.

Definition prepare_attempt (job : StoreForwardJob) (lease : StoreForwardLease)
    (last : option DeliveryAttempt) : runtime_prog PreparedAttempt :=
  start ← match last with
          | Some attempt =>
              if negb (bool_decide (da_state attempt = DsFailed))
              then mret (attempt, job_attempts_used job) else create_retry_attempt lease
          | None => create_retry_attempt lease
          end;
  attempt ← normalize_pre_route_attempt start.1;
  attempt ← (if bool_decide (da_state attempt = DsQueued)
             then advance attempt DsQueued DsRoutePlanned else mret attempt);
  attempt ← advance attempt DsRoutePlanned DsInFlight;
  mret (mk_prepared attempt start.2).

Definition accept_attempt (lease : StoreForwardLease) (attempt : DeliveryAttempt) (now : Z) :
    runtime_prog StoreForwardOutcome :=
  let evidence := mk_evidence (da_delivery_id attempt) (da_scope attempt) (da_message_id attempt)
                    EkAcceptedByTransport 2 in
  store (Transition (da_scope attempt) (da_delivery_id attempt) DsInFlight DsAcknowledged
           (Some evidence)) ;;
  store (CompleteJob lease now) ;;
  mret SoAcceptedByTransport.

Definition fail_attempt (job : StoreForwardJob) (lease : StoreForwardLease)
    (attempt : DeliveryAttempt) (attempts_used now : Z) : runtime_prog StoreForwardOutcome :=
  store (Transition (da_scope attempt) (da_delivery_id attempt) DsInFlight DsFailed None) ;;
  if (max_delivery_attempts (job_policy job) <=? attempts_used)%Z then
    store (CompleteJob lease now) ;; mret SoAttemptsExhausted
  else if expired_at (job_policy job) now then
    store (CompleteJob lease now) ;; mret SoExpired
  else
    next ← pure (map_err ReProtocol
                   (store_forward_next_attempt_at now (job_policy job) (Z.max attempts_used 1)));
    store (Reschedule lease next now) ;;
    mret SoRescheduledAfterFailure.

Definition execute_attempt (protected : bool) (job : StoreForwardJob) (lease : StoreForwardLease)
    (intent : CommunicationIntent) (plan : TransportPlan) (prepared : PreparedAttempt) (now : Z) :
    runtime_prog StoreForwardOutcome :=
  let failover := mk_failover_policy 1 (expires_at_unix_ms (job_policy job)) in
  outcome ← run_prog (transmit_with_failover_inner protected intent plan
                        (job_encrypted_envelope job) failover);
  match outcome with
  | Ok _ => accept_attempt lease (pa_attempt prepared) now
  | Err error =>
      if bool_decide (fd_stop_reason (fe_decision error) = FsAcceptanceUnknown)
      then mret SoAcceptanceUnknown
      else fail_attempt job lease (pa_attempt prepared) (pa_attempts_used prepared) now
  end.

Definition process_one (protected : bool) (scope : TenantScope) (id : StoreForwardId)
    (resources : TransportResourceSnapshot) (hints : list TransportRoutingHint)
    (options : list TransportRouteOption) : runtime_prog StoreForwardOutcome :=
  now ← asks NowUnixMs;
  found ← load_canonical_job scope id;
  job ← pure (ok_or found ReMissingJob);
  last ← last_attempt job;
  resolved ← resolve_existing_state job last now;
  match resolved with
  | Some outcome => mret outcome
  | None =>
      claimed ← claim job now;
      match claimed with
      | None => mret SoBusy
      | Some lease =>
          owners ← load_job_owners job;
          let '(intent, message) := owners in
          let filtered := filter_direct_options (me_delivery_policy message) options in
          planned ← run_prog (plan_internal protected intent resources hints filtered);
          match planned with
          | Ok plan =>
              prepared ← prepare_attempt job lease last;
              execute_attempt protected job lease intent plan prepared now
          | Err (ToNoEligibleRoute | ToPolicyDenied | ToPolicyPending) =>
              reschedule_no_route lease now
          | Err error => pure (Err (ReOrchestrator error))
          end
      end
  end.

(** [StoreForwardRuntime::due_jobs]. *)
Definition due_jobs (scope : TenantScope) (max_items : nat) :
    runtime_prog (list StoreForwardId) :=
  now ← asks NowUnixMs;
  store (DueJobs scope now max_items).
End runtime.
