(* ===== verification/ForwardSafety.v ===== *)
(** Many store-and-forward workers over one store, interleaved call by call: a delivery
    is handed to a provider at most once, and it is settled as failed or acknowledged
    only on the provider's own evidence. *)

From S2P Require Import Prelude Ids Framing Extension Capability Message Delivery.
From S2P Require Import StoreForward Sync Store StoreForwardStore StoreSpec StoreDelivery.
From S2P Require Import Endpoint Program Orchestrator Failover Interaction FailoverTheorems.
From S2P Require Import OrchestratorTheorems StoreForwardRuntime StoreForwardTheorems.

(** * What a worker does to deliveries *)

Inductive flight_event :=
| EvTook (k : RecordKey)                                     (* put in flight *)
| EvInvoked (answer : result ClassifiedTransportFailure unit) (* a provider invocation *)
| EvSettled (k : RecordKey) (to : DeliveryState).            (* moved out of flight *)

(** [transmit_classified]'s default reading of a plain [transmit] error. *)
Definition unclassified (r : result CanonicalTransportError unit) :
    result ClassifiedTransportFailure unit :=
  map_err (λ e, mk_failure e TdAcceptanceUnknown) r.

Definition transition_events (k : RecordKey) (from to : DeliveryState)
    (r : result DurableStoreError DurableRecordStatus) : list flight_event :=
  if is_ok r then
    if bool_decide (to = DsInFlight) then [EvTook k]
    else if bool_decide (from = DsInFlight) then [EvSettled k to] else []
  else [].

Definition durable_events {B} (c : durable_call B) : result DurableStoreError B → list flight_event :=
  match c with
  | Transition scope id from to _ => transition_events (record_key scope id) from to
  | _ => λ _, []
  end.

Definition external_events {B} (c : external_call B) : B → list flight_event :=
  match c with
  | Transmit _ _ _ _ => λ b, [EvInvoked (unclassified b)]
  | TransmitClassified _ _ _ _ => λ b, [EvInvoked b]
  | _ => λ _, []
  end.

Definition flight_events {B} (c : command B) : B → list flight_event :=
  match c with
  | External c => external_events c
  | Durable c => durable_events c
  end.

(** The only sequences of events a worker may produce. *)
Inductive flight_trace : list flight_event → Prop :=
| ft_idle : flight_trace []
| ft_took k : flight_trace [EvTook k]
| ft_invoked k a : flight_trace [EvTook k; EvInvoked a]
| ft_unsent k : flight_trace [EvTook k; EvSettled k DsFailed]
| ft_failed k f :
    cf_disposition f = TdNotAccepted →
    flight_trace [EvTook k; EvInvoked (Err f); EvSettled k DsFailed]
| ft_acknowledged k : flight_trace [EvTook k; EvInvoked (Ok tt); EvSettled k DsAcknowledged].

#[global] Instance flight_monitor : Monitor command (list flight_event) :=
  trace_monitor (λ B, flight_events) flight_trace.

(** * The worker respects the discipline *)

Lemma silent_transition scope id from to e :
  to ≠ DsInFlight → from ≠ DsInFlight → silent (Durable (Transition scope id from to e)).
Proof.
  intros Ht Hf. apply silent_events. intros b. cbn. unfold transition_events.
  rewrite !bool_decide_eq_false_2 by done. by destruct (is_ok b).
Qed.

Ltac silent_flight := first [by apply silent_events | by apply silent_transition].
Ltac quiet_flight := quiet_tac ltac:(silent_flight).

Abbreviation quiet := (@quiet command (list flight_event) flight_monitor _).

Lemma quiet_claim job now : quiet (claim job now).
Proof. unfold claim, generate_opaque_id, eprog_map_err. quiet_flight. Qed.

Lemma quiet_finish job now outcome : quiet (finish_existing job now outcome).
Proof.
  unfold finish_existing. destruct (_ <? _)%Z; [apply quiet_ret|].
  apply quiet_ebind; [apply quiet_claim|]. quiet_flight.
Qed.

Lemma quiet_expire job last now :
  in_state last [DsInFlight] = false → quiet (expire_existing job last now).
Proof.
  intros Hl. unfold expire_existing. apply quiet_ebind; [apply quiet_claim|].
  intros [lease|]; [|apply quiet_ret]. apply quiet_ebind; [|intros; quiet_flight].
  destruct last as [[]|]; [|apply quiet_ret]. cbn in *.
  destruct da_state; first [discriminate Hl|quiet_flight].
Qed.

Lemma quiet_resolve job last now : quiet (resolve_existing_state job last now).
Proof.
  unfold resolve_existing_state. destruct (in_state last [DsInFlight]) eqn:Hf; [apply quiet_ret|].
  repeat (case_match; [apply quiet_ebind; [by first [apply quiet_finish|apply quiet_expire]|];
    intros; apply quiet_ret|]). apply quiet_ret.
Qed.

Lemma quiet_owners job : quiet (load_job_owners job).
Proof. unfold load_job_owners. quiet_flight. Qed.

Lemma quiet_load scope id : quiet (load_canonical_job scope id).
Proof. unfold load_canonical_job. quiet_flight. Qed.

Lemma quiet_last job : quiet (last_attempt job).
Proof. unfold last_attempt. destruct (job_last_delivery_id job); quiet_flight. Qed.

Lemma quiet_reschedule lease now : quiet (reschedule_no_route lease now).
Proof. unfold reschedule_no_route. quiet_flight. Qed.

Lemma quiet_collect protected intent resources hints seen eligible options :
  quiet (collect_eligible protected intent resources hints seen eligible options).
Proof.
  revert seen eligible. induction options as [|o options IH]; intros seen eligible;
    cbn [collect_eligible]; [apply quiet_ret|].
  repeat (apply quiet_ebind; [apply quiet_ret|intros _]).
  apply quiet_ebind.
  { unfold option_binding, protected_device_option_binding. quiet_flight. }
  intros [device|]; [|apply IH]. apply quiet_ebind; [apply quiet_ret|intros _].
  apply quiet_ebind; [unfold option_is_eligible, run_prog; quiet_flight|].
  intros []; [|apply IH]. apply quiet_ebind; [unfold route_score, run_prog; quiet_flight|].
  intros score. apply IH.
Qed.

Lemma quiet_plan protected intent resources hints options :
  quiet (plan_internal protected intent resources hints options).
Proof.
  unfold plan_internal. repeat (apply quiet_ebind; [first [apply quiet_ret|apply quiet_collect|
    apply quiet_call; [silent_flight|intros; apply quiet_ret]]|intros ?]). apply quiet_ret.
Qed.

Section worker.
Context `{Sha256}.

Lemma quiet_advance attempt from to :
  to ≠ DsInFlight → from ≠ DsInFlight → quiet (advance attempt from to).
Proof. intros. unfold advance. quiet_flight. Qed.

Lemma quiet_create lease : quiet (create_retry_attempt lease).
Proof. unfold create_retry_attempt. quiet_flight. Qed.

Lemma quiet_normalize attempt : quiet (normalize_pre_route_attempt attempt).
Proof.
  unfold normalize_pre_route_attempt.
  apply quiet_ebind; [destruct (bool_decide _); [by apply quiet_advance|apply quiet_ret]|intros].
  apply quiet_ebind; [destruct (bool_decide _); [by apply quiet_advance|apply quiet_ret]|intros].
  quiet_flight.
Qed.

(** Preparing takes the attempt it returns, or takes nothing and fails. *)
Lemma prepare_safe job lease last :
  safe (prepare_attempt job lease last) [] (λ tr r,
    match r with
    | Ok p => tr = [EvTook (record_key (da_scope (pa_attempt p)) (da_delivery_id (pa_attempt p)))]
    | Err _ => flight_trace tr
    end).
Proof.
  unfold prepare_attempt.
  apply safe_quiet_ebind; [|intros; constructor|].
  { destruct last as [a|]; [destruct (negb _); [apply quiet_ret|]|]; apply quiet_create. }
  intros [attempt used]. apply safe_quiet_ebind; [apply quiet_normalize|intros; constructor|].
  intros a. apply safe_quiet_ebind; [|intros; constructor|].
  { destruct (bool_decide _); [by apply quiet_advance|apply quiet_ret]. }
  intros a'. unfold advance. cbn. split.
  - intros [] Hb; cbn in *; [constructor|done].
  - intros [st|e]; cbn; [done|constructor].
Qed.

Definition took_then (k : RecordKey) (log : list invocation) : list flight_event :=
  EvTook k :: (EvInvoked ∘ iv_answer <$> log).

(** The one execution of failover that an attempt authorises. *)
Lemma failover_flight k protected intent plan envelope expiry :
  let policy := mk_failover_policy 1 expiry in
  safe (transmit_with_failover_inner protected intent plan envelope policy) [EvTook k]
    (λ tr r, ∃ log, tr = took_then k log ∧ (len log ≤ 1)%Z ∧ justified log r).
Proof.
  intros policy. eapply safe_mono; last first.
  - apply (@safe_simulation _ _ _ (invocation_monitor policy) _ (λ log tr, tr = took_then k log) _
             _ [] _ (loop_post policy intent envelope [] (tp_ranked_routes plan)));
      [|done|by apply transmit_with_failover_safe].
    intros B c log tr ->. destruct c as [B c|B c]; [|done].
    destruct c; cbn; intros Hp; split; intros; try done; rewrite ?app_nil_r; try done.
    + destruct Hp as [_ Hlen]. destruct log; [constructor|unfold len in Hlen; cbn in Hlen; lia].
    + unfold took_then. by rewrite fmap_app.
  - intros tr r (log & -> & new & -> & _ & Hlen & Hj). eauto.
Qed.

(** Settling the attempt that was taken, on the evidence of the log. *)
Lemma settle_safe k tr to scope id e (f : DurableRecordStatus → runtime_prog StoreForwardOutcome) :
  k = record_key scope id → to ≠ DsInFlight → flight_trace (tr ++ [EvSettled k to]) → flight_trace tr →
  (∀ st, quiet (f st)) →
  safe (store (Transition scope id DsInFlight to e) ≫= f) tr (λ tr' _, flight_trace tr').
Proof.
  intros -> Hto Hset Htr Hf. cbn.
  assert (∀ b, transition_events (record_key scope id) DsInFlight to b
    = if is_ok b then [EvSettled (record_key scope id) to] else []) as Hev.
  { intros b. unfold transition_events. by rewrite (bool_decide_eq_false_2 (to = _)). }
  split.
  - intros b. rewrite Hev. by destruct b.
  - intros b. rewrite Hev. destruct b as [st|err]; cbn; [|by rewrite app_nil_r].
    apply quiet_safe; [apply Hf|done].
Qed.

Lemma execute_safe protected job lease intent plan prepared now k :
  k = record_key (da_scope (pa_attempt prepared)) (da_delivery_id (pa_attempt prepared)) →
  safe (execute_attempt protected job lease intent plan prepared now) [EvTook k]
    (λ tr _, flight_trace tr).
Proof.
  intros Hk. unfold execute_attempt, run_prog. apply safe_ebind, safe_bind.
  eapply safe_mono; [|apply failover_flight].
  intros tr r (log & -> & Hlen & Hj). cbn.
  assert (log = [] ∨ ∃ i, log = [i]) as Hlog.
  { destruct log as [|i [|]]; [by left|by right; eexists|unfold len in Hlen; cbn in Hlen; lia]. }
  destruct r as [d|e].
  - destruct Hj as (_ & before & i & -> & _ & Hi).
    destruct Hlog as [?%app_nil|(i' & Hlog)]; [naive_solver|].
    apply (app_inj_tail before []) in Hlog as [-> <-]. unfold accept_attempt.
    apply (settle_safe k); [done|done|cbn; rewrite Hi; constructor|cbn; constructor|].
    intros. quiet_flight.
  - cbn in Hj. case_decide as Hr.
    + rewrite bool_decide_eq_true_2 by done. cbn.
      destruct Hlog as [->|(i & ->)]; cbn; constructor.
    + rewrite bool_decide_eq_false_2 by done. unfold fail_attempt.
      destruct Hlog as [->|(i & ->)].
      * apply (settle_safe k); [done|done|constructor|constructor|]. intros. quiet_flight.
      * apply Forall_singleton in Hj as (f & Hf & Hd).
        apply (settle_safe k); [done|done|cbn; rewrite Hf; by constructor|constructor|].
        intros. quiet_flight.
Qed.

Lemma process_one_safe protected scope id resources hints options :
  safe (process_one protected scope id resources hints options) [] (λ tr _, flight_trace tr).
Proof.
  unfold process_one.
  apply safe_quiet_ebind; [quiet_flight|intros; constructor|]. intros now.
  apply safe_quiet_ebind; [apply quiet_load|intros; constructor|]. intros found.
  apply safe_quiet_ebind; [apply quiet_ret|intros; constructor|]. intros job.
  apply safe_quiet_ebind; [apply quiet_last|intros; constructor|]. intros last.
  apply safe_quiet_ebind; [apply quiet_resolve|intros; constructor|].
  intros [outcome|]; [constructor|].
  apply safe_quiet_ebind; [apply quiet_claim|intros; constructor|].
  intros [lease|]; [|constructor].
  apply safe_quiet_ebind; [apply quiet_owners|intros; constructor|]. intros [intent message].
  apply safe_quiet_ebind; [apply quiet_bind; [apply quiet_plan|intros; apply quiet_ret]|
    intros; constructor|].
  intros [plan|e].
  - apply safe_ebind. eapply safe_mono; [|apply prepare_safe].
    intros tr [prepared|e] Htr; [subst tr; by apply execute_safe|done].
  - destruct e; try constructor; (apply quiet_safe; [apply quiet_reschedule|intros; constructor]).
Qed.
End worker.

(** * Workers over a shared store *)

Section system.
Context `{Sha256}.

(** The environment answers external calls arbitrarily; store calls run on the store. *)
#[global] Instance forward_interface : Interface command MemoryState flight_event := {|
  reacts B c := match c in command B return MemoryState → MemoryState → B → Prop with
                | External c => λ s s' b, s' = s
                | Durable c => λ s s' r, exec_durable c s = (s', r)
                end;
  events _ c b := flight_events c b;
|}.

Abbreviation forward_worker :=
  (worker command flight_event (result StoreForwardRuntimeError StoreForwardOutcome)).

(** Workers run [process_one] on any job with any routes. *)
Definition forwards (p : runtime_prog StoreForwardOutcome) : Prop :=
  ∃ protected scope id resources hints options,
    p = process_one protected scope id resources hints options.

(** Some other part of the runtime makes any call on the store. *)
Definition other_store_call (s s' : MemoryState) : Prop := ∃ c, s' = run_call c s.

Abbreviation forward_step := (step forwards other_store_call).

(** The deliveries a trace has put in flight. *)
Definition took (tr : list flight_event) : list RecordKey :=
  omap (λ e, match e with EvTook k => Some k | _ => None end) tr.

Definition taken (ws : list forward_worker) : list RecordKey := flat_map (took ∘ wk_trace) ws.

(** The delivery has been in flight. *)
Definition flown (s : MemoryState) (k : RecordKey) : Prop :=
  ∃ a, deliveries s !! k = Some a ∧ delivery_rank DsInFlight ≤ delivery_rank (da_state a).

Lemma effects_flown s s' k : rtc effect s s' → flown s k → flown s' k.
Proof.
  induction 1 as [s|s s1 s2 He _ IH]; [done|]. intros (a & Ha & Hr). apply IH.
  destruct (effect_delivery_progress _ _ _ _ He Ha) as (a1 & [Hk _ _ _ Hst _]).
  exists a1. split; [done|]. destruct Hst as [->|]; lia.
Qed.

Lemma transition_delivery_Ok scope id from to e s s' st :
  transition_delivery scope id from to e s = (s', Ok st) →
  (∃ a, deliveries s !! record_key scope id = Some a ∧ delivery_rank (da_state a) < delivery_rank to)
  ∧ ∃ a, deliveries s' !! record_key scope id = Some a ∧ da_state a = to.
Proof.
  unfold transition_delivery. intros Hok.
  repeat match goal with
  | H : (_ ≫= _) _ = (_, Ok _) |- _ => apply op_bind_Ok in H as (? & ? & ? & H)
  | H : get _ = (_, Ok _) |- _ => injection H as <- <-
  | H : put _ _ = (_, Ok _) |- _ => injection H as <- _
  | H : lift _ _ = (_, Ok _) |- _ => injection H as <- H
  | H : guard _ _ _ = (_, Ok _) |- _ => injection H as <- _
  | H : or_invalid _ _ = (_, Ok _) |- _ => injection H as <- H
  | H : mret _ _ = (_, Ok _) |- _ => injection H as <- _
  | H : ok_or _ _ = Ok _ |- _ => apply ok_or_Ok in H
  | H : map_err _ _ = Ok _ |- _ => apply map_err_Ok in H
  end.
  split.
  - eexists. split; [done|]. unfold validate_delivery_transition in *.
    destruct (can_transition_delivery _ _) eqn:Ec; [|done]. by apply can_transition_rank.
  - eexists. cbn. rewrite lookup_insert_eq. done.
Qed.

Lemma exec_durable_effects {B} (c : durable_call B) s : rtc effect s (exec_durable c s).1.
Proof.
  destruct c; cbn [exec_durable].
  1-4: apply rtc_refl.
  - unfold due_store_forward_jobs. op_cases; apply rtc_refl.
  - apply create_attempt_effect.
  - apply transition_effect.
  - apply enqueue_effect.
  - apply claim_effect.
  - apply record_attempt_effect.
  - apply reschedule_effect.
  - apply complete_effect.
Qed.

(** A call that puts a delivery in flight found it before flight, and left it flown. *)
Lemma durable_took {B} (c : durable_call B) s s' r k :
  exec_durable c s = (s', r) → k ∈ took (durable_events c r) → ¬ flown s k ∧ flown s' k.
Proof.
  intros He Hk. destruct c; cbn [durable_events exec_durable] in *; try (by apply elem_of_nil in Hk).
  unfold transition_events in Hk. destruct r as [st|]; cbn in Hk; [|by apply elem_of_nil in Hk].
  destruct (bool_decide (to = DsInFlight)) eqn:Eto; bool_norm; cycle 1.
  { destruct (bool_decide _); by apply elem_of_nil in Hk. }
  apply list_elem_of_singleton in Hk as ->.
  apply transition_delivery_Ok in He as ((a & Ha & Hlt) & (a' & Ha' & Hst)). rewrite Eto in *. split.
  - intros (a0 & Ha0 & Hr). rewrite Ha in Ha0. injection Ha0 as <-. lia.
  - exists a'. by rewrite Hst.
Qed.

Lemma took_at_most_one tr : flight_trace tr → took tr = [] ∨ ∃ k, took tr = [k].
Proof. destruct 1; cbn; eauto. Qed.

Record system_ok (sys : system command MemoryState flight_event _) : Prop := {
  so_workers : Forall (worker_ok (@events command MemoryState flight_event _) flight_trace)
                 (sys_workers sys);
  so_flown : Forall (flown (sys_store sys)) (taken (sys_workers sys));
  so_once : NoDup (taken (sys_workers sys));
}.

(** Advancing one worker by the events [ev]. *)
Lemma taken_insert ws i w w' ev :
  ws !! i = Some w → wk_trace w' = wk_trace w ++ ev →
  taken (<[i := w']> ws) ≡ₚ took ev ++ taken ws.
Proof.
  intros Hi Hw. rewrite <- (take_drop_middle ws i w Hi) at 2.
  rewrite insert_take_drop by (by eapply lookup_lt_Some). unfold taken.
  rewrite !flat_map_app. cbn. rewrite Hw. unfold took at 2. rewrite omap_app. fold (took (wk_trace w)).
  fold (took ev). solve_Permutation.
Qed.

(** A call marks as flown exactly the delivery it takes, which was not flown before. *)
Lemma call_took {B} (c : command B) s s' b :
  reacts c s s' b →
  (∀ k, flown s k → flown s' k)
  ∧ ∀ k, k ∈ took (flight_events c b) → ¬ flown s k ∧ flown s' k.
Proof.
  destruct c as [B c|B c]; cbn [reacts forward_interface flight_events].
  - intros ->. split; [done|]. intros k Hk.
    assert (took (external_events c b) = []) as Et by (by destruct c).
    rewrite Et in Hk. by apply elem_of_nil in Hk.
  - intros He. split; [|intros k; by apply durable_took].
    intros k. apply effects_flown. pose proof (exec_durable_effects c s) as Heff. by rewrite He in Heff.
Qed.

Lemma taken_once tr ev : flight_trace (tr ++ ev) → NoDup (took ev).
Proof.
  intros Htr. assert (NoDup (took (tr ++ ev))) as Hnd.
  { destruct (took_at_most_one _ Htr) as [->|[? ->]]; [constructor|apply NoDup_singleton]. }
  unfold took in Hnd. rewrite omap_app in Hnd. by apply NoDup_app in Hnd as (_ & _ & ?).
Qed.

Lemma step_system_ok sys sys' : forward_step sys sys' → system_ok sys → system_ok sys'.
Proof.
  intros Hstep [Hw Hf Hn].
  assert (Forall (worker_ok (@events command MemoryState flight_event _) flight_trace)
    (sys_workers sys')) as Hw'.
  { eapply step_workers_ok; [constructor| |exact Hstep|exact Hw].
    intros p (protected & scope & id & resources & hints & options & ->). apply process_one_safe. }
  destruct Hstep as [s ws log p Hp|s ws log i B c k tr s' b Hi Hc|s ws log s' [c ->]];
    cbn [sys_store sys_workers] in *.
  - assert (taken (ws ++ [mk_worker p []]) = taken ws) as E
      by (unfold taken; rewrite flat_map_app; apply app_nil_r).
    split; cbn [sys_store sys_workers]; rewrite ?E; done.
  - pose proof (taken_insert ws i _ (mk_worker (k b) (tr ++ events c b)) _ Hi eq_refl) as E.
    destruct (call_took c s s' b Hc) as [Hmono Htook].
    assert (NoDup (took (events c b))) as Hnd.
    { apply (taken_once tr). rewrite Forall_forall in Hw'.
      apply (Hw' (mk_worker (k b) (tr ++ events c b))).
      apply list_elem_of_lookup_2 with i, list_lookup_insert_eq. by eapply lookup_lt_Some. }
    rewrite Forall_forall in Hf. split; cbn [sys_store sys_workers]; rewrite ?E; [done| |].
    + apply Forall_app. split; apply Forall_forall; naive_solver.
    + apply NoDup_app. split_and!; [done| |done]. intros x Hx Hx'.
      destruct (Htook x Hx) as [Hno _]. by apply Hno, Hf.
  - split; cbn; [done| |done]. eapply Forall_impl; [exact Hf|]. intros x.
    apply effects_flown, run_call_effects.
Qed.

(** C1: any number of workers run [process_one] on any jobs and routes over one store,
    interleaved call by call with each other, with any other use of the store, and with
    crashes.  At every moment each worker has put at most one delivery in flight,
    invoked a provider at most once and only after that, reported the delivery failed
    only if no provider was invoked or the provider proved non-acceptance, and
    acknowledged only if the provider accepted; and no delivery has been put in flight
    by two workers, so every delivery identifier gets at most one provider invocation. *)
Theorem delivery_invokes_provider_at_most_once (s : MemoryState)
    (sys : system command MemoryState flight_event _)
    (Hreach : rtc forward_step (mk_system s [] []) sys) :
  Forall (λ w, flight_trace (wk_trace w)) (sys_workers sys)
  ∧ NoDup (taken (sys_workers sys)).
Proof.
  assert (system_ok sys) as [Hw _ Hn].
  { eapply (rtc_ind_r (λ sys, system_ok sys)); [| |exact Hreach].
    - split; cbn; constructor.
    - intros sys1 sys2 _ Hs Hok. by eapply step_system_ok. }
  split; [|done]. eapply Forall_impl; [exact Hw|]. by intros w [].
Qed.
End system.

(** * Witness *)

#[local] Existing Instance toy_digest.

Definition forward_hello : runtime_prog StoreForwardOutcome :=
  process_one false store_scope (oid "j1") (mk_resources 50 true MtNominal) [] [bob_option].

Definition hello_flight : RecordKey :=
  record_key store_scope (store_forward_delivery_id store_scope (oid "j1") 1).

Lemma delivery_invokes_provider_at_most_once_witness :
  let s := run_calls enqueue_calls empty_memory in
  let '(_, tr, a) := run_worker (λ B, exec (H0 := friendly)) forward_hello ((), s) [] in
  a = Ok SoAcceptedByTransport
  ∧ tr = [EvTook hello_flight; EvInvoked (Ok tt); EvSettled hello_flight DsAcknowledged]
  ∧ NoDup (taken [mk_worker (Ret a) tr]).
Proof.
  intros s.
  pose proof (run_worker_reaches forwards other_store_call (λ B, exec (H0 := friendly))
    forward_hello ((), s) [] [mk_worker forward_hello []] [] 0) as Hr.
  assert ((run_worker (λ B, exec (H0 := friendly)) forward_hello ((), s) []).2
    = Ok SoAcceptedByTransport) as Ea by (vm_compute; reflexivity).
  assert ((run_worker (λ B, exec (H0 := friendly)) forward_hello ((), s) []).1.2
    = [EvTook hello_flight; EvInvoked (Ok tt); EvSettled hello_flight DsAcknowledged]) as Et
    by (vm_compute; reflexivity).
  destruct (run_worker _ _ _ _) as [[[w s'] tr] a]. cbn [fst snd] in *. split_and!; [done..|].
  destruct Hr as (ev & _ & Hr); [|done|].
  { intros B [B' c|B' c] [w0 s0]; cbn; [by destruct (answer _ _ _)|by destruct (exec_durable _ _)]. }
  apply (delivery_invokes_provider_at_most_once s (mk_system s' [mk_worker (Ret a) tr] ([] ++ ev))).
  eapply rtc_l; [apply step_start; by repeat eexists|exact Hr].
Defined.
