(* ===== verification/Group.v ===== *)
(** Groups: ownership, membership, policies and the canonical transition
    (crates/ucr-model/src/group.rs, crates/ucr-protocol/src/group.rs). *)

From S2P Require Import Prelude Ids Framing Extension Message StoreForward.

Definition GROUP_MLS_CAPABILITY : bytes := str "ucr.group.mls".
Definition MAX_GROUP_MEMBERS : Z := 4096.
Definition MAX_GROUP_MEMBER_LIST : Z := 4096.
Definition MAX_GROUP_BRIDGE_MAPPINGS : Z := 32.
Definition MAX_EXTERNAL_GROUP_ID_LEN : Z := 4096.
Definition MAX_GROUP_HISTORY_MESSAGES : Z := 10000.
Definition GROUP_CHANGE_FINGERPRINT_V1_DOMAIN : bytes := str "UCR-GROUP-CHANGE-V1" ++ [0%Z].

(** * Data *)

Inductive GroupRole := GrOwner | GrAdmin | GrMember.
#[global] Instance GroupRole_eq_dec : EqDecision GroupRole.
Proof. solve_decision. Defined.

Inductive GroupPermission :=
| GpSendMessage | GpReadHistory | GpManageMembers | GpManageRoles | GpManageGroup
| GpTransferOwnership.
#[global] Instance GroupPermission_eq_dec : EqDecision GroupPermission.
Proof. solve_decision. Defined.

Inductive GroupMemberState := GmActive | GmRemoved.
#[global] Instance GroupMemberState_eq_dec : EqDecision GroupMemberState.
Proof. solve_decision. Defined.

Inductive GroupOwnership :=
| GoPersonOwned (owner : PrincipalRef)
| GoOrganizationOwned (owner : PrincipalRef)
| GoSharedAdmin
| GoOwnerlessFederated
| GoTemporary (owner : option PrincipalRef) (expires_at_unix_ms : Z (* i64 *)).
#[global] Instance GroupOwnership_eq_dec : EqDecision GroupOwnership.
Proof. solve_decision. Defined.

Inductive GroupHistoryPolicy :=
| GhNoHistory | GhFromJoin | GhLastNMessages (count : Z (* u32 *))
| GhFromTimestamp (timestamp : Z (* i64 *)) | GhFullHistory
| GhCustomPolicy (identifier : bytes (* String *)).
#[global] Instance GroupHistoryPolicy_eq_dec : EqDecision GroupHistoryPolicy.
Proof. solve_decision. Defined.

Record GroupCryptoState := mk_group_crypto {
  gc_capability_id : option bytes; (* Option<String> *)
  gc_epoch : Z; (* u64 *)
  gc_state_ref : option OpaqueId;
}.
#[global] Instance GroupCryptoState_eq_dec : EqDecision GroupCryptoState.
Proof. solve_decision. Defined.

Inductive PublicGroupJoinPolicy := PjOpen | PjApprovalRequired | PjInviteOnly.
#[global] Instance PublicGroupJoinPolicy_eq_dec : EqDecision PublicGroupJoinPolicy.
Proof. solve_decision. Defined.
Inductive PublicGroupDiscovery := PdUnlisted | PdDiscoverable.
#[global] Instance PublicGroupDiscovery_eq_dec : EqDecision PublicGroupDiscovery.
Proof. solve_decision. Defined.
Record PublicGroupPolicy := mk_public_policy {
  pg_join_policy : PublicGroupJoinPolicy;
  pg_discovery : PublicGroupDiscovery;
  pg_indexed : bool;
}.
#[global] Instance PublicGroupPolicy_eq_dec : EqDecision PublicGroupPolicy.
Proof. solve_decision. Defined.
Inductive GroupMediaState := GmsIdle.
#[global] Instance GroupMediaState_eq_dec : EqDecision GroupMediaState.
Proof. solve_decision. Defined.

Record GroupBridgeMapping := mk_bridge_mapping {
  bm_integration_id : IntegrationId;
  bm_external_group_id : bytes; (* Vec<u8> *)
}.
#[global] Instance GroupBridgeMapping_eq_dec : EqDecision GroupBridgeMapping.
Proof. solve_decision. Defined.

Record GroupRecord := mk_group {
  gr_scope : TenantScope;
  gr_group_id : GroupId;
  gr_conversation : ConversationRef;
  gr_ownership : GroupOwnership;
  gr_history_policy : GroupHistoryPolicy;
  gr_delivery_policy : DeliveryPolicy;
  gr_crypto_state : GroupCryptoState;
  gr_public_policy : option PublicGroupPolicy;
  gr_media_state : GroupMediaState;
  gr_bridge_mappings : list GroupBridgeMapping;
  gr_replication_generation : Z; (* u64 *)
  gr_revision : Z; (* u64 *)
}.
#[global] Instance GroupRecord_eq_dec : EqDecision GroupRecord.
Proof. solve_decision. Defined.

Record GroupMembership := mk_membership {
  gm_scope : TenantScope;
  gm_group_id : GroupId;
  gm_member : PrincipalRef;
  gm_role : GroupRole;
  gm_permissions : list GroupPermission;
  gm_state : GroupMemberState;
  gm_joined_revision : Z; (* u64 *)
  gm_removed_revision : option Z; (* Option<u64> *)
  gm_history_floor : Z; (* u64 *)
}.
#[global] Instance GroupMembership_eq_dec : EqDecision GroupMembership.
Proof. solve_decision. Defined.

Inductive GroupChangeKind :=
| GkAddMember (member : PrincipalRef) (role : GroupRole)
| GkRemoveMember (member : PrincipalRef)
| GkChangeRole (member : PrincipalRef) (role : GroupRole)
| GkTransferOwnership (new_owner : PrincipalRef)
| GkSetHistoryPolicy (policy : GroupHistoryPolicy)
| GkSetPublicPolicy (policy : PublicGroupPolicy)
| GkSetDeliveryPolicy (policy : DeliveryPolicy)
| GkAddBridgeMapping (mapping : GroupBridgeMapping)
| GkRemoveBridgeMapping (integration_id : IntegrationId) (external_group_id : bytes).

Record GroupChange := mk_group_change {
  ch_event_id : EventId;
  ch_scope : TenantScope;
  ch_group_id : GroupId;
  ch_expected_revision : Z; (* u64 *)
  ch_kind : GroupChangeKind;
  ch_next_crypto_state : option GroupCryptoState;
}.

Inductive GroupError :=
| GeInvalidKind | GeInvalidPublicPolicy | GeInvalidOwnership | GeInvalidHistoryPolicy
| GeInvalidCryptoState | GeInvalidBridgeMapping | GeDuplicateBridgeMapping
| GeBridgeMappingNotFound | GeInvalidMembership | GeDuplicateMembership | GeTooManyMembers
| GeScopeMismatch | GeGroupMismatch | GeRevisionMismatch | GePermissionDenied
| GeMemberAlreadyActive | GeMemberNotActive | GeInvalidRoleTransition
| GeOwnershipTransferNotSupported | GeWouldOrphanGroup | GeInvalidHistoryFloor
| GeInvalidListLimit.
#[global] Instance GroupError_eq_dec : EqDecision GroupError.
Proof. solve_decision. Defined.

Record GroupTransition := mk_group_transition {
  gt_group : GroupRecord;
  gt_memberships : list GroupMembership;
}.

(** The assignments the transition makes. *)
Definition set_bridge_mappings v (g : GroupRecord) : GroupRecord :=
  mk_group (gr_scope g) (gr_group_id g) (gr_conversation g) (gr_ownership g) (gr_history_policy g)
    (gr_delivery_policy g) (gr_crypto_state g) (gr_public_policy g) (gr_media_state g) v
    (gr_replication_generation g) (gr_revision g).
Definition set_ownership v (g : GroupRecord) : GroupRecord :=
  mk_group (gr_scope g) (gr_group_id g) (gr_conversation g) v (gr_history_policy g)
    (gr_delivery_policy g) (gr_crypto_state g) (gr_public_policy g) (gr_media_state g)
    (gr_bridge_mappings g) (gr_replication_generation g) (gr_revision g).
Definition set_history_policy v (g : GroupRecord) : GroupRecord :=
  mk_group (gr_scope g) (gr_group_id g) (gr_conversation g) (gr_ownership g) v
    (gr_delivery_policy g) (gr_crypto_state g) (gr_public_policy g) (gr_media_state g)
    (gr_bridge_mappings g) (gr_replication_generation g) (gr_revision g).
Definition set_delivery_policy v (g : GroupRecord) : GroupRecord :=
  mk_group (gr_scope g) (gr_group_id g) (gr_conversation g) (gr_ownership g) (gr_history_policy g)
    v (gr_crypto_state g) (gr_public_policy g) (gr_media_state g)
    (gr_bridge_mappings g) (gr_replication_generation g) (gr_revision g).
Definition set_crypto_state v (g : GroupRecord) : GroupRecord :=
  mk_group (gr_scope g) (gr_group_id g) (gr_conversation g) (gr_ownership g) (gr_history_policy g)
    (gr_delivery_policy g) v (gr_public_policy g) (gr_media_state g)
    (gr_bridge_mappings g) (gr_replication_generation g) (gr_revision g).
Definition set_public_policy v (g : GroupRecord) : GroupRecord :=
  mk_group (gr_scope g) (gr_group_id g) (gr_conversation g) (gr_ownership g) (gr_history_policy g)
    (gr_delivery_policy g) (gr_crypto_state g) v (gr_media_state g)
    (gr_bridge_mappings g) (gr_replication_generation g) (gr_revision g).
Definition set_counters generation revision (g : GroupRecord) : GroupRecord :=
  mk_group (gr_scope g) (gr_group_id g) (gr_conversation g) (gr_ownership g) (gr_history_policy g)
    (gr_delivery_policy g) (gr_crypto_state g) (gr_public_policy g) (gr_media_state g)
    (gr_bridge_mappings g) generation revision.

(** * Validation *)

Definition group_permissions_for_role (role : GroupRole) : list GroupPermission :=
  match role with
  | GrOwner => [GpSendMessage; GpReadHistory; GpManageMembers; GpManageRoles; GpManageGroup;
                GpTransferOwnership]
  | GrAdmin => [GpSendMessage; GpReadHistory; GpManageMembers; GpManageGroup]
  | GrMember => [GpSendMessage; GpReadHistory]
  end.

Definition is_group_conversation_kind (kind : ConversationKind) : bool :=
  match kind with CkPrivateGroup | CkPublicGroup => true | _ => false end.

Abbreviation group_check := (result GroupError unit).

Definition validate_bridge_mapping (mapping : GroupBridgeMapping) : group_check :=
  reject_if (bool_decide (bm_external_group_id mapping = [])
             || (MAX_EXTERNAL_GROUP_ID_LEN <? len (bm_external_group_id mapping))%Z)
    GeInvalidBridgeMapping.

Definition validate_ownership (ownership : GroupOwnership) : group_check :=
  match ownership with
  | GoPersonOwned owner =>
      reject_if (negb (bool_decide (principal_kind owner = PkPerson))) GeInvalidOwnership
  | GoOrganizationOwned owner =>
      reject_if (negb (bool_decide (principal_kind owner = PkOrganization))) GeInvalidOwnership
  | GoTemporary _ expires_at => reject_if (expires_at <=? 0)%Z GeInvalidOwnership
  | GoSharedAdmin | GoOwnerlessFederated => Ok tt
  end.

Definition validate_history_policy (policy : GroupHistoryPolicy) : group_check :=
  match policy with
  | GhLastNMessages count =>
      reject_if ((count =? 0)%Z || (MAX_GROUP_HISTORY_MESSAGES <? count)%Z) GeInvalidHistoryPolicy
  | GhCustomPolicy identifier =>
      map_err (λ _, GeInvalidHistoryPolicy) (validate_namespaced_identifier identifier)
  | _ => Ok tt
  end.

Definition validate_crypto_state (state : GroupCryptoState) : group_check :=
  match gc_capability_id state, gc_state_ref state with
  | None, None => reject_if (negb (gc_epoch state =? 0)%Z) GeInvalidCryptoState
  | Some capability, Some _ =>
      reject_if (negb (bool_decide (capability = GROUP_MLS_CAPABILITY))) GeInvalidCryptoState
  | _, _ => Err GeInvalidCryptoState
  end.

Definition bridge_key (mapping : GroupBridgeMapping) : IntegrationId * bytes :=
  (bm_integration_id mapping, bm_external_group_id mapping).

Definition canonical_group_record (group : GroupRecord) : result GroupError GroupRecord :=
  reject_if (negb (is_group_conversation_kind (conversation_kind (gr_conversation group))))
    GeInvalidKind ;;
  validate_ownership (gr_ownership group) ;;
  validate_history_policy (gr_history_policy group) ;;
  validate_crypto_state (gr_crypto_state group) ;;
  match conversation_kind (gr_conversation group), gr_public_policy group with
  | CkPrivateGroup, Some _ | CkPublicGroup, None => Err GeInvalidPublicPolicy
  | _, _ => Ok tt
  end ;;
  reject_if (MAX_GROUP_BRIDGE_MAPPINGS <? len (gr_bridge_mappings group))%Z
    GeInvalidBridgeMapping ;;
  let mappings := sort_by (key_cmp bridge_key (pair_cmp opaque_cmp bytes_cmp))
                    (gr_bridge_mappings group) in
  try_for_each validate_bridge_mapping mappings ;;
  reject_if (windows_any (same_key bm_integration_id) mappings) GeDuplicateBridgeMapping ;;
  Ok (set_bridge_mappings mappings group).

Definition canonical_group_membership (group : GroupRecord) (membership : GroupMembership) :
    result GroupError GroupMembership :=
  reject_if (negb (bool_decide (gm_scope membership = gr_scope group))) GeScopeMismatch ;;
  reject_if (negb (bool_decide (gm_group_id membership = gr_group_id group))) GeGroupMismatch ;;
  reject_if (negb (bool_decide (gm_permissions membership
                                = group_permissions_for_role (gm_role membership))))
    GeInvalidMembership ;;
  reject_if (gr_revision group <? gm_joined_revision membership)%Z GeInvalidMembership ;;
  match gm_state membership, gm_removed_revision membership with
  | GmActive, Some _ => Err GeInvalidMembership
  | GmRemoved, None => Err GeInvalidMembership
  | GmRemoved, Some removed =>
      reject_if ((removed <? gm_joined_revision membership)%Z || (gr_revision group <? removed)%Z)
        GeInvalidMembership
  | GmActive, None => Ok tt
  end ;;
  Ok membership.

(** The role a creator gets from the ownership, or an error. *)
Definition creator_role (ownership : GroupOwnership) (creator : PrincipalRef) :
    result GroupError GroupRole :=
  match ownership with
  | GoPersonOwned owner =>
      reject_if (negb (bool_decide (owner = creator))
                 || negb (bool_decide (principal_kind creator = PkPerson))) GeInvalidOwnership ;;
      Ok GrOwner
  | GoOrganizationOwned owner =>
      reject_if (negb (bool_decide (owner = creator))
                 || negb (bool_decide (principal_kind creator = PkOrganization)))
        GeInvalidOwnership ;;
      Ok GrOwner
  | GoSharedAdmin | GoOwnerlessFederated => Ok GrAdmin
  | GoTemporary (Some owner) _ =>
      reject_if (negb (bool_decide (owner = creator))) GeInvalidOwnership ;; Ok GrOwner
  | GoTemporary None _ => Ok GrAdmin
  end.

(** A membership that starts at [revision]. *)
Definition fresh_membership (group : GroupRecord) (member : PrincipalRef) (role : GroupRole)
    (revision floor : Z) : GroupMembership :=
  mk_membership (gr_scope group) (gr_group_id group) member role (group_permissions_for_role role)
    GmActive revision None floor.

Definition canonical_group_creation (group : GroupRecord) (creator_scope : TenantScope)
    (creator : PrincipalRef) : result GroupError (GroupRecord * GroupMembership) :=
  reject_if (negb (bool_decide (creator_scope = gr_scope group))) GeScopeMismatch ;;
  group ← canonical_group_record group;
  reject_if (negb (gr_revision group =? 0)%Z || negb (gr_replication_generation group =? 0)%Z)
    GeRevisionMismatch ;;
  role ← creator_role (gr_ownership group) creator;
  Ok (group, fresh_membership group creator role 0 0).

Definition canonical_group_memberships (group : GroupRecord) (memberships : list GroupMembership) :
    result GroupError (list GroupMembership) :=
  reject_if (MAX_GROUP_MEMBERS <? len memberships)%Z GeTooManyMembers ;;
  collected ← try_collect (canonical_group_membership group) memberships;
  let canonical := sort_by (key_cmp gm_member principal_cmp) collected in
  reject_if (windows_any (same_key gm_member) canonical) GeDuplicateMembership ;;
  Ok canonical.

Definition validate_group_member_list_limit (max_items : Z) : group_check :=
  reject_if ((max_items =? 0)%Z || (MAX_GROUP_MEMBER_LIST <? max_items)%Z) GeInvalidListLimit.

(** * Transition *)

Definition member_index (memberships : list GroupMembership) (principal : PrincipalRef) :
    option nat :=
  position (λ m, bool_decide (gm_member m = principal)) memberships.

Definition active_member_index (memberships : list GroupMembership) (principal : PrincipalRef) :
    option nat :=
  position (λ m, bool_decide (gm_member m = principal) && bool_decide (gm_state m = GmActive))
    memberships.

Definition active_group_actor_role (group : GroupRecord) (memberships : list GroupMembership)
    (actor_scope : TenantScope) (actor : PrincipalRef) : result GroupError GroupRole :=
  group ← canonical_group_record group;
  memberships ← canonical_group_memberships group memberships;
  reject_if (negb (bool_decide (actor_scope = gr_scope group))) GeScopeMismatch ;;
  actor_index ← ok_or (active_member_index memberships actor) GePermissionDenied;
  ok_or (gm_role <$> memberships !! actor_index) GePermissionDenied.

Definition require_manage_members (role : GroupRole) : group_check :=
  match role with GrOwner | GrAdmin => Ok tt | GrMember => Err GePermissionDenied end.
Definition require_manage_group (role : GroupRole) : group_check := require_manage_members role.

Definition validate_change_binding (group : GroupRecord) (actor_scope : TenantScope)
    (change : GroupChange) : group_check :=
  reject_if (negb (bool_decide (actor_scope = gr_scope group))
             || negb (bool_decide (ch_scope change = gr_scope group))) GeScopeMismatch ;;
  reject_if (negb (bool_decide (ch_group_id change = gr_group_id group))) GeGroupMismatch ;;
  reject_if (negb (ch_expected_revision change =? gr_revision group)%Z) GeRevisionMismatch.

Definition advance_crypto_state (group : GroupRecord) (replacement : option GroupCryptoState) :
    result GroupError GroupRecord :=
  match gc_capability_id (gr_crypto_state group), replacement with
  | None, None => Ok group
  | None, Some _ | Some _, None => Err GeInvalidCryptoState
  | Some current_capability, Some next =>
      validate_crypto_state next ;;
      expected_epoch ← ok_or (checked_add_u64 (gc_epoch (gr_crypto_state group)) 1)
                         GeInvalidCryptoState;
      reject_if (negb (bool_decide (gc_capability_id next = Some current_capability))
                 || negb (gc_epoch next =? expected_epoch)%Z
                 || bool_decide (gc_state_ref next = gc_state_ref (gr_crypto_state group)))
        GeInvalidCryptoState ;;
      Ok (set_crypto_state next group)
  end.

Definition security_sensitive (kind : GroupChangeKind) : bool :=
  match kind with
  | GkAddMember _ _ | GkRemoveMember _ | GkChangeRole _ _ | GkTransferOwnership _ => true
  | _ => false
  end.

Definition apply_change_crypto (group : GroupRecord) (change : GroupChange) :
    result GroupError GroupRecord :=
  if security_sensitive (ch_kind change)
  then advance_crypto_state group (ch_next_crypto_state change)
  else match ch_next_crypto_state change with
       | Some _ => Err GeInvalidCryptoState
       | None => Ok group
       end.

Definition apply_add_bridge_mapping (group : GroupRecord) (actor_role : GroupRole)
    (mapping : GroupBridgeMapping) : result GroupError GroupRecord :=
  require_manage_group actor_role ;;
  validate_bridge_mapping mapping ;;
  reject_if (MAX_GROUP_BRIDGE_MAPPINGS <=? len (gr_bridge_mappings group))%Z
    GeInvalidBridgeMapping ;;
  reject_if (existsb (λ existing, bool_decide (bm_integration_id existing
                                               = bm_integration_id mapping))
               (gr_bridge_mappings group)) GeDuplicateBridgeMapping ;;
  Ok (set_bridge_mappings (gr_bridge_mappings group ++ [mapping]) group).

Definition apply_remove_bridge_mapping (group : GroupRecord) (actor_role : GroupRole)
    (integration_id : IntegrationId) (external_group_id : bytes) : result GroupError GroupRecord :=
  require_manage_group actor_role ;;
  index ← ok_or (position (λ mapping,
                   bool_decide (bm_integration_id mapping = integration_id)
                   && bool_decide (bm_external_group_id mapping = external_group_id))
                   (gr_bridge_mappings group)) GeBridgeMappingNotFound;
  Ok (set_bridge_mappings (delete index (gr_bridge_mappings group)) group).

(** The slot of a removed member who is added again. *)
Definition rejoin (role : GroupRole) (revision floor : Z) (m : GroupMembership) : GroupMembership :=
  mk_membership (gm_scope m) (gm_group_id m) (gm_member m) role (group_permissions_for_role role)
    GmActive revision None floor.

Definition apply_add_member (group : GroupRecord) (memberships : list GroupMembership)
    (actor_role : GroupRole) (member : PrincipalRef) (role : GroupRole) (next_revision : Z)
    (history_floor : option Z) : result GroupError (list GroupMembership) :=
  require_manage_members actor_role ;;
  reject_if (bool_decide (role = GrOwner)
             || (bool_decide (role = GrAdmin) && negb (bool_decide (actor_role = GrOwner))))
    GeInvalidRoleTransition ;;
  history_floor ← ok_or history_floor GeInvalidHistoryFloor;
  match member_index memberships member with
  | Some index =>
      current ← ok_or (memberships !! index) GeInvalidMembership;
      reject_if (bool_decide (gm_state current = GmActive)) GeMemberAlreadyActive ;;
      Ok (<[index := rejoin role next_revision history_floor current]> memberships)
  | None =>
      reject_if (MAX_GROUP_MEMBERS <=? len memberships)%Z GeTooManyMembers ;;
      Ok (memberships ++ [fresh_membership group member role next_revision history_floor])
  end.

Definition remove_at (revision : Z) (m : GroupMembership) : GroupMembership :=
  mk_membership (gm_scope m) (gm_group_id m) (gm_member m) (gm_role m) (gm_permissions m)
    GmRemoved (gm_joined_revision m) (Some revision) (gm_history_floor m).

Definition apply_remove_member (memberships : list GroupMembership) (actor : PrincipalRef)
    (actor_role : GroupRole) (member : PrincipalRef) (next_revision : Z) :
    result GroupError (list GroupMembership) :=
  target ← ok_or (member_index memberships member) GeMemberNotActive;
  current ← ok_or (memberships !! target) GeMemberNotActive;
  reject_if (negb (bool_decide (gm_state current = GmActive))) GeMemberNotActive ;;
  reject_if (bool_decide (gm_role current = GrOwner)) GeWouldOrphanGroup ;;
  (if negb (bool_decide (member = actor)) then
     require_manage_members actor_role ;;
     reject_if (bool_decide (gm_role current = GrAdmin)
                && negb (bool_decide (actor_role = GrOwner))) GePermissionDenied
   else Ok tt) ;;
  Ok (<[target := remove_at next_revision current]> memberships).

Definition with_role (role : GroupRole) (m : GroupMembership) : GroupMembership :=
  mk_membership (gm_scope m) (gm_group_id m) (gm_member m) role (group_permissions_for_role role)
    (gm_state m) (gm_joined_revision m) (gm_removed_revision m) (gm_history_floor m).

Definition apply_role_change (memberships : list GroupMembership) (actor_role : GroupRole)
    (member : PrincipalRef) (role : GroupRole) : result GroupError (list GroupMembership) :=
  reject_if (negb (bool_decide (actor_role = GrOwner)) || bool_decide (role = GrOwner))
    GeInvalidRoleTransition ;;
  target ← ok_or (active_member_index memberships member) GeMemberNotActive;
  current ← ok_or (memberships !! target) GeMemberNotActive;
  reject_if (bool_decide (gm_role current = GrOwner)) GeInvalidRoleTransition ;;
  Ok (<[target := with_role role current]> memberships).

Definition update_ownership (ownership : GroupOwnership) (new_owner : PrincipalRef) :
    result GroupError GroupOwnership :=
  match ownership with
  | GoPersonOwned _ =>
      reject_if (negb (bool_decide (principal_kind new_owner = PkPerson))) GeInvalidOwnership ;;
      Ok (GoPersonOwned new_owner)
  | GoOrganizationOwned _ =>
      reject_if (negb (bool_decide (principal_kind new_owner = PkOrganization)))
        GeInvalidOwnership ;;
      Ok (GoOrganizationOwned new_owner)
  | GoTemporary _ expires_at => Ok (GoTemporary (Some new_owner) expires_at)
  | GoSharedAdmin | GoOwnerlessFederated => Err GeOwnershipTransferNotSupported
  end.

Definition apply_ownership_transfer (group : GroupRecord) (memberships : list GroupMembership)
    (actor : PrincipalRef) (actor_index : nat) (actor_role : GroupRole) (new_owner : PrincipalRef) :
    result GroupError (GroupRecord * list GroupMembership) :=
  reject_if (negb (bool_decide (actor_role = GrOwner))) GePermissionDenied ;;
  target ← ok_or (active_member_index memberships new_owner) GeMemberNotActive;
  reject_if (bool_decide (new_owner = actor)) GeInvalidRoleTransition ;;
  ownership ← update_ownership (gr_ownership group) new_owner;
  Ok (set_ownership ownership group,
      alter (with_role GrOwner) target (alter (with_role GrAdmin) actor_index memberships)).

Definition apply_history_policy (group : GroupRecord) (actor_role : GroupRole)
    (policy : GroupHistoryPolicy) : result GroupError GroupRecord :=
  require_manage_group actor_role ;;
  validate_history_policy policy ;;
  Ok (set_history_policy policy group).

Definition apply_public_policy (group : GroupRecord) (actor_role : GroupRole)
    (policy : PublicGroupPolicy) : result GroupError GroupRecord :=
  require_manage_group actor_role ;;
  reject_if (negb (bool_decide (conversation_kind (gr_conversation group) = CkPublicGroup)))
    GeInvalidPublicPolicy ;;
  Ok (set_public_policy (Some policy) group).

Definition require_group_admin_continuity (memberships : list GroupMembership) : group_check :=
  reject_if (negb (existsb (λ m, bool_decide (gm_state m = GmActive)
                                 && match gm_role m with GrOwner | GrAdmin => true | _ => false end)
                     memberships)) GeWouldOrphanGroup.

Record GroupChangeContext := mk_change_context {
  cx_actor : PrincipalRef;
  cx_actor_index : nat;
  cx_actor_role : GroupRole;
  cx_next_revision : Z; (* u64 *)
  cx_history_floor : option Z; (* Option<u64> *)
}.

Definition apply_change_kind (group : GroupRecord) (memberships : list GroupMembership)
    (change : GroupChange) (context : GroupChangeContext) :
    result GroupError (GroupRecord * list GroupMembership) :=
  let only_group r := group' ← r; Ok (group', memberships) in
  let only_members r := memberships' ← r; Ok (group, memberships') in
  match ch_kind change with
  | GkAddMember member role =>
      only_members (apply_add_member group memberships (cx_actor_role context) member role
                      (cx_next_revision context) (cx_history_floor context))
  | GkRemoveMember member =>
      only_members (apply_remove_member memberships (cx_actor context) (cx_actor_role context)
                      member (cx_next_revision context))
  | GkChangeRole member role =>
      only_members (apply_role_change memberships (cx_actor_role context) member role)
  | GkTransferOwnership new_owner =>
      apply_ownership_transfer group memberships (cx_actor context) (cx_actor_index context)
        (cx_actor_role context) new_owner
  | GkSetHistoryPolicy policy =>
      only_group (apply_history_policy group (cx_actor_role context) policy)
  | GkSetPublicPolicy policy =>
      only_group (apply_public_policy group (cx_actor_role context) policy)
  | GkSetDeliveryPolicy policy =>
      only_group (require_manage_group (cx_actor_role context) ;;
                  Ok (set_delivery_policy policy group))
  | GkAddBridgeMapping mapping =>
      only_group (apply_add_bridge_mapping group (cx_actor_role context) mapping)
  | GkRemoveBridgeMapping integration_id external_group_id =>
      only_group (apply_remove_bridge_mapping group (cx_actor_role context) integration_id
                    external_group_id)
  end.

Definition apply_group_change (group : GroupRecord) (memberships : list GroupMembership)
    (actor_scope : TenantScope) (actor : PrincipalRef) (change : GroupChange)
    (add_history_floor_logical_order : option Z) : result GroupError GroupTransition :=
  group ← canonical_group_record group;
  memberships ← canonical_group_memberships group memberships;
  validate_change_binding group actor_scope change ;;
  actor_index ← ok_or (active_member_index memberships actor) GePermissionDenied;
  actor_role ← ok_or (gm_role <$> memberships !! actor_index) GePermissionDenied;
  next_revision ← ok_or (checked_add_u64 (gr_revision group) 1) GeRevisionMismatch;
  next_generation ← ok_or (checked_add_u64 (gr_replication_generation group) 1) GeRevisionMismatch;
  group ← apply_change_crypto group change;
  let context := mk_change_context actor actor_index actor_role next_revision
                   add_history_floor_logical_order in
  applied ← apply_change_kind group memberships change context;
  let group := set_counters next_generation next_revision applied.1 in
  memberships ← canonical_group_memberships group applied.2;
  require_group_admin_continuity memberships ;;
  Ok (mk_group_transition group memberships).

(** * Fingerprint *)

Definition push_bytes (value : bytes) : bytes := len_prefixed 8 value.

Definition push_scope (scope : TenantScope) : bytes :=
  push_bytes (as_wire_bytes (tenant_id scope))
  ++ match namespace_id scope with
     | Some namespace => 1%Z :: push_bytes (as_wire_bytes namespace)
     | None => [0%Z]
     end.

Definition push_principal (principal : PrincipalRef) : bytes :=
  push_bytes (as_wire_bytes (principal_id principal))
  ++ [principal_kind_code (principal_kind principal)].

Definition push_crypto_state (state : GroupCryptoState) : bytes :=
  match gc_capability_id state with
  | Some capability => 1%Z :: push_bytes capability
  | None => [0%Z]
  end
  ++ be_bytes 8 (gc_epoch state)
  ++ match gc_state_ref state with
     | Some state_ref => 1%Z :: push_bytes (as_wire_bytes state_ref)
     | None => [0%Z]
     end.

Definition push_history_policy (policy : GroupHistoryPolicy) : bytes :=
  match policy with
  | GhNoHistory => [1]
  | GhFromJoin => [2]
  | GhLastNMessages count => 3 :: be_bytes 4 count
  | GhFromTimestamp timestamp => 4 :: be_bytes 8 timestamp
  | GhFullHistory => [5]
  | GhCustomPolicy identifier => 6 :: push_bytes identifier
  end%Z.

Definition push_public_policy (policy : PublicGroupPolicy) : bytes :=
  [match pg_join_policy policy with PjOpen => 1 | PjApprovalRequired => 2 | PjInviteOnly => 3 end;
   match pg_discovery policy with PdUnlisted => 1 | PdDiscoverable => 2 end;
   if pg_indexed policy then 1 else 0]%Z.

Definition role_code (role : GroupRole) : Z :=
  match role with GrOwner => 1 | GrAdmin => 2 | GrMember => 3 end.

Definition delivery_policy_code (policy : DeliveryPolicy) : Z :=
  match policy with
  | DpBestEffort => 1 | DpDurable => 2 | DpUrgent => 3 | DpExpiring => 4 | DpLocalOnly => 5
  | DpDirectOnly => 6 | DpNoRelay => 7 | DpNoExternalBridge => 8 | DpPrivateNetworkOnly => 9
  end.

Definition group_change_kind_bytes (kind : GroupChangeKind) : bytes :=
  match kind with
  | GkAddMember member role => 1 :: push_principal member ++ [role_code role]
  | GkRemoveMember member => 2 :: push_principal member
  | GkChangeRole member role => 3 :: push_principal member ++ [role_code role]
  | GkTransferOwnership new_owner => 4 :: push_principal new_owner
  | GkSetHistoryPolicy policy => 5 :: push_history_policy policy
  | GkSetPublicPolicy policy => 6 :: push_public_policy policy
  | GkSetDeliveryPolicy policy => [7; delivery_policy_code policy]
  | GkAddBridgeMapping mapping =>
      8 :: push_bytes (as_wire_bytes (bm_integration_id mapping))
      ++ push_bytes (bm_external_group_id mapping)
  | GkRemoveBridgeMapping integration_id external_group_id =>
      9 :: push_bytes (as_wire_bytes integration_id) ++ push_bytes external_group_id
  end%Z.

(** The bytes that are hashed. *)
Definition group_change_preimage (change : GroupChange) : bytes :=
  GROUP_CHANGE_FINGERPRINT_V1_DOMAIN
  ++ push_bytes (as_wire_bytes (ch_event_id change)) ++ push_scope (ch_scope change)
  ++ push_bytes (as_wire_bytes (ch_group_id change)) ++ be_bytes 8 (ch_expected_revision change)
  ++ group_change_kind_bytes (ch_kind change)
  ++ match ch_next_crypto_state change with
     | Some state => 1%Z :: push_crypto_state state
     | None => [0%Z]
     end.

Definition group_change_fingerprint `{Sha256} (change : GroupChange) : result GroupError bytes :=
  Ok (sha256 (group_change_preimage change)).

Definition group_change_event_type (change : GroupChange) : bytes :=
  match ch_kind change with
  | GkAddMember _ _ => str "ucr.group.member_added"
  | GkRemoveMember _ => str "ucr.group.member_removed"
  | GkChangeRole _ _ => str "ucr.group.role_changed"
  | GkTransferOwnership _ => str "ucr.group.ownership_transferred"
  | GkSetHistoryPolicy _ => str "ucr.group.history_policy_changed"
  | GkSetPublicPolicy _ => str "ucr.group.public_policy_changed"
  | GkSetDeliveryPolicy _ => str "ucr.group.delivery_policy_changed"
  | GkAddBridgeMapping _ => str "ucr.group.bridge_mapping_added"
  | GkRemoveBridgeMapping _ _ => str "ucr.group.bridge_mapping_removed"
  end.
