(* ===== verification/GroupFacts.v ===== *)
(** Groups as an abstract machine: the memberships are a finite map from
    principals, and an accepted change is one step of [group_step]. The lemmas
    relate every operation of Group.v to its part of that step. *)

From stdpp Require Import gmap.
From S2P Require Import Prelude Ids Message Group.

(** * The abstract machine *)

Abbreviation member_map := (gmap PrincipalRef GroupMembership).

Definition members_map (memberships : list GroupMembership) : member_map :=
  list_to_map ((λ m, (gm_member m, m)) <$> memberships).

Definition active_role (M : member_map) (p : PrincipalRef) (role : GroupRole) : Prop :=
  ∃ m, M !! p = Some m ∧ gm_state m = GmActive ∧ gm_role m = role.

(** The principal an ownership names. *)
Definition owner_of (ownership : GroupOwnership) : option PrincipalRef :=
  match ownership with
  | GoPersonOwned owner | GoOrganizationOwned owner => Some owner
  | GoTemporary owner _ => owner
  | GoSharedAdmin | GoOwnerlessFederated => None
  end.

Definition transferable (ownership : GroupOwnership) (p : PrincipalRef) : Prop :=
  match ownership with
  | GoPersonOwned _ => principal_kind p = PkPerson
  | GoOrganizationOwned _ => principal_kind p = PkOrganization
  | GoTemporary _ _ => True
  | GoSharedAdmin | GoOwnerlessFederated => False
  end.

Definition transferred (ownership : GroupOwnership) (p : PrincipalRef) : GroupOwnership :=
  match ownership with
  | GoPersonOwned _ => GoPersonOwned p
  | GoOrganizationOwned _ => GoOrganizationOwned p
  | GoTemporary _ expires_at => GoTemporary (Some p) expires_at
  | ownership => ownership
  end.

(** What an active member of role [role] may do. *)
Definition kind_permitted (g : GroupRecord) (M : member_map) (actor : PrincipalRef)
    (role : GroupRole) (floor : option Z) (kind : GroupChangeKind) : Prop :=
  match kind with
  | GkAddMember p r =>
      role ≠ GrMember ∧ r ≠ GrOwner ∧ (r = GrAdmin → role = GrOwner) ∧ is_Some floor
      ∧ match M !! p with
        | Some m => gm_state m = GmRemoved
        | None => (Z.of_nat (size M) < MAX_GROUP_MEMBERS)%Z
        end
  | GkRemoveMember p =>
      ∃ r, active_role M p r ∧ r ≠ GrOwner
           ∧ (p = actor ∨ role = GrOwner ∨ role = GrAdmin ∧ r = GrMember)
  | GkChangeRole p r =>
      role = GrOwner ∧ r ≠ GrOwner ∧ ∃ r0, active_role M p r0 ∧ r0 ≠ GrOwner
  | GkTransferOwnership p =>
      role = GrOwner ∧ p ≠ actor ∧ (∃ r0, active_role M p r0) ∧ transferable (gr_ownership g) p
  | GkSetHistoryPolicy policy => role ≠ GrMember ∧ validate_history_policy policy = Ok tt
  | GkSetPublicPolicy _ =>
      role ≠ GrMember ∧ conversation_kind (gr_conversation g) = CkPublicGroup
  | GkSetDeliveryPolicy _ => role ≠ GrMember
  | GkAddBridgeMapping mapping =>
      role ≠ GrMember ∧ validate_bridge_mapping mapping = Ok tt
      ∧ (len (gr_bridge_mappings g) < MAX_GROUP_BRIDGE_MAPPINGS)%Z
      ∧ bm_integration_id mapping ∉ bm_integration_id <$> gr_bridge_mappings g
  | GkRemoveBridgeMapping i e =>
      role ≠ GrMember ∧ mk_bridge_mapping i e ∈ gr_bridge_mappings g
  end.

Definition kind_group (g : GroupRecord) (kind : GroupChangeKind) : GroupRecord :=
  match kind with
  | GkTransferOwnership p => set_ownership (transferred (gr_ownership g) p) g
  | GkSetHistoryPolicy policy => set_history_policy policy g
  | GkSetPublicPolicy policy => set_public_policy (Some policy) g
  | GkSetDeliveryPolicy policy => set_delivery_policy policy g
  | GkAddBridgeMapping mapping =>
      set_bridge_mappings (gr_bridge_mappings g ++ [mapping]) g
  | GkRemoveBridgeMapping i e =>
      set_bridge_mappings
        (filter (λ b, b ≠ mk_bridge_mapping i e) (gr_bridge_mappings g)) g
  | GkAddMember _ _ | GkRemoveMember _ | GkChangeRole _ _ => g
  end.

Definition kind_members (g : GroupRecord) (actor : PrincipalRef) (revision : Z)
    (floor : option Z) (kind : GroupChangeKind) (M : member_map) : member_map :=
  match kind with
  | GkAddMember p r => <[p := fresh_membership g p r revision (default 0%Z floor)]> M
  | GkRemoveMember p => alter (remove_at revision) p M
  | GkChangeRole p r => alter (with_role r) p M
  | GkTransferOwnership p => alter (with_role GrOwner) p (alter (with_role GrAdmin) actor M)
  | _ => M
  end.

(** A membership change of an encrypted group installs the next epoch under a
    fresh state; no other change touches the group's cryptographic state. *)
Definition crypto_step (c : GroupCryptoState) (change : GroupChange) (c' : GroupCryptoState) : Prop :=
  if security_sensitive (ch_kind change) then
    match gc_capability_id c, ch_next_crypto_state change with
    | None, None => c' = c
    | Some capability, Some next =>
        c' = next ∧ validate_crypto_state next = Ok tt
        ∧ gc_capability_id next = Some capability
        ∧ gc_epoch next = (gc_epoch c + 1)%Z ∧ (gc_epoch c + 1 ≤ u64_max)%Z
        ∧ gc_state_ref next ≠ gc_state_ref c
    | _, _ => False
    end
  else ch_next_crypto_state change = None ∧ c' = c.

Definition has_admin (M : member_map) : Prop := ∃ p r, active_role M p r ∧ r ≠ GrMember.

Record group_step (g : GroupRecord) (M : member_map) (scope : TenantScope) (actor : PrincipalRef)
    (change : GroupChange) (floor : option Z) (g' : GroupRecord) (M' : member_map) : Prop := {
  gs_scope : scope = gr_scope g ∧ ch_scope change = gr_scope g;
  gs_group : ch_group_id change = gr_group_id g;
  gs_expected : ch_expected_revision change = gr_revision g;
  gs_room : (gr_revision g + 1 ≤ u64_max)%Z ∧ (gr_replication_generation g + 1 ≤ u64_max)%Z;
  gs_permitted : ∃ role, active_role M actor role
                         ∧ kind_permitted g M actor role floor (ch_kind change);
  gs_crypto : crypto_step (gr_crypto_state g) change (gr_crypto_state g');
  gs_next : g' = set_counters (gr_replication_generation g + 1) (gr_revision g + 1)
                   (kind_group (set_crypto_state (gr_crypto_state g') g) (ch_kind change));
  gs_members : M' = kind_members g actor (gr_revision g + 1) floor (ch_kind change) M;
  gs_admin : has_admin M';
}.

(** * Memberships as a map *)

Lemma members_map_lookup ms p m :
  NoDup (gm_member <$> ms) → members_map ms !! p = Some m ↔ m ∈ ms ∧ gm_member m = p.
Proof.
  intros Hnd. unfold members_map. rewrite <- elem_of_list_to_map.
  - rewrite list_elem_of_fmap. naive_solver.
  - by rewrite <- list_fmap_compose.
Qed.

Lemma members_map_perm ms ms' :
  NoDup (gm_member <$> ms) → ms ≡ₚ ms' → members_map ms = members_map ms'.
Proof.
  intros Hnd Hp. apply list_to_map_proper; [by rewrite <- list_fmap_compose|by rewrite Hp].
Qed.

Lemma members_map_size ms : NoDup (gm_member <$> ms) → size (members_map ms) = length ms.
Proof.
  intros Hnd. unfold members_map. rewrite map_size_list_to_map.
  - by rewrite length_fmap.
  - by rewrite <- list_fmap_compose.
Qed.

Lemma members_map_snoc ms m :
  NoDup (gm_member <$> ms) → gm_member m ∉ gm_member <$> ms →
  members_map (ms ++ [m]) = <[gm_member m := m]> (members_map ms).
Proof.
  intros Hnd Hm. rewrite (members_map_perm _ (m :: ms)); [done| |].
  - rewrite fmap_app. cbn. rewrite Permutation_app_comm. by constructor.
  - by rewrite Permutation_app_comm.
Qed.

Lemma members_map_none ms p : p ∉ gm_member <$> ms → members_map ms !! p = None.
Proof. intros Hp. apply not_elem_of_list_to_map_1. by rewrite <- list_fmap_compose. Qed.

Lemma update_keys (ms : list GroupMembership) (i : nat) m m' :
  ms !! i = Some m → gm_member m' = gm_member m →
  gm_member <$> <[i := m']> ms = gm_member <$> ms.
Proof.
  intros Hi E. rewrite list_fmap_insert, E. apply list_insert_id. by rewrite list_lookup_fmap, Hi.
Qed.

Lemma members_map_update ms (i : nat) m m' :
  NoDup (gm_member <$> ms) → ms !! i = Some m → gm_member m' = gm_member m →
  members_map (<[i := m']> ms) = <[gm_member m := m']> (members_map ms).
Proof.
  intros Hnd Hi E. apply map_eq. intros p. apply option_eq. intros x.
  rewrite members_map_lookup by (by rewrite (update_keys _ _ m)).
  rewrite lookup_insert_Some, members_map_lookup by done.
  assert (i < length ms) as Hlen by (by eapply lookup_lt_Some).
  rewrite (list_elem_of_lookup (<[i := m']> ms)). split.
  - intros [(j & Hj) Hx]. apply list_lookup_insert_Some in Hj as [(<- & <- & _)|[Hne Hj]].
    + left. by rewrite <- E.
    + right. split; [|by split; [apply list_elem_of_lookup; eauto|]].
      intros <-. apply Hne. apply (NoDup_lookup (gm_member <$> ms) i j (gm_member m));
        [done|by rewrite list_lookup_fmap, Hi|rewrite list_lookup_fmap, Hj; cbn; by rewrite Hx].
  - intros [[<- <-]|(Hne & Hx & <-)].
    + split; [|done]. exists i. by apply list_lookup_insert_eq.
    + split; [|done]. apply list_elem_of_lookup in Hx as [j Hj]. exists j.
      rewrite list_lookup_insert_ne; [done|]. intros <-. congruence.
Qed.

Lemma alter_insert {A} (f : A → A) (l : list A) (i : nat) x :
  l !! i = Some x → alter f i l = <[i := f x]> l.
Proof.
  revert i. induction l as [|y l IH]; intros [|i] Hi; try done; cbn in *.
  - by injection Hi as ->.
  - f_equal. by apply IH.
Qed.

(** * Finding members *)

Lemma member_index_Some ms p i :
  member_index ms p = Some i →
  NoDup (gm_member <$> ms) → ∃ m, ms !! i = Some m ∧ gm_member m = p ∧ members_map ms !! p = Some m.
Proof.
  intros (m & Hi & Hm & Hin)%position_Some Hnd. bool_norm.
  exists m. by rewrite members_map_lookup.
Qed.

Lemma member_index_None ms p : member_index ms p = None → p ∉ gm_member <$> ms.
Proof.
  intros Hn%position_None. rewrite list_elem_of_fmap. intros (m & -> & Hm).
  rewrite Forall_forall in Hn. specialize (Hn m Hm). cbn in Hn. by rewrite bool_decide_true in Hn.
Qed.

Lemma active_member_index_Some ms p i :
  active_member_index ms p = Some i →
  NoDup (gm_member <$> ms) →
  ∃ m, ms !! i = Some m ∧ gm_member m = p ∧ gm_state m = GmActive ∧ members_map ms !! p = Some m.
Proof.
  intros (m & Hi & Hm & Hin)%position_Some Hnd.
  apply andb_true_iff in Hm as [Hm%bool_decide_eq_true Hs%bool_decide_eq_true].
  exists m. by rewrite members_map_lookup.
Qed.

Lemma active_member_index_None ms p :
  active_member_index ms p = None → NoDup (gm_member <$> ms) →
  ∀ r, ¬ active_role (members_map ms) p r.
Proof.
  intros Hn%position_None Hnd r (m & Hm & Hs & _). apply members_map_lookup in Hm as [Hin <-]; [|done].
  rewrite Forall_forall in Hn. specialize (Hn m Hin). cbn in Hn.
  by rewrite !bool_decide_true in Hn.
Qed.

(** * Operations

    [decides r guard post]: [r] succeeds exactly when [guard] holds, with a value
    that satisfies [post]. *)
Definition decides {E A} (r : result E A) (guard : Prop) (post : A → Prop) : Prop :=
  match r with Ok a => guard ∧ post a | Err _ => ¬ guard end.

#[global] Instance decides_proper {E A} (r : result E A) :
  Proper (iff ==> pointwise_relation A iff ==> iff) (decides r).
Proof. intros G G' HG P P' HP. destruct r as [a|e]; cbn; [by rewrite HG, (HP a)|by rewrite HG]. Qed.

Lemma decides_intro {E A} (r : result E A) guard (post : A → Prop) :
  (∀ a, r = Ok a → guard ∧ post a) → (guard → ∃ a, r = Ok a) → decides r guard post.
Proof.
  intros Hok Hg. destruct r as [a|e]; cbn; [by apply Hok|]. by intros [a Ha]%Hg.
Qed.

Lemma decides_Ok {E A} (r : result E A) guard (post : A → Prop) a :
  decides r guard post → r = Ok a → guard ∧ post a.
Proof. by intros ? ->. Qed.

Lemma decides_guard {E A} (r : result E A) (guard : Prop) (post : A → Prop) :
  decides r guard post → guard → ∃ a, r = Ok a ∧ post a.
Proof. destruct r as [a|e]; cbn; [intros [? ?] _; by exists a|done]. Qed.

Lemma decides_bind {E A B} (r : result E A) (k : A → result E B) G P H Q :
  decides r G P → (∀ a, r = Ok a → P a → decides (k a) H Q) →
  decides (r ≫= k) (G ∧ H) Q.
Proof.
  destruct r as [a|e]; cbn; [|tauto]. intros [HG HP] Hk. specialize (Hk a eq_refl HP).
  destruct (k a); cbn in *; tauto.
Qed.

Lemma decides_iff {E A} (r : result E A) (G G' : Prop) (P P' : A → Prop) :
  decides r G P → (G ↔ G') → (∀ a, G → P a → P' a) → decides r G' P'.
Proof. destruct r; cbn; naive_solver. Qed.

Lemma decides_reject {E} (c : bool) (e : E) : decides (reject_if c e) (c = false) (λ _, True).
Proof. by destruct c. Qed.

Lemma decides_pure {E A} (a : A) : decides (Ok a : result E A) True (λ b, b = a).
Proof. done. Qed.

Lemma decides_ok_or {E A} (o : option A) (e : E) : decides (ok_or o e) (is_Some o) (λ a, o = Some a).
Proof. destruct o; cbn; [by eauto|by intros [? ?]]. Qed.

Lemma decides_unit {E} (r : result E unit) : decides r (r = Ok tt) (λ _, True).
Proof. by destruct r as [[]|]. Qed.

(** Evaluate the comparisons of constructors. *)
Ltac constants :=
  repeat match goal with |- context [bool_decide ?P] =>
    first [rewrite (bool_decide_eq_true_2 P) by done|rewrite (bool_decide_eq_false_2 P) by done]
  end; cbn.

Lemma require_manage_members_spec role :
  decides (require_manage_members role) (role ≠ GrMember) (λ _, True).
Proof. by destruct role; cbn; auto. Qed.

Lemma update_ownership_spec o p :
  decides (update_ownership o p) (transferable o p) (λ o', o' = transferred o p).
Proof.
  destruct o as [q|q| | |q e]; cbn; try (by auto);
    case_bool_decide; cbn; naive_solver.
Qed.

Lemma active_role_at M p m r :
  M !! p = Some m → active_role M p r ↔ gm_state m = GmActive ∧ gm_role m = r.
Proof. unfold active_role. intros ->. split; [intros (? & [= <-] & H); exact H|eauto]. Qed.

Lemma active_role_none M p r : M !! p = None → ¬ active_role M p r.
Proof. unfold active_role. intros ->. by intros (? & ? & _). Qed.

Ltac permit := repeat (first [split|eexists]); try done; try tauto; try naive_solver.

Section membership_ops.
  Context (g : GroupRecord) (ms : list GroupMembership).
  Hypothesis Hnd : NoDup (gm_member <$> ms).
  Hypothesis Hown : Forall (λ m, gm_scope m = gr_scope g ∧ gm_group_id m = gr_group_id g) ms.

(** The new list has one row per member, and is the new map. *)
Definition rows_of (ms' : list GroupMembership) (M' : member_map) : Prop :=
  NoDup (gm_member <$> ms') ∧ members_map ms' = M'.

Lemma rows_update (i : nat) m m' :
  ms !! i = Some m → gm_member m' = gm_member m →
  rows_of (<[i := m']> ms) (<[gm_member m := m']> (members_map ms)).
Proof.
  intros Hi E. split; [by rewrite (update_keys _ _ m)|by apply members_map_update].
Qed.

Lemma rows_alter (i : nat) m f :
  ms !! i = Some m → gm_member (f m) = gm_member m →
  rows_of (<[i := f m]> ms) (alter f (gm_member m) (members_map ms)).
Proof.
  intros Hi E. destruct (rows_update i m (f m)) as [Hn Hm]; [done..|]. split; [done|]. rewrite Hm.
  apply map_eq. intros p. destruct (decide (p = gm_member m)) as [->|Hne].
  - rewrite lookup_insert_eq, lookup_alter_eq. replace (members_map ms !! gm_member m) with (Some m);
      [done|]. symmetry. apply members_map_lookup; [done|]. split; [|done].
    by apply list_elem_of_lookup_2 in Hi.
  - by rewrite lookup_insert_ne, lookup_alter_ne.
Qed.

Lemma apply_add_member_spec actor role p r rev floor :
  decides (apply_add_member g ms role p r rev floor)
    (kind_permitted g (members_map ms) actor role floor (GkAddMember p r))
    (λ ms', rows_of ms' (kind_members g actor rev floor (GkAddMember p r) (members_map ms))).
Proof.
  unfold apply_add_member. cbn [kind_permitted kind_members].
  destruct (member_index ms p) as [i|] eqn:Hi.
  - apply member_index_Some in Hi as (m & Hi & <- & HM); [|done]. rewrite HM, Hi.
    destruct role, r, floor as [fl|]; cbn; constants; try naive_solver;
      destruct (gm_state m) eqn:Hs; cbn; constants; try naive_solver;
      (split; [by eauto|]).
    all: pose proof (proj1 (Forall_lookup _ _) Hown _ _ Hi) as [Hsc Hg].
    all: unfold fresh_membership; rewrite <- Hsc, <- Hg; by apply rows_update.
  - apply member_index_None in Hi. rewrite (members_map_none _ _ Hi), members_map_size by done.
    destruct role, r, floor as [fl|]; cbn; constants; try naive_solver;
      unfold len; destruct (Z.leb_spec MAX_GROUP_MEMBERS (Z.of_nat (length ms))); cbn;
      try (naive_solver lia);
      (split; [by eauto 10|]).
    all: split; [|by apply members_map_snoc].
    all: rewrite fmap_app; cbn; rewrite Permutation_app_comm; by constructor.
Qed.

Lemma apply_remove_member_spec actor role p rev floor :
  decides (apply_remove_member ms actor role p rev)
    (kind_permitted g (members_map ms) actor role floor (GkRemoveMember p))
    (λ ms', rows_of ms' (kind_members g actor rev floor (GkRemoveMember p) (members_map ms))).
Proof.
  unfold apply_remove_member. cbn [kind_permitted kind_members].
  destruct (member_index ms p) as [i|] eqn:Hi.
  - apply member_index_Some in Hi as (m & Hi & <- & HM); [|done]. cbn [ok_or mbind result_bind].
    rewrite Hi. setoid_rewrite (active_role_at _ _ _ _ HM). cbn [ok_or mbind result_bind].
    destruct (gm_state m) eqn:Hs; cbn; constants; [|by intros (r & [? _] & _)].
    destruct (gm_role m) eqn:Hr; cbn; constants; [intros (r & [_ <-] & ? & _); done|..];
      (case_bool_decide; cbn; [split; [permit|by apply rows_alter]|]);
      destruct role; cbn; constants; try (by intros (r & [_ <-] & ? & Hp); naive_solver);
      (split; [permit|by apply rows_alter]).
  - apply member_index_None, members_map_none in Hi. cbn. intros (r & Hr & _).
    by apply active_role_none in Hr.
Qed.

Lemma apply_role_change_spec actor role p r rev floor :
  decides (apply_role_change ms role p r)
    (kind_permitted g (members_map ms) actor role floor (GkChangeRole p r))
    (λ ms', rows_of ms' (kind_members g actor rev floor (GkChangeRole p r) (members_map ms))).
Proof.
  unfold apply_role_change. cbn [kind_permitted kind_members].
  destruct (active_member_index ms p) as [i|] eqn:Hi.
  - apply active_member_index_Some in Hi as (m & Hi & <- & Hs & HM); [|done].
    setoid_rewrite (active_role_at _ _ _ _ HM). destruct role, r; cbn; constants; try (by naive_solver); rewrite Hi; cbn;
      (destruct (gm_role m) eqn:Hr; cbn; constants; [by intros (_ & _ & r & [_ <-] & ?)|..]);
      (split; [permit|by apply rows_alter]).
  - pose proof (active_member_index_None _ _ Hi Hnd). destruct role, r; cbn; constants; naive_solver.
Qed.
End membership_ops.

Lemma apply_ownership_transfer_spec g ms actor (i : nat) role p rev floor a :
  NoDup (gm_member <$> ms) → ms !! i = Some a → gm_member a = actor →
  decides (apply_ownership_transfer g ms actor i role p)
    (kind_permitted g (members_map ms) actor role floor (GkTransferOwnership p))
    (λ x, x.1 = kind_group g (GkTransferOwnership p)
          ∧ rows_of x.2 (kind_members g actor rev floor (GkTransferOwnership p) (members_map ms))).
Proof.
  intros Hnd Ha <-. unfold apply_ownership_transfer. cbn [kind_permitted kind_members kind_group].
  destruct role; cbn; constants; [|naive_solver..].
  destruct (active_member_index ms p) as [j|] eqn:Hj; cbn.
  2: { pose proof (active_member_index_None _ _ Hj Hnd). naive_solver. }
  apply active_member_index_Some in Hj as (m & Hj & <- & Hs & HM); [|done].
  case_bool_decide as Hne; cbn; [naive_solver|].
  pose proof (update_ownership_spec (gr_ownership g) (gm_member m)) as Ho.
  destruct (update_ownership _ _) as [o|]; cbn in *; [|naive_solver].
  destruct Ho as [Ht ->]. split; [setoid_rewrite (active_role_at _ _ _ _ HM); by eauto 10|]. split; [done|].
  rewrite (alter_insert _ ms _ a) by done.
  destruct (rows_alter ms Hnd i a (with_role GrAdmin)) as [Hnd' <-]; [done..|].
  assert (<[i := with_role GrAdmin a]> ms !! j = Some m) as Hj'.
  { rewrite list_lookup_insert_ne; [done|]. intros <-. congruence. }
  rewrite (alter_insert _ _ _ m) by done. by apply rows_alter.
Qed.
