(* ===== verification/GroupRefinement.v ===== *)
(** Group records and the canonical transition: canonical records and
    memberships are characterised, and [apply_group_change] succeeds exactly on
    the steps of the abstract machine. *)

From stdpp Require Import gmap.
From S2P Require Import Prelude Ids Message Group GroupFacts.

(** * Canonical group records *)

Definition public_policy_valid (g : GroupRecord) : Prop :=
  conversation_kind (gr_conversation g) = CkPrivateGroup ∧ gr_public_policy g = None
  ∨ conversation_kind (gr_conversation g) = CkPublicGroup ∧ is_Some (gr_public_policy g).

Record record_valid (g : GroupRecord) : Prop := {
  rv_public : public_policy_valid g;
  rv_ownership : validate_ownership (gr_ownership g) = Ok tt;
  rv_history : validate_history_policy (gr_history_policy g) = Ok tt;
  rv_crypto : validate_crypto_state (gr_crypto_state g) = Ok tt;
  rv_count : (len (gr_bridge_mappings g) ≤ MAX_GROUP_BRIDGE_MAPPINGS)%Z;
  rv_mappings : Forall (λ b, validate_bridge_mapping b = Ok tt) (gr_bridge_mappings g);
  rv_integrations : NoDup (bm_integration_id <$> gr_bridge_mappings g);
}.

Definition sorted_mappings (g : GroupRecord) : list GroupBridgeMapping :=
  sort_by (key_cmp bridge_key (pair_cmp opaque_cmp bytes_cmp)) (gr_bridge_mappings g).

Lemma StronglySorted_weaken {A} (R R' : A → A → Prop) l :
  (∀ x y, R x y → R' x y) → StronglySorted R l → StronglySorted R' l.
Proof.
  intros HR. induction 1 as [|x l Hs IH Hx]; constructor; [done|].
  eapply Forall_impl; [exact Hx|]. auto.
Qed.

Lemma NoDup_windows {A K} `{EqDecision K} (key : A → K) l :
  NoDup (key <$> l) → windows_any (same_key key) l = false.
Proof.
  induction l as [|x [|y l] IH]; [done..|]. intros [Hx Hnd]%NoDup_cons.
  cbn in IH |- *. apply orb_false_iff. split; [|by apply IH].
  apply bool_decide_eq_false. intros E. apply Hx. rewrite E. constructor.
Qed.

(** Mappings sorted by integration and external id are sorted by integration. *)
Lemma sorted_mappings_windows g :
  windows_any (same_key bm_integration_id) (sorted_mappings g) = false
  ↔ NoDup (bm_integration_id <$> gr_bridge_mappings g).
Proof.
  rewrite <- (sort_by_perm (key_cmp bridge_key (pair_cmp opaque_cmp bytes_cmp))
                (gr_bridge_mappings g)).
  change (sort_by _ _) with (sorted_mappings g). split; [|apply NoDup_windows].
  intros Hw. apply (strict_sorted_NoDup bm_integration_id opaque_cmp).
  apply (no_window_dup_strict bm_integration_id opaque_cmp); [|done]. eapply StronglySorted_weaken; [|apply (sort_by_sorted bridge_key (pair_cmp opaque_cmp bytes_cmp))].
  intros x y. unfold key_le, key_cmp, pair_cmp, then_with; cbn. by destruct (opaque_cmp _ _).
Qed.

(** Decide a chain of checks: each one in turn, then the whole guard. *)
Ltac checks :=
  repeat (eapply decides_bind;
    [lazymatch goal with
     | |- decides (reject_if _ _) _ _ => apply decides_reject
     | _ => apply decides_unit
     end|intros _ _ _]);
  try apply decides_pure.

Lemma canonical_group_record_spec g :
  decides (canonical_group_record g) (record_valid g)
    (λ g', g' = set_bridge_mappings (sorted_mappings g) g).
Proof.
  unfold canonical_group_record. fold (sorted_mappings g).
  eapply decides_iff; [checks| |done]. rewrite sorted_mappings_windows, try_for_each_Ok.
  unfold sorted_mappings at 1. rewrite sort_by_perm.
  split.
  - intros (? & ? & ? & ? & Hp & ? & ? & ? & _). bool_norm. split; try done.
    unfold public_policy_valid. destruct (conversation_kind _), (gr_public_policy g); naive_solver.
  - intros [Hp ? ? ? Hc ? ?]. split_and!; try done.
    + unfold public_policy_valid in Hp. destruct (conversation_kind _); naive_solver.
    + destruct Hp as [[-> ->]|[-> [? ->]]]; done.
    + bool_norm. done.
Qed.

(** * Canonical memberships *)

Record membership_valid (g : GroupRecord) (m : GroupMembership) : Prop := {
  mv_scope : gm_scope m = gr_scope g;
  mv_group : gm_group_id m = gr_group_id g;
  mv_permissions : gm_permissions m = group_permissions_for_role (gm_role m);
  mv_joined : (gm_joined_revision m ≤ gr_revision g)%Z;
  mv_lifecycle : match gm_state m with
                 | GmActive => gm_removed_revision m = None
                 | GmRemoved => ∃ r, gm_removed_revision m = Some r
                                ∧ (gm_joined_revision m ≤ r ≤ gr_revision g)%Z
                 end;
}.

Lemma canonical_group_membership_spec g m :
  decides (canonical_group_membership g m) (membership_valid g m) (λ m', m' = m).
Proof.
  unfold canonical_group_membership. eapply decides_iff; [checks| |done]. bool_norm. split.
  - intros (? & ? & ? & ? & Hl & _). split; try done.
    destruct (gm_state m), (gm_removed_revision m) as [r|]; try done. exists r. split; [done|].
    apply reject_if_Ok in Hl. bool_norm. lia.
  - intros [? ? ? ? Hl]. split_and!; try done.
    destruct (gm_state m), (gm_removed_revision m) as [r|]; try done;
      destruct Hl as (? & [= <-] & ?). apply reject_if_Ok. bool_norm. lia.
Qed.

Lemma canonical_group_memberships_spec g ms :
  decides (canonical_group_memberships g ms)
    ((len ms ≤ MAX_GROUP_MEMBERS)%Z ∧ Forall (membership_valid g) ms
     ∧ NoDup (gm_member <$> ms))
    (λ ms', ms' = sort_by (key_cmp gm_member principal_cmp) ms).
Proof.
  unfold canonical_group_memberships. eapply decides_iff.
  - eapply decides_bind; [apply decides_reject|intros _ _ _].
    eapply (decides_bind _ _ (Forall (membership_valid g) ms) (λ ms', ms' = ms)).
    + apply decides_intro.
      * intros ms' H%try_collect_Ok. induction H as [|m m' l l' Hm _ [IH ->]]; [done|].
        pose proof (canonical_group_membership_spec g m) as Hs. rewrite Hm in Hs. cbn in Hs.
        destruct Hs as [? ->]. by auto.
      * intros Hv. exists ms. apply try_collect_Ok. induction Hv as [|m l Hm _ IH]; constructor; [|done].
        by destruct (decides_guard _ _ _ (canonical_group_membership_spec g m) Hm) as (? & ? & ->).
    + intros ? _ ->. checks.
  - rewrite (sort_by_windows gm_member principal_cmp). bool_norm. tauto.
  - done.
Qed.

(** * Changes *)

Lemma filter_absent {A} `{EqDecision A} (l : list A) x : x ∉ l → filter (λ y, y ≠ x) l = l.
Proof.
  induction l as [|y l IH]; [done|]. intros [Hy Hl]%not_elem_of_cons.
  rewrite filter_cons_True by done. by rewrite IH.
Qed.

Lemma delete_filter {A} `{EqDecision A} (l : list A) (i : nat) x :
  NoDup l → l !! i = Some x → delete i l = filter (λ y, y ≠ x) l.
Proof.
  intros Hnd. revert i. induction Hnd as [|y l Hy Hnd IH]; intros [|i] Hi; try done; cbn in Hi.
  - change (delete 0 (y :: l)) with l. injection Hi as ->. rewrite filter_cons_False by naive_solver.
    by rewrite filter_absent.
  - assert (y ≠ x) by (intros ->; apply Hy; by apply list_elem_of_lookup_2 in Hi).
    rewrite filter_cons_True by done. change (delete (S i) (y :: l)) with (y :: delete i l).
    f_equal. by apply IH.
Qed.

Lemma mapping_position_Some (l : list GroupBridgeMapping) i e n :
  position (λ b, bool_decide (bm_integration_id b = i)
                 && bool_decide (bm_external_group_id b = e)) l = Some n →
  l !! n = Some (mk_bridge_mapping i e).
Proof.
  intros ([i' e'] & Hn & Hb & _)%position_Some. cbn in Hb. bool_norm. destruct Hb as [-> ->]. done.
Qed.

Lemma mapping_position_None (l : list GroupBridgeMapping) i e :
  position (λ b, bool_decide (bm_integration_id b = i)
                 && bool_decide (bm_external_group_id b = e)) l = None →
  mk_bridge_mapping i e ∉ l.
Proof.
  intros Hn%position_None Hin. rewrite Forall_forall in Hn. specialize (Hn _ Hin). cbn in Hn.
  by rewrite !bool_decide_true in Hn.
Qed.

Lemma integration_free i (l : list GroupBridgeMapping) :
  existsb (λ b, bool_decide (bm_integration_id b = i)) l = false
  ↔ i ∉ bm_integration_id <$> l.
Proof.
  rewrite existsb_false, Forall_forall, list_elem_of_fmap. split.
  - intros Hf (b & -> & Hb). specialize (Hf b Hb). by rewrite bool_decide_true in Hf.
  - intros Hf b Hb. apply bool_decide_eq_false. intros <-. eauto.
Qed.

Lemma apply_add_bridge_mapping_spec g role b :
  decides (apply_add_bridge_mapping g role b)
    (role ≠ GrMember ∧ validate_bridge_mapping b = Ok tt
     ∧ (len (gr_bridge_mappings g) < MAX_GROUP_BRIDGE_MAPPINGS)%Z
     ∧ bm_integration_id b ∉ bm_integration_id <$> gr_bridge_mappings g)
    (λ g', g' = kind_group g (GkAddBridgeMapping b)).
Proof.
  unfold apply_add_bridge_mapping. eapply decides_iff.
  - eapply decides_bind; [apply require_manage_members_spec|intros _ _ _]. checks.
  - rewrite integration_free. bool_norm. tauto.
  - done.
Qed.

Lemma apply_remove_bridge_mapping_spec g role i e :
  NoDup (bm_integration_id <$> gr_bridge_mappings g) →
  decides (apply_remove_bridge_mapping g role i e)
    (role ≠ GrMember ∧ mk_bridge_mapping i e ∈ gr_bridge_mappings g)
    (λ g', g' = kind_group g (GkRemoveBridgeMapping i e)).
Proof.
  intros Hnd. unfold apply_remove_bridge_mapping. eapply decides_bind.
  { apply require_manage_members_spec. }
  intros _ _ _. destruct (position _ _) as [n|] eqn:Hn; cbn.
  - apply mapping_position_Some in Hn. split; [by apply list_elem_of_lookup_2 in Hn|].
    unfold set_bridge_mappings. f_equal. apply delete_filter; [|done]. by apply NoDup_fmap_1 in Hnd.
  - by apply mapping_position_None in Hn.
Qed.

Definition valid_members (g : GroupRecord) (ms : list GroupMembership) : Prop :=
  Forall (membership_valid g) ms ∧ NoDup (gm_member <$> ms).

(** A policy change: the actor manages the group, and the checks hold. *)
Ltac managed :=
  eapply decides_iff;
    [eapply decides_bind; [apply require_manage_members_spec|intros _ _ _]; checks
    |cbn; bool_norm; tauto|done].

(** A change of one half of the state leaves the other half. *)
Lemma decides_members (r : result GroupError (list GroupMembership)) (g : GroupRecord) G M :
  decides r G (λ ms', rows_of ms' M) →
  decides (ms' ← r; Ok (g, ms')) G (λ x, x.1 = g ∧ rows_of x.2 M).
Proof. destruct r; cbn; naive_solver. Qed.

Lemma decides_group (r : result GroupError GroupRecord) (ms : list GroupMembership) G g' M :
  decides r G (λ g, g = g') → rows_of ms M →
  decides (g ← r; Ok (g, ms)) G (λ x, x.1 = g' ∧ rows_of x.2 M).
Proof. destruct r; cbn; naive_solver. Qed.

Lemma apply_change_kind_spec g ms change cx a :
  NoDup (bm_integration_id <$> gr_bridge_mappings g) → valid_members g ms →
  ms !! cx_actor_index cx = Some a → gm_member a = cx_actor cx →
  decides (apply_change_kind g ms change cx)
    (kind_permitted g (members_map ms) (cx_actor cx) (cx_actor_role cx) (cx_history_floor cx)
       (ch_kind change))
    (λ x, x.1 = kind_group g (ch_kind change)
          ∧ rows_of x.2 (kind_members g (cx_actor cx) (cx_next_revision cx) (cx_history_floor cx)
                           (ch_kind change) (members_map ms))).
Proof.
  intros Hb [Hv Hnd] Ha Hact. unfold apply_change_kind.
  assert (Forall (λ m, gm_scope m = gr_scope g ∧ gm_group_id m = gr_group_id g) ms) as Hown
    by (eapply Forall_impl; [exact Hv|]; by intros m []).
  assert (rows_of ms (members_map ms)) as Hrows by done.
  destruct (ch_kind change) as [p r|p|p r|p|pol|pol|pol|b|i e].
  - apply decides_members. by apply apply_add_member_spec.
  - apply decides_members. by apply apply_remove_member_spec.
  - apply decides_members. by apply apply_role_change_spec.
  - by eapply apply_ownership_transfer_spec.
  - apply decides_group; [|done]. unfold apply_history_policy. managed.
  - apply decides_group; [|done]. unfold apply_public_policy. managed.
  - apply decides_group; [|done]. managed.
  - apply decides_group; [|done]. apply apply_add_bridge_mapping_spec.
  - apply decides_group; [|done]. by apply apply_remove_bridge_mapping_spec.
Qed.

(** * The cryptographic state *)

Lemma set_crypto_state_id g : set_crypto_state (gr_crypto_state g) g = g.
Proof. by destruct g. Qed.

Lemma apply_change_crypto_spec g change :
  decides (apply_change_crypto g change)
    (∃ c', crypto_step (gr_crypto_state g) change c')
    (λ g', ∃ c', crypto_step (gr_crypto_state g) change c' ∧ g' = set_crypto_state c' g).
Proof.
  unfold apply_change_crypto, advance_crypto_state, crypto_step.
  destruct (security_sensitive _), (ch_next_crypto_state change) as [next|]; cbn;
    [destruct (gc_capability_id (gr_crypto_state g)) as [cap|]; cbn..| |]; try naive_solver.
  - eapply decides_iff.
    + checks. eapply decides_bind; [apply decides_ok_or|intros e _ [-> Hle]%checked_add_u64_Some].
      checks.
    + bool_norm. split.
      * intros (Hv & [e [-> ?]%checked_add_u64_Some] & [[? ?] ?] & _). by exists next.
      * intros (c' & -> & Hv & Hc & He & Hle & Hr). split_and!; try done.
        exists (gc_epoch (gr_crypto_state g) + 1)%Z. by apply checked_add_u64_Some.
    + intros g' (Hv & [e [-> ?]%checked_add_u64_Some] & Hn & _) ->. bool_norm.
      destruct Hn as [[? ?] ?]. by exists next.
  - split; [by eauto|]. exists (gr_crypto_state g). by rewrite set_crypto_state_id.
  - split; [by eauto|]. exists (gr_crypto_state g). by rewrite set_crypto_state_id.
Qed.

(** * Rows after a change *)

Definition rows_valid (g : GroupRecord) (M : member_map) : Prop :=
  map_Forall (λ p m, gm_member m = p ∧ membership_valid g m) M.

Lemma rows_valid_list g ms :
  NoDup (gm_member <$> ms) → rows_valid g (members_map ms) ↔ Forall (membership_valid g) ms.
Proof.
  intros Hnd. unfold rows_valid. rewrite Forall_forall. split.
  - intros H m Hm. apply (H (gm_member m) m). by apply members_map_lookup.
  - intros H p m [Hm <-]%members_map_lookup; [|done]. by auto.
Qed.

Lemma membership_valid_advance g g' m :
  gr_scope g' = gr_scope g → gr_group_id g' = gr_group_id g → gr_revision g' = (gr_revision g + 1)%Z →
  membership_valid g m → membership_valid g' m.
Proof.
  intros Hs Hi Hr [? ? ? ? Hl]. split; [congruence..|lia|].
  destruct (gm_state m); [done|]. destruct Hl as (r & ? & ?). exists r. split; [done|lia].
Qed.

Section rows.
  Context (g g' : GroupRecord).
  Hypothesis Hs : gr_scope g' = gr_scope g.
  Hypothesis Hi : gr_group_id g' = gr_group_id g.
  Hypothesis Hr : gr_revision g' = (gr_revision g + 1)%Z.

Lemma rows_valid_advance M : rows_valid g M → rows_valid g' M.
Proof.
  intros H p m Hm. destruct (H p m Hm) as [? ?]. split; [done|].
  by apply (membership_valid_advance g).
Qed.

Lemma rows_valid_alter f p M :
  (∀ m, M !! p = Some m → gm_member (f m) = gm_member m) →
  (∀ m, M !! p = Some m → membership_valid g' m → membership_valid g' (f m)) →
  rows_valid g' M → rows_valid g' (alter f p M).
Proof.
  intros Hk Hf H q m. rewrite lookup_alter_Some. intros [(-> & m0 & Hm & ->)|[_ Hm]]; [|by apply H].
  destruct (H _ _ Hm) as [? ?]. split; [by rewrite Hk|]. by apply Hf.
Qed.

Lemma with_role_valid r m : membership_valid g' m → membership_valid g' (with_role r m).
Proof. by intros [? ? ? ? ?]. Qed.

Lemma remove_at_valid m :
  membership_valid g m → membership_valid g' (remove_at (gr_revision g + 1) m).
Proof.
  intros [? ? ? ? _]. split; cbn; [congruence..|lia|]. eexists. split; [done|]. lia.
Qed.

Lemma kind_members_valid actor floor kind M :
  rows_valid g M → rows_valid g' (kind_members g actor (gr_revision g + 1) floor kind M).
Proof.
  intros Hv. pose proof (rows_valid_advance _ Hv) as Hv'.
  destruct kind as [p r|p|p r|p|pol|pol|pol|b|i e]; cbn; try done.
  - intros q m [[<- <-]|[? ?]]%lookup_insert_Some; [|by apply Hv'].
    split; [done|]. split; cbn; try done. lia.
  - apply rows_valid_alter; [done| |done]. intros m Hm _. apply remove_at_valid. by apply (Hv p).
  - apply rows_valid_alter; [done| |done]. intros m _. apply with_role_valid.
  - apply rows_valid_alter; [done| |].
    + intros m _. apply with_role_valid.
    + apply rows_valid_alter; [done| |done]. intros m _. apply with_role_valid.
Qed.
End rows.

Lemma size_alter f p (M : member_map) : size (alter f p M) = size M.
Proof. by rewrite <- !size_dom, dom_alter_L. Qed.

Lemma kind_members_size g actor role rev floor kind M :
  kind_permitted g M actor role floor kind → (Z.of_nat (size M) ≤ MAX_GROUP_MEMBERS)%Z →
  (Z.of_nat (size (kind_members g actor rev floor kind M)) ≤ MAX_GROUP_MEMBERS)%Z.
Proof.
  destruct kind as [p r|p|p r|p|pol|pol|pol|b|i e]; cbn; try done.
  - intros (_ & _ & _ & _ & Hp) Hs. destruct (M !! p) as [m|] eqn:Hm.
    + rewrite map_size_insert_Some by eauto. done.
    + rewrite map_size_insert_None by done. lia.
  - by rewrite size_alter.
  - by rewrite size_alter.
  - by rewrite !size_alter.
Qed.

Lemma kind_permitted_crypto g c M actor role floor kind :
  kind_permitted (set_crypto_state c g) M actor role floor kind
  ↔ kind_permitted g M actor role floor kind.
Proof. by destruct kind. Qed.

Lemma kind_members_crypto g c actor rev floor kind M :
  kind_members (set_crypto_state c g) actor rev floor kind M = kind_members g actor rev floor kind M.
Proof. by destruct kind. Qed.

Lemma require_group_admin_continuity_spec ms :
  NoDup (gm_member <$> ms) →
  require_group_admin_continuity ms = Ok tt ↔ has_admin (members_map ms).
Proof.
  intros Hnd. unfold require_group_admin_continuity. rewrite reject_if_Ok, negb_false_iff.
  rewrite existsb_true, Exists_exists. split.
  - intros (m & Hm & [Hs%bool_decide_eq_true Hr]%andb_true_iff).
    exists (gm_member m), (gm_role m). split; [|by destruct (gm_role m)].
    exists m. by rewrite members_map_lookup.
  - intros (p & r & (m & [Hm <-]%members_map_lookup & Hs & <-) & Hr); [|done].
    exists m. split; [done|]. rewrite bool_decide_true by done. by destruct (gm_role m).
Qed.

(** * The transition is the abstract step *)

Lemma canonical_record_integrations g0 g :
  canonical_group_record g0 = Ok g → NoDup (bm_integration_id <$> gr_bridge_mappings g).
Proof.
  intros Hg. destruct (decides_Ok _ _ _ _ (canonical_group_record_spec g0) Hg) as [[] ->]. cbn.
  unfold sorted_mappings. by rewrite sort_by_perm.
Qed.

Lemma canonical_members_valid g ms0 ms :
  canonical_group_memberships g ms0 = Ok ms →
  valid_members g ms ∧ (Z.of_nat (length ms) ≤ MAX_GROUP_MEMBERS)%Z
  ∧ members_map ms = members_map ms0.
Proof.
  intros Hms.
  destruct (decides_Ok _ _ _ _ (canonical_group_memberships_spec g ms0) Hms) as [(Hl & Hv & Hnd) ->].
  split_and!; [split; by rewrite sort_by_perm|by rewrite sort_by_length|].
  symmetry. apply members_map_perm; [done|]. by rewrite sort_by_perm.
Qed.

(** The canonical form of a valid set of rows exists and is the same map. *)
Lemma canonical_members_exists g ms :
  valid_members g ms → (Z.of_nat (size (members_map ms)) ≤ MAX_GROUP_MEMBERS)%Z →
  ∃ ms', canonical_group_memberships g ms = Ok ms' ∧ members_map ms' = members_map ms.
Proof.
  intros [Hv Hnd] Hs. rewrite members_map_size in Hs by done.
  destruct (decides_guard _ _ _ (canonical_group_memberships_spec g ms)) as (ms' & Hms & _); [done|].
  exists ms'. split; [done|]. by apply canonical_members_valid in Hms as (_ & _ & ?).
Qed.

Lemma validate_change_binding_Ok g scope change :
  validate_change_binding g scope change = Ok tt
  ↔ (scope = gr_scope g ∧ ch_scope change = gr_scope g)
    ∧ ch_group_id change = gr_group_id g ∧ ch_expected_revision change = gr_revision g.
Proof.
  unfold validate_change_binding. split.
  - intros H. res_inv. bool_norm. tauto.
  - intros ([-> ->] & -> & ->). by rewrite !bool_decide_true, Z.eqb_refl by done.
Qed.

Lemma valid_members_crypto g c ms : valid_members g ms → valid_members (set_crypto_state c g) ms.
Proof. intros [Hv Hnd]. split; [|done]. eapply Forall_impl; [exact Hv|]. by intros m []. Qed.

(** The counters and the identity of the record after a change. *)
Lemma kind_group_frame g kind :
  gr_scope (kind_group g kind) = gr_scope g ∧ gr_group_id (kind_group g kind) = gr_group_id g
  ∧ gr_crypto_state (kind_group g kind) = gr_crypto_state g.
Proof. by destruct kind. Qed.

Lemma crypto_step_functional c change c1 c2 :
  crypto_step c change c1 → crypto_step c change c2 → c1 = c2.
Proof. unfold crypto_step. repeat case_match; naive_solver. Qed.

Section transition.
  Context (g0 g : GroupRecord) (ms0 ms : list GroupMembership) (scope : TenantScope)
    (actor : PrincipalRef) (change : GroupChange) (floor : option Z).
  Hypothesis Hg : canonical_group_record g0 = Ok g.
  Hypothesis Hms : canonical_group_memberships g ms0 = Ok ms.

(** The change of kind runs on the canonical state with the next crypto state. *)
Lemma change_kind_at c (i : nat) role a :
  ms !! i = Some a → gm_member a = actor →
  decides (apply_change_kind (set_crypto_state c g) ms change
             (mk_change_context actor i role (gr_revision g + 1) floor))
    (kind_permitted g (members_map ms) actor role floor (ch_kind change))
    (λ x, x.1 = kind_group (set_crypto_state c g) (ch_kind change)
          ∧ rows_of x.2 (kind_members g actor (gr_revision g + 1) floor (ch_kind change)
                           (members_map ms))).
Proof.
  intros Ha Hactor. destruct (canonical_members_valid _ _ _ Hms) as (Hv & _ & _).
  rewrite <- (kind_permitted_crypto g c), <- (kind_members_crypto g c).
  apply (apply_change_kind_spec _ ms change (mk_change_context actor i role _ floor) a);
    [|by apply valid_members_crypto|done..].
  exact (canonical_record_integrations _ _ Hg).
Qed.

Lemma apply_group_change_sound t :
  apply_group_change g0 ms0 scope actor change floor = Ok t →
  group_step g (members_map ms0) scope actor change floor (gt_group t)
    (members_map (gt_memberships t)).
Proof.
  destruct (canonical_members_valid _ _ _ Hms) as ([Hv Hnd] & Hsize & <-).
  unfold apply_group_change. rewrite Hg. cbn [mbind result_bind]. rewrite Hms.
  cbn [mbind result_bind]. intros H.
  apply bind_Ok in H as ([] & Hbind & H). apply bind_Ok in H as (i & Hi%ok_or_Ok & H).
  apply bind_Ok in H as (role & Hrole%ok_or_Ok & H).
  apply bind_Ok in H as (rev & [-> Hrev]%ok_or_Ok%checked_add_u64_Some & H).
  apply bind_Ok in H as (gen & [-> Hgen]%ok_or_Ok%checked_add_u64_Some & H).
  apply bind_Ok in H as (gx & Hcrypto & H). apply bind_Ok in H as ([gy msy] & Hkind & H).
  apply bind_Ok in H as (ms' & Hms' & H). apply bind_Ok in H as ([] & Hadmin & [= <-]).
  destruct (decides_Ok _ _ _ _ (apply_change_crypto_spec g change) Hcrypto)
    as (_ & c' & Hc & ->).
  apply active_member_index_Some in Hi as (a & Ha & Hactor & Hactive & HM); [|done].
  rewrite Ha in Hrole. injection Hrole as Hrole.
  destruct (decides_Ok _ _ _ _ (change_kind_at c' i role a Ha Hactor) Hkind)
    as [Hperm [Hgy [Hndy HMy]]]. cbn [fst snd] in Hgy, HMy, Hms'. subst gy.
  destruct (kind_group_frame (set_crypto_state c' g) (ch_kind change)) as (_ & _ & Hgc).
  apply canonical_members_valid in Hms' as ([_ Hnd'] & _ & HM').
  apply validate_change_binding_Ok in Hbind as (? & ? & ?).
  apply require_group_admin_continuity_spec in Hadmin; [|done].
  cbn [gt_group gt_memberships]. rewrite HM', HMy in Hadmin |- *.
  split; try done; cbn [gr_crypto_state set_counters]; rewrite ?Hgc; try done.
  exists role. split; [|done]. by exists a.
Qed.

Lemma apply_group_change_complete g' M' :
  group_step g (members_map ms0) scope actor change floor g' M' →
  ∃ t, apply_group_change g0 ms0 scope actor change floor = Ok t
       ∧ gt_group t = g' ∧ members_map (gt_memberships t) = M'.
Proof.
  destruct (canonical_members_valid _ _ _ Hms) as ([Hv Hnd] & Hsize & <-).
  intros [Hs Hi Hr [Hrev Hgen] (role & (a & HMa & Hact & Hrole) & Hperm) Hc Hg' HM' Hadm].
  unfold apply_group_change. rewrite Hg. cbn [mbind result_bind]. rewrite Hms.
  cbn [mbind result_bind]. rewrite (proj2 (validate_change_binding_Ok g scope change)) by done.
  cbn [mbind result_bind].
  destruct (active_member_index ms actor) as [i|] eqn:Hidx.
  2: { exfalso. apply (active_member_index_None _ _ Hidx Hnd role). by exists a. }
  apply active_member_index_Some in Hidx as (a' & Ha & Hactor & _ & HMa'); [|done].
  rewrite HMa in HMa'. injection HMa' as <-. cbn [ok_or mbind result_bind]. rewrite Ha.
  rewrite !(proj2 (checked_add_u64_Some _ _ _)) by eauto. cbn.
  destruct (decides_guard _ _ _ (apply_change_crypto_spec g change)) as (gx & Hgx & c & Hc' & ->);
    [by eauto|].
  assert (c = gr_crypto_state g') as -> by (by eapply crypto_step_functional).
  rewrite Hgx. cbn [mbind result_bind].
  destruct (decides_guard _ _ _ (change_kind_at (gr_crypto_state g') i (gm_role a) a Ha Hactor))
    as ([gy msy] & Hkind & Hgy & Hndy & HMy); [by rewrite Hrole|].
  cbn [fst snd] in *. rewrite <- HM' in HMy. subst gy.
  rewrite Hkind. cbn [mbind result_bind fst snd]. rewrite <- Hg'.
  destruct (canonical_members_exists g' msy) as (ms' & Hms' & HMs').
  { split; [|done]. apply rows_valid_list; [done|]. rewrite HMy, HM'.
    destruct (kind_group_frame (set_crypto_state (gr_crypto_state g') g) (ch_kind change)) as (? & ? & _).
    apply kind_members_valid; [by rewrite Hg'..|]. by apply rows_valid_list. }
  { rewrite HMy, HM'. eapply kind_members_size; [exact Hperm|]. by rewrite members_map_size. }
  rewrite Hms'. cbn [mbind result_bind].
  destruct (canonical_members_valid _ _ _ Hms') as ([_ Hnd'] & _ & _).
  rewrite (proj2 (require_group_admin_continuity_spec ms' Hnd')).
  - eexists. split; [done|]. cbn [gt_group gt_memberships]. by rewrite HMs'.
  - by rewrite HMs', HMy.
Qed.
End transition.
