(* ===== verification/GroupHistory.v ===== *)
(** Group histories: sequences of accepted changes, the invariant they keep
    (valid records and rows, exact ownership, administration), what they count,
    what they leave to removed members, and the injectivity of the bytes a
    change is hashed from. *)

From stdpp Require Import gmap.
From S2P Require Import Prelude Ids Message StoreForward Group GroupFacts GroupRefinement.

(** * Histories *)

(** A sequence of accepted changes, each applied to the stored result of the one before. *)
Inductive group_changes (g : GroupRecord) (ms : list GroupMembership) :
    list GroupChange → GroupRecord → list GroupMembership → Prop :=
| changes_none : group_changes g ms [] g ms
| changes_snoc chs g' ms' scope actor ch floor t :
    group_changes g ms chs g' ms' →
    apply_group_change g' ms' scope actor ch floor = Ok t →
    group_changes g ms (chs ++ [ch]) (gt_group t) (gt_memberships t).

(** The members with role owner are exactly the one the group's ownership names. *)
Definition ownership_exact (ownership : GroupOwnership) (M : member_map) : Prop :=
  ∀ p, owner_of ownership = Some p
       ↔ ∃ m, M !! p = Some m ∧ gm_role m = GrOwner.

Definition owners_active (M : member_map) : Prop :=
  ∀ p m, M !! p = Some m → gm_role m = GrOwner → gm_state m = GmActive.

Record group_ok (g : GroupRecord) (M : member_map) : Prop := {
  go_record : record_valid g;
  go_rows : rows_valid g M;
  go_owner : ownership_exact (gr_ownership g) M;
  go_active : owners_active M;
  go_admin : has_admin M;
}.

(** * One change *)

Lemma canonical_memberships_idempotent g ms ms' :
  canonical_group_memberships g ms = Ok ms' → canonical_group_memberships g ms' = Ok ms'.
Proof.
  intros Hms. destruct (canonical_members_valid _ _ _ Hms) as ([Hv Hnd] & Hl & _).
  destruct (decides_Ok _ _ _ _ (canonical_group_memberships_spec g ms) Hms) as [(_ & _ & Hnd0) E].
  destruct (decides_guard _ _ _ (canonical_group_memberships_spec g ms')) as (x & Hx & ->); [done|].
  rewrite Hx. f_equal. apply (sort_by_strict gm_member principal_cmp). rewrite E.
  by apply (sort_by_NoDup gm_member principal_cmp).
Qed.

Lemma apply_group_change_canonical g ms scope actor ch floor t :
  apply_group_change g ms scope actor ch floor = Ok t →
  record_valid g ∧ valid_members g ms
  ∧ group_step (set_bridge_mappings (sorted_mappings g) g) (members_map ms) scope actor ch floor
      (gt_group t) (members_map (gt_memberships t))
  ∧ canonical_group_memberships (gt_group t) (gt_memberships t) = Ok (gt_memberships t).
Proof.
  intros H. pose proof H as H'. unfold apply_group_change in H'.
  apply bind_Ok in H' as (g1 & Hg & H'). apply bind_Ok in H' as (ms1 & Hms & H').
  pose proof (apply_group_change_sound _ _ _ _ _ _ _ _ Hg Hms _ H) as Hstep.
  destruct (decides_Ok _ _ _ _ (canonical_group_record_spec g) Hg) as [Hv ->].
  destruct (decides_Ok _ _ _ _ (canonical_group_memberships_spec _ ms) Hms) as [(_ & Hrows & Hnd) _].
  split_and!; try done.
  - split; [|done]. eapply Forall_impl; [exact Hrows|]. by intros m [].
  - repeat (apply bind_Ok in H' as (? & ? & H')). injection H' as <-. cbn.
    by eapply canonical_memberships_idempotent.
Qed.

Lemma record_valid_sorted g :
  record_valid g → record_valid (set_bridge_mappings (sorted_mappings g) g).
Proof.
  assert (sorted_mappings g ≡ₚ gr_bridge_mappings g) as Hp by apply sort_by_perm.
  intros []. split; cbn; try done; [by rewrite (len_perm _ _ Hp)|by rewrite Hp..].
Qed.

Lemma NoDup_fmap_filter {A B} (f : A → B) (P : A → Prop) `{!∀ x, Decision (P x)} l :
  NoDup (f <$> l) → NoDup (f <$> filter P l).
Proof.
  induction l as [|x l IH]; [done|]. intros [Hx Hnd]%NoDup_cons.
  destruct (decide (P x)); [rewrite filter_cons_True by done|rewrite filter_cons_False by done];
    [|by apply IH].
  apply NoDup_cons. split; [|by apply IH]. intros (y & E & [_ Hy]%list_elem_of_filter)%list_elem_of_fmap.
  apply Hx. rewrite E. by apply list_elem_of_fmap_2.
Qed.

Lemma record_valid_step g M scope actor ch floor g' M' :
  record_valid g → group_step g M scope actor ch floor g' M' → record_valid g'.
Proof.
  intros [Hpub Hown Hhist Hcr Hlen Hmap Hint] [_ _ _ _ (role & _ & Hperm) Hc Hg' _ _].
  assert (validate_crypto_state (gr_crypto_state g') = Ok tt) as Hcr'.
  { unfold crypto_step in Hc. repeat case_match; naive_solver congruence. }
  rewrite Hg'. remember (gr_crypto_state g') as c eqn:E. clear Hg' E g' Hc.
  destruct (ch_kind ch) as [p r|p|p r|p|pol|pol|pol|b|i e]; cbn in Hperm |- *; split; try done; cbn.
  - destruct (gr_ownership g); cbn in *; destruct Hperm as (_ & _ & _ & Ht); try done;
      by rewrite bool_decide_true.
  - by destruct Hperm.
  - right. destruct Hperm. by eauto.
  - destruct Hperm as (_ & _ & ? & _). unfold len in *. rewrite length_app. cbn. lia.
  - apply Forall_app. split; [done|]. apply Forall_singleton. apply Hperm.
  - destruct Hperm as (_ & _ & _ & Hb). rewrite fmap_app. cbn. rewrite Permutation_app_comm.
    by constructor.
  - etrans; [|exact Hlen]. unfold len. apply inj_le, length_filter.
  - rewrite Forall_forall in *. intros x [_ Hx]%list_elem_of_filter. by apply Hmap.
  - by apply NoDup_fmap_filter.
Qed.

Lemma rows_valid_step g M scope actor ch floor g' M' :
  rows_valid g M → group_step g M scope actor ch floor g' M' → rows_valid g' M'.
Proof.
  intros Hv [_ _ _ _ _ _ Hg' HM' _]. rewrite HM'.
  destruct (kind_group_frame (set_crypto_state (gr_crypto_state g') g) (ch_kind ch)) as (? & ? & _).
  apply kind_members_valid; [by rewrite Hg'..|done].
Qed.

(** * Ownership *)

Lemma alter_at f p m (M : member_map) : M !! p = Some m → alter f p M = <[p := f m]> M.
Proof.
  intros Hm. apply map_eq. intros q. destruct (decide (q = p)) as [->|Hne].
  - by rewrite lookup_alter_eq, lookup_insert_eq, Hm.
  - by rewrite lookup_alter_ne, lookup_insert_ne.
Qed.

Definition owned (ownership : GroupOwnership) (M : member_map) : Prop :=
  ownership_exact ownership M ∧ owners_active M.

(** Rewriting a row that is not the owner's, to a row that is not an owner's. *)
Lemma owned_insert o M p m' :
  owned o M → (∀ m, M !! p = Some m → gm_role m ≠ GrOwner) → gm_role m' ≠ GrOwner →
  owned o (<[p := m']> M).
Proof.
  intros [Ho Ha] Hp Hm'. split.
  - intros q. rewrite (Ho q). setoid_rewrite lookup_insert_Some. split.
    + intros (m & Hm & Hr). exists m. split; [|done]. right. split; [|done].
      intros ->. by apply (Hp m).
    + intros (m & [[-> ->]|[_ Hm]] & Hr); [done|eauto].
  - intros q m [[_ <-]|[_ Hm]]%lookup_insert_Some; [done|]. by apply (Ha q).
Qed.

Lemma owned_transfer o M actor p a m :
  owned o M → transferable o p → M !! actor = Some a → gm_role a = GrOwner →
  M !! p = Some m → gm_state m = GmActive →
  owned (transferred o p) (<[p := with_role GrOwner m]> (<[actor := with_role GrAdmin a]> M)).
Proof.
  intros [Ho Ha] Ht Hactor Hr Hp Hs.
  assert (owner_of o = Some actor) as Hown by (apply Ho; eauto).
  assert (owner_of (transferred o p) = Some p) as Hown' by (by destruct o).
  split.
  - intros q. rewrite Hown'. split.
    + intros [= <-]. exists (with_role GrOwner m). by rewrite lookup_insert_eq.
    + intros (x & Hx & Hxr). apply lookup_insert_Some in Hx as [[-> _]|[_ Hx]]; [done|].
      apply lookup_insert_Some in Hx as [[_ <-]|[Hne Hx]]; [done|].
      assert (owner_of o = Some q) by (apply Ho; eauto). congruence.
  - intros q x [[_ <-]|[_ Hx]]%lookup_insert_Some; [done|].
    apply lookup_insert_Some in Hx as [[_ <-]|[_ Hx]]; [done|]. by apply (Ha q).
Qed.

Lemma owned_step g M scope actor ch floor g' M' :
  owned (gr_ownership g) M → group_step g M scope actor ch floor g' M' → owned (gr_ownership g') M'.
Proof.
  intros Ho [_ _ _ _ (role & (a & Ha & _ & Hrole) & Hperm) _ Hg' -> _]. rewrite Hg'.
  destruct (ch_kind ch) as [p r|p|p r|p|pol|pol|pol|b|i e]; cbn in *; try done.
  - destruct Hperm as (_ & Hr & _ & _ & Hp). apply owned_insert; [done| |done].
    intros m Hm Hmr. rewrite Hm in Hp. destruct Ho as [_ Hact]. specialize (Hact p m Hm Hmr). congruence.
  - destruct Hperm as (r & (m & Hm & _ & Hr) & Hne & _). rewrite (alter_at _ _ m) by done.
    apply owned_insert; [done|intros ? ?|]; cbn; congruence.
  - destruct Hperm as (_ & Hr & r0 & (m & Hm & _ & Hr0) & Hne). rewrite (alter_at _ _ m) by done.
    apply owned_insert; [done|intros ? ?|]; cbn; congruence.
  - destruct Hperm as (-> & Hne & (r0 & m & Hm & Hs & _) & Ht).
    rewrite (alter_at _ actor a) by done. rewrite (alter_at _ p m) by (by rewrite lookup_insert_ne).
    by apply owned_transfer.
Qed.

Lemma group_ok_step g M scope actor ch floor g' M' :
  group_ok g M → group_step g M scope actor ch floor g' M' → group_ok g' M'.
Proof.
  intros [Hrec Hrows Ho Ha _] Hstep.
  destruct (owned_step _ _ _ _ _ _ _ _ (conj Ho Ha) Hstep). split; [| |done|done|apply Hstep].
  - by eapply record_valid_step.
  - by eapply rows_valid_step.
Qed.

Lemma group_ok_change g ms scope actor ch floor t :
  group_ok g (members_map ms) → apply_group_change g ms scope actor ch floor = Ok t →
  group_ok (gt_group t) (members_map (gt_memberships t)).
Proof.
  intros [Hrec Hrows Ho Ha Hadm] (_ & _ & Hstep & _)%apply_group_change_canonical.
  eapply group_ok_step; [|exact Hstep]. split; try done; [by apply record_valid_sorted|].
  intros p m Hm. destruct (Hrows p m Hm) as [? []]. done.
Qed.

Lemma creator_role_owner o creator r :
  creator_role o creator = Ok r →
  r = GrOwner ∧ owner_of o = Some creator ∨ r = GrAdmin ∧ owner_of o = None.
Proof.
  intros H. destruct o as [p|p| | |[p|] e]; cbn in H; res_inv; bool_norm; subst; cbn; naive_solver.
Qed.

Lemma group_ok_creation g0 scope creator g m :
  canonical_group_creation g0 scope creator = Ok (g, m) →
  group_ok g (members_map [m]) ∧ gr_revision g = 0%Z ∧ gr_replication_generation g = 0%Z
  ∧ valid_members g [m].
Proof.
  intros H. unfold canonical_group_creation in H. res_inv. bool_norm. subst.
  match goal with H : canonical_group_record _ = Ok _ |- _ => rename H into Hg end.
  match goal with H : creator_role _ _ = Ok ?x |- _ => apply creator_role_owner in H as Hrole;
    rename x into r end.
  match goal with H : _ ∧ _ |- _ => destruct H as [Hrev Hgen] end.
  destruct (decides_Ok _ _ _ _ (canonical_group_record_spec g0) Hg) as [Hv E].
  assert (membership_valid g (fresh_membership g creator r 0 0)) as Hm by (split; cbn; [done..|lia|done]).
  assert (∀ p x, members_map [fresh_membership g creator r 0 0] !! p = Some x
                 ↔ p = creator ∧ x = fresh_membership g creator r 0 0) as Hlook.
  { intros p x. rewrite members_map_lookup by apply NoDup_singleton.
    rewrite list_elem_of_singleton. naive_solver. }
  split_and!; try done; [|by split; [apply Forall_singleton|apply NoDup_singleton]].
  split.
  - rewrite E. by apply record_valid_sorted.
  - intros p x [-> ->]%Hlook. done.
  - intros p. setoid_rewrite Hlook. split.
    + intros Ho. exists (fresh_membership g creator r 0 0). cbn.
      destruct Hrole as [[-> Hc]|[-> Hc]]; [|congruence]. split; [|done]. split; [congruence|done].
    + intros (x & [-> ->] & Hr). cbn in Hr. destruct Hrole as [[-> Hc]|[-> Hc]]; congruence.
  - intros p x [-> ->]%Hlook. done.
  - exists creator, r. split; [|by destruct Hrole as [[-> _]|[-> _]]].
    exists (fresh_membership g creator r 0 0). by rewrite Hlook.
Qed.

Lemma group_ok_changes g ms chs g' ms' :
  group_changes g ms chs g' ms' → group_ok g (members_map ms) → group_ok g' (members_map ms').
Proof.
  induction 1 as [|chs g' ms' scope actor ch floor t _ IH Ht]; [done|].
  intros Hok. eapply group_ok_change; [by apply IH|exact Ht].
Qed.

(** * Counters *)

Definition epoch_advance (c : GroupCryptoState) (ch : GroupChange) : Z :=
  if security_sensitive (ch_kind ch) && bool_decide (is_Some (gc_capability_id c)) then 1 else 0.

Lemma crypto_step_counters c ch c' :
  crypto_step c ch c' →
  gc_capability_id c' = gc_capability_id c ∧ gc_epoch c' = (gc_epoch c + epoch_advance c ch)%Z.
Proof.
  unfold crypto_step, epoch_advance.
  destruct (security_sensitive _); cbn; [|intros [_ ->]; split; [done|lia]].
  destruct (gc_capability_id c) as [cap|] eqn:E, (ch_next_crypto_state ch) as [next|]; try done.
  - intros (-> & _ & ? & -> & _). rewrite bool_decide_true by eauto. done.
  - intros ->. rewrite bool_decide_false by (by intros [? ?]). split; [done|lia].
Qed.

Lemma counters_step g M scope actor ch floor g' M' :
  group_step g M scope actor ch floor g' M' →
  gr_scope g' = gr_scope g ∧ gr_group_id g' = gr_group_id g
  ∧ gr_conversation g' = gr_conversation g
  ∧ gr_revision g' = (gr_revision g + 1)%Z
  ∧ gr_replication_generation g' = (gr_replication_generation g + 1)%Z.
Proof.
  intros [_ _ _ _ _ _ -> _ _]. by destruct (ch_kind ch).
Qed.

(** The membership changes of a history. *)
Definition membership_changes (chs : list GroupChange) : Z :=
  len (List.filter (λ ch, security_sensitive (ch_kind ch)) chs).

Lemma membership_changes_snoc chs ch :
  membership_changes (chs ++ [ch])
  = (membership_changes chs + if security_sensitive (ch_kind ch) then 1 else 0)%Z.
Proof.
  unfold membership_changes, len. rewrite List.filter_app, length_app. cbn.
  destruct (security_sensitive _); cbn; lia.
Qed.

(** * Removed members *)

Lemma step_keeps_removed g M scope actor ch floor g' M' p m :
  group_step g M scope actor ch floor g' M' →
  M !! p = Some m → gm_state m = GmRemoved → (∀ r, ch_kind ch ≠ GkAddMember p r) →
  M' !! p = Some m.
Proof.
  intros [_ _ _ _ (role & (a & Ha & Hact & _) & Hperm) _ _ -> _] Hm Hs Hadd.
  assert (p ≠ actor) as Hp by congruence.
  destruct (ch_kind ch) as [q r|q|q r|q|pol|pol|pol|b|i e]; cbn in *; try done.
  - rewrite lookup_insert_ne; [done|]. intros ->. by apply (Hadd r).
  - destruct Hperm as (r & (x & ? & ? & _) & _). rewrite lookup_alter_ne; [done|]. congruence.
  - destruct Hperm as (_ & _ & r0 & (x & ? & ? & _) & _). rewrite lookup_alter_ne; [done|]. congruence.
  - destruct Hperm as (_ & _ & (r0 & x & ? & ? & _) & _).
    rewrite !lookup_alter_ne; [done|congruence..].
Qed.

Lemma changes_keep_removed g ms chs g' ms' p m :
  group_changes g ms chs g' ms' →
  Forall (λ ch, ∀ r, ch_kind ch ≠ GkAddMember p r) chs →
  members_map ms !! p = Some m → gm_state m = GmRemoved → members_map ms' !! p = Some m.
Proof.
  induction 1 as [|chs g' ms' scope actor ch floor t _ IH Ht]; [done|].
  intros [Hchs [Hch _]%Forall_cons]%Forall_app Hm Hs.
  apply apply_group_change_canonical in Ht as (_ & _ & Hstep & _).
  eapply step_keeps_removed; [exact Hstep|by apply IH|done|exact Hch].
Qed.

(** An actor without an active membership is refused, whatever the change. *)
Lemma inactive_actor_denied g ms scope actor ch floor :
  record_valid g → valid_members g ms → (len ms ≤ MAX_GROUP_MEMBERS)%Z →
  validate_change_binding g scope ch = Ok tt →
  (∀ r, ¬ active_role (members_map ms) actor r) →
  apply_group_change g ms scope actor ch floor = Err GePermissionDenied.
Proof.
  intros Hv [Hrows Hnd] Hl Hb Hact. unfold apply_group_change.
  destruct (decides_guard _ _ _ (canonical_group_record_spec g) Hv) as (g1 & -> & ->).
  cbn [mbind result_bind].
  destruct (decides_guard _ _ _
    (canonical_group_memberships_spec (set_bridge_mappings (sorted_mappings g) g) ms))
    as (ms1 & Hms & _).
  { split_and!; [done| |done]. eapply Forall_impl; [exact Hrows|]. by intros m []. }
  rewrite Hms. cbn [mbind result_bind].
  change (validate_change_binding _ scope ch) with (validate_change_binding g scope ch).
  rewrite Hb. cbn [mbind result_bind].
  apply canonical_members_valid in Hms as ([_ Hnd1] & _ & HM).
  destruct (active_member_index ms1 actor) as [i|] eqn:Hi; [|done].
  apply active_member_index_Some in Hi as (m & _ & _ & Hs & Hm); [|done].
  rewrite HM in Hm. exfalso. apply (Hact (gm_role m)). by exists m.
Qed.

Lemma changes_stay_canonical g ms chs g' ms' :
  group_changes g ms chs g' ms' → canonical_group_memberships g ms = Ok ms →
  canonical_group_memberships g' ms' = Ok ms'.
Proof.
  induction 1 as [|chs g' ms' scope actor ch floor t _ IH Ht]; [done|]. intros _.
  by apply apply_group_change_canonical in Ht as (_ & _ & _ & ?).
Qed.

(** * Fingerprints *)

Definition fits_u64 (value : bytes) : Prop := (Z.of_nat (length value) < 2 ^ 64)%Z.

Definition crypto_typed (c : GroupCryptoState) : Prop :=
  is_u64 (gc_epoch c) ∧ match gc_capability_id c with Some s => fits_u64 s | None => True end.

Definition kind_typed (kind : GroupChangeKind) : Prop :=
  match kind with
  | GkSetHistoryPolicy (GhLastNMessages count) => is_u32 count
  | GkSetHistoryPolicy (GhFromTimestamp timestamp) => is_i64 timestamp
  | GkSetHistoryPolicy (GhCustomPolicy identifier) => fits_u64 identifier
  | GkAddBridgeMapping mapping => fits_u64 (bm_external_group_id mapping)
  | GkRemoveBridgeMapping _ external_group_id => fits_u64 external_group_id
  | _ => True
  end.

(** The machine ranges of the fields of a change. *)
Definition change_typed (ch : GroupChange) : Prop :=
  is_u64 (ch_expected_revision ch) ∧ kind_typed (ch_kind ch)
  ∧ match ch_next_crypto_state ch with Some c => crypto_typed c | None => True end.

Lemma group_bytes_pf : prefix_free fits_u64 push_bytes.
Proof. apply (prefix_free_len 8). Qed.

Lemma group_id_pf : prefix_free (λ _, True) (λ id : OpaqueId, push_bytes (as_wire_bytes id)).
Proof. apply opaque_id_pf. lia. Qed.

Lemma group_scope_pf : prefix_free (λ _, True) push_scope.
Proof.
  intros [t n] [t' n'] r r' _ _ E. unfold push_scope in E. cbn in E.
  rewrite <- !app_assoc in E. apply group_id_pf in E as [<- E]; [|done..].
  destruct n, n'; apply cons_inv in E as [? E]; try done.
  by apply group_id_pf in E as [<- <-].
Qed.

Lemma group_principal_pf : prefix_free (λ _, True) push_principal.
Proof.
  intros [i k] [i' k'] r r' _ _ E. unfold push_principal in E. cbn in E.
  rewrite <- !app_assoc in E. apply group_id_pf in E as [<- E]; [|done..].
  apply cons_inv in E as [->%principal_kind_code_inj <-]. done.
Qed.

Lemma history_policy_pf :
  prefix_free (λ p, kind_typed (GkSetHistoryPolicy p)) push_history_policy.
Proof.
  intros [] [] r r' Hx Hy E; cbn in E; apply cons_inv in E as [E0 E]; try discriminate E0;
    try (by rewrite E); cbn in Hx, Hy.
  - by apply (prefix_free_be 4) in E as [<- <-].
  - by apply prefix_free_i64 in E as [<- <-].
  - by apply group_bytes_pf in E as [<- <-].
Qed.

Lemma crypto_state_pf : prefix_free crypto_typed push_crypto_state.
Proof.
  intros [cap e ref] [cap' e' ref'] r r' [He Hc] [He' Hc'] E. cbn in *.
  unfold push_crypto_state in E. cbn in E. rewrite <- !app_assoc in E.
  assert (cap = cap' ∧ be_bytes 8 e ++ match ref with Some s => 1%Z :: push_bytes (as_wire_bytes s) | None => [0%Z] end ++ r
     = be_bytes 8 e' ++ match ref' with Some s => 1%Z :: push_bytes (as_wire_bytes s) | None => [0%Z] end ++ r') as [<- E'].
  { destruct cap, cap'; apply cons_inv in E as [E0 E]; try discriminate E0; [|done].
    by apply group_bytes_pf in E as [<- E]. }
  apply (prefix_free_be 8) in E' as [<- E']; [|done..].
  destruct ref, ref'; apply cons_inv in E' as [E0 E']; try discriminate E0; [|by rewrite E'].
  by apply group_id_pf in E' as [<- <-].
Qed.

Lemma change_kind_pf : prefix_free kind_typed group_change_kind_bytes.
Proof.
  intros k k' r r' Hx Hy E.
  destruct k as [p x|p|p x|p|pol|pol|pol|[i e]|i e], k' as [q y|q|q y|q|pol'|pol'|pol'|[j f]|j f];
    cbn in E; apply cons_inv in E as [E0 E]; try discriminate E0; clear E0;
    rewrite <- ?app_assoc in E.
  - apply group_principal_pf in E as [<- E]; [|done..]. by destruct x, y; simplify_eq/=.
  - by apply group_principal_pf in E as [<- <-].
  - apply group_principal_pf in E as [<- E]; [|done..]. by destruct x, y; simplify_eq/=.
  - by apply group_principal_pf in E as [<- <-].
  - by apply history_policy_pf in E as [<- <-].
  - destruct pol as [[] [] []], pol' as [[] [] []]; by simplify_eq/=.
  - destruct pol, pol'; by simplify_eq/=.
  - cbn in *. apply group_id_pf in E as [<- E]; [|done..]. by apply group_bytes_pf in E as [<- <-].
  - cbn in *. apply group_id_pf in E as [<- E]; [|done..]. by apply group_bytes_pf in E as [<- <-].
Qed.

(** The hashed bytes determine every field of the change. *)
Lemma group_change_preimage_inj a b :
  change_typed a → change_typed b → group_change_preimage a = group_change_preimage b → a = b.
Proof.
  destruct a as [e s g r k c], b as [e' s' g' r' k' c']. intros (Hr & Hk & Hc) (Hr' & Hk' & Hc') E.
  cbn in *. unfold group_change_preimage in E. apply app_inv_head in E. cbn in E.
  apply group_id_pf in E as [<- E]; [|done..]. apply group_scope_pf in E as [<- E]; [|done..].
  apply group_id_pf in E as [<- E]; [|done..]. apply (prefix_free_be 8) in E as [<- E]; [|done..].
  apply change_kind_pf in E as [<- E]; [|done..].
  destruct c, c'; apply cons_inv in E as [E0 E]; try discriminate E0; [|done].
  by apply (prefix_free_end _ _ _ _ crypto_state_pf) in E as <-.
Qed.

Lemma changes_record_valid g ms chs g' ms' :
  group_changes g ms chs g' ms' → record_valid g → record_valid g'.
Proof.
  induction 1 as [|chs g' ms' scope actor ch floor t _ IH Ht]; [done|]. intros Hv.
  apply apply_group_change_canonical in Ht as (_ & _ & Hstep & _).
  eapply record_valid_step; [|exact Hstep]. by apply record_valid_sorted, IH.
Qed.
