(* ===== verification/GroupTheorems.v ===== *)
(** Group correctness: the canonical transition refines the abstract machine,
    ownership and administration are exact along every history, removed members
    have no authority, the counters count the changes, and the fingerprint
    binds a change. *)

From stdpp Require Import gmap.
From S2P Require Import Prelude Ids Message StoreForward Group GroupFacts GroupRefinement GroupHistory.

(** * A concrete group *)

Definition ada : PrincipalRef := mk_principal (oid "ada") PkPerson.
Definition bob : PrincipalRef := mk_principal (oid "bob") PkPerson.
Definition eve : PrincipalRef := mk_principal (oid "eve") PkBot.
Definition home : TenantScope := mk_scope (oid "tenant") (Some (oid "home")).
Definition mls (epoch : Z) (state : string) : GroupCryptoState :=
  mk_group_crypto (Some GROUP_MLS_CAPABILITY) epoch (Some (oid state)).
Definition book_club : GroupRecord :=
  mk_group home (oid "books") (mk_conversation (oid "chat") CkPrivateGroup) (GoPersonOwned ada)
    GhFromJoin DpDurable (mls 0 "s0") None GmsIdle [] 0 0.
Definition founder : GroupMembership := fresh_membership book_club ada GrOwner 0 0.
Definition change_at (revision : Z) (kind : GroupChangeKind) (crypto : option GroupCryptoState) :
    GroupChange :=
  mk_group_change (oid "event") home (oid "books") revision kind crypto.

Definition change_group (t : GroupTransition) (actor : PrincipalRef) (change : GroupChange) :
    GroupTransition :=
  match apply_group_change (gt_group t) (gt_memberships t) home actor change (Some 7%Z) with
  | Ok t' => t'
  | Err _ => t
  end.

Definition founded : GroupTransition := mk_group_transition book_club [founder].
Definition add_bob := change_at 0 (GkAddMember bob GrAdmin) (Some (mls 1 "s1")).
Definition with_bob := change_group founded ada add_bob.
Definition hand_over := change_at 1 (GkTransferOwnership bob) (Some (mls 2 "s2")).
Definition handed_over := change_group with_bob ada hand_over.
Definition remove_ada := change_at 2 (GkRemoveMember ada) (Some (mls 3 "s3")).
Definition without_ada := change_group handed_over bob remove_ada.
Definition relax_delivery := change_at 3 (GkSetDeliveryPolicy DpBestEffort) None.
Definition relaxed := change_group without_ada bob relax_delivery.

Lemma club_history :
  group_changes book_club [founder] ((([] ++ [add_bob]) ++ [hand_over]) ++ [remove_ada])
    (gt_group without_ada) (gt_memberships without_ada).
Proof.
  apply changes_snoc with (gt_group handed_over) (gt_memberships handed_over) home bob (Some 7%Z);
    [|vm_compute; reflexivity].
  apply changes_snoc with (gt_group with_bob) (gt_memberships with_bob) home ada (Some 7%Z);
    [|vm_compute; reflexivity].
  apply changes_snoc with book_club [founder] home ada (Some 7%Z); [|vm_compute; reflexivity].
  constructor.
Qed.

(** * Properties *)

(** C8: a Group change is accepted exactly when the abstract Group machine has
    a step for it (scope, revision, an active actor whose role permits the
    change, the crypto epoch rule and a remaining administrator), and then the
    stored record and membership rows are exactly the ones of that step. *)
Theorem apply_group_change_refines (g0 g : GroupRecord) (ms0 ms : list GroupMembership)
    (scope : TenantScope) (actor : PrincipalRef) (change : GroupChange) (floor : option Z)
    (g' : GroupRecord) (M' : member_map)
    (Hg : canonical_group_record g0 = Ok g) (Hms : canonical_group_memberships g ms0 = Ok ms) :
  (∃ t, apply_group_change g0 ms0 scope actor change floor = Ok t
        ∧ gt_group t = g' ∧ members_map (gt_memberships t) = M')
  ↔ group_step g (members_map ms0) scope actor change floor g' M'.
Proof.
  split; [|by eapply apply_group_change_complete].
  intros (t & Ht & <- & <-). by eapply apply_group_change_sound.
Qed.

Lemma apply_group_change_refines_witness :
  group_step book_club (members_map [founder]) home ada add_bob (Some 7%Z)
    (gt_group with_bob) (members_map (gt_memberships with_bob)).
Proof.
  apply (apply_group_change_refines book_club book_club [founder] [founder]).
  - vm_compute. reflexivity.
  - vm_compute. reflexivity.
  - exists with_bob. split; [vm_compute; reflexivity|done].
Defined.

(** C25: in every Group that was created and then changed any number of times,
    the members with role Owner are exactly the principal the ownership names
    (so there is at most one, and none in shared or ownerless groups), the
    owner is active, an active owner or admin remains, the record is valid, and
    the member rows are valid and in canonical order. *)
Theorem group_ownership_is_exact (g0 g g' : GroupRecord) (m : GroupMembership)
    (ms' : list GroupMembership) (scope : TenantScope) (creator : PrincipalRef)
    (chs : list GroupChange)
    (Hnew : canonical_group_creation g0 scope creator = Ok (g, m))
    (Hchs : group_changes g [m] chs g' ms') :
  (∀ p, owner_of (gr_ownership g') = Some p
        ↔ ∃ x, x ∈ ms' ∧ gm_member x = p ∧ gm_role x = GrOwner)
  ∧ (∀ x, x ∈ ms' → gm_role x = GrOwner → gm_state x = GmActive)
  ∧ (∃ x, x ∈ ms' ∧ gm_state x = GmActive ∧ gm_role x ≠ GrMember)
  ∧ record_valid g' ∧ canonical_group_memberships g' ms' = Ok ms'.
Proof.
  destruct (group_ok_creation _ _ _ _ _ Hnew) as (Hok & _ & _ & [Hv Hnd]).
  assert (canonical_group_memberships g [m] = Ok [m]) as Hc.
  { destruct (decides_guard _ _ _ (canonical_group_memberships_spec g [m])) as (x & Hx & ->); [|done].
    done. }
  apply (changes_stay_canonical _ _ _ _ _ Hchs) in Hc.
  destruct (group_ok_changes _ _ _ _ _ Hchs Hok) as [Hrec _ Ho Ha (p & r & (x & Hx & Hs & Hr) & Hne)].
  destruct (canonical_members_valid _ _ _ Hc) as ([_ Hnd'] & _ & _).
  split_and!; [| | |done|done].
  - intros q. rewrite (Ho q). setoid_rewrite members_map_lookup; [|done]. naive_solver.
  - intros y Hy. apply (Ha (gm_member y)). by apply members_map_lookup.
  - apply members_map_lookup in Hx as [Hx _]; [|done]. exists x. split_and!; congruence.
Qed.

Lemma group_ownership_is_exact_witness :
  owner_of (gr_ownership (gt_group without_ada)) = Some bob
  ∧ ∃ x, x ∈ gt_memberships without_ada ∧ gm_member x = bob ∧ gm_role x = GrOwner.
Proof.
  split; [vm_compute; reflexivity|].
  apply (group_ownership_is_exact book_club book_club (gt_group without_ada) founder
    (gt_memberships without_ada) home ada _ ltac:(vm_compute; reflexivity) club_history).
  vm_compute. reflexivity.
Defined.

(** A removed member stays without authority: as long as no change adds the
    principal again, its tombstone row is kept unchanged by every accepted
    change, and every change it attempts itself is refused as PermissionDenied. *)
Theorem removed_member_has_no_authority (g g' : GroupRecord) (ms ms' : list GroupMembership)
    (chs : list GroupChange) (p : PrincipalRef) (m : GroupMembership)
    (Hrec : record_valid g) (Hms : canonical_group_memberships g ms = Ok ms)
    (Hm : m ∈ ms) (Hp : gm_member m = p) (Hs : gm_state m = GmRemoved)
    (Hadd : Forall (λ ch, ∀ r, ch_kind ch ≠ GkAddMember p r) chs)
    (Hchs : group_changes g ms chs g' ms') :
  m ∈ ms'
  ∧ ∀ scope ch floor, validate_change_binding g' scope ch = Ok tt →
      apply_group_change g' ms' scope p ch floor = Err GePermissionDenied.
Proof.
  destruct (canonical_members_valid _ _ _ Hms) as ([_ Hnd] & _ & _).
  destruct (canonical_members_valid _ _ _ (changes_stay_canonical _ _ _ _ _ Hchs Hms))
    as (Hv' & Hl & _).
  assert (members_map ms' !! p = Some m) as Hm'.
  { eapply changes_keep_removed; [exact Hchs|done| |done]. by apply members_map_lookup. }
  split; [by apply members_map_lookup in Hm' as [? _]; [|apply Hv']|].
  intros scope ch floor Hb. apply inactive_actor_denied; [|done..|].
  - by eapply changes_record_valid.
  - intros r (x & Hx & ? & _). congruence.
Qed.

Lemma removed_member_has_no_authority_witness :
  apply_group_change (gt_group relaxed) (gt_memberships relaxed) home ada
    (change_at 4 (GkSetDeliveryPolicy DpUrgent) None) None = Err GePermissionDenied.
Proof.
  destruct (removed_member_has_no_authority (gt_group without_ada) (gt_group relaxed)
    (gt_memberships without_ada) (gt_memberships relaxed) ([] ++ [relax_delivery]) ada
    (remove_at 3 (with_role GrAdmin founder))) as [_ Hdeny].
  - destruct (decides_Ok _ _ _ (gt_group without_ada) (canonical_group_record_spec (gt_group without_ada)))
      as [Hv _]; [vm_compute; reflexivity|exact Hv].
  - vm_compute. reflexivity.
  - change (gt_memberships without_ada)
      with [remove_at 3 (with_role GrAdmin founder); fresh_membership book_club bob GrOwner 1 7].
    apply list_elem_of_here.
  - reflexivity.
  - reflexivity.
  - apply Forall_singleton. discriminate.
  - apply changes_snoc with (gt_group without_ada) (gt_memberships without_ada) home bob (Some 7%Z);
      [constructor|vm_compute; reflexivity].
  - apply Hdeny. vm_compute. reflexivity.
Defined.

(** Every accepted change moves revision and replication generation by one
    and keeps scope, identity and conversation; and when group encryption is
    configured its epoch counts exactly the membership, role and ownership
    changes, so none of them happens without a new epoch and no other change
    touches it. *)
Theorem group_epoch_counts_membership_changes (g g' : GroupRecord)
    (ms ms' : list GroupMembership) (chs : list GroupChange)
    (Hchs : group_changes g ms chs g' ms') :
  gr_scope g' = gr_scope g ∧ gr_group_id g' = gr_group_id g
  ∧ gr_conversation g' = gr_conversation g
  ∧ gr_revision g' = (gr_revision g + len chs)%Z
  ∧ gr_replication_generation g' = (gr_replication_generation g + len chs)%Z
  ∧ gc_capability_id (gr_crypto_state g') = gc_capability_id (gr_crypto_state g)
  ∧ (is_Some (gc_capability_id (gr_crypto_state g)) →
     gc_epoch (gr_crypto_state g') = (gc_epoch (gr_crypto_state g) + membership_changes chs)%Z).
Proof.
  induction Hchs as [|chs g' ms' scope actor ch floor t _ IH Ht].
  - unfold membership_changes, len. cbn. split_and!; try done; intros; lia.
  - apply apply_group_change_canonical in Ht as (_ & _ & Hstep & _).
    destruct (counters_step _ _ _ _ _ _ _ _ Hstep) as (-> & -> & -> & -> & ->).
    destruct (crypto_step_counters _ _ _ (gs_crypto _ _ _ _ _ _ _ _ Hstep)) as [-> ->].
    cbn. destruct IH as (-> & -> & -> & -> & -> & Hcap & He).
    rewrite membership_changes_snoc. unfold len, epoch_advance in *. rewrite length_app. cbn.
    split_and!; try done; try lia. intros Hsome. rewrite He by done.
    rewrite (bool_decide_true _) by (by rewrite Hcap). rewrite andb_true_r. destruct (security_sensitive _); lia.
Qed.

Lemma group_epoch_counts_membership_changes_witness :
  gc_epoch (gr_crypto_state (gt_group without_ada)) = 3%Z.
Proof.
  destruct (group_epoch_counts_membership_changes _ _ _ _ _ club_history) as (_ & _ & _ & _ & _ & _ & He).
  apply He. eexists. reflexivity.
Defined.

(** Equal change fingerprints mean equal Group changes, unless they exhibit
    a collision of the hash itself. *)
Theorem group_change_fingerprint_binds `{Sha256} (a b : GroupChange)
    (Ha : change_typed a) (Hb : change_typed b)
    (Heq : group_change_fingerprint a = group_change_fingerprint b) :
  a = b ∨ (group_change_preimage a ≠ group_change_preimage b
           ∧ sha256 (group_change_preimage a) = sha256 (group_change_preimage b)).
Proof.
  injection Heq as Heq. destruct (decide (group_change_preimage a = group_change_preimage b));
    [left; by apply group_change_preimage_inj|by right].
Qed.

#[local] Existing Instance toy_digest.

Lemma group_change_fingerprint_binds_witness :
  add_bob = add_bob
  ∨ (group_change_preimage add_bob ≠ group_change_preimage add_bob
     ∧ sha256 (group_change_preimage add_bob) = sha256 (group_change_preimage add_bob)).
Proof.
  apply (group_change_fingerprint_binds add_bob add_bob).
  - repeat split; vm_compute; first [reflexivity|discriminate].
  - repeat split; vm_compute; first [reflexivity|discriminate].
  - reflexivity.
Defined.
