(* ===== verification/Version.v ===== *)
(** Protocol versions and their negotiation (crates/ucr-protocol/src/version.rs and
    [ProtocolVersion] of crates/ucr-model/src/lib.rs). *)

From S2P Require Import Prelude.

Record ProtocolVersion := mk_version {
  pv_major : Z; (* u32 *)
  pv_minor : Z; (* u32 *)
}.
#[global] Instance ProtocolVersion_eq_dec : EqDecision ProtocolVersion.
Proof. solve_decision. Defined.

Definition RUNTIME_ENVELOPE_SCHEMA_V1 : ProtocolVersion := mk_version 1 0.

(** The derived [Ord]: major first, then minor. *)
Definition version_cmp (x y : ProtocolVersion) : comparison :=
  then_with (pv_major x ?= pv_major y)%Z (pv_minor x ?= pv_minor y)%Z.

Definition version_leb (x y : ProtocolVersion) : bool :=
  match version_cmp x y with Gt => false | _ => true end.
Definition version_ltb (x y : ProtocolVersion) : bool :=
  match version_cmp x y with Lt => true | _ => false end.

(** [core::cmp::max] and [core::cmp::min] on versions. *)
Definition version_max (x y : ProtocolVersion) : ProtocolVersion :=
  if version_leb x y then y else x.
Definition version_min (x y : ProtocolVersion) : ProtocolVersion :=
  if version_leb x y then x else y.

Record VersionRange := mk_range {
  vr_min : ProtocolVersion;
  vr_max : ProtocolVersion;
}.

Inductive VersionNegotiationError :=
| VnInvalidRange | VnNoMutualVersion | VnBelowLocalMinimum | VnEmptyAdvertisement.

Definition range_invalid (range : VersionRange) : bool :=
  negb (pv_major (vr_min range) =? pv_major (vr_max range))%Z
  || (pv_minor (vr_max range) <? pv_minor (vr_min range))%Z.

Definition version_range_new (min max : ProtocolVersion) :
    result VersionNegotiationError VersionRange :=
  reject_if (range_invalid (mk_range min max)) VnInvalidRange ;;
  Ok (mk_range min max).

(** The loop variables [best] and [had_overlap]. *)
Definition negotiation : Type := option ProtocolVersion * bool.

Definition consider_pair (minimum : ProtocolVersion) (state : negotiation)
    (pair : VersionRange * VersionRange) : negotiation :=
  let '(local_range, remote_range) := pair in
  let overlap_min := version_max (vr_min local_range) (vr_min remote_range) in
  let overlap_max := version_min (vr_max local_range) (vr_max remote_range) in
  if version_ltb overlap_max overlap_min then state
  else if version_ltb overlap_max minimum then (state.1, true)
  else (Some (match state.1 with
              | None => overlap_max
              | Some current => version_max current overlap_max
              end), true).

(** The pairs the nested loops visit, in their order. *)
Definition range_pairs (local remote : list VersionRange) : list (VersionRange * VersionRange) :=
  flat_map (λ l, (λ r, (l, r)) <$> remote) local.

Definition negotiate_version_sets (local remote : list VersionRange)
    (minimum : ProtocolVersion) : result VersionNegotiationError ProtocolVersion :=
  reject_if (bool_decide (local = []) || bool_decide (remote = [])) VnEmptyAdvertisement ;;
  reject_if (existsb range_invalid (local ++ remote)) VnInvalidRange ;;
  match foldl (consider_pair minimum) (None, false) (range_pairs local remote) with
  | (Some version, _) => Ok version
  | (None, true) => Err VnBelowLocalMinimum
  | (None, false) => Err VnNoMutualVersion
  end.

Definition negotiate_version (local remote : VersionRange) (minimum : ProtocolVersion) :
    result VersionNegotiationError ProtocolVersion :=
  negotiate_version_sets [local] [remote] minimum.

(** * The negotiated version is the highest mutual one *)

Definition version_le (x y : ProtocolVersion) : Prop :=
  (pv_major x < pv_major y ∨ pv_major x = pv_major y ∧ pv_minor x ≤ pv_minor y)%Z.
Definition version_lt (x y : ProtocolVersion) : Prop := ¬ version_le y x.

Lemma version_leb_le x y : version_leb x y = true ↔ version_le x y.
Proof.
  unfold version_leb, version_cmp, version_le, then_with.
  destruct (Z.compare_spec (pv_major x) (pv_major y)); [|split; [lia|done]..|split; [done|lia]].
  destruct (Z.compare_spec (pv_minor x) (pv_minor y)); (split; [lia|done || lia]).
Qed.
Lemma version_ltb_lt x y : version_ltb x y = true ↔ version_lt x y.
Proof.
  unfold version_ltb, version_cmp, version_lt, version_le, then_with.
  destruct (Z.compare_spec (pv_major x) (pv_major y)); [|split; [lia|done]|split; [done|lia]].
  destruct (Z.compare_spec (pv_minor x) (pv_minor y)); (split; [lia|done || lia]).
Qed.
Lemma version_ltb_ge x y : version_ltb x y = false ↔ version_le y x.
Proof.
  rewrite <- not_true_iff_false, version_ltb_lt. unfold version_lt, version_le. lia.
Qed.

Definition range_has (range : VersionRange) (v : ProtocolVersion) : Prop :=
  version_le (vr_min range) v ∧ version_le v (vr_max range).
(** Some advertised range contains the version. *)
Definition advertises (ranges : list VersionRange) (v : ProtocolVersion) : Prop :=
  ∃ range, range ∈ ranges ∧ range_has range v.
Definition mutual (local remote : list VersionRange) (v : ProtocolVersion) : Prop :=
  advertises local v ∧ advertises remote v.

(** The highest version of one pair of ranges. *)
Definition pair_top (pair : VersionRange * VersionRange) : option ProtocolVersion :=
  let top := version_min (vr_max pair.1) (vr_max pair.2) in
  if version_ltb top (version_max (vr_min pair.1) (vr_min pair.2)) then None else Some top.

Lemma pair_top_has pair v :
  pair_top pair = Some v → range_has pair.1 v ∧ range_has pair.2 v.
Proof.
  unfold pair_top, version_min, version_max, range_has. case_match eqn:Hlt; [done|].
  apply version_ltb_ge in Hlt. intros [= <-]. revert Hlt.
  destruct (version_leb (vr_max _) _) eqn:Ha, (version_leb (vr_min _) _) eqn:Hb;
    rewrite <- ?not_true_iff_false, ?version_leb_le in *; unfold version_le in *; lia.
Qed.

Lemma pair_top_highest pair w :
  range_has pair.1 w → range_has pair.2 w → ∃ v, pair_top pair = Some v ∧ version_le w v.
Proof.
  unfold pair_top, version_min, version_max, range_has. intros [? ?] [? ?].
  case_match eqn:Hlt; [exfalso; apply version_ltb_lt in Hlt; revert Hlt; unfold version_lt|eexists; split; [done|]];
    destruct (version_leb (vr_max _) _) eqn:Ha, (version_leb (vr_min _) _) eqn:Hb;
    rewrite <- ?not_true_iff_false, ?version_leb_le in *; unfold version_le in *; lia.
Qed.

Lemma consider_pair_top minimum st pair :
  consider_pair minimum st pair
  = match pair_top pair with
    | None => st
    | Some v =>
        if version_ltb v minimum then (st.1, true)
        else (Some (match st.1 with None => v | Some b => version_max b v end), true)
    end.
Proof. destruct pair as [l r]. unfold consider_pair, pair_top; cbn. by case_match. Qed.

(** What the loop knows after the pairs [ps]. *)
Definition negotiated (minimum : ProtocolVersion) (ps : list (VersionRange * VersionRange))
    (st : negotiation) : Prop :=
  (st.2 = true ↔ ∃ p v, p ∈ ps ∧ pair_top p = Some v)
  ∧ match st.1 with
    | None => ∀ p v, p ∈ ps → pair_top p = Some v → version_lt v minimum
    | Some b => version_le minimum b ∧ (∃ p, p ∈ ps ∧ pair_top p = Some b)
                ∧ ∀ p v, p ∈ ps → pair_top p = Some v → version_le v b
    end.

Lemma version_max_cases x y :
  (version_max x y = x ∧ version_le y x) ∨ (version_max x y = y ∧ version_le x y).
Proof.
  unfold version_max. destruct (version_leb x y) eqn:E.
  - right. by apply version_leb_le in E.
  - left. split; [done|]. apply not_true_iff_false in E. rewrite version_leb_le in E.
    unfold version_le in *. lia.
Qed.

Lemma elem_snoc {A} (l : list A) x y : y ∈ l ++ [x] ↔ y ∈ l ∨ y = x.
Proof. by rewrite elem_of_app, list_elem_of_singleton. Qed.

Lemma consider_pair_negotiated minimum ps st p :
  negotiated minimum ps st → negotiated minimum (ps ++ [p]) (consider_pair minimum st p).
Proof.
  destruct st as [best had]. intros [Hhad Hbest]; cbn in Hhad, Hbest.
  rewrite consider_pair_top. unfold negotiated.
  destruct (pair_top p) as [v|] eqn:Hp.
  2:{ split; cbn; [setoid_rewrite elem_snoc; rewrite Hhad; naive_solver|]. destruct best as [b|].
      - destruct Hbest as (? & (q & ? & ?) & Hall). split_and!; [done|exists q; rewrite elem_snoc; auto|].
        intros q' w [?| ->]%elem_snoc ?; [by eapply Hall|congruence].
      - intros q' w [?| ->]%elem_snoc ?; [by eapply Hbest|congruence]. }
  destruct (version_ltb v minimum) eqn:Hmin; cbn; (split; [setoid_rewrite elem_snoc; naive_solver|]).
  - apply version_ltb_lt in Hmin. destruct best as [b|].
    + destruct Hbest as (Hb & (q & ? & ?) & Hall).
      split_and!; [done|exists q; rewrite elem_snoc; auto|].
      intros q' w [Hq| ->]%elem_snoc Hw; [by eapply Hall|]. simplify_eq.
      unfold version_lt, version_le in *. lia.
    + intros q' w [Hq| ->]%elem_snoc Hw; [by eapply Hbest|]. by simplify_eq.
  - apply version_ltb_ge in Hmin. destruct best as [b|].
    + destruct Hbest as (Hb & (q & Hq & Hqb) & Hall).
      destruct (version_max_cases b v) as [[-> Hle]|[-> Hle]].
      * split_and!; [done|exists q; rewrite elem_snoc; auto|].
        intros q' w [Hq'| ->]%elem_snoc Hw; [by eapply Hall|]. by simplify_eq.
      * split_and!; [done|exists p; rewrite elem_snoc; auto|].
        intros q' w [Hq'| ->]%elem_snoc Hw; simplify_eq;
          [specialize (Hall _ _ Hq' Hw)|]; unfold version_le in *; lia.
    + split_and!; [done|exists p; rewrite elem_snoc; auto|]. intros q w [Hq| ->]%elem_snoc Hw.
      * specialize (Hbest _ _ Hq Hw). unfold version_lt, version_le in *. lia.
      * simplify_eq. unfold version_le. lia.
Qed.

Lemma negotiation_loop minimum ps :
  negotiated minimum ps (foldl (consider_pair minimum) (None, false) ps).
Proof.
  induction ps as [|p ps IH] using rev_ind; [|by rewrite foldl_snoc; apply consider_pair_negotiated].
  split; cbn; [split; [done|intros (? & ? & []%not_elem_of_nil & _)]|].
  by intros ? ? []%not_elem_of_nil.
Qed.

Lemma range_pairs_elem local remote p :
  p ∈ range_pairs local remote ↔ p.1 ∈ local ∧ p.2 ∈ remote.
Proof.
  unfold range_pairs. rewrite list_elem_of_In, in_flat_map.
  setoid_rewrite <- list_elem_of_In. setoid_rewrite list_elem_of_fmap. destruct p; naive_solver.
Qed.

Lemma pair_top_mutual local remote p v :
  p ∈ range_pairs local remote → pair_top p = Some v → mutual local remote v.
Proof.
  intros [? ?]%range_pairs_elem [? ?]%pair_top_has. split; eexists; eauto.
Qed.
Lemma mutual_pair_top local remote w :
  mutual local remote w →
  ∃ p v, p ∈ range_pairs local remote ∧ pair_top p = Some v ∧ version_le w v.
Proof.
  intros [(l & ? & ?) (r & ? & ?)]. exists (l, r).
  destruct (pair_top_highest (l, r) w) as (v & ? & ?); [done..|].
  exists v. by rewrite range_pairs_elem.
Qed.

(** Version negotiation picks the highest version both sides advertise and refuses to
    go below the local minimum: for well-formed, non-empty advertisements it returns a
    version that some local and some remote range contains, that is at least the minimum
    and that no other mutual version exceeds; it reports "below minimum" exactly when there
    are mutual versions and all of them are below it, and "no mutual version" exactly when
    the advertisements are disjoint. *)
Theorem negotiation_picks_highest_mutual_version (local remote : list VersionRange) minimum
    (Hlocal : local ≠ []) (Hremote : remote ≠ [])
    (Hvalid : Forall (λ r, range_invalid r = false) (local ++ remote)) :
  match negotiate_version_sets local remote minimum with
  | Ok v => mutual local remote v ∧ version_le minimum v
            ∧ ∀ w, mutual local remote w → version_le w v
  | Err VnBelowLocalMinimum =>
      (∃ w, mutual local remote w) ∧ ∀ w, mutual local remote w → version_lt w minimum
  | Err VnNoMutualVersion => ∀ w, ¬ mutual local remote w
  | Err _ => False
  end.
Proof.
  unfold negotiate_version_sets.
  rewrite !bool_decide_eq_false_2 by done. cbn.
  rewrite (proj2 (existsb_false _ _) Hvalid). cbn.
  destruct (negotiation_loop minimum (range_pairs local remote)) as [Hhad Hbest].
  destruct (foldl _ _ _) as [[b|] had]; cbn in *.
  - destruct Hbest as (? & (p & ? & ?) & Hall). split_and!; [by eapply pair_top_mutual|done|].
    intros w (p' & v & Hp & Hv & ?)%mutual_pair_top. specialize (Hall _ _ Hp Hv).
    unfold version_le in *. lia.
  - destruct had.
    + destruct (proj1 Hhad eq_refl) as (p & v & ? & ?). split; [eauto using pair_top_mutual|].
      intros w (p' & v' & Hp & Hv & ?)%mutual_pair_top. specialize (Hbest _ _ Hp Hv).
      unfold version_lt, version_le in *. lia.
    + intros w (p' & v' & ? & ? & _)%mutual_pair_top. apply diff_false_true, Hhad. eauto.
Qed.

Lemma negotiation_picks_highest_mutual_version_witness :
  negotiate_version_sets
    [mk_range (mk_version 1 0) (mk_version 1 4); mk_range (mk_version 3 0) (mk_version 3 2)]
    [mk_range (mk_version 1 2) (mk_version 1 3); mk_range (mk_version 3 1) (mk_version 3 5)]
    (mk_version 1 0) = Ok (mk_version 3 2)
  ∧ ∀ w, mutual
      [mk_range (mk_version 1 0) (mk_version 1 4); mk_range (mk_version 3 0) (mk_version 3 2)]
      [mk_range (mk_version 1 2) (mk_version 1 3); mk_range (mk_version 3 1) (mk_version 3 5)] w →
    version_le w (mk_version 3 2).
Proof.
  split; [reflexivity|].
  apply (negotiation_picks_highest_mutual_version
    [mk_range (mk_version 1 0) (mk_version 1 4); mk_range (mk_version 3 0) (mk_version 3 2)]
    [mk_range (mk_version 1 2) (mk_version 1 3); mk_range (mk_version 3 1) (mk_version 3 5)]
    (mk_version 1 0)); [done|done|repeat constructor].
Defined.
