(* ===== verification/Event.v ===== *)
(** Commands and events: validation, canonical form, idempotency, receipts,
    fingerprints, subscriptions, delivery batches and anti-entropy sessions
    (crates/ucr-protocol/src/commands.rs, event_api.rs, anti_entropy.rs and the
    data of crates/ucr-model/src/lib.rs). *)

From S2P Require Import Prelude Ids Framing Extension Message StoreForward Sync Version.

(** * Data *)

Abbreviation CommandId := OpaqueId.
Abbreviation EventSubscriptionId := OpaqueId.

Record CommandEnvelope := mk_command {
  cmd_command_id : CommandId;
  cmd_scope : TenantScope;
  cmd_command_type : bytes; (* String *)
  cmd_payload : bytes;
  cmd_correlation : CorrelationContext;
  cmd_schema_version : ProtocolVersion;
  cmd_extensions : list ProtocolExtension;
}.
#[global] Instance CommandEnvelope_eq_dec : EqDecision CommandEnvelope.
Proof. solve_decision. Defined.

Record EventEnvelope := mk_event {
  ev_event_id : EventId;
  ev_scope : TenantScope;
  ev_event_type : bytes; (* String *)
  ev_payload : bytes;
  ev_actor : ActorRef;
  ev_source_device : DeviceRef;
  ev_wall_time_unix_ms : Z; (* i64 *)
  ev_logical_order : Z; (* u64 *)
  ev_correlation : CorrelationContext;
  ev_schema_version : ProtocolVersion;
  ev_integrity_metadata : bytes;
  ev_extensions : list ProtocolExtension;
}.
#[global] Instance EventEnvelope_eq_dec : EqDecision EventEnvelope.
Proof. solve_decision. Defined.

Inductive EventSubscriptionMode := SmDurableStream | SmWebhook.
#[global] Instance EventSubscriptionMode_eq_dec : EqDecision EventSubscriptionMode.
Proof. solve_decision. Defined.
Inductive EventSubscriptionStart := SsBeginning | SsLatest.
#[global] Instance EventSubscriptionStart_eq_dec : EqDecision EventSubscriptionStart.
Proof. solve_decision. Defined.

Record EventSubscription := mk_subscription {
  sub_subscription_id : EventSubscriptionId;
  sub_scope : TenantScope;
  sub_mode : EventSubscriptionMode;
  sub_webhook_uri : option bytes; (* Option<String> *)
  sub_event_types : list bytes; (* Vec<String> *)
  sub_max_in_flight : Z; (* u32 *)
  sub_max_attempts : Z; (* u32 *)
  sub_start : EventSubscriptionStart;
}.
#[global] Instance EventSubscription_eq_dec : EqDecision EventSubscription.
Proof. solve_decision. Defined.

Abbreviation EventConsumerCursor := bytes (only parsing).

Inductive EventDeliveryFailureKind := FkRetryable | FkPermanent.
#[global] Instance EventDeliveryFailureKind_eq_dec : EqDecision EventDeliveryFailureKind.
Proof. solve_decision. Defined.

Record EventDeliveryBatch := mk_batch {
  eb_subscription_id : EventSubscriptionId;
  eb_scope : TenantScope;
  eb_events : list EventEnvelope;
  eb_cursor : EventConsumerCursor;
  eb_attempt : Z; (* u32 *)
}.

Inductive EventPollResult :=
| PollEmpty
| PollRetryAfter (retry_after_ms : Z (* u64 *))
| PollBatch (batch : EventDeliveryBatch).

Record EventDeadLetter := mk_dead_letter {
  dl_subscription_id : EventSubscriptionId;
  dl_scope : TenantScope;
  dl_event : EventEnvelope;
  dl_attempts : Z; (* u32 *)
  dl_failure_kind : EventDeliveryFailureKind;
}.

Inductive EventFingerprintAlgorithm := FaSha256V1.
#[global] Instance EventFingerprintAlgorithm_eq_dec : EqDecision EventFingerprintAlgorithm.
Proof. solve_decision. Defined.
Record EventFingerprint := mk_fingerprint {
  fp_algorithm : EventFingerprintAlgorithm;
  fp_digest : bytes; (* [u8; 32] *)
}.
#[global] Instance EventFingerprint_eq_dec : EqDecision EventFingerprint.
Proof. solve_decision. Defined.

Record EventSummary := mk_summary {
  es_event_id : EventId;
  es_fingerprint : EventFingerprint;
}.

Abbreviation AntiEntropyCursor := bytes (only parsing).
Record AntiEntropyPage := mk_page {
  ap_session_id : SessionId;
  ap_scope : TenantScope;
  ap_summaries : list EventSummary;
  ap_next_cursor : option AntiEntropyCursor;
}.

Inductive EventReplicaState := RsMissing | RsMatching | RsDamaged.
Record EventReconciliation := mk_reconciliation {
  rec_event_id : EventId;
  rec_state : EventReplicaState;
}.

Definition set_command_extensions (l : list ProtocolExtension) (c : CommandEnvelope) :
    CommandEnvelope :=
  mk_command (cmd_command_id c) (cmd_scope c) (cmd_command_type c) (cmd_payload c)
    (cmd_correlation c) (cmd_schema_version c) l.
Definition set_event_extensions (l : list ProtocolExtension) (e : EventEnvelope) :
    EventEnvelope :=
  mk_event (ev_event_id e) (ev_scope e) (ev_event_type e) (ev_payload e) (ev_actor e)
    (ev_source_device e) (ev_wall_time_unix_ms e) (ev_logical_order e) (ev_correlation e)
    (ev_schema_version e) (ev_integrity_metadata e) l.
Definition set_event_types (l : list bytes) (s : EventSubscription) : EventSubscription :=
  mk_subscription (sub_subscription_id s) (sub_scope s) (sub_mode s) (sub_webhook_uri s) l
    (sub_max_in_flight s) (sub_max_attempts s) (sub_start s).

(** * Commands *)

Definition MAX_IDEMPOTENCY_KEY_LEN : Z := 256.
Definition MAX_COMMAND_PAYLOAD_LEN : Z := DEFAULT_MAX_PAYLOAD_LEN.
Definition MAX_EVENT_PAYLOAD_LEN : Z := DEFAULT_MAX_PAYLOAD_LEN.
Definition MAX_EVENT_INTEGRITY_METADATA_LEN : Z := 64 * 1024.

Inductive CommandError :=
| CmInvalidCommandType | CmMissingIdempotencyKey | CmEmptyIdempotencyKey
| CmIdempotencyKeyTooLong | CmPayloadTooLarge | CmInvalidSchemaVersion | CmInvalidExtension
| CmDuplicateExtension | CmTooManyExtensions | CmExtensionPayloadTooLarge
| CmIdempotencyConflict.

Inductive EventError :=
| EvInvalidEventType | EvIdempotencyKeyTooLong | EvPayloadTooLarge
| EvIntegrityMetadataTooLarge | EvInvalidSchemaVersion | EvInvalidExtension
| EvDuplicateExtension | EvTooManyExtensions | EvExtensionPayloadTooLarge.

Inductive IdempotencyDecision := IdNew | IdDuplicateOf (original : CommandId).
Inductive CommandReceiptStatus := RcAccepted | RcDuplicate.
#[global] Instance CommandReceiptStatus_eq_dec : EqDecision CommandReceiptStatus.
Proof. solve_decision. Defined.
Inductive ReceiptError :=
| ReAcceptedHasOriginal | ReDuplicateMissingOriginal | ReInvalidSchemaVersion
| ReInvalidExtension | ReDuplicateExtension | ReTooManyExtensions | ReExtensionPayloadTooLarge.

Record CommandReceipt := mk_receipt {
  rc_command_id : CommandId;
  rc_status : CommandReceiptStatus;
  rc_original_command_id : option CommandId;
  rc_schema_version : ProtocolVersion;
  rc_extensions : list ProtocolExtension;
}.

Definition map_receipt_extension_error (error : ExtensionError) : ReceiptError :=
  match error with
  | ExInvalidNamespace | ExUnsupportedCritical => ReInvalidExtension
  | ExTooManyExtensions => ReTooManyExtensions
  | ExDuplicateExtension => ReDuplicateExtension
  | ExPayloadTooLarge => ReExtensionPayloadTooLarge
  end.

Definition validate_command_receipt (receipt : CommandReceipt) : result ReceiptError unit :=
  match rc_status receipt, rc_original_command_id receipt with
  | RcAccepted, Some _ => Err ReAcceptedHasOriginal
  | RcDuplicate, None => Err ReDuplicateMissingOriginal
  | _, _ => Ok tt
  end ;;
  reject_if (pv_major (rc_schema_version receipt) =? 0)%Z ReInvalidSchemaVersion ;;
  map_err map_receipt_extension_error (canonical_protocol_extensions (rc_extensions receipt)) ;;
  Ok tt.

Definition canonical_command_receipt (receipt : CommandReceipt) :
    result ReceiptError CommandReceipt :=
  validate_command_receipt receipt ;;
  extensions ← map_err map_receipt_extension_error
                 (canonical_protocol_extensions (rc_extensions receipt));
  Ok (mk_receipt (rc_command_id receipt) (rc_status receipt) (rc_original_command_id receipt)
        (rc_schema_version receipt) extensions).

Definition accepted_command_receipt (command_id : CommandId) : CommandReceipt :=
  mk_receipt command_id RcAccepted None RUNTIME_ENVELOPE_SCHEMA_V1 [].

Definition duplicate_command_receipt (command_id original_command_id : CommandId) :
    CommandReceipt :=
  mk_receipt command_id RcDuplicate (Some original_command_id) RUNTIME_ENVELOPE_SCHEMA_V1 [].

Definition map_command_extension_error (error : ExtensionError) : CommandError :=
  match error with
  | ExInvalidNamespace | ExUnsupportedCritical => CmInvalidExtension
  | ExTooManyExtensions => CmTooManyExtensions
  | ExDuplicateExtension => CmDuplicateExtension
  | ExPayloadTooLarge => CmExtensionPayloadTooLarge
  end.

Definition validate_command (command : CommandEnvelope) : result CommandError unit :=
  map_err (λ _, CmInvalidCommandType)
    (validate_namespaced_identifier (cmd_command_type command)) ;;
  key ← ok_or (idempotency_key (cmd_correlation command)) CmMissingIdempotencyKey;
  reject_if (bool_decide (key = [])) CmEmptyIdempotencyKey ;;
  reject_if (MAX_IDEMPOTENCY_KEY_LEN <? len key)%Z CmIdempotencyKeyTooLong ;;
  reject_if (MAX_COMMAND_PAYLOAD_LEN <? len (cmd_payload command))%Z CmPayloadTooLarge ;;
  reject_if (pv_major (cmd_schema_version command) =? 0)%Z CmInvalidSchemaVersion ;;
  map_err map_command_extension_error (canonical_protocol_extensions (cmd_extensions command)) ;;
  Ok tt.

Definition canonical_command (command : CommandEnvelope) : result CommandError CommandEnvelope :=
  validate_command command ;;
  extensions ← map_err map_command_extension_error
                 (canonical_protocol_extensions (cmd_extensions command));
  Ok (set_command_extensions extensions command).

Definition compare_command_idempotency (original incoming : CommandEnvelope) :
    result CommandError IdempotencyDecision :=
  original ← canonical_command original;
  incoming ← canonical_command incoming;
  if negb (bool_decide (cmd_scope original = cmd_scope incoming))
     || negb (bool_decide (idempotency_key (cmd_correlation original)
                           = idempotency_key (cmd_correlation incoming)))
  then Ok IdNew
  else if bool_decide (cmd_command_type original = cmd_command_type incoming)
          && bool_decide (cmd_payload original = cmd_payload incoming)
          && bool_decide (cmd_schema_version original = cmd_schema_version incoming)
          && bool_decide (cmd_extensions original = cmd_extensions incoming)
  then Ok (IdDuplicateOf (cmd_command_id original))
  else Err CmIdempotencyConflict.

(** * Events *)

Definition map_event_extension_error (error : ExtensionError) : EventError :=
  match error with
  | ExInvalidNamespace | ExUnsupportedCritical => EvInvalidExtension
  | ExTooManyExtensions => EvTooManyExtensions
  | ExDuplicateExtension => EvDuplicateExtension
  | ExPayloadTooLarge => EvExtensionPayloadTooLarge
  end.

Definition validate_event (event : EventEnvelope) : result EventError unit :=
  map_err (λ _, EvInvalidEventType) (validate_namespaced_identifier (ev_event_type event)) ;;
  reject_if (longer_than MAX_IDEMPOTENCY_KEY_LEN (idempotency_key (ev_correlation event)))
    EvIdempotencyKeyTooLong ;;
  reject_if (MAX_EVENT_PAYLOAD_LEN <? len (ev_payload event))%Z EvPayloadTooLarge ;;
  reject_if (MAX_EVENT_INTEGRITY_METADATA_LEN <? len (ev_integrity_metadata event))%Z
    EvIntegrityMetadataTooLarge ;;
  reject_if (pv_major (ev_schema_version event) =? 0)%Z EvInvalidSchemaVersion ;;
  map_err map_event_extension_error (canonical_protocol_extensions (ev_extensions event)) ;;
  Ok tt.

Definition canonical_event (event : EventEnvelope) : result EventError EventEnvelope :=
  validate_event event ;;
  extensions ← map_err map_event_extension_error
                 (canonical_protocol_extensions (ev_extensions event));
  Ok (set_event_extensions extensions event).

(** * Subscriptions *)

Definition EVENT_CONSUMER_CURSOR_V1_DOMAIN : bytes := str "UCR-EVENT-CONSUMER-CURSOR-V1" ++ [0%Z].
Definition MAX_EVENT_SUBSCRIPTION_FILTERS : Z := 64.
Definition MAX_EVENT_BATCH_ITEMS : Z := 256.
Definition MAX_EVENT_DELIVERY_SIZE : Z :=
  MAX_EVENT_PAYLOAD_LEN + MAX_EVENT_INTEGRITY_METADATA_LEN
  + MAX_PROTOCOL_EXTENSIONS * (MAX_NAMESPACED_IDENTIFIER_LEN + MAX_EXTENSION_PAYLOAD_LEN)
  + 9 * Z.of_nat OPAQUE_ID_MAX_LEN + MAX_IDEMPOTENCY_KEY_LEN + MAX_NAMESPACED_IDENTIFIER_LEN + 64.
Definition MAX_EVENT_DELIVERY_BATCH_BYTES : Z := MAX_EVENT_DELIVERY_SIZE.
Definition MAX_EVENT_DELIVERY_ATTEMPTS : Z := 100.
Definition MAX_EVENT_CONSUMER_CURSOR_LEN : Z := 64.
Definition MAX_WEBHOOK_URI_LEN : Z := 2048.
Definition EVENT_RETRY_BASE_MS : Z := 1000.
Definition EVENT_RETRY_MAX_MS : Z := 60000.

Inductive EventApiError :=
| EaInvalidFilter | EaDuplicateFilter | EaTooManyFilters | EaInvalidMaxInFlight
| EaInvalidMaxAttempts | EaInvalidWebhookUri | EaInvalidCursor | EaInvalidBatchSize.

(** The loop over the sorted filters; [previous] is [filters[index - 1]]. *)
Fixpoint validate_filters (previous : option bytes) (filters : list bytes) :
    result EventApiError unit :=
  match filters with
  | [] => Ok tt
  | filter :: filters =>
      map_err (λ _, EaInvalidFilter) (validate_namespaced_identifier filter) ;;
      reject_if (bool_decide (previous = Some filter)) EaDuplicateFilter ;;
      validate_filters (Some filter) filters
  end.

Definition sorted_filters (filters : list bytes) : list bytes := sort_by bytes_cmp filters.

(** [uri.contains(c)] for an ASCII byte [c]. *)
Definition contains_byte (c : Z) (uri : bytes) : bool := existsb (Z.eqb c) uri.

Definition validate_webhook_uri (uri : bytes) : result EventApiError unit :=
  reject_if ((MAX_WEBHOOK_URI_LEN <? len uri)%Z
             || negb (forallb (λ b, (b <? 128)%Z) uri)
             || negb (starts_with uri (str "https://"))
             || contains_byte 64 uri || contains_byte 63 uri || contains_byte 35 uri)
    EaInvalidWebhookUri ;;
  let authority := default [] (head (split_on 47 (drop 8 uri))) in
  reject_if (bool_decide (authority = []) || bool_decide (head authority = Some 46%Z)
             || bool_decide (last authority = Some 46%Z)) EaInvalidWebhookUri.

Definition validate_event_subscription (subscription : EventSubscription) :
    result EventApiError unit :=
  reject_if (MAX_EVENT_SUBSCRIPTION_FILTERS <? len (sub_event_types subscription))%Z
    EaTooManyFilters ;;
  validate_filters None (sorted_filters (sub_event_types subscription)) ;;
  reject_if ((sub_max_in_flight subscription =? 0)%Z
             || (MAX_EVENT_BATCH_ITEMS <? sub_max_in_flight subscription)%Z)
    EaInvalidMaxInFlight ;;
  reject_if ((sub_max_attempts subscription =? 0)%Z
             || (MAX_EVENT_DELIVERY_ATTEMPTS <? sub_max_attempts subscription)%Z)
    EaInvalidMaxAttempts ;;
  match sub_mode subscription with
  | SmDurableStream =>
      reject_if (bool_decide (is_Some (sub_webhook_uri subscription))) EaInvalidWebhookUri
  | SmWebhook =>
      reject_if (negb (sub_max_in_flight subscription =? 1)%Z) EaInvalidMaxInFlight ;;
      uri ← ok_or (sub_webhook_uri subscription) EaInvalidWebhookUri;
      validate_webhook_uri uri
  end.

Definition canonical_event_subscription (subscription : EventSubscription) :
    result EventApiError EventSubscription :=
  validate_event_subscription subscription ;;
  Ok (set_event_types (sorted_filters (sub_event_types subscription)) subscription).

Definition validate_event_consumer_cursor (cursor : EventConsumerCursor) :
    result EventApiError unit :=
  reject_if (bool_decide (cursor = []) || (MAX_EVENT_CONSUMER_CURSOR_LEN <? len cursor)%Z)
    EaInvalidCursor.

Definition validate_event_batch_size (max_items : Z) : result EventApiError unit :=
  reject_if ((max_items =? 0)%Z || (MAX_EVENT_BATCH_ITEMS <? max_items)%Z) EaInvalidBatchSize.

Definition event_retry_delay_ms (next_attempt : Z) : Z :=
  let exponent := Z.min (Z.max 0 (next_attempt - 2)) 31 in
  Z.min (saturating_mul_u64 EVENT_RETRY_BASE_MS (Z.shiftl 1 exponent)) EVENT_RETRY_MAX_MS.

(** [hash_id] of event_api.rs: a 32-bit length and the bytes. *)
Definition cursor_hash_id (id : OpaqueId) : bytes := len_prefixed 4 (as_wire_bytes id).

Definition event_cursor_preimage (scope : TenantScope) (subscription : EventSubscription)
    (generation end_position attempt : Z) : bytes :=
  EVENT_CONSUMER_CURSOR_V1_DOMAIN
  ++ cursor_hash_id (tenant_id scope)
  ++ match namespace_id scope with
     | Some namespace => 1%Z :: cursor_hash_id namespace
     | None => [0%Z]
     end
  ++ cursor_hash_id (sub_subscription_id subscription)
  ++ be_bytes 8 generation ++ be_bytes 8 end_position ++ be_bytes 4 attempt.

Definition event_consumer_cursor_token `{Sha256} (scope : TenantScope)
    (subscription : EventSubscription) (generation end_position attempt : Z) :
    EventConsumerCursor :=
  sha256 (event_cursor_preimage scope subscription generation end_position attempt).

Definition id_len (id : OpaqueId) : Z := len (as_wire_bytes id).
Definition opt_id_len (id : option OpaqueId) : Z := from_option id_len 0%Z id.

Definition event_delivery_size (event : EventEnvelope) : result EventError Z :=
  validate_event event ;;
  let size :=
    (id_len (ev_event_id event) + id_len (tenant_id (ev_scope event))
     + opt_id_len (namespace_id (ev_scope event)) + len (ev_event_type event)
     + len (ev_payload event) + id_len (actor_id (ev_actor event))
     + opt_id_len (on_behalf_of (ev_actor event))
     + id_len (dr_device_id (ev_source_device event))
     + id_len (dr_identity_id (ev_source_device event))
     + id_len (correlation_id (ev_correlation event))
     + opt_id_len (causation_id (ev_correlation event))
     + from_option len 0 (idempotency_key (ev_correlation event))
     + len (ev_integrity_metadata event) + 64)%Z in
  Ok (foldl (λ size extension, size + (len (ext_name extension) + len (ext_payload extension)))%Z
        size (ev_extensions event)).

(** The sum stays below twice the batch budget, so [checked_add] cannot overflow. *)
Definition event_delivery_batch_next_size (current_bytes : Z) (event : EventEnvelope) :
    result EventError (option Z) :=
  event_bytes ← event_delivery_size event;
  let next := (current_bytes + event_bytes)%Z in
  Ok (if (next <=? MAX_EVENT_DELIVERY_BATCH_BYTES)%Z then Some next else None).

(** [binary_search(..).is_ok()] on the sorted filters of a canonical subscription. *)
Definition event_matches_subscription (subscription : EventSubscription) (event : EventEnvelope) :
    bool :=
  bool_decide (sub_scope subscription = ev_scope event)
  && (bool_decide (sub_event_types subscription = [])
      || existsb (λ t, bool_decide (t = ev_event_type event)) (sub_event_types subscription))
  && match canonical_event event with Ok _ => true | Err _ => false end.

(** * Anti-entropy *)

Definition EVENT_FINGERPRINT_SHA256_V1_DOMAIN : bytes :=
  str "ucr:event-fingerprint:sha256:v1" ++ [0%Z].
Definition ANTI_ENTROPY_SESSION_BINDING_V1_DOMAIN : bytes :=
  str "ucr:anti-entropy-session-binding:sha256:v1" ++ [0%Z].
Definition MAX_ANTI_ENTROPY_PAGE_ITEMS : Z := 256.
Definition MAX_ANTI_ENTROPY_CURSOR_LEN : Z := 4096.

Inductive AntiEntropyError :=
| AeSessionNotActive | AePartialSelectionUnsupported | AeInvalidPageSize | AeTooManySummaries
| AeEmptyCursor | AeCursorTooLarge | AeCursorBindingMismatch | AeMalformedCursor.

Definition validate_anti_entropy_session (session : SyncSession) : result AntiEntropyError unit :=
  reject_if (negb (bool_decide (sy_state session = SsActive))) AeSessionNotActive ;;
  reject_if (bool_decide (sel_mode (sy_selection session) = SmPartial))
    AePartialSelectionUnsupported.
Definition validate_anti_entropy_page_size (max_items : Z) : result AntiEntropyError unit :=
  reject_if ((max_items =? 0)%Z || (MAX_ANTI_ENTROPY_PAGE_ITEMS <? max_items)%Z)
    AeInvalidPageSize.
Definition validate_anti_entropy_summary_count (count : Z) : result AntiEntropyError unit :=
  reject_if (MAX_ANTI_ENTROPY_PAGE_ITEMS <? count)%Z AeTooManySummaries.
Definition validate_anti_entropy_cursor (token : bytes) : result AntiEntropyError unit :=
  reject_if (bool_decide (token = [])) AeEmptyCursor ;;
  reject_if (MAX_ANTI_ENTROPY_CURSOR_LEN <? len token)%Z AeCursorTooLarge.

Definition hash_bytes (value : bytes) : bytes := len_prefixed 8 value.
Definition hash_id (id : OpaqueId) : bytes := hash_bytes (as_wire_bytes id).
Definition hash_scope (scope : TenantScope) : bytes :=
  hash_id (tenant_id scope)
  ++ match namespace_id scope with
     | Some namespace => 1%Z :: hash_id namespace
     | None => [0%Z]
     end.
Definition hash_optional_id (value : option OpaqueId) : bytes :=
  match value with Some value => 1%Z :: hash_id value | None => [0%Z] end.
Definition hash_optional_string (value : option bytes) : bytes :=
  match value with Some value => 1%Z :: hash_bytes value | None => [0%Z] end.
Definition actor_kind_code (kind : ActorKind) : Z :=
  match kind with
  | AkPerson => 1 | AkAiAgent => 2 | AkBot => 3 | AkOrganization => 4 | AkSystem => 5
  end.
Definition hash_extension (extension : ProtocolExtension) : bytes :=
  hash_bytes (ext_name extension) ++ [if ext_critical extension then 1%Z else 0%Z]
  ++ hash_bytes (ext_payload extension).

(** The bytes hashed for a canonical event. *)
Definition event_preimage (event : EventEnvelope) : bytes :=
  EVENT_FINGERPRINT_SHA256_V1_DOMAIN
  ++ hash_id (ev_event_id event) ++ hash_scope (ev_scope event)
  ++ hash_bytes (ev_event_type event) ++ hash_bytes (ev_payload event)
  ++ hash_id (actor_id (ev_actor event)) ++ [actor_kind_code (actor_kind (ev_actor event))]
  ++ hash_optional_id (on_behalf_of (ev_actor event))
  ++ hash_id (dr_device_id (ev_source_device event))
  ++ hash_id (dr_identity_id (ev_source_device event))
  ++ be_bytes 8 (ev_wall_time_unix_ms event) ++ be_bytes 8 (ev_logical_order event)
  ++ hash_id (correlation_id (ev_correlation event))
  ++ hash_optional_id (causation_id (ev_correlation event))
  ++ hash_optional_string (idempotency_key (ev_correlation event))
  ++ be_bytes 4 (pv_major (ev_schema_version event))
  ++ be_bytes 4 (pv_minor (ev_schema_version event))
  ++ hash_bytes (ev_integrity_metadata event)
  ++ be_bytes 8 (len (ev_extensions event))
  ++ flat_map hash_extension (ev_extensions event).

Section hashed.
Context `{Sha256}.

Definition event_fingerprint (event : EventEnvelope) : result EventError EventFingerprint :=
  event ← canonical_event event;
  Ok (mk_fingerprint FaSha256V1 (sha256 (event_preimage event))).

Definition session_binding_preimage (session : SyncSession) : bytes :=
  ANTI_ENTROPY_SESSION_BINDING_V1_DOMAIN
  ++ hash_id (sy_session_id session) ++ hash_scope (sy_scope session)
  ++ hash_id (sy_source_endpoint_id session) ++ hash_id (sy_target_endpoint_id session).

Definition anti_entropy_session_binding (session : SyncSession) : bytes :=
  sha256 (session_binding_preimage session).
End hashed.
