(* ===== verification/Bridge.v ===== *)
(** External bridges: manifests, registrations, actions and provider events
    (crates/ucr-model/src/bridge.rs, crates/ucr-protocol/src/bridge.rs). *)

From S2P Require Import Prelude Ids Framing Extension Message StoreForward Version Event.

(** * Data *)

Abbreviation BridgeActionId := OpaqueId.
Abbreviation AttachmentId := OpaqueId.

Inductive BridgeCapability :=
| BcText | BcEdit | BcDelete | BcReaction | BcFiles | BcAudio | BcVideo | BcGroup
| BcPresence | BcTyping | BcCalls | BcThreads | BcReply.
#[global] Instance BridgeCapability_eq_dec : EqDecision BridgeCapability.
Proof. solve_decision. Defined.

Inductive BridgeDataPermission :=
| BpMessageContent | BpAttachmentReferences | BpExternalIdentityReferences | BpInboundEvents.
#[global] Instance BridgeDataPermission_eq_dec : EqDecision BridgeDataPermission.
Proof. solve_decision. Defined.

Inductive BridgeRegistrationState := BrActive | BrDisabled | BrRevoked.
#[global] Instance BridgeRegistrationState_eq_dec : EqDecision BridgeRegistrationState.
Proof. solve_decision. Defined.

Record BridgeProviderManifest := mk_manifest {
  mf_provider_id : bytes; (* String *)
  mf_sdk_min : ProtocolVersion;
  mf_sdk_max : ProtocolVersion;
  mf_protocol_min : ProtocolVersion;
  mf_protocol_max : ProtocolVersion;
  mf_capabilities : list BridgeCapability;
  mf_permissions : list BridgeDataPermission;
  mf_extensions : list ProtocolExtension;
}.
#[global] Instance BridgeProviderManifest_eq_dec : EqDecision BridgeProviderManifest.
Proof. solve_decision. Defined.

Record BridgeRegistration := mk_registration {
  br_scope : TenantScope;
  br_integration_id : IntegrationId;
  br_manifest : BridgeProviderManifest;
  br_state : BridgeRegistrationState;
  br_generation : Z; (* u64 *)
}.
#[global] Instance BridgeRegistration_eq_dec : EqDecision BridgeRegistration.
Proof. solve_decision. Defined.

Record BridgeAction := mk_action {
  ba_action_id : BridgeActionId;
  ba_scope : TenantScope;
  ba_integration_id : IntegrationId;
  ba_capability : BridgeCapability;
  ba_external_target : bytes;
  ba_canonical_message_id : option MessageId;
  ba_provider_payload : bytes;
  ba_attachment_ids : list AttachmentId;
  ba_correlation : CorrelationContext;
}.

Inductive BridgeDegradationReason :=
| BdUnsupportedCapability | BdPolicyRestricted | BdProviderLimited.
#[global] Instance BridgeDegradationReason_eq_dec : EqDecision BridgeDegradationReason.
Proof. solve_decision. Defined.

Record BridgeDegradation := mk_degradation {
  bd_requested : BridgeCapability;
  bd_fallback : option BridgeCapability;
  bd_reason : BridgeDegradationReason;
}.
#[global] Instance BridgeDegradation_eq_dec : EqDecision BridgeDegradation.
Proof. solve_decision. Defined.

Record BridgeProviderAcceptance := mk_acceptance {
  bx_external_message_id : option bytes;
  bx_degradation : option BridgeDegradation;
}.
#[global] Instance BridgeProviderAcceptance_eq_dec : EqDecision BridgeProviderAcceptance.
Proof. solve_decision. Defined.

Inductive BridgeActionState :=
| BsPrepared | BsInFlight | BsAccepted | BsFailedNotAccepted | BsAcceptanceUnknown.
#[global] Instance BridgeActionState_eq_dec : EqDecision BridgeActionState.
Proof. solve_decision. Defined.

Record BridgeActionRecord := mk_action_record {
  bar_scope : TenantScope;
  bar_action_id : BridgeActionId;
  bar_integration_id : IntegrationId;
  bar_capability : BridgeCapability;
  bar_fingerprint : bytes; (* [u8; 32] *)
  bar_state : BridgeActionState;
  bar_acceptance : option BridgeProviderAcceptance;
  bar_generation : Z; (* u64 *)
}.
#[global] Instance BridgeActionRecord_eq_dec : EqDecision BridgeActionRecord.
Proof. solve_decision. Defined.

Record BridgeInboundEvent := mk_inbound {
  bi_scope : TenantScope;
  bi_integration_id : IntegrationId;
  bi_external_event_id : bytes;
  bi_external_conversation_id : bytes;
  bi_external_actor_id : option bytes;
  bi_capability : BridgeCapability;
  bi_payload : bytes;
  bi_occurred_at_unix_ms : Z; (* i64 *)
}.

Abbreviation BridgeEventCursor := bytes (only parsing).

Record BridgeEventPage := mk_event_page {
  bp_events : list BridgeInboundEvent;
  bp_next_cursor : option BridgeEventCursor;
}.

Definition set_registration_state (state : BridgeRegistrationState) (generation : Z)
    (r : BridgeRegistration) : BridgeRegistration :=
  mk_registration (br_scope r) (br_integration_id r) (br_manifest r) state generation.
Definition set_action_state (state : BridgeActionState)
    (acceptance : option BridgeProviderAcceptance) (generation : Z) (r : BridgeActionRecord) :
    BridgeActionRecord :=
  mk_action_record (bar_scope r) (bar_action_id r) (bar_integration_id r) (bar_capability r)
    (bar_fingerprint r) state acceptance generation.

(** * Manifests and registrations *)

Definition BRIDGE_SDK_VERSION : ProtocolVersion := mk_version 1 0.
Definition MAX_BRIDGE_EXTERNAL_ID_LEN : Z := 2048.
Definition MAX_BRIDGE_EVENT_CURSOR_LEN : Z := 512.
Definition MAX_BRIDGE_EVENT_PAGE_ITEMS : Z := 256.
Definition MAX_BRIDGE_ATTACHMENTS : Z := 128.
Definition BRIDGE_ACTION_FINGERPRINT_V1_DOMAIN : bytes := str "UCR-BRIDGE-ACTION-V1".

Inductive BridgeProtocolError :=
| BeInvalidProviderId | BeInvalidSdkRange | BeIncompatibleSdk | BeInvalidProtocolRange
| BeIncompatibleProtocol | BeEmptyCapabilities | BeDuplicateCapability | BeDuplicatePermission
| BeInvalidExtension | BeDuplicateExtension | BeTooManyExtensions | BeExtensionPayloadTooLarge
| BeInvalidRegistrationGeneration | BeInvalidRegistrationTransition | BeInvalidActionGeneration
| BeInvalidActionResult | BeInvalidDegradation | BeInvalidActionTransition
| BeInvalidExternalTarget | BePayloadTooLarge | BeTooManyAttachments | BeDuplicateAttachment
| BeInvalidInboundEvent | BeTooManyEvents | BeDuplicateInboundEvent | BeInvalidCursor.

Abbreviation bridge_check := (result BridgeProtocolError unit).

Definition map_bridge_extension_error (error : ExtensionError) : BridgeProtocolError :=
  match error with
  | ExInvalidNamespace | ExUnsupportedCritical => BeInvalidExtension
  | ExDuplicateExtension => BeDuplicateExtension
  | ExTooManyExtensions => BeTooManyExtensions
  | ExPayloadTooLarge => BeExtensionPayloadTooLarge
  end.

(** The discriminants, which also give the derived [Ord]. *)
Definition capability_code (value : BridgeCapability) : Z :=
  match value with
  | BcText => 1 | BcEdit => 2 | BcDelete => 3 | BcReaction => 4 | BcFiles => 5 | BcAudio => 6
  | BcVideo => 7 | BcGroup => 8 | BcPresence => 9 | BcTyping => 10 | BcCalls => 11
  | BcThreads => 12 | BcReply => 13
  end.
Definition permission_code (value : BridgeDataPermission) : Z :=
  match value with
  | BpMessageContent => 1 | BpAttachmentReferences => 2 | BpExternalIdentityReferences => 3
  | BpInboundEvents => 4
  end.

#[global] Instance capability_code_inj : Inj (=) (=) capability_code.
Proof. by intros [] []. Qed.
#[global] Instance permission_code_inj : Inj (=) (=) permission_code.
Proof. by intros [] []. Qed.

Definition validate_version_range (min max : ProtocolVersion) (error : BridgeProtocolError) :
    bridge_check :=
  reject_if (negb (pv_major min =? pv_major max)%Z || version_ltb max min) error.

Definition canonical_bridge_manifest (manifest : BridgeProviderManifest) :
    result BridgeProtocolError BridgeProviderManifest :=
  map_err (λ _, BeInvalidProviderId) (validate_namespaced_identifier (mf_provider_id manifest)) ;;
  validate_version_range (mf_sdk_min manifest) (mf_sdk_max manifest) BeInvalidSdkRange ;;
  reject_if (version_ltb BRIDGE_SDK_VERSION (mf_sdk_min manifest)
             || version_ltb (mf_sdk_max manifest) BRIDGE_SDK_VERSION) BeIncompatibleSdk ;;
  validate_version_range (mf_protocol_min manifest) (mf_protocol_max manifest)
    BeInvalidProtocolRange ;;
  reject_if (version_ltb RUNTIME_ENVELOPE_SCHEMA_V1 (mf_protocol_min manifest)
             || version_ltb (mf_protocol_max manifest) RUNTIME_ENVELOPE_SCHEMA_V1)
    BeIncompatibleProtocol ;;
  reject_if (bool_decide (mf_capabilities manifest = [])) BeEmptyCapabilities ;;
  let capabilities := sort_by (key_cmp capability_code Z.compare) (mf_capabilities manifest) in
  reject_if (windows_any (λ x y, bool_decide (x = y)) capabilities) BeDuplicateCapability ;;
  let permissions := sort_by (key_cmp permission_code Z.compare) (mf_permissions manifest) in
  reject_if (windows_any (λ x y, bool_decide (x = y)) permissions) BeDuplicatePermission ;;
  extensions ← map_err map_bridge_extension_error
                 (canonical_protocol_extensions (mf_extensions manifest));
  Ok (mk_manifest (mf_provider_id manifest) (mf_sdk_min manifest) (mf_sdk_max manifest)
        (mf_protocol_min manifest) (mf_protocol_max manifest) capabilities permissions extensions).

Definition canonical_bridge_registration (registration : BridgeRegistration) :
    result BridgeProtocolError BridgeRegistration :=
  reject_if (br_generation registration =? 0)%Z BeInvalidRegistrationGeneration ;;
  manifest ← canonical_bridge_manifest (br_manifest registration);
  Ok (mk_registration (br_scope registration) (br_integration_id registration) manifest
        (br_state registration) (br_generation registration)).

Definition bridge_manifest_supports (manifest : BridgeProviderManifest)
    (capability : BridgeCapability) : bool :=
  existsb (λ c, bool_decide (c = capability)) (mf_capabilities manifest).
Definition bridge_manifest_allows_data (manifest : BridgeProviderManifest)
    (permission : BridgeDataPermission) : bool :=
  existsb (λ p, bool_decide (p = permission)) (mf_permissions manifest).

Definition validate_bridge_registration_transition (current next : BridgeRegistrationState) :
    bridge_check :=
  match current, next with
  | BrActive, (BrDisabled | BrRevoked) | BrDisabled, (BrActive | BrRevoked) => Ok tt
  | _, _ => Err BeInvalidRegistrationTransition
  end.

(** * Actions *)

Definition validate_bridge_action (action : BridgeAction) : bridge_check :=
  reject_if (bool_decide (ba_external_target action = [])
             || (MAX_BRIDGE_EXTERNAL_ID_LEN <? len (ba_external_target action))%Z)
    BeInvalidExternalTarget ;;
  reject_if ((DEFAULT_MAX_PAYLOAD_LEN <? len (ba_provider_payload action))%Z
             || longer_than MAX_IDEMPOTENCY_KEY_LEN (idempotency_key (ba_correlation action)))
    BePayloadTooLarge ;;
  reject_if (MAX_BRIDGE_ATTACHMENTS <? len (ba_attachment_ids action))%Z BeTooManyAttachments ;;
  all_distinct BeDuplicateAttachment [] (as_wire_bytes <$> ba_attachment_ids action).

Definition push_bytes (value : bytes) : result BridgeProtocolError bytes :=
  reject_if (u32_max <? len value)%Z BePayloadTooLarge ;;
  Ok (len_prefixed 4 value).

Definition push_id (id : OpaqueId) : result BridgeProtocolError bytes :=
  push_bytes (as_wire_bytes id).

Definition push_option {A} (push : A → result BridgeProtocolError bytes) (value : option A) :
    result BridgeProtocolError bytes :=
  match value with
  | Some value => bytes ← push value; Ok (1%Z :: bytes)
  | None => Ok [0%Z]
  end.

(** The bytes appended to the buffer, in order. *)
Definition bridge_action_preimage (action : BridgeAction) : result BridgeProtocolError bytes :=
  action_id ← push_id (ba_action_id action);
  tenant ← push_id (tenant_id (ba_scope action));
  namespace ← push_option push_id (namespace_id (ba_scope action));
  integration ← push_id (ba_integration_id action);
  target ← push_bytes (ba_external_target action);
  message ← push_option push_id (ba_canonical_message_id action);
  payload ← push_bytes (ba_provider_payload action);
  reject_if (u32_max <? len (ba_attachment_ids action))%Z BeTooManyAttachments ;;
  attachments ← try_collect push_id (ba_attachment_ids action);
  correlation ← push_id (correlation_id (ba_correlation action));
  causation ← push_option push_id (causation_id (ba_correlation action));
  key ← push_option push_bytes (idempotency_key (ba_correlation action));
  Ok (action_id ++ tenant ++ namespace ++ integration ++ [capability_code (ba_capability action)]
      ++ target ++ message ++ payload ++ be_bytes 4 (len (ba_attachment_ids action))
      ++ concat attachments ++ correlation ++ causation ++ key).

Definition bridge_action_fingerprint `{Sha256} (action : BridgeAction) :
    result BridgeProtocolError bytes :=
  validate_bridge_action action ;;
  bytes ← bridge_action_preimage action;
  Ok (sha256 (BRIDGE_ACTION_FINGERPRINT_V1_DOMAIN ++ bytes)).

(** [is_some_and(|value| value.is_empty() || value.len() > MAX_BRIDGE_EXTERNAL_ID_LEN)]. *)
Definition invalid_external_id (value : option bytes) : bool :=
  match value with
  | Some value => bool_decide (value = []) || (MAX_BRIDGE_EXTERNAL_ID_LEN <? len value)%Z
  | None => false
  end.

Definition validate_bridge_provider_acceptance (action : BridgeAction)
    (registered_manifest current_manifest : BridgeProviderManifest)
    (acceptance : BridgeProviderAcceptance) : bridge_check :=
  reject_if (invalid_external_id (bx_external_message_id acceptance)) BeInvalidActionResult ;;
  match bx_degradation acceptance with
  | Some degradation =>
      reject_if (negb (bool_decide (bd_requested degradation = ba_capability action))
                 || bool_decide (bd_fallback degradation = Some (ba_capability action))
                 || match bd_fallback degradation with
                    | Some fallback =>
                        negb (bridge_manifest_supports registered_manifest fallback)
                        || negb (bridge_manifest_supports current_manifest fallback)
                    | None => false
                    end) BeInvalidDegradation
  | None => Ok tt
  end.

Definition validate_bridge_action_record (record : BridgeActionRecord) : bridge_check :=
  reject_if (bar_generation record =? 0)%Z BeInvalidActionGeneration ;;
  if bool_decide (bar_state record = BsAccepted) then
    acceptance ← ok_or (bar_acceptance record) BeInvalidActionResult;
    reject_if (invalid_external_id (bx_external_message_id acceptance)) BeInvalidActionResult ;;
    reject_if (match bx_degradation acceptance with
               | Some degradation =>
                   bool_decide (bd_fallback degradation = Some (bd_requested degradation))
               | None => false
               end) BeInvalidDegradation
  else reject_if (bool_decide (is_Some (bar_acceptance record))) BeInvalidActionResult.

Definition validate_bridge_action_transition (current next : BridgeActionState) : bridge_check :=
  match current, next with
  | (BsPrepared | BsFailedNotAccepted), BsInFlight
  | BsInFlight, (BsAccepted | BsFailedNotAccepted | BsAcceptanceUnknown) => Ok tt
  | _, _ => Err BeInvalidActionTransition
  end.

(** * Provider events *)

Definition validate_bridge_inbound_event (event : BridgeInboundEvent) : bridge_check :=
  reject_if (bool_decide (bi_external_event_id event = [])
             || (MAX_BRIDGE_EXTERNAL_ID_LEN <? len (bi_external_event_id event))%Z
             || bool_decide (bi_external_conversation_id event = [])
             || (MAX_BRIDGE_EXTERNAL_ID_LEN <? len (bi_external_conversation_id event))%Z
             || invalid_external_id (bi_external_actor_id event)
             || (DEFAULT_MAX_PAYLOAD_LEN <? len (bi_payload event))%Z
             || (bi_occurred_at_unix_ms event <=? 0)%Z) BeInvalidInboundEvent.

Definition validate_bridge_event_cursor (token : BridgeEventCursor) : bridge_check :=
  reject_if (bool_decide (token = []) || (MAX_BRIDGE_EVENT_CURSOR_LEN <? len token)%Z)
    BeInvalidCursor.

(** The loop over the events; [ids] is the set of keys seen so far. *)
Fixpoint validate_inbound_events (ids : list (bytes * bytes)) (events : list BridgeInboundEvent) :
    bridge_check :=
  match events with
  | [] => Ok tt
  | event :: events =>
      validate_bridge_inbound_event event ;;
      let key := (as_wire_bytes (bi_integration_id event), bi_external_event_id event) in
      reject_if (existsb (λ k, bool_decide (k = key)) ids) BeDuplicateInboundEvent ;;
      validate_inbound_events (key :: ids) events
  end.

Definition validate_bridge_event_page (page : BridgeEventPage) : bridge_check :=
  reject_if (MAX_BRIDGE_EVENT_PAGE_ITEMS <? len (bp_events page))%Z BeTooManyEvents ;;
  validate_inbound_events [] (bp_events page) ;;
  match bp_next_cursor page with
  | Some cursor => validate_bridge_event_cursor cursor
  | None => Ok tt
  end.
