(* ===== verification/Offline.v ===== *)
(** Replicating group changes and messages between devices that meet offline or over a
    mesh: replica records, forwarding paths and stream cursors
    (crates/ucr-model/src/offline_group.rs, mesh.rs; crates/ucr-protocol/src/offline_group.rs,
    mesh.rs). *)

From S2P Require Import Prelude Ids Framing Extension Message StoreForward Group.

(** * Data *)

Inductive OfflineGroupStreamKind := OsChanges | OsMessages.

Abbreviation OfflineGroupCursor := bytes (only parsing).
Abbreviation MeshCursor := bytes (only parsing).

Record OfflineGroupChangeReplica := mk_change_replica {
  oc_actor : ScopedPrincipal;
  oc_group_generation : Z; (* u64 *)
  oc_change : GroupChange;
}.

Record OfflineGroupMessageReplica := mk_message_replica {
  om_author : ScopedPrincipal;
  om_group_id : GroupId;
  om_group_generation : Z; (* u64 *)
  om_message : MessageEnvelope;
}.

Record OfflineGroupChangePage := mk_change_page {
  ocp_scope : TenantScope;
  ocp_group_id : GroupId;
  ocp_records : list OfflineGroupChangeReplica;
  ocp_next_cursor : option OfflineGroupCursor;
}.

Record OfflineGroupMessagePage := mk_message_page {
  omp_scope : TenantScope;
  omp_group_id : GroupId;
  omp_records : list OfflineGroupMessageReplica;
  omp_next_cursor : option OfflineGroupCursor;
}.

Record MeshGroupMessageReplica := mk_mesh_replica {
  mr_record : OfflineGroupMessageReplica;
  mr_forward_path : list DeviceId;
}.

Record MeshGroupMessagePage := mk_mesh_page {
  mp_scope : TenantScope;
  mp_group_id : GroupId;
  mp_records : list MeshGroupMessageReplica;
  mp_next_cursor : option MeshCursor;
}.

(** * Replica records *)

Definition MAX_OFFLINE_GROUP_PAGE_ITEMS : Z := 256.
Definition OFFLINE_GROUP_CURSOR_LEN : Z := 24.
Definition OFFLINE_CURSOR_DOMAIN : bytes := str "UCR-OFFLINE-GROUP-CURSOR-V1" ++ [0%Z].

Inductive OfflineGroupError :=
| OgInvalidPageSize | OgInvalidCursor | OgScopeMismatch | OgGroupMismatch | OgInvalidGeneration
| OgInvalidMessage | OgMissingSignature.

Definition validate_offline_group_page_size (max_items : Z) : result OfflineGroupError unit :=
  reject_if ((max_items =? 0)%Z || (MAX_OFFLINE_GROUP_PAGE_ITEMS <? max_items)%Z)
    OgInvalidPageSize.

Definition canonical_offline_group_change_replica `{Sha256} (record : OfflineGroupChangeReplica) :
    result OfflineGroupError OfflineGroupChangeReplica :=
  reject_if (negb (bool_decide (sp_scope (oc_actor record) = ch_scope (oc_change record))))
    OgScopeMismatch ;;
  reject_if ((oc_group_generation record =? 0)%Z
             || negb (oc_group_generation record
                      =? saturating_add_u64 (ch_expected_revision (oc_change record)) 1)%Z)
    OgInvalidGeneration ;;
  map_err (λ _, OgGroupMismatch) (group_change_fingerprint (oc_change record)) ;;
  Ok record.

Definition canonical_offline_group_message_replica (record : OfflineGroupMessageReplica) :
    result OfflineGroupError OfflineGroupMessageReplica :=
  message ← map_err (λ _, OgInvalidMessage) (canonical_message (om_message record));
  reject_if (negb (bool_decide (sp_scope (om_author record) = me_scope message)))
    OgScopeMismatch ;;
  reject_if (negb (is_group_conversation_kind (conversation_kind (me_conversation message))))
    OgGroupMismatch ;;
  reject_if (negb (bool_decide (or_principal_id (me_origin message)
                                = Some (principal_id (sp_principal (om_author record))))))
    OgInvalidMessage ;;
  reject_if (negb (bool_decide (me_delivery_state message = DsPersisted))) OgInvalidMessage ;;
  reject_if (bool_decide (me_signature message = None)) OgMissingSignature ;;
  Ok (mk_message_replica (om_author record) (om_group_id record) (om_group_generation record)
        message).

(** * Forwarding paths *)

Definition MAX_MESH_GROUP_PAGE_ITEMS : Z := 256.
Definition MAX_MESH_PATH_DEVICES : Z := 8.
Definition MESH_CURSOR_LEN : Z := 24.
Definition MESH_CURSOR_DOMAIN : bytes := str "UCR-MESH-GROUP-CURSOR-V1" ++ [0%Z].

Inductive MeshError :=
| MhInvalidPageSize | MhInvalidCursor | MhInvalidReplica | MhNonDeviceAuthor | MhEmptyPath
| MhPathTooLong | MhDuplicateDevice | MhAuthorPathMismatch | MhSourcePathMismatch
| MhRecipientLoop.

Definition validate_mesh_group_page_size (max_items : Z) : result MeshError unit :=
  reject_if ((max_items =? 0)%Z || (MAX_MESH_GROUP_PAGE_ITEMS <? max_items)%Z) MhInvalidPageSize.

Definition canonical_mesh_group_message_replica (replica : MeshGroupMessageReplica) :
    result MeshError MeshGroupMessageReplica :=
  record ← map_err (λ _, MhInvalidReplica)
             (canonical_offline_group_message_replica (mr_record replica));
  reject_if (negb (bool_decide (principal_kind (sp_principal (om_author record)) = PkDevice)))
    MhNonDeviceAuthor ;;
  reject_if (negb (bool_decide (as_wire_bytes (principal_id (sp_principal (om_author record)))
      = as_wire_bytes (dr_device_id (me_author_device (om_message record))))))
    MhAuthorPathMismatch ;;
  reject_if (bool_decide (mr_forward_path replica = [])) MhEmptyPath ;;
  reject_if (MAX_MESH_PATH_DEVICES <? len (mr_forward_path replica))%Z MhPathTooLong ;;
  reject_if (negb (bool_decide (head (mr_forward_path replica)
                                = Some (dr_device_id (me_author_device (om_message record))))))
    MhAuthorPathMismatch ;;
  all_distinct MhDuplicateDevice [] (as_wire_bytes <$> mr_forward_path replica) ;;
  Ok (mk_mesh_replica record (mr_forward_path replica)).

Definition validate_mesh_source (replica : MeshGroupMessageReplica)
    (source_device_id : DeviceId) : result MeshError unit :=
  canonical ← canonical_mesh_group_message_replica replica;
  reject_if (negb (bool_decide (last (mr_forward_path canonical) = Some source_device_id)))
    MhSourcePathMismatch.

Definition append_mesh_recipient (replica : MeshGroupMessageReplica)
    (recipient_device_id : DeviceId) : result MeshError MeshGroupMessageReplica :=
  canonical ← canonical_mesh_group_message_replica replica;
  reject_if (bool_decide (recipient_device_id ∈ mr_forward_path canonical)) MhRecipientLoop ;;
  reject_if (MAX_MESH_PATH_DEVICES <=? len (mr_forward_path canonical))%Z MhPathTooLong ;;
  Ok (mk_mesh_replica (mr_record canonical)
        (mr_forward_path canonical ++ [recipient_device_id])).

(** * Cursors *)

Definition stream_code (stream : OfflineGroupStreamKind) : Z :=
  match stream with OsChanges => 1 | OsMessages => 2 end.

(** The scope and group as both [cursor_binding] functions hash them. *)
Definition cursor_owner_bytes (scope : TenantScope) (group_id : GroupId) : bytes :=
  as_wire_bytes (tenant_id scope)
  ++ match namespace_id scope with
     | Some namespace => 1%Z :: as_wire_bytes namespace
     | None => [0%Z]
     end
  ++ as_wire_bytes group_id.

Section cursors.
Context `{Sha256}.

Definition offline_cursor_binding (scope : TenantScope) (group_id : GroupId)
    (stream : OfflineGroupStreamKind) : bytes :=
  sha256 (OFFLINE_CURSOR_DOMAIN ++ cursor_owner_bytes scope group_id ++ [stream_code stream]).

Definition offline_group_cursor (scope : TenantScope) (group_id : GroupId)
    (stream : OfflineGroupStreamKind) (source_sequence : Z) : OfflineGroupCursor :=
  take 16 (offline_cursor_binding scope group_id stream) ++ be_bytes 8 source_sequence.

Definition offline_group_cursor_sequence (scope : TenantScope) (group_id : GroupId)
    (stream : OfflineGroupStreamKind) (token : OfflineGroupCursor) : result OfflineGroupError Z :=
  reject_if (negb (len token =? OFFLINE_GROUP_CURSOR_LEN)%Z) OgInvalidCursor ;;
  reject_if (negb (bool_decide (take 16 token
                                = take 16 (offline_cursor_binding scope group_id stream))))
    OgInvalidCursor ;;
  Ok (be_value (drop 16 token)).

Definition mesh_cursor_binding (scope : TenantScope) (group_id : GroupId) : bytes :=
  sha256 (MESH_CURSOR_DOMAIN ++ cursor_owner_bytes scope group_id).

Definition mesh_group_cursor (scope : TenantScope) (group_id : GroupId) (source_sequence : Z) :
    MeshCursor :=
  take 16 (mesh_cursor_binding scope group_id) ++ be_bytes 8 source_sequence.

Definition mesh_group_cursor_sequence (scope : TenantScope) (group_id : GroupId)
    (token : MeshCursor) : result MeshError Z :=
  reject_if (negb (len token =? MESH_CURSOR_LEN)%Z) MhInvalidCursor ;;
  reject_if (negb (bool_decide (take 16 token = take 16 (mesh_cursor_binding scope group_id))))
    MhInvalidCursor ;;
  Ok (be_value (drop 16 token)).
End cursors.
