(* ===== verification/Memory.v ===== *)
(** The state of the in-memory store beyond the tables of [Store]: the event journal and
    its subscriptions, commands, groups, calls, bridges and join grants
    (crates/ucr-storage-memory/src/lib.rs, [MemoryState]).  [MemoryState] of [Store] is the
    part of the Rust struct with the message and delivery tables; [Memory] is that part
    together with the tables below, grouped by component. *)

From S2P Require Import Prelude Ids Framing Extension Message Delivery StoreForward Sync Store.
From S2P Require Import Call Group Version Event Bridge Offline.

(** * The event journal *)

Inductive MemoryEventCursorAction := CaAcknowledge | CaReject.
#[global] Instance MemoryEventCursorAction_eq_dec : EqDecision MemoryEventCursorAction.
Proof. solve_decision. Defined.

Record MemoryEventActiveBatch := mk_active {
  ab_end_position : Z; (* u64 *)
  ab_attempt : Z; (* u32 *)
  ab_not_before_unix_ms : Z; (* i64 *)
}.

Record MemoryEventSubscriptionState := mk_sub_state {
  ss_subscription : EventSubscription;
  ss_owner : ScopedPrincipal;
  ss_committed_position : Z; (* u64 *)
  ss_generation : Z; (* u64 *)
  ss_active : option MemoryEventActiveBatch;
  ss_last_cursor_action : option (bytes * MemoryEventCursorAction);
  ss_last_replay_id : option OpaqueId;
  ss_dead_letters : list EventDeadLetter;
}.

Record Journal := mk_journal {
  accepted : gmap RecordKey CommandEnvelope;       (* by idempotency key *)
  accepted_by_id : gmap RecordKey CommandEnvelope; (* by command id *)
  events : gmap RecordKey EventEnvelope;
  event_order : list RecordKey;
  event_subscriptions : gmap RecordKey MemoryEventSubscriptionState;
  terminal_events : gmap RecordKey EventId;
}.

Definition with_accepted t t' (j : Journal) : Journal :=
  mk_journal t t' (events j) (event_order j) (event_subscriptions j) (terminal_events j).
Definition with_events t order (j : Journal) : Journal :=
  mk_journal (accepted j) (accepted_by_id j) t order (event_subscriptions j) (terminal_events j).
Definition with_subscriptions t (j : Journal) : Journal :=
  mk_journal (accepted j) (accepted_by_id j) (events j) (event_order j) t (terminal_events j).
Definition with_terminal_events t (j : Journal) : Journal :=
  mk_journal (accepted j) (accepted_by_id j) (events j) (event_order j)
    (event_subscriptions j) t.

(** * Groups and calls *)

Abbreviation GroupMembershipKey := (ScopeKey * bytes * PrincipalRef)%type.

Record GroupTables := mk_group_tables {
  groups : gmap RecordKey GroupRecord;
  group_memberships : gmap GroupMembershipKey GroupMembership;
  group_changes : gmap RecordKey (PrincipalRef * bytes);
  offline_group_change_replicas : list (Z * OfflineGroupChangeReplica);
  offline_group_message_replicas : list (Z * OfflineGroupMessageReplica);
  offline_group_next_sequence : Z; (* u64 *)
  mesh_group_message_paths : gmap RecordKey (list DeviceId);
}.

Inductive ConferenceJoinGrantUsePolicy := JpSingleUse | JpReusable.

Record ConferenceJoinGrantRecord := mk_join_grant {
  jg_scope : TenantScope;
  jg_conference_id : GroupId;
  jg_integration_id : IntegrationId;
  jg_call_id : CallId;
  jg_participant : PrincipalRef;
  jg_device_id : DeviceId;
  jg_session_id : SessionId;
  jg_issued_at_unix_ms : Z; (* i64 *)
  jg_not_before_unix_ms : Z; (* i64 *)
  jg_expires_at_unix_ms : Z; (* i64 *)
  jg_use_policy : ConferenceJoinGrantUsePolicy;
  jg_revoked : bool;
  jg_redeemed : bool;
}.

Record CallTables := mk_call_tables {
  calls : gmap RecordKey CallSession;
  call_creation_fingerprints : gmap RecordKey bytes;
  call_signals : gmap RecordKey (PrincipalRef * bytes * Z);
  conference_join_grants : gmap RecordKey ConferenceJoinGrantRecord;
}.

Record BridgeTables := mk_bridge_tables {
  bridge_registrations : gmap RecordKey BridgeRegistration;
  bridge_actions : gmap RecordKey BridgeActionRecord;
}.

Definition set_calls t (c : CallTables) : CallTables :=
  mk_call_tables t (call_creation_fingerprints c) (call_signals c) (conference_join_grants c).
Definition set_call_signals t (c : CallTables) : CallTables :=
  mk_call_tables (calls c) (call_creation_fingerprints c) t (conference_join_grants c).

(** [HashMap::values]: the entries of a table, in the order of the map. *)
Definition values {A} `{Countable K} (t : gmap K A) : list A := (map_to_list t).*2.

Lemma elem_of_values {A} `{Countable K} (t : gmap K A) x : x ∈ values t ↔ ∃ k, t !! k = Some x.
Proof.
  unfold values. rewrite list_elem_of_fmap. split.
  - intros ([k y] & -> & Hk%elem_of_map_to_list). eauto.
  - intros [k Hk%elem_of_map_to_list]. by exists (k, x).
Qed.

(** Entries written one after the other, each under its own key. *)
Lemma foldl_insert_Some {A B} `{Countable K} (f : A → K) (g : A → B) l (t : gmap K B) k y :
  NoDup (f <$> l) →
  foldl (λ t x, <[f x := g x]> t) t l !! k = Some y ↔
  (∃ x, x ∈ l ∧ f x = k ∧ g x = y) ∨ (k ∉ (f <$> l)) ∧ t !! k = Some y.
Proof.
  revert t. induction l as [|x l IH]; intros t Hnd; cbn.
  - split; [intros; right; split; [apply not_elem_of_nil|done]|].
    intros [(x & Hx & _)|[_ ?]]; [by apply not_elem_of_nil in Hx|done].
  - apply NoDup_cons in Hnd as [Hx Hnd]. rewrite IH by done. rewrite lookup_insert_Some.
    setoid_rewrite elem_of_cons. destruct (decide (f x = k)) as [<-|Hne]; [|naive_solver].
    split; [naive_solver|]. intros [(x' & [->|Hx'] & E & <-)|[[] _]]; [|left|by left].
    + naive_solver.
    + by exists x'.
Qed.

(** * The whole state *)

Record Memory := mk_mem {
  m_base : MemoryState;
  m_journal : Journal;
  m_groups : GroupTables;
  m_calls : CallTables;
  m_bridges : BridgeTables;
}.

Definition empty_journal : Journal := mk_journal ∅ ∅ ∅ [] ∅ ∅.
Definition empty_group_tables : GroupTables := mk_group_tables ∅ ∅ ∅ [] [] 0 ∅.
Definition empty_call_tables : CallTables := mk_call_tables ∅ ∅ ∅ ∅.
Definition empty_bridge_tables : BridgeTables := mk_bridge_tables ∅ ∅.
Definition empty_mem : Memory :=
  mk_mem empty_memory empty_journal empty_group_tables empty_call_tables empty_bridge_tables.

Definition with_base b (m : Memory) : Memory :=
  mk_mem b (m_journal m) (m_groups m) (m_calls m) (m_bridges m).
Definition with_journal j (m : Memory) : Memory :=
  mk_mem (m_base m) j (m_groups m) (m_calls m) (m_bridges m).
Definition with_groups g (m : Memory) : Memory :=
  mk_mem (m_base m) (m_journal m) g (m_calls m) (m_bridges m).
Definition with_calls c (m : Memory) : Memory :=
  mk_mem (m_base m) (m_journal m) (m_groups m) c (m_bridges m).
Definition with_bridges b (m : Memory) : Memory :=
  mk_mem (m_base m) (m_journal m) (m_groups m) (m_calls m) b.

Abbreviation mem_op A := (op Memory DurableStoreError A).

(** An operation on one component's tables, run under the same lock. *)
Definition zoom {S T E A} (view : S → T) (set : T → S → S) (m : op T E A) : op S E A :=
  λ s, let '(t, r) := m (view s) in (set t s, r).

Definition on_base {A} (m : store_op A) : mem_op A := zoom m_base with_base m.
Definition on_journal {A} (m : op Journal DurableStoreError A) : mem_op A :=
  zoom m_journal with_journal m.
Definition on_bridges {A} (m : op BridgeTables DurableStoreError A) : mem_op A :=
  zoom m_bridges with_bridges m.

(** [map_err(|_| DurableStoreError::InvalidRecord)?] on any state. *)
Definition invalid {S E A} (r : result E A) : op S DurableStoreError A :=
  lift (map_err (λ _, StInvalidRecord) r).
(** [Ok(Duplicate)] for an equal record, [Err(Conflict)] otherwise. *)
Definition same_or_conflict {S} (same : bool) : op S DurableStoreError DurableRecordStatus :=
  lift (if same then Ok RecDuplicate else Err StConflict).
