(* ===== verification/OpLogic.v ===== *)
(** Weakest preconditions for store operations: [wp m s Q] says that running [m] in state
    [s] ends in a state and a result, success or error, that satisfy [Q]. *)

From S2P Require Import Prelude Ids Store Memory.

Definition wp {S E A} (m : op S E A) (s : S) (Q : S → result E A → Prop) : Prop :=
  Q (m s).1 (m s).2.
#[global] Arguments wp : simpl never.

Section rules.
Context {S E : Type}.
Implicit Types s : S.

Lemma wp_run {A} (m : op S E A) s s' r (Q : S → result E A → Prop) :
  wp m s Q → m s = (s', r) → Q s' r.
Proof. unfold wp. intros H Hm. by rewrite Hm in H. Qed.

Lemma wp_intro {A} (m : op S E A) s (Q : S → result E A → Prop) :
  (∀ s' r, m s = (s', r) → Q s' r) → wp m s Q.
Proof. unfold wp. intros H. apply H. by destruct (m s). Qed.

Lemma wp_mono {A} (m : op S E A) s (Q Q' : S → result E A → Prop) :
  (∀ s' r, Q s' r → Q' s' r) → wp m s Q → wp m s Q'.
Proof. unfold wp. auto. Qed.

Lemma wp_and {A} (m : op S E A) s (Q Q' : S → result E A → Prop) :
  wp m s Q → wp m s Q' → wp m s (λ s' r, Q s' r ∧ Q' s' r).
Proof. unfold wp. auto. Qed.

Lemma wp_bind {A B} (m : op S E A) (k : A → op S E B) s (Q : S → result E B → Prop) :
  wp m s (λ s' r, match r with Ok a => wp (k a) s' Q | Err e => Q s' (Err e) end) →
  wp (m ≫= k) s Q.
Proof. unfold wp, mbind, op_bind. by destruct (m s) as [s' [a|e]]. Qed.

Lemma wp_ret {A} (a : A) s (Q : S → result E A → Prop) : Q s (Ok a) → wp (mret a) s Q.
Proof. done. Qed.

Lemma wp_get {A} (k : S → op S E A) s (Q : S → result E A → Prop) :
  wp (k s) s Q → wp (get ≫= k) s Q.
Proof. done. Qed.

Lemma wp_put {A} s1 (k : unit → op S E A) s (Q : S → result E A → Prop) :
  wp (k tt) s1 Q → wp (put s1 ≫= k) s Q.
Proof. done. Qed.

Lemma wp_lift_end {A} (r : result E A) s (Q : S → result E A → Prop) : Q s r → wp (lift r) s Q.
Proof. done. Qed.

Lemma wp_lift {A B} (r : result E A) (k : A → op S E B) s (Q : S → result E B → Prop) :
  (∀ a, r = Ok a → wp (k a) s Q) → (∀ e, r = Err e → Q s (Err e)) → wp (lift r ≫= k) s Q.
Proof. intros Hok Herr. apply wp_bind. destruct r; [by apply Hok|by apply Herr]. Qed.

Lemma wp_guard {A} (c : bool) e (k : unit → op S E A) s (Q : S → result E A → Prop) :
  (c = false → wp (k tt) s Q) → (c = true → Q s (Err e)) → wp (guard c e ≫= k) s Q.
Proof. destruct c; intros Hf Ht; [by apply Ht|by apply Hf]. Qed.

Lemma wp_guard_end (c : bool) e s (Q : S → result E unit → Prop) :
  (c = false → Q s (Ok tt)) → (c = true → Q s (Err e)) → wp (guard c e) s Q.
Proof. destruct c; intros Hf Ht; [by apply Ht|by apply Hf]. Qed.

Lemma wp_put_end s1 s (Q : S → result E unit → Prop) : Q s1 (Ok tt) → wp (put s1) s Q.
Proof. done. Qed.

(** [get(&key).ok_or(..)?]. *)
Lemma wp_ok_or {A B} (o : option A) e (k : A → op S E B) s (Q : S → result E B → Prop) :
  (∀ a, o = Some a → wp (k a) s Q) → (o = None → Q s (Err e)) →
  wp (lift (ok_or o e) ≫= k) s Q.
Proof. intros Hs Hn. apply wp_lift; destruct o; intros ? [= <-]; auto. Qed.

(** [map_err(..)?]. *)
Lemma wp_map_err {F A B} (f : F → E) (r : result F A) (k : A → op S E B) s
    (Q : S → result E B → Prop) :
  (∀ a, r = Ok a → wp (k a) s Q) → (∀ e, r = Err e → Q s (Err (f e))) →
  wp (lift (map_err f r) ≫= k) s Q.
Proof. intros Hs Hn. apply wp_lift; destruct r; intros ? [= <-]; auto. Qed.
End rules.

Lemma wp_same {S} (same : bool) (s : S) (Q : S → result DurableStoreError DurableRecordStatus → Prop) :
  (same = true → Q s (Ok RecDuplicate)) → (same = false → Q s (Err StConflict)) →
  wp (same_or_conflict same) s Q.
Proof. destruct same; intros Ht Hf; [by apply Ht|by apply Hf]. Qed.

Lemma wp_invalid {S F A B} (r : result F A) (k : A → op S DurableStoreError B) (s : S)
    (Q : S → result DurableStoreError B → Prop) :
  (∀ a, r = Ok a → wp (k a) s Q) → (∀ e, r = Err e → Q s (Err StInvalidRecord)) →
  wp (invalid r ≫= k) s Q.
Proof. apply wp_map_err. Qed.

(** Running an operation of one component's tables. *)
Lemma wp_zoom {S T E A} (view : S → T) (set : T → S → S) (m : op T E A) (s : S)
    (Q : S → result E A → Prop) :
  wp m (view s) (λ t r, Q (set t s) r) → wp (zoom view set m) s Q.
Proof. unfold wp, zoom. by destruct (m (view s)). Qed.

(** One step of a symbolic run; matches and conditionals split the goal.  The hypotheses
    a step learns keep the names the goals are introduced with. *)
Ltac wp_step :=
  lazymatch goal with
  | |- wp (get ≫= _) _ _ => apply wp_get; cbn beta
  | |- wp (put _ ≫= _) _ _ => apply wp_put; cbn beta
  | |- wp (guard _ _ ≫= _) _ _ => apply wp_guard; [intros ?|intros ?]
  | |- wp (lift (ok_or _ _) ≫= _) _ _ => apply wp_ok_or; [intros ? ?|intros ?]
  | |- wp (lift (map_err _ _) ≫= _) _ _ => apply wp_map_err; [intros ? ?|intros ? ?]
  | |- wp (lift _ ≫= _) _ _ => apply wp_lift; [intros ? ?|intros ? ?]
  | |- wp (invalid _ ≫= _) _ _ => apply wp_invalid; [intros ? ?|intros ? ?]
  | |- wp (same_or_conflict _) _ _ => apply wp_same; [intros ?|intros ?]
  | |- wp (mret _) _ _ => apply wp_ret
  | |- wp (lift _) _ _ => apply wp_lift_end
  | |- wp (guard _ _) _ _ => apply wp_guard_end; [intros ?|intros ?]
  | |- wp (put _) _ _ => apply wp_put_end
  | |- wp (mret _ ≫= _) _ _ => apply wp_bind, wp_ret
  | |- wp (let _ := _ in _) _ _ => intros; cbv zeta
  | |- wp (match ?x with _ => _ end) _ _ => destruct x eqn:?
  | |- wp (match ?x with _ => _ end ≫= _) _ _ => destruct x eqn:?
  | |- wp ((_ ≫= _) ≫= _) _ _ => apply wp_bind
  end.
Ltac wp_steps := repeat wp_step.
