(* ===== verification/BridgeStore.v ===== *)
(** The bridge registration and action stores of the in-memory store
    (crates/ucr-storage-memory/src/lib.rs, [BridgeRegistrationStore], [BridgeActionStore]),
    and what each of them does to the tables. *)

From S2P Require Import Prelude Ids Framing Extension Message StoreForward Store Version Event.
From S2P Require Import Bridge Memory OpLogic.

Abbreviation bridge_op A := (op BridgeTables DurableStoreError A).

Definition put_registration (key : RecordKey) (r : BridgeRegistration) : bridge_op unit :=
  s ← get;
  put (mk_bridge_tables (<[key := r]> (bridge_registrations s)) (bridge_actions s)).
Definition put_action (key : RecordKey) (r : BridgeActionRecord) : bridge_op unit :=
  s ← get;
  put (mk_bridge_tables (bridge_registrations s) (<[key := r]> (bridge_actions s))).

(** * Registrations *)

Definition install_bridge_registration (registration : BridgeRegistration) :
    bridge_op DurableRecordStatus :=
  canonical ← invalid (canonical_bridge_registration registration);
  guard (negb (bool_decide (br_state canonical = BrActive))
         || negb (br_generation canonical =? 1)%Z) StInvalidRecord ;;
  let key := record_key (br_scope canonical) (br_integration_id canonical) in
  s ← get;
  match bridge_registrations s !! key with
  | Some existing => same_or_conflict (bool_decide (existing = canonical))
  | None => put_registration key canonical ;; mret RecPersisted
  end.

Definition bridge_registration (scope : TenantScope) (integration_id : IntegrationId) :
    bridge_op (option BridgeRegistration) :=
  s ← get; mret (bridge_registrations s !! record_key scope integration_id).

Definition transition_bridge_registration (scope : TenantScope) (integration_id : IntegrationId)
    (expected_generation : Z) (next_state : BridgeRegistrationState) :
    bridge_op DurableRecordStatus :=
  let key := record_key scope integration_id in
  s ← get;
  current ← lift (ok_or (bridge_registrations s !! key) StConflict);
  next_generation ← lift (ok_or (checked_add_u64 expected_generation 1) StInvalidRecord);
  if (br_generation current =? next_generation)%Z && bool_decide (br_state current = next_state)
  then mret RecDuplicate else
  guard (negb (br_generation current =? expected_generation)%Z) StConflict ;;
  invalid (validate_bridge_registration_transition (br_state current) next_state) ;;
  let next := set_registration_state next_state next_generation current in
  invalid (canonical_bridge_registration next) ;;
  put_registration key next ;;
  mret RecPersisted.

(** * Actions *)

(** The registration is active and declares the capability. *)
Definition registration_permits (registration : BridgeRegistration)
    (capability : BridgeCapability) : bool :=
  bool_decide (br_state registration = BrActive)
  && bridge_manifest_supports (br_manifest registration) capability.

Definition prepare_bridge_action (record : BridgeActionRecord) : bridge_op DurableRecordStatus :=
  invalid (validate_bridge_action_record record) ;;
  guard (negb (bool_decide (bar_state record = BsPrepared))
         || negb (bar_generation record =? 1)%Z
         || bool_decide (is_Some (bar_acceptance record))) StInvalidRecord ;;
  let key := record_key (bar_scope record) (bar_action_id record) in
  s ← get;
  registration ← lift (ok_or (bridge_registrations s
                                !! record_key (bar_scope record) (bar_integration_id record))
                         StInvalidRecord);
  guard (negb (registration_permits registration (bar_capability record))) StPermissionDenied ;;
  match bridge_actions s !! key with
  | Some existing => same_or_conflict (bool_decide (existing = record))
  | None => put_action key record ;; mret RecPersisted
  end.

Definition bridge_action (scope : TenantScope) (action_id : BridgeActionId) :
    bridge_op (option BridgeActionRecord) :=
  s ← get; mret (bridge_actions s !! record_key scope action_id).

Definition transition_bridge_action (scope : TenantScope) (action_id : BridgeActionId)
    (expected_generation : Z) (expected_state next_state : BridgeActionState)
    (acceptance : option BridgeProviderAcceptance) : bridge_op DurableRecordStatus :=
  let key := record_key scope action_id in
  s ← get;
  current ← lift (ok_or (bridge_actions s !! key) StConflict);
  next_generation ← lift (ok_or (checked_add_u64 expected_generation 1) StInvalidRecord);
  if (bar_generation current =? next_generation)%Z
     && bool_decide (bar_state current = next_state)
     && bool_decide (bar_acceptance current = acceptance)
  then mret RecDuplicate else
  guard (negb (bar_generation current =? expected_generation)%Z
         || negb (bool_decide (bar_state current = expected_state))) StConflict ;;
  (if bool_decide (next_state = BsInFlight) then
     registration ← lift (ok_or (bridge_registrations s
                                   !! record_key scope (bar_integration_id current))
                            StInvalidRecord);
     guard (negb (registration_permits registration (bar_capability current))) StPermissionDenied
   else mret tt) ;;
  invalid (validate_bridge_action_transition (bar_state current) next_state) ;;
  let next := set_action_state next_state acceptance next_generation current in
  invalid (validate_bridge_action_record next) ;;
  put_action key next ;;
  mret RecPersisted.

(** * What the operations do *)

(** The only writes to the action table: a new record, or the next generation of the
    record a transition expected. *)
Definition action_next (s : BridgeTables) (scope : TenantScope) (id : BridgeActionId) (g : Z)
    (from to : BridgeActionState) (acceptance : option BridgeProviderAcceptance)
    (s' : BridgeTables) : Prop :=
  ∃ current,
    bridge_actions s !! record_key scope id = Some current
    ∧ bar_generation current = g ∧ bar_state current = from
    ∧ validate_bridge_action_transition from to = Ok tt
    ∧ (to = BsInFlight → ∃ registration,
         bridge_registrations s !! record_key scope (bar_integration_id current) = Some registration
         ∧ registration_permits registration (bar_capability current) = true)
    ∧ s' = mk_bridge_tables (bridge_registrations s)
             (<[record_key scope id := set_action_state to acceptance (g + 1) current]>
                (bridge_actions s)).

Lemma transition_action_wp s scope id g from to acceptance :
  wp (transition_bridge_action scope id g from to acceptance) s (λ s' r,
    match r with
    | Ok RecPersisted => action_next s scope id g from to acceptance s'
    | _ => s' = s
    end).
Proof.
  unfold transition_bridge_action, put_action. wp_steps; try done; bool_norm;
    repeat match goal with
    | H : checked_add_u64 _ _ = Some _ |- _ => apply checked_add_u64_Some in H as [-> _]
    | H : _ ∧ _ |- _ => destruct H
    | u : unit |- _ => destruct u
    end; subst; eexists; naive_solver.
Qed.

Lemma prepare_action_wp s record :
  wp (prepare_bridge_action record) s (λ s' r,
    match r with
    | Ok RecPersisted =>
        bridge_actions s !! record_key (bar_scope record) (bar_action_id record) = None
        ∧ bar_state record = BsPrepared ∧ bar_generation record = 1%Z
        ∧ s' = mk_bridge_tables (bridge_registrations s)
                 (<[record_key (bar_scope record) (bar_action_id record) := record]>
                    (bridge_actions s))
    | _ => s' = s
    end).
Proof.
  unfold prepare_bridge_action, put_action.
  wp_steps; bool_norm; naive_solver.
Qed.

(** Registration operations leave the action table alone. *)
Lemma install_registration_wp s registration :
  wp (install_bridge_registration registration) s (λ s' _, bridge_actions s' = bridge_actions s).
Proof.
  unfold install_bridge_registration, put_registration.
  by wp_steps.
Qed.

Lemma transition_registration_wp s scope id g next :
  wp (transition_bridge_registration scope id g next) s (λ s' r,
    bridge_actions s' = bridge_actions s
    ∧ match r with
      | Ok RecPersisted => ∃ current,
          bridge_registrations s !! record_key scope id = Some current
          ∧ br_generation current = g
          ∧ validate_bridge_registration_transition (br_state current) next = Ok tt
          ∧ bridge_registrations s' = <[record_key scope id :=
                set_registration_state next (g + 1) current]> (bridge_registrations s)
      | _ => s' = s
      end).
Proof.
  unfold transition_bridge_registration, put_registration.
  wp_steps; bool_norm; try done.
  repeat match goal with
    | H : checked_add_u64 _ _ = Some _ |- _ => apply checked_add_u64_Some in H as [-> _]
    | u : unit |- _ => destruct u
    end. split; [done|]. eexists. naive_solver.
Qed.
