(* ===== verification/BridgeRuntime.v ===== *)
(** The bridge runtime (crates/ucr-bridge/src/lib.rs): registering providers, executing
    external actions through the action ledger and polling provider events.  Authorization
    and the provider are trait objects, answered by the environment; store calls run on the
    tables of the in-memory store. *)

From S2P Require Import Prelude Ids Framing Extension Message StoreForward Store Version Event.
From S2P Require Import Bridge Memory BridgeStore Interaction.

(** * The interface of the runtime *)

Inductive CanonicalErrorCode :=
| CcInvalidArgument | CcMalformedFrame | CcUnsupportedProtocolVersion | CcDowngradeRejected
| CcUnsupportedCriticalExtension | CcCapabilityMismatch | CcUnauthenticated
| CcPermissionDenied | CcPolicyDenied | CcRateLimited | CcResourceExhausted
| CcDeadlineExceeded | CcCancelled | CcTemporarilyUnavailable | CcIntegrityFailure
| CcConflict | CcNotFound | CcInternal.

Record CanonicalError := mk_canonical_error {
  ce_code : CanonicalErrorCode;
  ce_retryable : bool;
  ce_retry_after_ms : option Z; (* Option<u64> *)
}.

Record AuthorizationRequest := mk_authorization_request {
  ar_subject : ScopedPrincipal;
  ar_permission : bytes; (* String *)
  ar_resource_scope : TenantScope;
}.

Inductive BridgeProviderFailureKind := PfUnavailable | PfBackpressure | PfRateLimited | PfRejected.

Inductive BridgeProviderFailure :=
| BfNotAccepted (kind : BridgeProviderFailureKind)
| BfAcceptanceUnknown (kind : BridgeProviderFailureKind).

Record BridgeExecutionOutcome := mk_bridge_outcome {
  bo_acceptance : BridgeProviderAcceptance;
  bo_replayed : bool;
}.

Inductive BridgeActionAdmission :=
| AdReady (record : BridgeActionRecord)
| AdReplayed (outcome : BridgeExecutionOutcome).

Inductive BridgeError :=
| BxProtocol (e : BridgeProtocolError)
| BxAuthorization (e : CanonicalError)
| BxStore (e : DurableStoreError)
| BxRegistrationUnavailable | BxRegistrationInactive | BxProviderIdentityMismatch
| BxCapabilityUnavailable | BxDataPermissionDenied | BxExternalBridgeForbidden
| BxMessageUnavailable | BxMessageBindingMismatch | BxEventBindingMismatch
| BxInvalidPageLimit | BxActionInFlight | BxAcceptanceUnknown
| BxProvider (kind : BridgeProviderFailureKind).

(** A [&dyn BridgeProvider]: which provider object is called. *)
Definition BridgeProviderRef : Type := nat.

(** Calls on the store. *)
Inductive ledger_call : Type → Type :=
| LcInstall (r : BridgeRegistration) : ledger_call DurableRecordStatus
| LcRegistration (scope : TenantScope) (id : IntegrationId) :
    ledger_call (option BridgeRegistration)
| LcTransitionRegistration (scope : TenantScope) (id : IntegrationId) (generation : Z)
    (next : BridgeRegistrationState) : ledger_call DurableRecordStatus
| LcPrepare (r : BridgeActionRecord) : ledger_call DurableRecordStatus
| LcAction (scope : TenantScope) (id : BridgeActionId) : ledger_call (option BridgeActionRecord)
| LcTransition (scope : TenantScope) (id : BridgeActionId) (generation : Z)
    (from to : BridgeActionState) (acceptance : option BridgeProviderAcceptance) :
    ledger_call DurableRecordStatus
| LcMessage (scope : TenantScope) (id : MessageId) : ledger_call (option MessageEnvelope).

Definition exec_ledger {B} (c : ledger_call B) : mem_op B :=
  match c with
  | LcInstall r => on_bridges (install_bridge_registration r)
  | LcRegistration scope id => on_bridges (bridge_registration scope id)
  | LcTransitionRegistration scope id generation next =>
      on_bridges (transition_bridge_registration scope id generation next)
  | LcPrepare r => on_bridges (prepare_bridge_action r)
  | LcAction scope id => on_bridges (bridge_action scope id)
  | LcTransition scope id generation from to acceptance =>
      on_bridges (transition_bridge_action scope id generation from to acceptance)
  | LcMessage scope id => on_base (message scope id)
  end.

Inductive bridge_call : Type → Type :=
| Authorize (request : AuthorizationRequest) : bridge_call (result CanonicalError unit)
| ProviderManifest (provider : BridgeProviderRef) : bridge_call BridgeProviderManifest
| ProviderExecute (provider : BridgeProviderRef) (action : BridgeAction) :
    bridge_call (result BridgeProviderFailure BridgeProviderAcceptance)
| ProviderPoll (provider : BridgeProviderRef) (scope : TenantScope)
    (integration_id : IntegrationId) (cursor : option BridgeEventCursor) (limit : Z) :
    bridge_call (result BridgeProviderFailure BridgeEventPage)
| Ledger {B} (c : ledger_call B) : bridge_call (result DurableStoreError B).

Abbreviation bridge_prog A := (etree bridge_call BridgeError A).

Definition ask_bridge {B} (c : bridge_call B) : bridge_prog B := Call c (λ b, Ret (Ok b)).
(** A call whose error is converted with [From] or [map_err]. *)
Definition ask_or {E B} (f : E → BridgeError) (c : bridge_call (result E B)) : bridge_prog B :=
  Call c (λ r, Ret (map_err f r)).
Definition stored {B} (c : ledger_call B) : bridge_prog B := ask_or BxStore (Ledger c).
Definition protocol {A} (r : result BridgeProtocolError A) : bridge_prog A :=
  pure (map_err BxProtocol r).

Definition BRIDGE_REGISTRATION_READ_PERMISSION : bytes := str "ucr.bridge.registration.read".
Definition BRIDGE_REGISTRATION_MANAGE_PERMISSION : bytes := str "ucr.bridge.registration.manage".
Definition BRIDGE_EXECUTE_PERMISSION : bytes := str "ucr.bridge.execute".
Definition BRIDGE_EVENTS_READ_PERMISSION : bytes := str "ucr.bridge.events.read".

Definition authorize (actor : ScopedPrincipal) (permission : bytes) : bridge_prog unit :=
  ask_or BxAuthorization
    (Authorize (mk_authorization_request actor permission (sp_scope actor))).

(** * Registrations *)

Definition register (actor : ScopedPrincipal) (integration_id : IntegrationId)
    (provider : BridgeProviderRef) : bridge_prog DurableRecordStatus :=
  authorize actor BRIDGE_REGISTRATION_MANAGE_PERMISSION ;;
  reported ← ask_bridge (ProviderManifest provider);
  manifest ← protocol (canonical_bridge_manifest reported);
  stored (LcInstall (mk_registration (sp_scope actor) integration_id manifest BrActive 1)).

Definition registration (actor : ScopedPrincipal) (integration_id : IntegrationId) :
    bridge_prog BridgeRegistration :=
  authorize actor BRIDGE_REGISTRATION_READ_PERMISSION ;;
  found ← stored (LcRegistration (sp_scope actor) integration_id);
  pure (ok_or found BxRegistrationUnavailable).

Definition transition_registration (actor : ScopedPrincipal) (integration_id : IntegrationId)
    (expected_generation : Z) (next_state : BridgeRegistrationState) :
    bridge_prog DurableRecordStatus :=
  authorize actor BRIDGE_REGISTRATION_MANAGE_PERMISSION ;;
  stored (LcTransitionRegistration (sp_scope actor) integration_id expected_generation
            next_state).

Definition admit_provider (scope : TenantScope) (integration_id : IntegrationId)
    (provider : BridgeProviderRef) : bridge_prog (BridgeRegistration * BridgeProviderManifest) :=
  found ← stored (LcRegistration scope integration_id);
  registration ← pure (ok_or found BxRegistrationUnavailable);
  pure (reject_if (negb (bool_decide (br_state registration = BrActive)))
          BxRegistrationInactive) ;;
  reported ← ask_bridge (ProviderManifest provider);
  current ← protocol (canonical_bridge_manifest reported);
  pure (reject_if (negb (bool_decide (mf_provider_id current
                                      = mf_provider_id (br_manifest registration))))
          BxProviderIdentityMismatch) ;;
  mret (registration, current).

(** * Admission of an action *)

Definition require_capability (registered current : BridgeProviderManifest)
    (capability : BridgeCapability) : result BridgeError unit :=
  reject_if (negb (bridge_manifest_supports registered capability
                   && bridge_manifest_supports current capability)) BxCapabilityUnavailable.

Definition require_data_permission (registered current : BridgeProviderManifest)
    (permission : BridgeDataPermission) : result BridgeError unit :=
  reject_if (negb (bridge_manifest_allows_data registered permission
                   && bridge_manifest_allows_data current permission)) BxDataPermissionDenied.

(** The policies under which a message must not leave through a bridge. *)
Definition forbids_external_bridge (policy : DeliveryPolicy) : bool :=
  match policy with
  | DpLocalOnly | DpPrivateNetworkOnly | DpNoExternalBridge => true
  | _ => false
  end.

Definition require_action_permissions (registered current : BridgeProviderManifest)
    (action : BridgeAction) : result BridgeError unit :=
  (if bool_decide (ba_external_target action = []) then Ok tt
   else require_data_permission registered current BpExternalIdentityReferences) ;;
  (if bool_decide (ba_provider_payload action = []) then Ok tt
   else require_data_permission registered current BpMessageContent) ;;
  if bool_decide (ba_attachment_ids action = []) then Ok tt
  else require_data_permission registered current BpAttachmentReferences.

Definition validate_action_data (registration : BridgeRegistration)
    (current : BridgeProviderManifest) (action : BridgeAction) : bridge_prog unit :=
  pure (require_action_permissions (br_manifest registration) current action) ;;
  match ba_canonical_message_id action with
  | Some message_id =>
      found ← stored (LcMessage (ba_scope action) message_id);
      message ← pure (ok_or found BxMessageUnavailable);
      pure (reject_if (forbids_external_bridge (me_delivery_policy message))
              BxExternalBridgeForbidden) ;;
      pure (reject_if (negb (bool_decide (ba_provider_payload action = me_content message))
                       || negb (bool_decide (ba_attachment_ids action
                                             = me_attachment_ids message)))
              BxMessageBindingMismatch)
  | None =>
      pure (reject_if (negb (bool_decide (ba_provider_payload action = []))
                       || negb (bool_decide (ba_attachment_ids action = [])))
              BxMessageBindingMismatch)
  end.

(** * Executing an action *)

Definition load_existing_action (action : BridgeAction) (fingerprint : bytes) :
    bridge_prog (option BridgeActionAdmission) :=
  found ← stored (LcAction (ba_scope action) (ba_action_id action));
  match found with
  | Some existing =>
      pure (reject_if (negb (bool_decide (bar_fingerprint existing = fingerprint))
                       || negb (bool_decide (bar_integration_id existing
                                             = ba_integration_id action))
                       || negb (bool_decide (bar_capability existing = ba_capability action)))
              (BxStore StConflict)) ;;
      match bar_state existing with
      | BsAccepted =>
          acceptance ← pure (ok_or (bar_acceptance existing) (BxStore StCorrupt));
          mret (Some (AdReplayed (mk_bridge_outcome acceptance true)))
      | BsAcceptanceUnknown => pure (Err BxAcceptanceUnknown)
      | BsInFlight => pure (Err BxActionInFlight)
      | BsPrepared | BsFailedNotAccepted => mret (Some (AdReady existing))
      end
  | None => mret None
  end.

Definition prepare_action (action : BridgeAction) (fingerprint : bytes) :
    bridge_prog BridgeActionRecord :=
  let prepared := mk_action_record (ba_scope action) (ba_action_id action)
    (ba_integration_id action) (ba_capability action) fingerprint BsPrepared None 1 in
  stored (LcPrepare prepared) ;;
  mret prepared.

Definition transition (action : BridgeAction) (generation : Z)
    (from to : BridgeActionState) (acceptance : option BridgeProviderAcceptance) :
    bridge_call (result DurableStoreError DurableRecordStatus) :=
  Ledger (LcTransition (ba_scope action) (ba_action_id action) generation from to acceptance).

Definition mark_action_in_flight (action : BridgeAction) (record : BridgeActionRecord) :
    bridge_prog Z :=
  status ← ask_or BxStore
             (transition action (bar_generation record) (bar_state record) BsInFlight None);
  pure (reject_if (bool_decide (status = RecDuplicate)) BxActionInFlight) ;;
  pure (ok_or (checked_add_u64 (bar_generation record) 1) (BxStore StInvalidRecord)).

Definition complete_provider_execution (action : BridgeAction)
    (registered_manifest provider_manifest : BridgeProviderManifest)
    (provider : BridgeProviderRef) (in_flight_generation : Z) :
    bridge_prog BridgeExecutionOutcome :=
  answer ← ask_bridge (ProviderExecute provider action);
  match answer with
  | Ok acceptance =>
      if is_ok (validate_bridge_provider_acceptance action registered_manifest
                  provider_manifest acceptance)
      then
        ask_or BxStore (transition action in_flight_generation BsInFlight BsAccepted
                          (Some acceptance)) ;;
        mret (mk_bridge_outcome acceptance false)
      else
        ask_bridge (transition action in_flight_generation BsInFlight BsAcceptanceUnknown None) ;;
        pure (Err BxAcceptanceUnknown)
  | Err (BfNotAccepted kind) =>
      ask_or BxStore (transition action in_flight_generation BsInFlight BsFailedNotAccepted None) ;;
      pure (Err (BxProvider kind))
  | Err (BfAcceptanceUnknown _) =>
      ask_or BxStore (transition action in_flight_generation BsInFlight BsAcceptanceUnknown None) ;;
      pure (Err BxAcceptanceUnknown)
  end.

(** The part of [execute] after a replay has been ruled out; [ready] is the record an
    earlier call left. *)
Definition execute_admitted (action : BridgeAction) (provider : BridgeProviderRef)
    (fingerprint : bytes) (ready : option BridgeActionRecord) :
    bridge_prog BridgeExecutionOutcome :=
  admitted ← admit_provider (ba_scope action) (ba_integration_id action) provider;
  let '(registration, provider_manifest) := admitted in
  pure (require_capability (br_manifest registration) provider_manifest
          (ba_capability action)) ;;
  validate_action_data registration provider_manifest action ;;
  record ← match ready with
           | Some record => mret record
           | None => prepare_action action fingerprint
           end;
  in_flight_generation ← mark_action_in_flight action record;
  complete_provider_execution action (br_manifest registration) provider_manifest provider
    in_flight_generation.

Definition execute `{Sha256} (actor : ScopedPrincipal) (action : BridgeAction)
    (provider : BridgeProviderRef) : bridge_prog BridgeExecutionOutcome :=
  authorize actor BRIDGE_EXECUTE_PERMISSION ;;
  protocol (validate_bridge_action action) ;;
  pure (reject_if (negb (bool_decide (ba_scope action = sp_scope actor)))
          BxMessageBindingMismatch) ;;
  fingerprint ← protocol (bridge_action_fingerprint action);
  existing ← load_existing_action action fingerprint;
  match existing with
  | Some (AdReplayed outcome) => mret outcome
  | Some (AdReady record) => execute_admitted action provider fingerprint (Some record)
  | None => execute_admitted action provider fingerprint None
  end.

Definition recover_in_flight_as_unknown (actor : ScopedPrincipal) (action_id : BridgeActionId) :
    bridge_prog DurableRecordStatus :=
  authorize actor BRIDGE_EXECUTE_PERMISSION ;;
  found ← stored (LcAction (sp_scope actor) action_id);
  record ← pure (ok_or found (BxStore StConflict));
  pure (reject_if (negb (bool_decide (bar_state record = BsInFlight))) (BxStore StConflict)) ;;
  stored (LcTransition (sp_scope actor) action_id (bar_generation record) BsInFlight
            BsAcceptanceUnknown None).

(** * Provider events *)

Definition map_poll_failure (failure : BridgeProviderFailure) : BridgeError :=
  match failure with
  | BfNotAccepted kind | BfAcceptanceUnknown kind => BxProvider kind
  end.

Definition poll_events (actor : ScopedPrincipal) (integration_id : IntegrationId)
    (provider : BridgeProviderRef) (cursor : option BridgeEventCursor) (limit : Z) :
    bridge_prog BridgeEventPage :=
  authorize actor BRIDGE_EVENTS_READ_PERMISSION ;;
  pure (reject_if ((limit =? 0)%Z || (MAX_BRIDGE_EVENT_PAGE_ITEMS <? limit)%Z)
          BxInvalidPageLimit) ;;
  protocol match cursor with
           | Some cursor => validate_bridge_event_cursor cursor
           | None => Ok tt
           end ;;
  admitted ← admit_provider (sp_scope actor) integration_id provider;
  let '(registration, provider_manifest) := admitted in
  pure (require_data_permission (br_manifest registration) provider_manifest BpInboundEvents) ;;
  page ← ask_or map_poll_failure
           (ProviderPoll provider (sp_scope actor) integration_id cursor limit);
  protocol (validate_bridge_event_page page) ;;
  pure (reject_if ((limit <? len (bp_events page))%Z
                   || existsb (λ event,
                        negb (bool_decide (bi_scope event = sp_scope actor))
                        || negb (bool_decide (bi_integration_id event = integration_id))
                        || negb (bridge_manifest_supports (br_manifest registration)
                                   (bi_capability event))
                        || negb (bridge_manifest_supports provider_manifest
                                   (bi_capability event))) (bp_events page))
          BxEventBindingMismatch) ;;
  mret page.
