(* ===== verification/BridgeTheorems.v ===== *)
(** Executing bridge actions under concurrency and crashes: any number of runtimes run over
    one store, interleaved call by call, and an external side effect happens at most once. *)

From S2P Require Import Prelude Ids Framing Extension Message StoreForward Store Version Event.
From S2P Require Import Bridge Memory OpLogic BridgeStore Interaction BridgeRuntime.

(** * What a runtime does to actions *)

Abbreviation provider_answer := (result BridgeProviderFailure BridgeProviderAcceptance).

Inductive bridge_event :=
| BtTook (k : RecordKey) (generation : Z)            (* put in flight at this generation *)
| BtInvoked (k : RecordKey) (answer : provider_answer)
| BtSettled (k : RecordKey) (generation : Z) (to : BridgeActionState)
    (acceptance : option BridgeProviderAcceptance).

Definition ledger_events {B} (c : ledger_call B) : result DurableStoreError B → list bridge_event :=
  match c with
  | LcTransition scope id generation from to acceptance => λ r,
      match r with
      | Ok RecPersisted =>
          if bool_decide (to = BsInFlight)
          then [BtTook (record_key scope id) (generation + 1)]
          else [BtSettled (record_key scope id) generation to acceptance]
      | _ => []
      end
  | _ => λ _, []
  end.

Definition bridge_events {B} (c : bridge_call B) : B → list bridge_event :=
  match c with
  | ProviderExecute _ action => λ b,
      [BtInvoked (record_key (ba_scope action) (ba_action_id action)) b]
  | Ledger c => ledger_events c
  | _ => λ _, []
  end.

(** The provider proved that it did not accept the action. *)
Definition refused (a : provider_answer) : bool :=
  match a with Err (BfNotAccepted _) => true | _ => false end.

(** The final states a provider's answer may be recorded as. *)
Inductive settles : provider_answer → BridgeActionState → option BridgeProviderAcceptance → Prop :=
| settles_accepted acceptance : settles (Ok acceptance) BsAccepted (Some acceptance)
| settles_malformed acceptance : settles (Ok acceptance) BsAcceptanceUnknown None
| settles_refused kind : settles (Err (BfNotAccepted kind)) BsFailedNotAccepted None
| settles_unknown kind : settles (Err (BfAcceptanceUnknown kind)) BsAcceptanceUnknown None.

(** The only sequences of events one call of the runtime may produce. *)
Inductive bridge_trace : list bridge_event → Prop :=
| bt_idle : bridge_trace []
| bt_took k g : bridge_trace [BtTook k g]
| bt_invoked k g a : bridge_trace [BtTook k g; BtInvoked k a]
| bt_settled k g a to acc :
    settles a to acc → bridge_trace [BtTook k g; BtInvoked k a; BtSettled k g to acc]
| bt_recovered k g : bridge_trace [BtSettled k g BsAcceptanceUnknown None].

#[global] Instance bridge_monitor : Monitor bridge_call (list bridge_event) :=
  trace_monitor (λ B, bridge_events) bridge_trace.

Ltac silent_bridge := by apply silent_events.
Ltac quiet_bridge := quiet_tac ltac:(silent_bridge).
Abbreviation bquiet := (@quiet bridge_call (list bridge_event) bridge_monitor _).

(** The result of a program does not matter to the system. *)
Definition finished {A} (p : bridge_prog A) : tree bridge_call unit :=
  prog_bind p (λ _, Ret tt).

Abbreviation trace_safe p := (safe p [] (λ tr _, bridge_trace tr)).

Lemma safe_finished {A} (p : bridge_prog A) : trace_safe p → trace_safe (finished p).
Proof. intros Hp. apply safe_bind. eapply safe_mono; [|exact Hp]. done. Qed.

Lemma quiet_trace_safe {A} (p : tree bridge_call A) : bquiet p → trace_safe p.
Proof. intros Hp. apply quiet_safe; [done|]. intros _. constructor. Qed.

Lemma quiet_register actor id provider : bquiet (register actor id provider).
Proof. unfold register, authorize, protocol, stored, ask_or, ask_bridge, pure. quiet_bridge. Qed.
Lemma quiet_registration actor id : bquiet (registration actor id).
Proof. unfold registration, authorize, protocol, stored, ask_or, ask_bridge, pure. quiet_bridge. Qed.
Lemma quiet_transition_registration actor id g next : bquiet (transition_registration actor id g next).
Proof. unfold transition_registration, authorize, stored, ask_or. quiet_bridge. Qed.
Lemma quiet_admit scope id provider : bquiet (admit_provider scope id provider).
Proof. unfold admit_provider, protocol, stored, ask_or, ask_bridge, pure. quiet_bridge. Qed.
Lemma quiet_poll actor id provider cursor limit : bquiet (poll_events actor id provider cursor limit).
Proof.
  unfold poll_events, authorize, protocol, ask_or, pure. quiet_bridge.
Qed.
Lemma quiet_action_data registration current action :
  bquiet (validate_action_data registration current action).
Proof. unfold validate_action_data, stored, ask_or, pure. quiet_bridge. Qed.
Lemma bridge_quiet_load action fingerprint : bquiet (load_existing_action action fingerprint).
Proof. unfold load_existing_action, stored, ask_or, pure. quiet_bridge. Qed.
Lemma quiet_prepare action fingerprint : bquiet (prepare_action action fingerprint).
Proof. unfold prepare_action, stored, ask_or. quiet_bridge. Qed.

Lemma bridge_settle_safe {A} action g a to acc (k : _ → tree bridge_call A) :
  settles a to acc → (∀ b, bquiet (k b)) →
  safe (Call (transition action g BsInFlight to acc) k)
    [BtTook (record_key (ba_scope action) (ba_action_id action)) g;
     BtInvoked (record_key (ba_scope action) (ba_action_id action)) a] (λ tr _, bridge_trace tr).
Proof.
  intros Hs Hk. unfold transition.
  assert (∀ b, bridge_trace ([BtTook (record_key (ba_scope action) (ba_action_id action)) g;
      BtInvoked (record_key (ba_scope action) (ba_action_id action)) a]
      ++ ledger_events (LcTransition (ba_scope action) (ba_action_id action) g BsInFlight to acc) b))
    as Ht.
  { intros [[]|e]; cbn; [|constructor..].
    rewrite bool_decide_eq_false_2 by (by destruct Hs). cbn. by constructor. }
  split; [intros b _; apply Ht|]. intros b. apply quiet_safe; [done|]. intros _. apply Ht.
Qed.

Lemma complete_safe action registered current provider g :
  safe (complete_provider_execution action registered current provider g)
    [BtTook (record_key (ba_scope action) (ba_action_id action)) g] (λ tr _, bridge_trace tr).
Proof.
  unfold complete_provider_execution, ask_bridge, ask_or.
  split; [intros a _; constructor|]. intros a.
  destruct a as [acceptance|[kind|kind]]; cbn [prog_bind]; [destruct (is_ok _)|..];
    (apply bridge_settle_safe; [constructor|]); intros [b|e]; apply quiet_ret.
Qed.

Lemma execute_admitted_safe action provider fingerprint ready :
  trace_safe (execute_admitted action provider fingerprint ready).
Proof.
  unfold execute_admitted.
  apply safe_quiet_ebind; [apply quiet_admit|intros; constructor|]. intros [registration current].
  apply safe_quiet_ebind; [apply quiet_ret|intros; constructor|]. intros _.
  apply safe_quiet_ebind; [apply quiet_action_data|intros; constructor|]. intros _.
  apply safe_quiet_ebind; [destruct ready; [apply quiet_ret|apply quiet_prepare]|intros; constructor|].
  intros record. unfold mark_action_in_flight. apply safe_ebind.
  unfold ask_or, transition. split.
  { intros [[]|e]; cbn; constructor. }
  intros [[]|e]; cbn; [|constructor..].
  destruct (checked_add_u64 _ _) as [g|] eqn:Hg; cbn; [|constructor].
  apply checked_add_u64_Some in Hg as [-> _].
  apply (complete_safe action (br_manifest registration) current provider).
Qed.

Section system.
Context `{Sha256}.

Lemma bridge_execute_safe actor action provider : trace_safe (execute actor action provider).
Proof.
  unfold execute, authorize, protocol, ask_or, pure.
  do 4 (apply safe_quiet_ebind; [quiet_bridge|intros; constructor|]; intros ?).
  apply safe_quiet_ebind; [apply bridge_quiet_load|intros; constructor|].
  intros [[record|outcome]|]; [apply execute_admitted_safe|constructor|apply execute_admitted_safe].
Qed.

Lemma recover_safe actor id : trace_safe (recover_in_flight_as_unknown actor id).
Proof.
  unfold recover_in_flight_as_unknown, authorize, stored, ask_or, pure.
  do 4 (apply safe_quiet_ebind; [quiet_bridge|intros; constructor|]; intros ?).
  split; [|]; intros [[]|e]; cbn; constructor.
Qed.

(** * The ledger under interleaving *)

(** The environment answers external calls arbitrarily; store calls run on the store. *)
#[global] Instance bridge_interface : Interface bridge_call Memory bridge_event := {|
  reacts B c := match c in bridge_call B return Memory → Memory → B → Prop with
                | Ledger c => λ s s' r, exec_ledger c s = (s', r)
                | _ => λ s s' _, s' = s
                end;
  events _ c b := bridge_events c b;
|}.

(** The operations of the runtime, by any actor on any action with any provider. *)
Inductive bridge_operation : tree bridge_call unit → Prop :=
| op_execute actor action provider : bridge_operation (finished (execute actor action provider))
| op_recover actor id : bridge_operation (finished (recover_in_flight_as_unknown actor id))
| op_register actor id provider : bridge_operation (finished (register actor id provider))
| op_registration actor id : bridge_operation (finished (registration actor id))
| op_transition actor id g next :
    bridge_operation (finished (transition_registration actor id g next))
| op_poll actor id provider cursor limit :
    bridge_operation (finished (poll_events actor id provider cursor limit)).

Lemma operation_safe p : bridge_operation p → trace_safe p.
Proof.
  destruct 1; apply safe_finished;
    first [apply bridge_execute_safe|apply recover_safe|apply quiet_trace_safe].
  - apply quiet_register.
  - apply quiet_registration.
  - apply quiet_transition_registration.
  - apply quiet_poll.
Qed.

Definition ledger (s : Memory) : gmap RecordKey BridgeActionRecord := bridge_actions (m_bridges s).

(** The rest of the system may do anything to the store but write the action ledger. *)
Definition ledger_untouched (s s' : Memory) : Prop := ledger s' = ledger s.

Abbreviation bridge_step := (step bridge_operation ledger_untouched).

Definition ready (st : BridgeActionState) : Prop := st = BsPrepared ∨ st = BsFailedNotAccepted.

(** What the call that records these events did to the ledger. *)
Definition event_effect (evs : list bridge_event) (l l' : gmap RecordKey BridgeActionRecord) : Prop :=
  match evs with
  | [] => l' = l ∨ ∃ k r, l !! k = None ∧ bar_state r = BsPrepared ∧ l' = <[k := r]> l
  | [BtTook k g] => ∃ r acc, l !! k = Some r ∧ ready (bar_state r) ∧ g = (bar_generation r + 1)%Z
      ∧ l' = <[k := set_action_state BsInFlight acc g r]> l
  | [BtInvoked _ _] => l' = l
  | [BtSettled k g to acc] => ∃ r, l !! k = Some r ∧ bar_state r = BsInFlight
      ∧ bar_generation r = g ∧ l' = <[k := set_action_state to acc (g + 1) r]> l
  | _ => False
  end.

Lemma call_event_effect {B} (c : bridge_call B) s s' b :
  reacts c s s' b → event_effect (bridge_events c b) (ledger s) (ledger s').
Proof.
  destruct c as [| | | |B c]; cbn; try (intros ->; auto; fail).
  intros Hc. revert Hc. apply (wp_run (exec_ledger c) s s' b (λ s' b,
    event_effect (ledger_events c b) (ledger s) (ledger s'))).
  destruct c; cbn; try (apply wp_zoom); try (by left).
  - eapply wp_mono; [|apply install_registration_wp]. cbn. auto.
  - eapply wp_mono; [|apply transition_registration_wp]. cbn. naive_solver.
  - eapply wp_mono; [|apply prepare_action_wp]. unfold ledger. cbn.
    intros t [[]|e]; [|intros ->; by left..]. intros (? & ? & _ & ->). right. eauto.
  - eapply wp_mono; [|apply transition_action_wp]. unfold ledger. cbn.
    intros t [[]|e]; [|intros ->; by left..]. intros (r & Hr & Hg & Hst & Hv & _ & ->). cbn.
    case_bool_decide as Hto; cbn.
    + subst to. exists r, acceptance. split_and!; [done| |by subst|done].
      destruct (bar_state r); subst; cbn in Hv; first [by left|by right|done].
    + exists r. split_and!; [done| |done|done].
      destruct (bar_state r); subst; destruct to; done.
Qed.

(** * The invariant *)

Definition take_of (tr : list bridge_event) : option (RecordKey * Z) :=
  match tr with BtTook k g :: _ => Some (k, g) | _ => None end.
Definition answer_of (tr : list bridge_event) : option provider_answer :=
  match tr with BtTook _ _ :: BtInvoked _ a :: _ => Some a | _ => None end.
(** The worker has been told that the action was not accepted. *)
Definition turned_down (tr : list bridge_event) : bool := from_option refused false (answer_of tr).

(** The provider's answers for an action, in the order they were given. *)
Definition answers (k : RecordKey) (log : list bridge_event) : list provider_answer :=
  omap (λ e, match e with BtInvoked k' a => if decide (k' = k) then Some a else None | _ => None end) log.

(** A worker that took an action and was not turned down still owns it: the ledger has not
    made it ready again, nor put it in flight for anyone else. *)
Definition taker_ok (l : gmap RecordKey BridgeActionRecord) (k : RecordKey) (g : Z)
    (tr : list bridge_event) : Prop :=
  ∃ r, l !! k = Some r ∧ (g ≤ bar_generation r)%Z
    ∧ (bar_generation r = g → bar_state r = BsInFlight)
    ∧ (turned_down tr = false → ¬ ready (bar_state r) ∧ (bar_state r = BsInFlight → bar_generation r = g)).

Record bridge_inv (l : gmap RecordKey BridgeActionRecord) (ts : list (list bridge_event))
    (log : list bridge_event) : Prop := {
  bi_takers i tr k g : ts !! i = Some tr → take_of tr = Some (k, g) → taker_ok l k g tr;
  bi_unique i j tr tr' k g g' :
    ts !! i = Some tr → ts !! j = Some tr' → i ≠ j →
    take_of tr = Some (k, g) → take_of tr' = Some (k, g') →
    g ≠ g' ∧ (turned_down tr = true ∨ turned_down tr' = true);
  bi_known i tr k g a :
    ts !! i = Some tr → take_of tr = Some (k, g) → answer_of tr = Some a → a ∈ answers k log;
  bi_owned k a : a ∈ answers k log → refused a = false →
    ∃ i tr g, ts !! i = Some tr ∧ take_of tr = Some (k, g) ∧ answer_of tr = Some a;
  bi_order k : Forall (λ a, refused a = true) (removelast (answers k log));
  bi_accepted k r : l !! k = Some r → bar_state r = BsAccepted →
    ∃ acc, bar_acceptance r = Some acc ∧ Ok acc ∈ answers k log;
}.

Lemma answers_app k log log' : answers k (log ++ log') = answers k log ++ answers k log'.
Proof. apply omap_app. Qed.

(** A ready action has turned down everyone who took it. *)
Lemma ready_turned_down l k g tr r :
  taker_ok l k g tr → l !! k = Some r → ready (bar_state r) → turned_down tr = true.
Proof.
  intros (r' & Hr' & _ & _ & Hown) Hr Hready. simplify_eq.
  destruct (turned_down tr) eqn:E; [done|]. by destruct (proj1 (Hown eq_refl)).
Qed.

Lemma taker_ok_ne l k k' g tr r : k' ≠ k → taker_ok l k g tr → taker_ok (<[k' := r]> l) k g tr.
Proof. intros Hk (r' & Hr & Hok). exists r'. by rewrite lookup_insert_ne. Qed.

Section effects.
Variables (l : gmap RecordKey BridgeActionRecord) (ts : list (list bridge_event))
  (log : list bridge_event) (i : nat).
Hypothesis Hinv : bridge_inv l ts log.

(** A trace that takes nothing new and learns nothing new. *)
Lemma inv_same_takes l' tr tr' evs :
  ts !! i = Some tr → take_of tr' = take_of tr → answer_of tr' = answer_of tr →
  (∀ k, answers k evs = []) →
  (∀ j t k g, <[i := tr']> ts !! j = Some t → take_of t = Some (k, g) → taker_ok l' k g t) →
  (∀ k r, l' !! k = Some r → bar_state r = BsAccepted →
     ∃ acc, bar_acceptance r = Some acc ∧ Ok acc ∈ answers k log) →
  bridge_inv l' (<[i := tr']> ts) (log ++ evs).
Proof.
  intros Hi Ht Ha Hevs Htakers Hacc.
  assert (∀ j t, <[i := tr']> ts !! j = Some t → ∃ t0, ts !! j = Some t0
    ∧ take_of t = take_of t0 ∧ answer_of t = answer_of t0) as Hback.
  { intros j t [(<- & <- & _)|[_ ?]]%list_lookup_insert_Some; eauto. }
  assert (∀ j t0, ts !! j = Some t0 → ∃ t, <[i := tr']> ts !! j = Some t
    ∧ take_of t = take_of t0 ∧ answer_of t = answer_of t0) as Hforth.
  { intros j t0 Hj. destruct (decide (i = j)) as [<-|Hne].
    - simplify_eq. exists tr'. split; [apply list_lookup_insert_eq; by eapply lookup_lt_Some|done].
    - exists t0. by rewrite list_lookup_insert_ne. }
  assert (∀ k, answers k (log ++ evs) = answers k log) as Hlog.
  { intros k. by rewrite answers_app, Hevs, app_nil_r. }
  split; [done|..]; intros *; rewrite ?Hlog.
  - intros (t & Hj & Et & Ea)%Hback (t' & Hj' & Et' & Ea')%Hback Hne. unfold turned_down.
    rewrite Et, Et', Ea, Ea'. by apply (bi_unique _ _ _ Hinv _ _ _ _ _ _ _ Hj Hj').
  - intros (t & Hj & Et & Ea)%Hback. rewrite Et, Ea. by apply (bi_known _ _ _ Hinv _ _ _ _ _ Hj).
  - intros Hin Href. destruct (bi_owned _ _ _ Hinv _ _ Hin Href) as (j & t0 & g & Hj & Ht0 & Ha0).
    destruct (Hforth _ _ Hj) as (t & Hj' & Et & Ea). exists j, t, g. by rewrite Et, Ea.
  - apply (bi_order _ _ _ Hinv).
  - apply Hacc.
Qed.

Lemma insert_same_trace tr : ts !! i = Some tr → <[i := tr ++ []]> ts = ts.
Proof. intros Hi. rewrite app_nil_r. by apply list_insert_id. Qed.

Lemma inv_idle l' tr :
  ts !! i = Some tr → event_effect [] l l' → bridge_inv l' (<[i := tr ++ []]> ts) (log ++ []).
Proof.
  intros Hi Heff. apply (inv_same_takes l' tr); rewrite ?app_nil_r; try done.
  - rewrite list_insert_id by done. intros j t k g Hj Ht.
    pose proof (bi_takers _ _ _ Hinv _ _ _ _ Hj Ht) as Hok.
    destruct Heff as [->|(k' & r & Hk & _ & ->)]; [done|]. apply taker_ok_ne; [|done].
    intros ->. destruct Hok as (? & ? & _). congruence.
  - intros k r. destruct Heff as [->|(k' & r' & Hk & Hst & ->)]; [by apply (bi_accepted _ _ _ Hinv)|].
    intros [[<- <-]|[_ Hr]]%lookup_insert_Some ?; [congruence|].
    by apply (bi_accepted _ _ _ Hinv k r Hr).
Qed.

Lemma inv_took k g l' :
  ts !! i = Some [] → event_effect [BtTook k g] l l' →
  bridge_inv l' (<[i := [BtTook k g]]> ts) (log ++ [BtTook k g]).
Proof.
  intros Hi (r & acc & Hr & Hready & -> & ->).
  assert (∀ k', answers k' (log ++ [BtTook k (bar_generation r + 1)%Z]) = answers k' log) as Hlog
    by (intros; rewrite answers_app; apply app_nil_r).
  assert (∀ j t g', ts !! j = Some t → take_of t = Some (k, g') →
    (g' ≤ bar_generation r)%Z ∧ turned_down t = true) as Hold.
  { intros j t g' Hj Ht. pose proof (bi_takers _ _ _ Hinv _ _ _ _ Hj Ht) as Hok.
    pose proof (ready_turned_down _ _ _ _ _ Hok Hr Hready).
    destruct Hok as (r' & ? & ? & _). by simplify_eq. }
  split; intros *; rewrite ?Hlog.
  - intros [(<- & <- & _)|[_ Hj]]%list_lookup_insert_Some Ht.
    + injection Ht as <- <-. eexists. rewrite lookup_insert_eq. split; [done|]. cbn.
      split_and!; [lia|done|]. intros _. split; [by intros [|]|done].
    + destruct (decide (k0 = k)) as [->|Hne]; [|apply taker_ok_ne; [done|by eapply (bi_takers _ _ _ Hinv)]].
      destruct (Hold _ _ _ Hj Ht) as [? Htd]. eexists. rewrite lookup_insert_eq. split; [done|]. cbn.
      rewrite Htd. split_and!; [lia|lia|done].
  - intros [(<- & <- & _)|[? Hj]]%list_lookup_insert_Some [(Ei & <- & _)|[? Hj']]%list_lookup_insert_Some Hne
      Ht Ht'; [done| | |by apply (bi_unique _ _ _ Hinv i0 j tr tr' k0)].
    + injection Ht as <- <-. destruct (Hold _ _ _ Hj' Ht'). split; [lia|by right].
    + injection Ht' as <- <-. destruct (Hold _ _ _ Hj Ht). split; [lia|by left].
  - intros [(<- & <- & _)|[? Hj]]%list_lookup_insert_Some Ht Ha; [done|].
    by apply (bi_known _ _ _ Hinv i0 tr k0 g).
  - intros Hin Href. destruct (bi_owned _ _ _ Hinv _ _ Hin Href) as (j & t0 & g & Hj & Ht0 & Ha0).
    exists j, t0, g. rewrite list_lookup_insert_ne; [done|]. intros ->. by simplify_eq.
  - apply (bi_order _ _ _ Hinv).
  - intros [[<- <-]|[_ Hk]]%lookup_insert_Some ?; [done|]. by apply (bi_accepted _ _ _ Hinv k0 r0).
Qed.

Lemma inv_invoked k g a :
  ts !! i = Some [BtTook k g] →
  bridge_inv l (<[i := [BtTook k g; BtInvoked k a]]> ts) (log ++ [BtInvoked k a]).
Proof.
  intros Hi.
  assert (∀ k', answers k' (log ++ [BtInvoked k a])
    = answers k' log ++ (if decide (k = k') then [a] else [])) as Hlog
    by (intros; rewrite answers_app; cbn; by case_decide).
  assert (∀ a', a' ∈ answers k log → refused a' = true) as Hall.
  { intros a' Hin. destruct (refused a') eqn:Href; [done|].
    destruct (bi_owned _ _ _ Hinv _ _ Hin Href) as (j & t & g' & Hj & Ht & Ha').
    assert (i ≠ j) as Hne by (intros <-; by simplify_eq).
    destruct (bi_unique _ _ _ Hinv _ _ _ _ _ _ _ Hi Hj Hne eq_refl Ht) as [_ [?|Htd]]; [done|].
    unfold turned_down in Htd. rewrite Ha' in Htd. cbn in Htd. congruence. }
  split; intros *; rewrite ?Hlog.
  - intros [(<- & <- & _)|[_ Hj]]%list_lookup_insert_Some Ht; [|by apply (bi_takers _ _ _ Hinv i0)].
    injection Ht as <- <-. destruct (bi_takers _ _ _ Hinv _ _ _ _ Hi eq_refl) as (r & ? & ? & ? & Hown).
    exists r. split_and!; [done..|]. intros _. by apply Hown.
  - intros [(<- & <- & _)|[? Hj]]%list_lookup_insert_Some [(Ei & <- & _)|[? Hj']]%list_lookup_insert_Some Hne
      Ht Ht'; [done| | |by apply (bi_unique _ _ _ Hinv i0 j tr tr' k0)].
    + destruct (bi_unique _ _ _ Hinv _ _ _ _ _ _ _ Hi Hj' Hne Ht Ht') as [? [?|?]]; [done|auto].
    + destruct (bi_unique _ _ _ Hinv i0 i _ _ _ _ _ Hj Hi ltac:(congruence) Ht Ht') as [? [?|?]]; [auto|done].
  - intros [(<- & <- & _)|[? Hj]]%list_lookup_insert_Some Ht Ha.
    + injection Ht as <- <-. injection Ha as <-. rewrite decide_True by done. set_solver.
    + apply elem_of_app. left. by apply (bi_known _ _ _ Hinv i0 tr k0 g0).
  - intros [Hin|Hin]%elem_of_app Href.
    + destruct (bi_owned _ _ _ Hinv _ _ Hin Href) as (j & t0 & g' & Hj & Ht0 & Ha0).
      exists j, t0, g'. rewrite list_lookup_insert_ne; [done|]. intros ->. by simplify_eq.
    + case_decide; [|by apply elem_of_nil in Hin]. apply list_elem_of_singleton in Hin as ->. subst k0.
      exists i, [BtTook k g; BtInvoked k a], g.
      rewrite list_lookup_insert_eq by (by eapply lookup_lt_Some). done.
  - case_decide; [subst k0|rewrite app_nil_r; apply (bi_order _ _ _ Hinv)].
    rewrite removelast_last. by apply Forall_forall.
  - intros Hk Hst. destruct (bi_accepted _ _ _ Hinv _ _ Hk Hst) as (acc & ? & ?).
    exists acc. split; [done|]. apply elem_of_app. by left.
Qed.

Lemma settled_takers k g to acc tr l' r :
  l !! k = Some r → bar_state r = BsInFlight → bar_generation r = g →
  l' = <[k := set_action_state to acc (g + 1) r]> l → to ≠ BsInFlight →
  ts !! i = Some tr →
  (ready to → ∃ g', take_of tr = Some (k, g') ∧ turned_down tr = true) →
  (ready to → ∀ g', take_of tr = Some (k, g') → g' = g) →
  ∀ j t k' g', ts !! j = Some t → take_of t = Some (k', g') → taker_ok l' k' g' t.
Proof.
  intros Hr Hst Hg -> Hto Hi Htd Hgen j t k' g' Hj Ht.
  pose proof (bi_takers _ _ _ Hinv _ _ _ _ Hj Ht) as Hok.
  destruct (decide (k' = k)) as [->|Hne]; [|by apply taker_ok_ne].
  destruct Hok as (r' & Hr' & Hle & _ & Hown). simplify_eq.
  eexists. rewrite lookup_insert_eq. split; [done|]. cbn. split_and!; [lia|lia|].
  intros Hnt. split; [|done]. intros Hready. destruct (Htd Hready) as (g0 & Ht0 & Htd0).
  rewrite (Hgen Hready _ Ht0) in Ht0. destruct (decide (i = j)) as [<-|Hne]; [simplify_eq; congruence|].
  destruct (bi_unique _ _ _ Hinv _ _ _ _ _ _ _ Hi Hj Hne Ht0 Ht) as [Hg _].
  apply Hg. by apply (proj2 (Hown Hnt)).
Qed.

Lemma inv_settled k g a to acc l' :
  ts !! i = Some [BtTook k g; BtInvoked k a] → settles a to acc →
  event_effect [BtSettled k g to acc] l l' →
  bridge_inv l' (<[i := [BtTook k g; BtInvoked k a; BtSettled k g to acc]]> ts)
    (log ++ [BtSettled k g to acc]).
Proof.
  intros Hi Hs (r & Hr & Hst & Hg & Hl').
  eapply inv_same_takes; [exact Hi|done..| |].
  - assert (∀ j t k' g', ts !! j = Some t → take_of t = Some (k', g') → taker_ok l' k' g' t) as Hall.
    { eapply settled_takers; try done; [by destruct Hs|..].
      - intros Hready. exists g. split; [done|]. destruct Hs; first [done|by destruct Hready].
      - by intros _ g' [= <-]. }
    intros j t k' g' [(<- & <- & _)|[_ Hj]]%list_lookup_insert_Some Ht; [|by eapply Hall].
    destruct (Hall _ _ _ _ Hi Ht) as (r' & ? & ? & ? & Hown). by exists r'.
  - subst l'. intros k' r' [[<- <-]|[_ Hk]]%lookup_insert_Some Hacc; [|by apply (bi_accepted _ _ _ Hinv _ _ Hk)].
    cbn in Hacc. subst to. inversion Hs; subst. eexists. split; [done|].
    by apply (bi_known _ _ _ Hinv _ _ _ _ _ Hi eq_refl).
Qed.

Lemma inv_recovered k g l' :
  ts !! i = Some [] → event_effect [BtSettled k g BsAcceptanceUnknown None] l l' →
  bridge_inv l' (<[i := [BtSettled k g BsAcceptanceUnknown None]]> ts)
    (log ++ [BtSettled k g BsAcceptanceUnknown None]).
Proof.
  intros Hi (r & Hr & Hst & Hg & Hl').
  eapply inv_same_takes; [exact Hi|done..| |].
  - intros j t k' g' [(<- & <- & _)|[_ Hj]]%list_lookup_insert_Some Ht; [done|].
    eapply settled_takers; try done; by intros [|].
  - subst l'. intros k' r' [[<- <-]|[_ Hk]]%lookup_insert_Some Hacc; [done|].
    by apply (bi_accepted _ _ _ Hinv _ _ Hk).
Qed.

Lemma inv_events tr evs l' :
  ts !! i = Some tr → bridge_trace (tr ++ evs) → event_effect evs l l' →
  bridge_inv l' (<[i := tr ++ evs]> ts) (log ++ evs).
Proof.
  intros Hi Htr Heff. destruct evs as [|e evs]; [by apply inv_idle|].
  assert (evs = []) as -> by (destruct e, evs; done).
  remember (tr ++ [e]) as full eqn:E. symmetry in E.
  destruct Htr as [|k g|k g a|k g a to acc Hs|k g].
  - by apply app_nil in E as [_ ?].
  - apply (app_inj_tail tr []) in E as [-> ->]. by apply inv_took.
  - apply (app_inj_tail tr [_]) in E as [-> ->]. cbn in Heff. subst l'. by apply inv_invoked.
  - apply (app_inj_tail tr [_; _]) in E as [-> ->]. by apply inv_settled.
  - apply (app_inj_tail tr []) in E as [-> ->]. by apply inv_recovered.
Qed.

Lemma inv_start : bridge_inv l (ts ++ [[]]) log.
Proof.
  assert (∀ j t k g, (ts ++ [[]]) !! j = Some t → take_of t = Some (k, g) → ts !! j = Some t) as Hback.
  { intros j t k g [?|[_ Hj]]%lookup_app_Some Ht; [done|].
    apply list_lookup_singleton_Some in Hj as [_ <-]. done. }
  split; intros *.
  - intros Hj Ht. apply (bi_takers _ _ _ Hinv i0); eauto.
  - intros Hj Hj' Hne Ht Ht'. eapply (bi_unique _ _ _ Hinv i0 j); eauto.
  - intros Hj Ht. apply (bi_known _ _ _ Hinv i0 _ _ g); eauto.
  - intros Hin Href. destruct (bi_owned _ _ _ Hinv _ _ Hin Href) as (j & t & g & Hj & ?).
    exists j, t, g. split; [by apply lookup_app_l_Some|done].
  - apply (bi_order _ _ _ Hinv).
  - apply (bi_accepted _ _ _ Hinv).
Qed.
End effects.

Definition system_inv (sys : system bridge_call Memory bridge_event unit) : Prop :=
  Forall (worker_ok (@events bridge_call Memory bridge_event _) bridge_trace) (sys_workers sys)
  ∧ bridge_inv (ledger (sys_store sys)) (wk_trace <$> sys_workers sys) (sys_log sys).

Lemma step_system_inv sys sys' : bridge_step sys sys' → system_inv sys → system_inv sys'.
Proof.
  intros Hstep [Hw Hinv].
  assert (Forall (worker_ok (@events bridge_call Memory bridge_event _) bridge_trace)
    (sys_workers sys')) as Hw'.
  { eapply step_workers_ok; [constructor|apply operation_safe|exact Hstep|exact Hw]. }
  split; [done|]. destruct Hstep as
    [s ws log p Hp|s ws log i B c k tr s' b Hi Hc|s ws log s' Ho]; cbn in *.
  - rewrite fmap_app. by apply inv_start.
  - rewrite list_fmap_insert. eapply inv_events; [exact Hinv| | |by apply call_event_effect].
    + rewrite list_lookup_fmap, Hi. done.
    + rewrite Forall_forall in Hw'. apply (Hw' (mk_worker (k b) (tr ++ bridge_events c b))).
      apply list_elem_of_lookup_2 with i, list_lookup_insert_eq. by eapply lookup_lt_Some.
  - unfold ledger_untouched in Ho. by rewrite Ho.
Qed.

Lemma initial_inv (s : Memory) : ledger s = ∅ → system_inv (mk_system s [] []).
Proof.
  intros Hs. split; [constructor|]. cbn. rewrite Hs. split; try done; intros *. by intros ?%elem_of_nil.
Qed.

(** C2: any number of bridge runtimes execute, recover, register and poll over one store,
    interleaved call by call with each other, with the rest of the system and with crashes.
    For every action the provider is asked again only after it proved that it had not
    accepted: of all its answers for the action, in the order they were given, only the
    last can be an acceptance or an unknown outcome.  An action the ledger holds as ready
    for a retry was refused every time, and one it holds as accepted carries an acceptance
    the provider really gave. *)
Theorem bridge_action_takes_effect_at_most_once (s : Memory)
    (sys : system bridge_call Memory bridge_event unit) (k : RecordKey)
    (Hfresh : ledger s = ∅)
    (Hreach : rtc bridge_step (mk_system s [] []) sys) :
  Forall (λ a, refused a = true) (removelast (answers k (sys_log sys)))
  ∧ (∀ r, ledger (sys_store sys) !! k = Some r → ready (bar_state r) →
       Forall (λ a, refused a = true) (answers k (sys_log sys)))
  ∧ (∀ r, ledger (sys_store sys) !! k = Some r → bar_state r = BsAccepted →
       ∃ acceptance, bar_acceptance r = Some acceptance
         ∧ last (answers k (sys_log sys)) = Some (Ok acceptance)).
Proof.
  assert (system_inv sys) as [_ Hinv].
  { eapply (rtc_ind_r system_inv); [by apply initial_inv| |exact Hreach].
    intros sys1 sys2 _ Hs. by apply step_system_inv. }
  split_and!; [apply (bi_order _ _ _ Hinv)|..].
  - intros r Hr Hready. apply Forall_forall. intros a Hin. destruct (refused a) eqn:Ha; [done|].
    destruct (bi_owned _ _ _ Hinv _ _ Hin Ha) as (i & tr & g & Hi & Ht & Hans).
    pose proof (ready_turned_down _ _ _ _ _ (bi_takers _ _ _ Hinv _ _ _ _ Hi Ht) Hr Hready) as Htd.
    unfold turned_down in Htd. rewrite Hans in Htd. cbn in Htd. congruence.
  - intros r Hr Hst. destruct (bi_accepted _ _ _ Hinv _ _ Hr Hst) as (acc & ? & Hin).
    exists acc. split; [done|]. pose proof (bi_order _ _ _ Hinv k) as Hord.
    destruct (answers k (sys_log sys)) as [|a as' _] using rev_ind; [by apply elem_of_nil in Hin|].
    rewrite removelast_last in Hord. rewrite last_snoc. f_equal.
    apply elem_of_app in Hin as [Hin|Hin]; [|by apply list_elem_of_singleton in Hin].
    rewrite Forall_forall in Hord. by specialize (Hord _ Hin).
Qed.
End system.

(** * What leaves through a bridge *)

Abbreviation bridge_log := (list (observation bridge_call)).

(** The call was made and succeeded. *)
Definition answered {E B} (log : bridge_log) (c : bridge_call (result E B)) (b : B) : Prop :=
  Observed c (Ok b) ∈ log.

(** The action carries only what the message it stands for contains, and the policy of
    that message lets it leave; without a message it carries nothing. *)
Definition payload_released (log : bridge_log) (action : BridgeAction) : Prop :=
  match ba_canonical_message_id action with
  | Some id => ∃ m, answered log (Ledger (LcMessage (ba_scope action) id)) (Some m)
      ∧ forbids_external_bridge (me_delivery_policy m) = false
      ∧ ba_provider_payload action = me_content m
      ∧ ba_attachment_ids action = me_attachment_ids m
  | None => ba_provider_payload action = [] ∧ ba_attachment_ids action = []
  end.

(** Both the registered and the live manifest declare the data the action carries. *)
Definition data_declared (manifest : BridgeProviderManifest) (action : BridgeAction) : Prop :=
  bridge_manifest_supports manifest (ba_capability action) = true
  ∧ (ba_external_target action ≠ [] →
       bridge_manifest_allows_data manifest BpExternalIdentityReferences = true)
  ∧ (ba_provider_payload action ≠ [] →
       bridge_manifest_allows_data manifest BpMessageContent = true)
  ∧ (ba_attachment_ids action ≠ [] →
       bridge_manifest_allows_data manifest BpAttachmentReferences = true).

Record release (actor : ScopedPrincipal) (action : BridgeAction) (provider : BridgeProviderRef)
    (log : bridge_log) : Prop := {
  rl_authorized : answered log (Authorize
    (mk_authorization_request actor BRIDGE_EXECUTE_PERMISSION (sp_scope actor))) tt;
  rl_scope : ba_scope action = sp_scope actor;
  rl_provider : ∃ registration reported current,
    answered log (Ledger (LcRegistration (ba_scope action) (ba_integration_id action)))
      (Some registration)
    ∧ br_state registration = BrActive
    ∧ Observed (ProviderManifest provider) reported ∈ log
    ∧ canonical_bridge_manifest reported = Ok current
    ∧ mf_provider_id current = mf_provider_id (br_manifest registration)
    ∧ data_declared (br_manifest registration) action ∧ data_declared current action;
  rl_payload : payload_released log action;
  rl_ledger : ∃ generation from,
    answered log (transition action generation from BsInFlight None) RecPersisted;
}.

Section release.
Context `{Sha256} (actor : ScopedPrincipal) (action : BridgeAction) (provider : BridgeProviderRef).

(** Only the action itself may be handed to the provider, and only when it is released. *)
Definition execution_permitted {B} (c : bridge_call B) (log : bridge_log) : Prop :=
  match c with
  | ProviderExecute p a => p = provider ∧ a = action ∧ release actor action provider log
  | _ => True
  end.

#[local] Instance release_monitor : Monitor bridge_call bridge_log := {|
  permitted B c log := execution_permitted c log;
  observe B c b log := log ++ [Observed c b];
|}.

(** The program only makes permitted calls, and its result comes with what the log then
    shows. *)
Definition gives {A} (p : bridge_prog A) (log : bridge_log) (P : bridge_log → A → Prop) : Prop :=
  safe p log (λ log' r, log ⊆ log' ∧ match r with Ok a => P log' a | Err _ => True end).

Lemma gives_bind {A B} (p : bridge_prog A) (f : A → bridge_prog B) log P P' :
  gives p log P → (∀ log' a, log ⊆ log' → P log' a → gives (f a) log' P') →
  gives (p ≫= f) log P'.
Proof.
  intros Hp Hf. apply safe_ebind. eapply safe_mono; [|exact Hp].
  intros log' [a|e] [Hsub Ha]; [|done]. eapply safe_mono; [|by apply Hf].
  intros log'' r [Hsub' Hr]. split; [by etrans|done].
Qed.

Lemma gives_pure {A} (r : result BridgeError A) log : gives (pure r) log (λ _ a, r = Ok a).
Proof. split; [done|]. by destruct r. Qed.

Lemma gives_ret {A} (a : A) log : gives (mret a) log (λ _ a', a' = a).
Proof. by split. Qed.

Lemma gives_ask_or {E B} (f : E → BridgeError) (c : bridge_call (result E B)) log :
  execution_permitted c log → gives (ask_or f c) log (λ log' b, answered log' c b).
Proof.
  intros Hc. split; [done|]. intros b. cbn. split; [set_solver|].
  destruct b; cbn; [|done]. unfold answered. set_solver.
Qed.

Lemma gives_ask {B} (c : bridge_call B) log :
  execution_permitted c log → gives (ask_bridge c) log (λ log' b, Observed c b ∈ log').
Proof. intros Hc. split; [done|]. intros b. cbn. split; set_solver. Qed.

Lemma gives_mono {A} (p : bridge_prog A) log (P P' : bridge_log → A → Prop) :
  (∀ log' a, log ⊆ log' → P log' a → P' log' a) → gives p log P → gives p log P'.
Proof.
  intros HP Hp. eapply safe_mono; [|exact Hp]. intros log' [a|e] [? ?]; [|done]. auto.
Qed.

(** An observation stays in every later log. *)
Ltac in_log :=
  unfold answered in *;
  repeat first [eassumption | match goal with Hs : _ ⊆ ?l |- _ ∈ ?l => apply Hs end].

Ltac gives_step :=
  eapply gives_bind;
  [first [apply gives_pure|apply gives_ret|by apply gives_ask_or|by apply gives_ask]|
   intros ?log ? ? ?; cbn beta in *; res_inv].

Lemma gives_admit scope id log :
  gives (admit_provider scope id provider) log (λ log' x, ∃ reported,
    answered log' (Ledger (LcRegistration scope id)) (Some x.1)
    ∧ br_state x.1 = BrActive
    ∧ Observed (ProviderManifest provider) reported ∈ log'
    ∧ canonical_bridge_manifest reported = Ok x.2
    ∧ mf_provider_id x.2 = mf_provider_id (br_manifest x.1)).
Proof.
  unfold admit_provider, stored, protocol.
  do 6 gives_step. eapply gives_mono; [|apply gives_ret]. intros log' [] ? [= -> ->]; cbn.
  bool_norm. subst. exists a1. split_and!; [in_log|done|in_log|done|done].
Qed.

Lemma gives_data registration current log :
  gives (validate_action_data registration current action) log (λ log' _,
    require_action_permissions (br_manifest registration) current action = Ok tt
    ∧ payload_released log' action).
Proof.
  unfold validate_action_data, payload_released, stored. gives_step.
  destruct (ba_canonical_message_id action) as [id|].
  - do 3 gives_step. eapply gives_mono; [|apply gives_pure]. intros log' [] ? ?. res_inv. bool_norm.
    split; [done|]. eexists. split_and!; [|done|tauto|tauto]. subst. in_log.
  - eapply gives_mono; [|apply gives_pure]. intros log' [] ? ?. res_inv. by bool_norm.
Qed.

Lemma permissions_declared registered current :
  require_capability registered current (ba_capability action) = Ok tt →
  require_action_permissions registered current action = Ok tt →
  data_declared registered action ∧ data_declared current action.
Proof.
  unfold require_capability, require_action_permissions, require_data_permission, data_declared.
  intros Hc Hp. res_inv.
  repeat case_bool_decide; res_inv; bool_norm; tauto.
Qed.

Lemma gives_load fingerprint log :
  gives (load_existing_action action fingerprint) log (λ _ _, True).
Proof.
  unfold load_existing_action, stored. gives_step.
  destruct a as [existing|]; [|by split]. gives_step.
  destruct (bar_state existing); try (by split). gives_step. by split.
Qed.

Lemma gives_mark record log :
  gives (mark_action_in_flight action record) log (λ log' _, ∃ generation from,
    answered log' (transition action generation from BsInFlight None) RecPersisted).
Proof.
  unfold mark_action_in_flight. do 2 gives_step.
  eapply gives_mono; [|apply gives_pure]. intros log' g ? _. bool_norm.
  destruct a as [|]; [|done]. do 2 eexists. in_log.
Qed.

Lemma gives_complete registered current g log :
  release actor action provider log →
  gives (complete_provider_execution action registered current provider g) log (λ _ _, True).
Proof.
  intros Hr. unfold complete_provider_execution.
  eapply gives_bind; [by apply gives_ask|]. intros log1 [acceptance|[kind|kind]] ? _.
  - destruct (is_ok _).
    + eapply gives_bind; [by apply gives_ask_or|]. intros. by split.
    + eapply gives_bind; [by apply gives_ask|]. intros. by split.
  - eapply gives_bind; [by apply gives_ask_or|]. intros. by split.
  - eapply gives_bind; [by apply gives_ask_or|]. intros. by split.
Qed.

Lemma gives_admitted fingerprint ready log :
  answered log (Authorize
    (mk_authorization_request actor BRIDGE_EXECUTE_PERMISSION (sp_scope actor))) tt →
  ba_scope action = sp_scope actor →
  gives (execute_admitted action provider fingerprint ready) log (λ _ _, True).
Proof.
  intros Hauth Hscope. unfold execute_admitted.
  eapply gives_bind; [apply gives_admit|].
  intros log1 [registration current] Hsub1 (reported & Hreg & Hact & Hrep & Hcan & Hid).
  gives_step. eapply gives_bind; [apply gives_data|]. intros log3 [] Hsub3 [Hperm Hpay].
  eapply (gives_bind _ _ _ (λ _ _, True)).
  { destruct ready; [by split|]. unfold prepare_action, stored. gives_step. by split. }
  intros log4 record Hsub4 _. eapply gives_bind; [apply gives_mark|].
  intros log5 g Hsub5 Hmark. apply gives_complete.
  destruct (permissions_declared (br_manifest registration) current) as [Hd1 Hd2];
    [done|done|].
  split; [in_log|done| | |done].
  - exists registration, reported, current. split_and!; [in_log|done|in_log|done..].
  - revert Hpay. unfold payload_released, answered. destruct (ba_canonical_message_id action); [|done].
    intros (m & ? & ?). exists m. split; [in_log|done].
Qed.

Lemma execute_releases log : gives (execute actor action provider) log (λ _ _, True).
Proof.
  unfold execute, authorize, protocol. gives_step. do 3 gives_step. bool_norm.
  eapply gives_bind; [apply gives_load|]. intros log4 existing ? _.
  assert (answered log4 (Authorize
    (mk_authorization_request actor BRIDGE_EXECUTE_PERMISSION (sp_scope actor))) tt) as Hauth.
  { in_log. }
  destruct existing as [[record|outcome]|]; [by apply gives_admitted|by split|by apply gives_admitted].
Qed.
End release.

Lemma observe_all_release `{Sha256} actor action provider log tr :
  @observe_all _ _ (release_monitor actor action provider) tr log = log ++ tr.
Proof.
  revert log. induction tr as [|[B c b] tr IH]; intros log; cbn; [by rewrite app_nil_r|].
  unfold observe_all in IH. rewrite IH. by rewrite <- app_assoc.
Qed.

(** C22: nothing leaves through a bridge unless it was released.  In every behaviour of
    [execute], whatever the store, the authorizer and the provider answer, the provider is
    only ever given the requested action, and before that call the log shows that the actor
    was authorized for the scope of the action, that the integration is registered, active
    and run by the registered provider, that both the registered and the live manifest
    declare the capability and every kind of data the action carries, and that the ledger
    recorded the action as in flight.  An action that names a message carries exactly the
    content and attachments of that message, which was found in the store and whose policy
    allows external bridging; an action that names none carries neither payload nor
    attachments. *)
Theorem bridge_releases_only_admitted_data `{Sha256} (actor : ScopedPrincipal)
    (action : BridgeAction) (provider : BridgeProviderRef) (tr tr1 tr2 : bridge_log) r
    (p : BridgeProviderRef) (a : BridgeAction) (ans : provider_answer)
    (Hrun : behaves (execute actor action provider) tr r)
    (Hcall : tr = tr1 ++ Observed (ProviderExecute p a) ans :: tr2) :
  p = provider ∧ a = action ∧ release actor action provider tr1.
Proof.
  pose proof (execute_releases actor action provider []) as Hs.
  pose proof (safe_permits _ _ _ _ _ _ _ _ _ _ Hs Hrun Hcall) as Hp.
  by rewrite observe_all_release in Hp.
Qed.

(** * Witnesses *)

#[local] Existing Instance toy_digest.

Definition bridge_scope : TenantScope := mk_scope (oid "acme") None.
Definition bridge_actor : ScopedPrincipal :=
  mk_scoped_principal bridge_scope (mk_principal (oid "relay") PkServiceAccount).
Definition echo_manifest : BridgeProviderManifest :=
  mk_manifest (str "vendor.example.bridge") (mk_version 1 0) (mk_version 1 0) (mk_version 1 0)
    (mk_version 1 0) [BcText] [BpMessageContent; BpExternalIdentityReferences] [].
Definition wave : BridgeAction :=
  mk_action (oid "a1") bridge_scope (oid "chat") BcText (str "room-7") None [] []
    (mk_correlation (oid "c1") None None).
Definition wave_key : RecordKey := record_key bridge_scope (oid "a1").
Definition delivered : BridgeProviderAcceptance := mk_acceptance (Some (str "ext-1")) None.

(** An authorizer that says yes and a provider that answers from a script. *)
Definition scripted (B : Type) (c : bridge_call B) (st : list provider_answer * Memory) :
    (list provider_answer * Memory) * B :=
  match c with
  | Authorize _ => (st, Ok tt)
  | ProviderManifest _ => (st, echo_manifest)
  | ProviderExecute _ _ =>
      match st.1 with
      | a :: rest => ((rest, st.2), a)
      | [] => (st, Err (BfAcceptanceUnknown PfUnavailable))
      end
  | ProviderPoll _ _ _ _ _ => (st, Err (BfNotAccepted PfUnavailable))
  | Ledger c => let '(s', r) := exec_ledger c st.2 in ((st.1, s'), r)
  end.

Lemma scripted_reacts B (c : bridge_call B) st :
  reacts c st.2 (scripted B c st).1.2 (scripted B c st).2.
Proof.
  destruct st as [script s]. destruct c; cbn; [done|done|by destruct script|done|].
  by destruct (exec_ledger _ _).
Qed.

(** The provider refuses once, then accepts; the third request is a replay. *)
Definition wave_session : system bridge_call Memory bridge_event unit :=
  run_all scripted
    [finished (register bridge_actor (oid "chat") 0); finished (execute bridge_actor wave 0);
     finished (execute bridge_actor wave 0); finished (execute bridge_actor wave 0)]
    ([Err (BfNotAccepted PfRateLimited); Ok delivered], empty_mem) [] [].

Lemma bridge_action_takes_effect_at_most_once_witness :
  answers wave_key (sys_log wave_session) = [Err (BfNotAccepted PfRateLimited); Ok delivered]
  ∧ (bar_state <$> ledger (sys_store wave_session) !! wave_key) = Some BsAccepted
  ∧ Forall (λ a, refused a = true) (removelast (answers wave_key (sys_log wave_session))).
Proof.
  split; [vm_compute; reflexivity|]. split; [vm_compute; reflexivity|].
  apply (bridge_action_takes_effect_at_most_once empty_mem wave_session wave_key); [done|].
  apply (run_all_reaches _ _ scripted _ ([Err (BfNotAccepted PfRateLimited); Ok delivered], empty_mem));
    [apply scripted_reacts|]. repeat constructor.
Defined.

(** The behaviour of a program under an executable environment. *)
Fixpoint observed {W A} (exec : ∀ B, bridge_call B → W → W * B) (p : tree bridge_call A) (w : W) :
    bridge_log * A :=
  match p with
  | Ret a => ([], a)
  | Call c k => let '(w', b) := exec _ c w in
      let '(tr, a) := observed exec (k b) w' in (Observed c b :: tr, a)
  end.

Lemma observed_behaves {W A} (exec : ∀ B, bridge_call B → W → W * B) (p : tree bridge_call A) w :
  behaves p (observed exec p w).1 (observed exec p w).2.
Proof.
  revert w. induction p as [a|B c k IH]; intros w; cbn; [constructor|].
  destruct (exec B c w) as [w' b]. specialize (IH b w').
  destruct (observed exec (k b) w') as [tr a]. by constructor.
Qed.

Definition registered_mem : Memory :=
  (exec_ledger (LcInstall (mk_registration bridge_scope (oid "chat") echo_manifest BrActive 1))
     empty_mem).1.
(** The same store with a message in it, and an action that sends that message out. *)
Definition sharing_mem : Memory :=
  (on_base (persist_conversation (mk_conversation_record bridge_scope
              (mk_conversation (oid "room") CkDirect) None) ;;
            persist_message_in_state quoting_message) registered_mem).1.
Definition share : BridgeAction :=
  mk_action (oid "a2") bridge_scope (oid "chat") BcText (str "room-7") (Some (oid "m1"))
    (str "hello") [] (mk_correlation (oid "c2") None None).
Definition share_run : bridge_log * _ :=
  observed scripted (execute bridge_actor share 0) ([Ok delivered], sharing_mem).

Lemma bridge_releases_only_admitted_data_witness :
  release bridge_actor share 0 (take 7 share_run.1)
  ∧ ba_canonical_message_id share = Some (oid "m1").
Proof.
  split; [|reflexivity].
  apply (bridge_releases_only_admitted_data bridge_actor share 0 share_run.1 (take 7 share_run.1)
    (drop 8 share_run.1) share_run.2 0 share (Ok delivered)); [apply observed_behaves|].
  vm_compute. reflexivity.
Defined.
