(* ===== verification/EventStore.v ===== *)
(** Commands, the event journal, subscriptions and anti-entropy of the in-memory store
    (crates/ucr-storage-memory/src/lib.rs: [CommandAcceptanceStore], [EventJournalStore],
    [EventSubscriptionStore], [AntiEntropyStore], [CommandOutcomeStore]). *)

From S2P Require Import Prelude Ids Framing Extension Message Delivery StoreForward Sync Store.
From S2P Require Import Call Group Version Event Bridge Offline Memory.

Abbreviation journal_op A := (op Journal DurableStoreError A).

(** * Commands *)

Definition LEGACY_IDEMPOTENCY_RESERVATION_COMMAND_TYPE : bytes :=
  str "ucr.command.idempotency.reservation.v1".
Definition LEGACY_IDEMPOTENCY_RESERVATION_PAYLOAD : bytes :=
  str "UCR-LEGACY-IDEMPOTENCY-RESERVATION-V1".

Definition map_command_error (error : CommandError) : DurableStoreError :=
  match error with
  | CmIdempotencyConflict => StConflict
  | _ => StInvalidRecord
  end.

Definition command_key (command : CommandEnvelope) : result DurableStoreError RecordKey :=
  idempotency_key ← ok_or (idempotency_key (cmd_correlation command)) StInvalidRecord;
  Ok (scope_key (cmd_scope command), idempotency_key).

Definition command_ref (command : CommandEnvelope) : RecordKey :=
  record_key (cmd_scope command) (cmd_command_id command).

Definition receipt_for_existing (original incoming : CommandEnvelope) :
    result DurableStoreError CommandReceipt :=
  decision ← map_err map_command_error (compare_command_idempotency original incoming);
  match decision with
  | IdDuplicateOf original_command_id =>
      Ok (duplicate_command_receipt (cmd_command_id incoming) original_command_id)
  | IdNew => Err StInternal
  end.

(** The two inserts of an accepted command. *)
Definition insert_command (key : RecordKey) (command : CommandEnvelope) : journal_op unit :=
  s ← get;
  put (with_accepted (<[key := command]> (accepted s))
         (<[command_ref command := command]> (accepted_by_id s)) s).

(** The lookup and insertion both entry points end with. *)
Definition accept_canonical (key : RecordKey) (command : CommandEnvelope) :
    journal_op CommandReceipt :=
  s ← get;
  match accepted s !! key with
  | Some original => lift (receipt_for_existing original command)
  | None =>
      guard (bool_decide (is_Some (accepted_by_id s !! command_ref command))) StConflict ;;
      insert_command key command ;;
      mret (accepted_command_receipt (cmd_command_id command))
  end.

Definition accept_command (command : CommandEnvelope) : journal_op CommandReceipt :=
  command ← lift (map_err map_command_error (canonical_command command));
  key ← lift (command_key command);
  accept_canonical key command.

Definition set_idempotency_key (key : bytes) (c : CommandEnvelope) : CommandEnvelope :=
  mk_command (cmd_command_id c) (cmd_scope c) (cmd_command_type c) (cmd_payload c)
    (mk_correlation (correlation_id (cmd_correlation c)) (causation_id (cmd_correlation c))
       (Some key)) (cmd_schema_version c) (cmd_extensions c).

(** The reservation written under the legacy key. *)
Definition legacy_reservation (reservation_id : CommandId) (c : CommandEnvelope) :
    CommandEnvelope :=
  mk_command reservation_id (cmd_scope c) LEGACY_IDEMPOTENCY_RESERVATION_COMMAND_TYPE
    LEGACY_IDEMPOTENCY_RESERVATION_PAYLOAD
    (mk_correlation reservation_id None (idempotency_key (cmd_correlation c)))
    (cmd_schema_version c) (cmd_extensions c).

Definition is_legacy_reservation (c : CommandEnvelope) : bool :=
  bool_decide (cmd_command_type c = LEGACY_IDEMPOTENCY_RESERVATION_COMMAND_TYPE)
  && bool_decide (cmd_payload c = LEGACY_IDEMPOTENCY_RESERVATION_PAYLOAD).

(** [generated] is the identifier [generate_opaque_id] returns, if the operating system
    has randomness. *)
Definition accept_command_with_legacy_reservation (generated : option OpaqueId)
    (command : CommandEnvelope) (legacy_idempotency_key : bytes) : journal_op CommandReceipt :=
  command ← lift (map_err map_command_error (canonical_command command));
  legacy_incoming ← lift (map_err map_command_error
                      (canonical_command (set_idempotency_key legacy_idempotency_key command)));
  raw_key ← lift (command_key legacy_incoming);
  key ← lift (command_key command);
  s ← get;
  match accepted s !! raw_key with
  | Some original =>
      if is_legacy_reservation original then accept_canonical key command
      else lift (receipt_for_existing original legacy_incoming)
  | None =>
      reservation_id ← lift (ok_or generated StInternal);
      reservation ← lift (map_err map_command_error
                      (canonical_command (legacy_reservation reservation_id legacy_incoming)));
      guard (bool_decide (is_Some (accepted_by_id s !! command_ref reservation))) StConflict ;;
      insert_command raw_key reservation ;;
      accept_canonical key command
  end.

(** * The journal *)

Inductive EventAppendStatus := EaAppended | EaDuplicate.
#[global] Instance EventAppendStatus_eq_dec : EqDecision EventAppendStatus.
Proof. solve_decision. Defined.

Definition MAX_ATOMIC_EVENT_BATCH : Z := 16.

Definition event_key (event : EventEnvelope) : RecordKey :=
  record_key (ev_scope event) (ev_event_id event).

(** The identifier already names a group change or a call signal. *)
Definition event_id_reserved (m : Memory) (key : RecordKey) : bool :=
  bool_decide (is_Some (group_changes (m_groups m) !! key))
  || bool_decide (is_Some (call_signals (m_calls m) !! key)).

Definition map_event_error (error : EventError) : DurableStoreError := StInvalidRecord.

(** [events.insert] and [event_order.push]. *)
Definition push_event (key : RecordKey) (event : EventEnvelope) : mem_op unit :=
  on_journal (j ← get; put (with_events (<[key := event]> (events j)) (event_order j ++ [key]) j)).

Definition append_event_to_memory_state (event : EventEnvelope) : mem_op EventAppendStatus :=
  event ← lift (map_err map_event_error (canonical_event event));
  let key := event_key event in
  m ← get;
  match events (m_journal m) !! key with
  | Some original =>
      if bool_decide (original = event) then mret EaDuplicate else lift (Err StConflict)
  | None =>
      guard (event_id_reserved m key) StConflict ;;
      push_event key event ;;
      mret EaAppended
  end.

Definition append_event (event : EventEnvelope) : mem_op EventAppendStatus :=
  append_event_to_memory_state event.

(** The staging loop: what is staged so far, in order, and the statuses so far. *)
Fixpoint stage_events (m : Memory) (staged : list (RecordKey * EventEnvelope))
    (statuses : list EventAppendStatus) (batch : list EventEnvelope) :
    result DurableStoreError (list (RecordKey * EventEnvelope) * list EventAppendStatus) :=
  match batch with
  | [] => Ok (staged, statuses)
  | event :: batch =>
      let key := event_key event in
      match events (m_journal m) !! key with
      | Some existing =>
          reject_if (negb (bool_decide (existing = event))) StConflict ;;
          stage_events m staged (statuses ++ [EaDuplicate]) batch
      | None =>
          reject_if (event_id_reserved m key) StConflict ;;
          match List.find (λ entry, bool_decide (entry.1 = key)) staged with
          | Some (_, existing) =>
              reject_if (negb (bool_decide (existing = event))) StConflict ;;
              stage_events m staged (statuses ++ [EaDuplicate]) batch
          | None => stage_events m (staged ++ [(key, event)]) (statuses ++ [EaAppended]) batch
          end
      end
  end.

(** [staged] and [staged_order] are kept together as the staged entries in order; each
    key is staged once, so [staged.remove] always finds it. *)
Definition commit_staged (staged : list (RecordKey * EventEnvelope)) (m : Memory) : Memory :=
  foldl (λ m entry, (push_event entry.1 entry.2 m).1) m staged.

Definition append_events_atomically (batch : list EventEnvelope) :
    mem_op (list EventAppendStatus) :=
  guard (bool_decide (batch = []) || (MAX_ATOMIC_EVENT_BATCH <? len batch)%Z) StInvalidRecord ;;
  canonical ← lift (try_collect (λ event, map_err map_event_error (canonical_event event)) batch);
  m ← get;
  staged ← lift (stage_events m [] [] canonical);
  put (commit_staged staged.1 m) ;;
  mret staged.2.

Definition event (scope : TenantScope) (event_id : EventId) : journal_op (option EventEnvelope) :=
  s ← get; mret (events s !! record_key scope event_id).

(** The scan over the journal, stopping once [max_items] events were taken. *)
Fixpoint scan_events (s : Journal) (wanted : EventEnvelope → bool) (max_items : nat)
    (found : list EventEnvelope) (order : list RecordKey) :
    result DurableStoreError (list EventEnvelope) :=
  match order with
  | [] => Ok found
  | key :: order =>
      event ← ok_or (events s !! key) StCorrupt;
      if wanted event then
        let found := found ++ [event] in
        if (length found =? max_items) then Ok found
        else scan_events s wanted max_items found order
      else scan_events s wanted max_items found order
  end.

Definition invalid_type_query (event_types : list bytes) (max_items : Z) : bool :=
  bool_decide (event_types = []) || (16 <? len event_types)%Z
  || existsb (λ t, bool_decide (t = [])) event_types
  || (max_items =? 0)%Z || (16384 <? max_items)%Z.

Definition of_types (scope : TenantScope) (event_types : list bytes) (event : EventEnvelope) :
    bool :=
  bool_decide (ev_scope event = scope)
  && existsb (λ t, bool_decide (t = ev_event_type event)) event_types.

Definition events_for_types (scope : TenantScope) (event_types : list bytes) (max_items : Z) :
    journal_op (list EventEnvelope) :=
  guard (invalid_type_query event_types max_items) StInvalidRecord ;;
  s ← get;
  lift (scan_events s (of_types scope event_types) (Z.to_nat max_items) [] (event_order s)).

Definition direct_actor_kind (kind : PrincipalKind) : option ActorKind :=
  match kind with
  | PkPerson => Some AkPerson
  | PkAiAgent => Some AkAiAgent
  | PkBot => Some AkBot
  | PkOrganization => Some AkOrganization
  | PkDevice | PkServiceAccount | PkAutomation | PkExternalPlatform => None
  end.

Definition event_is_attributed_to_principal (event : EventEnvelope) (principal : PrincipalRef) :
    bool :=
  match direct_actor_kind (principal_kind principal) with
  | Some kind =>
      bool_decide (actor_kind (ev_actor event) = kind)
      && bool_decide (actor_id (ev_actor event) = principal_id principal)
      && bool_decide (on_behalf_of (ev_actor event) = None)
  | None =>
      bool_decide (actor_kind (ev_actor event) = AkSystem)
      && bool_decide (on_behalf_of (ev_actor event) = Some (principal_id principal))
  end.

Definition events_for_types_by_principal (scope : TenantScope) (event_types : list bytes)
    (principal : PrincipalRef) (max_items : Z) : journal_op (list EventEnvelope) :=
  guard (invalid_type_query event_types max_items) StInvalidRecord ;;
  s ← get;
  lift (scan_events s (λ event, of_types scope event_types event
                                && event_is_attributed_to_principal event principal)
          (Z.to_nat max_items) [] (event_order s)).

(** * Subscriptions *)

Definition event_visible_to_subscription_owner (owner : ScopedPrincipal) (event : EventEnvelope) :
    bool :=
  negb (bool_decide (principal_kind (sp_principal owner) = PkServiceAccount))
  || event_is_attributed_to_principal event (sp_principal owner).

(** The subscription delivers this event. *)
Definition deliverable (state : MemoryEventSubscriptionState) (event : EventEnvelope) : bool :=
  event_matches_subscription (ss_subscription state) event
  && event_visible_to_subscription_owner (ss_owner state) event.

(** The loop of [memory_next_event_batch]: [position] is the journal position before the
    head of [order]; the result is the batch and the position it ends at. *)
Fixpoint next_batch_loop (s : Journal) (state : MemoryEventSubscriptionState) (limit : nat)
    (position end_position batch_bytes : Z) (batch : list EventEnvelope)
    (order : list RecordKey) : result DurableStoreError (list EventEnvelope * Z) :=
  match order with
  | [] => Ok (batch, end_position)
  | key :: order =>
      let position := (position + 1)%Z in
      event ← ok_or (events s !! key) StCorrupt;
      if negb (deliverable state event)
      then next_batch_loop s state limit position position batch_bytes batch order
      else
        next ← map_err map_event_error (event_delivery_batch_next_size batch_bytes event);
        match next with
        | None => if bool_decide (batch = []) then Err StCorrupt else Ok (batch, end_position)
        | Some next_batch_bytes =>
            let batch := batch ++ [event] in
            if (length batch =? limit) then Ok (batch, position)
            else next_batch_loop s state limit position position next_batch_bytes batch order
        end
  end.

Definition memory_next_event_batch (s : Journal) (state : MemoryEventSubscriptionState)
    (limit : nat) : result DurableStoreError (option (list EventEnvelope * Z)) :=
  let start := ss_committed_position state in
  reject_if (len (event_order s) <? start)%Z StCorrupt ;;
  found ← next_batch_loop s state limit start start 0 [] (drop (Z.to_nat start) (event_order s));
  Ok (if bool_decide (found.1 = []) then None else Some found).

(** The loop of [memory_active_events]. *)
Fixpoint active_events_loop (s : Journal) (state : MemoryEventSubscriptionState)
    (batch_bytes : Z) (batch : list EventEnvelope) (order : list RecordKey) :
    result DurableStoreError (list EventEnvelope * Z) :=
  match order with
  | [] => Ok (batch, batch_bytes)
  | key :: order =>
      event ← ok_or (events s !! key) StCorrupt;
      if deliverable state event then
        size ← map_err map_event_error (event_delivery_size event);
        active_events_loop s state (batch_bytes + size)%Z (batch ++ [event]) order
      else active_events_loop s state batch_bytes batch order
  end.

Definition memory_active_events (s : Journal) (state : MemoryEventSubscriptionState)
    (active : MemoryEventActiveBatch) : result DurableStoreError (list EventEnvelope) :=
  let start := ss_committed_position state in
  let end_position := ab_end_position active in
  reject_if ((end_position <? start)%Z || (len (event_order s) <? end_position)%Z) StCorrupt ;;
  found ← active_events_loop s state 0 []
            (take (Z.to_nat (end_position - start)) (drop (Z.to_nat start) (event_order s)));
  reject_if (bool_decide (found.1 = [])
             || (sub_max_in_flight (ss_subscription state) <? len found.1)%Z
             || (MAX_EVENT_DELIVERY_BATCH_BYTES <? found.2)%Z) StCorrupt ;;
  Ok found.1.

Definition put_subscription (key : RecordKey) (state : MemoryEventSubscriptionState) :
    journal_op unit :=
  s ← get;
  put (with_subscriptions (<[key := state]> (event_subscriptions s)) s).

Definition set_progress (committed : Z) (active : option MemoryEventActiveBatch)
    (state : MemoryEventSubscriptionState) : MemoryEventSubscriptionState :=
  mk_sub_state (ss_subscription state) (ss_owner state) committed (ss_generation state) active
    (ss_last_cursor_action state) (ss_last_replay_id state) (ss_dead_letters state).
Definition set_cursor_action (token : bytes) (action : MemoryEventCursorAction)
    (state : MemoryEventSubscriptionState) : MemoryEventSubscriptionState :=
  mk_sub_state (ss_subscription state) (ss_owner state) (ss_committed_position state)
    (ss_generation state) (ss_active state) (Some (token, action)) (ss_last_replay_id state)
    (ss_dead_letters state).
Definition push_dead_letters (letters : list EventDeadLetter)
    (state : MemoryEventSubscriptionState) : MemoryEventSubscriptionState :=
  mk_sub_state (ss_subscription state) (ss_owner state) (ss_committed_position state)
    (ss_generation state) (ss_active state) (ss_last_cursor_action state)
    (ss_last_replay_id state) (ss_dead_letters state ++ letters).

Definition persist_event_subscription (owner : ScopedPrincipal)
    (subscription : EventSubscription) : journal_op DurableRecordStatus :=
  canonical ← invalid (canonical_event_subscription subscription);
  guard (negb (bool_decide (sp_scope owner = sub_scope canonical))) StPermissionDenied ;;
  let key := record_key (sub_scope canonical) (sub_subscription_id canonical) in
  s ← get;
  match event_subscriptions s !! key with
  | Some existing =>
      same_or_conflict (bool_decide (ss_subscription existing = canonical)
                        && bool_decide (ss_owner existing = owner))
  | None =>
      let committed_position :=
        match sub_start canonical with
        | SsBeginning => 0%Z
        | SsLatest => len (event_order s)
        end in
      put_subscription key (mk_sub_state canonical owner committed_position 1 None None None []) ;;
      mret RecPersisted
  end.

Definition event_subscription_owner (scope : TenantScope) (id : EventSubscriptionId) :
    journal_op (option ScopedPrincipal) :=
  s ← get; mret (ss_owner <$> event_subscriptions s !! record_key scope id).
Definition event_subscription (scope : TenantScope) (id : EventSubscriptionId) :
    journal_op (option EventSubscription) :=
  s ← get; mret (ss_subscription <$> event_subscriptions s !! record_key scope id).

Section subscriptions.
Context `{Sha256}.

(** The cursor of the active batch. *)
Definition active_cursor (scope : TenantScope) (state : MemoryEventSubscriptionState)
    (active : MemoryEventActiveBatch) : EventConsumerCursor :=
  event_consumer_cursor_token scope (ss_subscription state) (ss_generation state)
    (ab_end_position active) (ab_attempt active).

Definition delivery_batch (scope : TenantScope) (id : EventSubscriptionId)
    (state : MemoryEventSubscriptionState) (active : MemoryEventActiveBatch)
    (batch : list EventEnvelope) : EventPollResult :=
  PollBatch (mk_batch id scope batch (active_cursor scope state active) (ab_attempt active)).

Definition poll_event_subscription (scope : TenantScope) (id : EventSubscriptionId)
    (max_items now_unix_ms : Z) : journal_op EventPollResult :=
  invalid (validate_event_batch_size max_items) ;;
  guard (now_unix_ms <? 0)%Z StInvalidRecord ;;
  let key := record_key scope id in
  s ← get;
  snapshot ← lift (ok_or (event_subscriptions s !! key) StInvalidRecord);
  guard (negb (bool_decide (sub_scope (ss_subscription snapshot) = scope))) StCorrupt ;;
  match ss_active snapshot with
  | Some active =>
      if (now_unix_ms <? ab_not_before_unix_ms active)%Z
      then mret (PollRetryAfter (ab_not_before_unix_ms active - now_unix_ms))
      else
        batch ← lift (memory_active_events s snapshot active);
        mret (delivery_batch scope id snapshot active batch)
  | None =>
      let limit := Z.to_nat (Z.min max_items (sub_max_in_flight (ss_subscription snapshot))) in
      next ← lift (memory_next_event_batch s snapshot limit);
      match next with
      | None =>
          put_subscription key (set_progress (len (event_order s)) None snapshot) ;;
          mret PollEmpty
      | Some (batch, end_position) =>
          let active := mk_active end_position 1 now_unix_ms in
          put_subscription key
            (set_progress (ss_committed_position snapshot) (Some active) snapshot) ;;
          mret (delivery_batch scope id snapshot active batch)
      end
  end.

(** A repeated action on the last cursor. *)
Definition cursor_replay (snapshot : MemoryEventSubscriptionState) (cursor : EventConsumerCursor)
    (action : MemoryEventCursorAction) : option (result DurableStoreError DurableRecordStatus) :=
  match ss_last_cursor_action snapshot with
  | Some (last, recorded) =>
      if bool_decide (last = cursor)
      then Some (if bool_decide (recorded = action) then Ok RecDuplicate else Err StConflict)
      else None
  | None => None
  end.

Definition acknowledge_event_cursor (scope : TenantScope) (id : EventSubscriptionId)
    (cursor : EventConsumerCursor) : journal_op DurableRecordStatus :=
  invalid (validate_event_consumer_cursor cursor) ;;
  let key := record_key scope id in
  s ← get;
  snapshot ← lift (ok_or (event_subscriptions s !! key) StInvalidRecord);
  match cursor_replay snapshot cursor CaAcknowledge with
  | Some answer => lift answer
  | None =>
      active ← lift (ok_or (ss_active snapshot) StConflict);
      guard (negb (bool_decide (active_cursor scope snapshot active = cursor))) StConflict ;;
      put_subscription key (set_cursor_action cursor CaAcknowledge
        (set_progress (ab_end_position active) None snapshot)) ;;
      mret RecPersisted
  end.

(** The mutations after the guards of [reject_event_cursor]; the cursor action is recorded
    first, so it stays when a later step fails. *)
Definition reject_active (scope : TenantScope) (id : EventSubscriptionId) (key : RecordKey)
    (cursor : EventConsumerCursor) (failure_kind : EventDeliveryFailureKind) (now_unix_ms : Z)
    (snapshot : MemoryEventSubscriptionState) (active : MemoryEventActiveBatch)
    (dead_letter_events : option (list EventEnvelope)) : journal_op DurableRecordStatus :=
  let subscription := set_cursor_action cursor CaReject snapshot in
  put_subscription key subscription ;;
  match dead_letter_events with
  | Some events =>
      let letters := (λ event,
        mk_dead_letter id scope event (ab_attempt active) failure_kind) <$> events in
      put_subscription key
        (set_progress (ab_end_position active) None (push_dead_letters letters subscription)) ;;
      mret RecPersisted
  | None =>
      next_attempt ← lift (ok_or (checked_add_u32 (ab_attempt active) 1) StCorrupt);
      delay ← lift (ok_or (i64_try_from (event_retry_delay_ms next_attempt)) StInternal);
      not_before ← lift (ok_or (checked_add_i64 now_unix_ms delay) StInvalidRecord);
      put_subscription key (set_progress (ss_committed_position subscription)
        (Some (mk_active (ab_end_position active) next_attempt not_before)) subscription) ;;
      mret RecPersisted
  end.

Definition reject_event_cursor (scope : TenantScope) (id : EventSubscriptionId)
    (cursor : EventConsumerCursor) (failure_kind : EventDeliveryFailureKind) (now_unix_ms : Z) :
    journal_op DurableRecordStatus :=
  invalid (validate_event_consumer_cursor cursor) ;;
  guard (now_unix_ms <? 0)%Z StInvalidRecord ;;
  let key := record_key scope id in
  s ← get;
  snapshot ← lift (ok_or (event_subscriptions s !! key) StInvalidRecord);
  match cursor_replay snapshot cursor CaReject with
  | Some answer => lift answer
  | None =>
      active ← lift (ok_or (ss_active snapshot) StConflict);
      guard (negb (bool_decide (active_cursor scope snapshot active = cursor))) StConflict ;;
      let terminal := bool_decide (failure_kind = FkPermanent)
        || (sub_max_attempts (ss_subscription snapshot) <=? ab_attempt active)%Z in
      dead_letter_events ← (if terminal
                            then batch ← lift (memory_active_events s snapshot active);
                                 mret (Some batch)
                            else mret None);
      reject_active scope id key cursor failure_kind now_unix_ms snapshot active
        dead_letter_events
  end.
End subscriptions.

Definition replay_event_subscription (scope : TenantScope) (id : EventSubscriptionId)
    (replay_id : OpaqueId) : journal_op DurableRecordStatus :=
  let key := record_key scope id in
  s ← get;
  subscription ← lift (ok_or (event_subscriptions s !! key) StInvalidRecord);
  if bool_decide (ss_last_replay_id subscription = Some replay_id) then mret RecDuplicate else
  generation ← lift (ok_or (checked_add_u64 (ss_generation subscription) 1) StCorrupt);
  put_subscription key (mk_sub_state (ss_subscription subscription) (ss_owner subscription) 0
    generation None None (Some replay_id) []) ;;
  mret RecPersisted.

Definition event_dead_letters (scope : TenantScope) (id : EventSubscriptionId) (max_items : Z) :
    journal_op (list EventDeadLetter) :=
  invalid (validate_event_batch_size max_items) ;;
  s ← get;
  subscription ← lift (ok_or (event_subscriptions s !! record_key scope id) StInvalidRecord);
  mret (take (Z.to_nat max_items) (ss_dead_letters subscription)).

(** * Anti-entropy *)

Definition MEMORY_CURSOR_VERSION : Z := 1.
Definition MEMORY_CURSOR_LEN : Z := 1 + 32 + 8 + 8.

(** The session table is part of the message store. *)
Definition load_anti_entropy_session (m : Memory) (scope : TenantScope) (session_id : SessionId) :
    result DurableStoreError SyncSession :=
  session ← ok_or (sync_sessions (m_base m) !! record_key scope session_id) StInvalidRecord;
  map_err (λ _, StInvalidRecord) (validate_anti_entropy_session session) ;;
  Ok session.

Section anti_entropy.
Context `{Sha256}.

Definition encode_memory_cursor (session : SyncSession) (snapshot position : Z) :
    AntiEntropyCursor :=
  MEMORY_CURSOR_VERSION :: anti_entropy_session_binding session
    ++ be_bytes 8 snapshot ++ be_bytes 8 position.

Definition decode_memory_cursor (session : SyncSession) (token : AntiEntropyCursor) :
    result DurableStoreError (Z * Z) :=
  map_err (λ _, StInvalidRecord) (validate_anti_entropy_cursor token) ;;
  reject_if (negb (len token =? MEMORY_CURSOR_LEN)%Z
             || negb (bool_decide (head token = Some MEMORY_CURSOR_VERSION))) StInvalidRecord ;;
  reject_if (negb (bool_decide (take 32 (drop 1 token) = anti_entropy_session_binding session)))
    StInvalidRecord ;;
  let snapshot := be_value (take 8 (drop 33 token)) in
  let position := be_value (drop 41 token) in
  reject_if (snapshot <? position)%Z StInvalidRecord ;;
  Ok (snapshot, position).

(** The page loop over the journal from [position]; it ends at the snapshot or once
    [max_items] summaries were taken. *)
Fixpoint summary_loop (j : Journal) (wanted_scope : ScopeKey) (snapshot : Z) (max_items : nat)
    (position : Z) (summaries : list EventSummary) (order : list RecordKey) :
    result DurableStoreError (list EventSummary * Z) :=
  if (snapshot <=? position)%Z || (max_items <=? length summaries) then Ok (summaries, position)
  else
    match order with
    | [] => Err StCorrupt
    | key :: order =>
        let position := (position + 1)%Z in
        if negb (bool_decide (key.1 = wanted_scope))
        then summary_loop j wanted_scope snapshot max_items position summaries order
        else
          event ← ok_or (events j !! key) StCorrupt;
          fingerprint ← map_err (λ _, StCorrupt) (event_fingerprint event);
          summary_loop j wanted_scope snapshot max_items position
            (summaries ++ [mk_summary (ev_event_id event) fingerprint]) order
    end.

Definition anti_entropy_summary_page (scope : TenantScope) (session_id : SessionId)
    (cursor : option AntiEntropyCursor) (max_items : Z) : mem_op AntiEntropyPage :=
  invalid (validate_anti_entropy_page_size max_items) ;;
  m ← get;
  session ← lift (load_anti_entropy_session m scope session_id);
  let j := m_journal m in
  window ← lift (match cursor with
                 | Some cursor => decode_memory_cursor session cursor
                 | None => Ok (len (event_order j), 0%Z)
                 end);
  let '(snapshot, position) := window in
  guard (len (event_order j) <? snapshot)%Z StCorrupt ;;
  page ← lift (summary_loop j (scope_key scope) snapshot (Z.to_nat max_items) position []
                 (drop (Z.to_nat position) (event_order j)));
  let '(summaries, position) := page in
  mret (mk_page (sy_session_id session) (sy_scope session) summaries
    (if (position <? snapshot)%Z then Some (encode_memory_cursor session snapshot position)
     else None)).

Fixpoint classify_loop (j : Journal) (scope : TenantScope) (seen : list EventId)
    (summaries : list EventSummary) : result DurableStoreError (list EventReconciliation) :=
  match summaries with
  | [] => Ok []
  | summary :: summaries =>
      reject_if (bool_decide (es_event_id summary ∈ seen)) StInvalidRecord ;;
      state_kind ← match events j !! record_key scope (es_event_id summary) with
                   | None => Ok RsMissing
                   | Some local =>
                       fingerprint ← map_err (λ _, StCorrupt) (event_fingerprint local);
                       Ok (if bool_decide (fingerprint = es_fingerprint summary)
                           then RsMatching else RsDamaged)
                   end;
      rest ← classify_loop j scope (es_event_id summary :: seen) summaries;
      Ok (mk_reconciliation (es_event_id summary) state_kind :: rest)
  end.

Definition classify_event_summaries (scope : TenantScope) (session_id : SessionId)
    (summaries : list EventSummary) : mem_op (list EventReconciliation) :=
  invalid (validate_anti_entropy_summary_count (len summaries)) ;;
  m ← get;
  lift (load_anti_entropy_session m scope session_id) ;;
  lift (classify_loop (m_journal m) scope [] summaries).

Definition reconcile_event (scope : TenantScope) (session_id : SessionId)
    (event : EventEnvelope) : mem_op EventAppendStatus :=
  event ← lift (map_err map_event_error (canonical_event event));
  guard (negb (bool_decide (ev_scope event = scope))) StInvalidRecord ;;
  m ← get;
  lift (load_anti_entropy_session m scope session_id) ;;
  let key := event_key event in
  match events (m_journal m) !! key with
  | Some local =>
      ours ← lift (map_err (λ _, StCorrupt) (event_fingerprint local));
      theirs ← lift (map_err map_event_error (event_fingerprint event));
      if bool_decide (ours = theirs) then mret EaDuplicate else lift (Err StConflict)
  | None =>
      guard (event_id_reserved m key) StConflict ;;
      push_event key event ;;
      mret EaAppended
  end.
End anti_entropy.

(** * Command outcomes *)

Definition put_terminal_event (key : RecordKey) (id : EventId) : mem_op unit :=
  on_journal (j ← get; put (with_terminal_events (<[key := id]> (terminal_events j)) j)).

Definition record_terminal_event (scope : TenantScope) (command_id : CommandId)
    (event : EventEnvelope) : mem_op EventAppendStatus :=
  event ← lift (map_err map_event_error (canonical_event event));
  guard (negb (bool_decide (ev_scope event = scope))
         || negb (bool_decide (causation_id (ev_correlation event) = Some command_id)))
    StInvalidRecord ;;
  let command_ref := record_key scope command_id in
  let key := event_key event in
  m ← get;
  let j := m_journal m in
  guard (bool_decide (accepted_by_id j !! command_ref = None)) StInvalidRecord ;;
  match terminal_events j !! command_ref with
  | Some existing_id =>
      guard (negb (bool_decide (existing_id = ev_event_id event))) StConflict ;;
      if bool_decide (events j !! key = Some event) then mret EaDuplicate
      else lift (Err StConflict)
  | None =>
      guard (event_id_reserved m key) StConflict ;;
      match events j !! key with
      | Some original => guard (negb (bool_decide (original = event))) StConflict
      | None => push_event key event
      end ;;
      put_terminal_event command_ref (ev_event_id event) ;;
      mret EaAppended
  end.

Definition terminal_event (scope : TenantScope) (command_id : CommandId) :
    journal_op (option EventId) :=
  s ← get; mret (terminal_events s !! record_key scope command_id).
