(* ===== verification/EventFacts.v ===== *)
(** Facts about the event journal and its subscriptions: sizes of deliveries, what the
    batch loops compute, and the invariant every operation keeps. *)

From S2P Require Import Prelude Ids Framing Extension Message Delivery StoreForward Sync Store.
From S2P Require Import Call Group Version Event Bridge Offline Memory OpLogic EventStore.

(** * Canonical events *)

Lemma canonical_event_inv e c :
  canonical_event e = Ok c → ∃ l,
    validate_event e = Ok tt ∧ canonical_protocol_extensions (ev_extensions e) = Ok l
    ∧ c = set_event_extensions l e.
Proof. unfold canonical_event. intros Hc. res_inv. eauto. Qed.

Lemma validate_event_canonical e c :
  canonical_event e = Ok c → validate_event c = Ok tt ∧ canonical_event c = Ok c.
Proof.
  intros (l & Hv & Hx & ->)%canonical_event_inv.
  assert (canonical_protocol_extensions l = Ok l) as Hl.
  { apply canonical_protocol_extensions_wf. by apply canonical_protocol_extensions_Ok in Hx as [_ Hx]. }
  assert (validate_event (set_event_extensions l e) = Ok tt) as Hv'.
  { revert Hv. unfold validate_event. cbn [ev_event_type ev_correlation ev_payload
      ev_integrity_metadata ev_schema_version ev_extensions set_event_extensions].
    by rewrite Hl, Hx. }
  split; [done|]. unfold canonical_event. rewrite Hv'. cbn. rewrite Hl. cbn. by destruct e.
Qed.

Definition event_size (event : EventEnvelope) : Z :=
  (id_len (ev_event_id event) + id_len (tenant_id (ev_scope event))
   + opt_id_len (namespace_id (ev_scope event)) + len (ev_event_type event)
   + len (ev_payload event) + id_len (actor_id (ev_actor event))
   + opt_id_len (on_behalf_of (ev_actor event)) + id_len (dr_device_id (ev_source_device event))
   + id_len (dr_identity_id (ev_source_device event))
   + id_len (correlation_id (ev_correlation event))
   + opt_id_len (causation_id (ev_correlation event))
   + from_option len 0 (idempotency_key (ev_correlation event))
   + len (ev_integrity_metadata event) + 64
   + foldl (λ size extension, size + (len (ext_name extension) + len (ext_payload extension))) 0
       (ev_extensions event))%Z.

Lemma foldl_add_acc {A} (f : A → Z) l acc :
  foldl (λ a x, (a + f x)%Z) acc l = (acc + foldl (λ a x, a + f x) 0 l)%Z.
Proof.
  revert acc. induction l as [|x l IH]; intros acc; cbn; [lia|].
  rewrite IH, (IH (0 + f x)%Z). lia.
Qed.

Lemma foldl_add_bound {A} (f : A → Z) l bound :
  (∀ x, x ∈ l → 0 ≤ f x ≤ bound)%Z →
  (0 ≤ foldl (λ a x, a + f x) 0 l ≤ bound * len l)%Z.
Proof.
  intros Hf. induction l as [|x l IH]; cbn; [unfold len; cbn; lia|].
  rewrite foldl_add_acc. unfold len in *. cbn [length].
  pose proof (Hf x ltac:(set_solver)). specialize (IH ltac:(set_solver)). lia.
Qed.

Lemma event_delivery_size_valid e :
  validate_event e = Ok tt → event_delivery_size e = Ok (event_size e).
Proof.
  intros Hv. unfold event_delivery_size. rewrite Hv. cbn [mbind result_bind]. f_equal.
  unfold event_size.
  rewrite (foldl_add_acc (λ extension, (len (ext_name extension) + len (ext_payload extension))%Z)).
  lia.
Qed.

Lemma id_len_bound id : (0 < id_len id ≤ 128)%Z.
Proof.
  destruct (opaque_id_bounds id) as (Hne & Hl & _). unfold id_len, len, OPAQUE_ID_MAX_LEN in *.
  destruct (as_wire_bytes id); [done|]. cbn [length] in *. lia.
Qed.

Lemma opt_id_len_bound id : (0 ≤ opt_id_len id ≤ 128)%Z.
Proof. destruct id as [id|]; cbn; [pose proof (id_len_bound id)|]; lia. Qed.

(** A valid event always fits the budget of a delivery, so it is never stuck. *)
Lemma event_size_bound e :
  validate_event e = Ok tt → (0 < event_size e ≤ MAX_EVENT_DELIVERY_BATCH_BYTES)%Z.
Proof.
  intros Hv. unfold validate_event in Hv. res_inv.
  match goal with Hx : canonical_protocol_extensions _ = Ok _ |- _ =>
    apply canonical_protocol_extensions_Ok in Hx as [-> (Hlen & Hall & _)] end.
  unfold len in Hlen. rewrite sort_by_length in Hlen. fold (len (ev_extensions e)) in Hlen.
  rewrite sort_by_perm in Hall.
  assert (0 ≤ foldl (λ size x, size + (len (ext_name x) + len (ext_payload x))) 0 (ev_extensions e)
    ≤ (MAX_NAMESPACED_IDENTIFIER_LEN + MAX_EXTENSION_PAYLOAD_LEN) * len (ev_extensions e))%Z as Hext.
  { apply (foldl_add_bound (λ x, (len (ext_name x) + len (ext_payload x))%Z)).
    intros x Hx. rewrite Forall_forall in Hall. specialize (Hall x Hx).
    unfold validate_extension, validate_extension_name, validate_namespaced_identifier in Hall.
    res_inv. bool_norm. split; [unfold len; lia|by apply Z.add_le_mono]. }
  assert (len (ev_event_type e) ≤ MAX_NAMESPACED_IDENTIFIER_LEN)%Z as Htype.
  { match goal with Hn : validate_namespaced_identifier _ = Ok _ |- _ =>
      unfold validate_namespaced_identifier in Hn end. res_inv. bool_norm. lia. }
  assert (0 ≤ from_option len 0 (idempotency_key (ev_correlation e)) ≤ MAX_IDEMPOTENCY_KEY_LEN)%Z as Hkey.
  { destruct (idempotency_key (ev_correlation e)); cbn [longer_than from_option] in *; bool_norm;
      [unfold len in *; lia|unfold MAX_IDEMPOTENCY_KEY_LEN; lia]. }
  bool_norm.
  unfold event_size. unfold MAX_EVENT_DELIVERY_BATCH_BYTES, MAX_EVENT_DELIVERY_SIZE.
  pose proof (id_len_bound (ev_event_id e)). pose proof (id_len_bound (tenant_id (ev_scope e))).
  pose proof (id_len_bound (actor_id (ev_actor e))).
  pose proof (id_len_bound (dr_device_id (ev_source_device e))).
  pose proof (id_len_bound (dr_identity_id (ev_source_device e))).
  pose proof (id_len_bound (correlation_id (ev_correlation e))).
  pose proof (opt_id_len_bound (namespace_id (ev_scope e))).
  pose proof (opt_id_len_bound (on_behalf_of (ev_actor e))).
  pose proof (opt_id_len_bound (causation_id (ev_correlation e))).
  change (9 * Z.of_nat OPAQUE_ID_MAX_LEN)%Z with (9 * 128)%Z.
  unfold MAX_NAMESPACED_IDENTIFIER_LEN, MAX_EXTENSION_PAYLOAD_LEN, MAX_PROTOCOL_EXTENSIONS in *.
  unfold len in *. lia.
Qed.

(** * What the batch loops compute *)

Definition resolve (j : Journal) (keys : list RecordKey) : list EventEnvelope :=
  omap (λ k, events j !! k) keys.

Definition total_size (l : list EventEnvelope) : Z := foldl (λ a e, a + event_size e)%Z 0%Z l.

Lemma total_size_snoc l e : total_size (l ++ [e]) = (total_size l + event_size e)%Z.
Proof. unfold total_size. by rewrite foldl_app. Qed.

Lemma total_size_cons e l : total_size ([e] ++ l) = (event_size e + total_size l)%Z.
Proof. unfold total_size. cbn. by rewrite (foldl_add_acc event_size _ (0 + event_size e)). Qed.

(** The keys name stored valid events. *)
Definition stored (j : Journal) (keys : list RecordKey) : Prop :=
  Forall (λ k, ∃ e, events j !! k = Some e ∧ validate_event e = Ok tt) keys.

Section loops.
Variables (j : Journal) (st : MemoryEventSubscriptionState).

Abbreviation seen keys := (List.filter (deliverable st) (resolve j keys)).

Lemma seen_cons k e keys :
  events j !! k = Some e → seen (k :: keys) = (if deliverable st e then [e] else []) ++ seen keys.
Proof. intros Hk. unfold resolve. cbn. rewrite Hk. cbn. by destruct (deliverable st e). Qed.

Lemma next_size_valid bytes e :
  validate_event e = Ok tt →
  event_delivery_batch_next_size bytes e
  = Ok (if (bytes + event_size e <=? MAX_EVENT_DELIVERY_BATCH_BYTES)%Z
        then Some (bytes + event_size e)%Z else None).
Proof. intros Hv. unfold event_delivery_batch_next_size. by rewrite event_delivery_size_valid. Qed.

(** The batch is the visible events of a prefix of what is left, within the limits, and
    it is empty only if nothing visible is left. *)
Definition batch_found (limit : nat) (p : Z) (batch : list EventEnvelope) (order : list RecordKey)
    (found : list EventEnvelope * Z) : Prop :=
  ∃ n, n ≤ length order ∧ found = (batch ++ seen (take n order), p + Z.of_nat n)%Z
    ∧ length found.1 ≤ limit ∧ (total_size found.1 ≤ MAX_EVENT_DELIVERY_BATCH_BYTES)%Z
    ∧ (found.1 = [] → n = length order).

Lemma next_batch_loop_spec limit order p batch :
  stored j order → length batch < limit →
  (total_size batch ≤ MAX_EVENT_DELIVERY_BATCH_BYTES)%Z →
  ∃ found, next_batch_loop j st limit p p (total_size batch) batch order = Ok found
    ∧ batch_found limit p batch order found.
Proof.
  intros Hst. revert p batch. induction Hst as [|k order (e & Hk & Hv) _ IH]; intros p batch Hlim Hsz.
  { exists (batch, p). split; [done|]. exists 0. cbn. rewrite app_nil_r, Z.add_0_r.
    split_and!; [lia|done|lia|done|done]. }
  cbn [next_batch_loop]. rewrite Hk. cbn [ok_or mbind result_bind].
  destruct (deliverable st e) eqn:Hd; cbn [negb].
  - rewrite next_size_valid by done. cbn [map_err mbind result_bind].
    destruct (event_size_bound e Hv) as [Hpos Hmax].
    destruct (Z.leb_spec (total_size batch + event_size e) MAX_EVENT_DELIVERY_BATCH_BYTES) as [Hfit|Hbig].
    + rewrite <- total_size_snoc in Hfit |- *. rewrite length_app. cbn [length].
      destruct (Nat.eqb_spec (length batch + 1) limit) as [Hl|Hl].
      * eexists. split; [done|]. exists 1. cbn [take]. rewrite seen_cons with (e := e), Hd by done. cbn.
        rewrite length_app. cbn. split_and!; [lia|done|lia|done|by intros [_ ?]%app_nil].
      * destruct (IH (p + 1)%Z (batch ++ [e])) as (found & Hloop & n & Hn & -> & Hl' & Ht & Hne);
          [rewrite length_app; cbn; lia|done|].
        eexists. split; [exact Hloop|]. exists (S n). cbn [take].
        rewrite seen_cons with (e := e), Hd by done. rewrite <- app_assoc in *.
        split_and!; [cbn; lia|f_equal; lia|done|done|]. intros [_ [=]]%app_nil.
    + destruct batch as [|e0 batch]; [unfold total_size in Hbig; cbn in Hbig; lia|].
      rewrite bool_decide_eq_false_2 by done. eexists. split; [done|]. exists 0. cbn [take].
      rewrite app_nil_r, Z.add_0_r. split_and!; [lia|done|cbn in *; lia|done|done].
  - destruct (IH (p + 1)%Z batch) as (found & Hloop & n & Hn & -> & Hl' & Ht & Hne); [done..|].
    eexists. split; [exact Hloop|]. exists (S n). cbn [take].
    rewrite seen_cons with (e := e), Hd by done. cbn [app].
    split_and!; [cbn; lia|f_equal; lia|done|done|]. intros ?. cbn. auto.
Qed.

Lemma active_events_loop_spec order batch bytes :
  stored j order →
  active_events_loop j st bytes batch order
  = Ok (batch ++ seen order, bytes + total_size (seen order))%Z.
Proof.
  intros Hst. revert batch bytes. induction Hst as [|k order (e & Hk & Hv) _ IH]; intros batch bytes.
  { cbn. by rewrite app_nil_r, Z.add_0_r. }
  cbn [active_events_loop]. rewrite Hk. cbn [ok_or mbind result_bind].
  rewrite seen_cons with (e := e) by done. destruct (deliverable st e).
  - rewrite event_delivery_size_valid by done. cbn [map_err mbind result_bind]. rewrite IH.
    rewrite <- app_assoc, total_size_cons. by rewrite Z.add_assoc.
  - apply IH.
Qed.
End loops.

(** * The journal grows at its end *)

Record log_ok (j : Journal) : Prop := {
  lo_nodup : NoDup (event_order j);
  lo_dom k : k ∈ event_order j ↔ is_Some (events j !! k);
  lo_event k e : events j !! k = Some e → k = event_key e ∧ canonical_event e = Ok e;
}.

Definition push (k : RecordKey) (e : EventEnvelope) (j : Journal) : Journal :=
  with_events (<[k := e]> (events j)) (event_order j ++ [k]) j.

(** The effects the operations other than those on subscriptions can have; [reserved] are
    the identifiers taken by group changes and call signals. *)
Inductive grow (reserved : RecordKey → bool) : Journal → Journal → Prop :=
| grow_push j k e :
    events j !! k = None → reserved k = false → k = event_key e → canonical_event e = Ok e →
    grow reserved j (push k e j)
| grow_command j k c :
    accepted j !! k = None → accepted_by_id j !! command_ref c = None →
    canonical_command c = Ok c → command_key c = Ok k →
    grow reserved j (with_accepted (<[k := c]> (accepted j))
                       (<[command_ref c := c]> (accepted_by_id j)) j)
| grow_outcome j scope command_id e :
    terminal_events j !! record_key scope command_id = None →
    is_Some (accepted_by_id j !! record_key scope command_id) →
    events j !! event_key e = Some e → ev_scope e = scope →
    causation_id (ev_correlation e) = Some command_id →
    grow reserved j
      (with_terminal_events (<[record_key scope command_id := ev_event_id e]> (terminal_events j)) j).

Lemma grow_log_ok R j j' : grow R j j' → log_ok j → log_ok j'.
Proof.
  intros [j0 k e Hk _ He Hc|j0 k c|j0 scope command_id e] [Hnd Hdom Hev]; [|by split..].
  split; unfold push; cbn.
  - apply NoDup_app. split_and!; [done| |apply NoDup_singleton].
    intros x Hx ->%list_elem_of_singleton. apply Hdom in Hx as [? ?]. congruence.
  - intros k'. rewrite elem_of_app, list_elem_of_singleton, Hdom.
    destruct (decide (k' = k)) as [->|Hne]; [rewrite lookup_insert_eq; naive_solver|].
    rewrite lookup_insert_ne by done. naive_solver.
  - intros k' e' [[<- <-]|[_ ?]]%lookup_insert_Some; [done|by apply Hev].
Qed.

(** The new journal continues the old one. *)
Definition continues (j j' : Journal) : Prop :=
  (∃ new, event_order j' = event_order j ++ new)
  ∧ ∀ k, k ∈ event_order j → events j' !! k = events j !! k.

#[global] Instance continues_preorder : PreOrder continues.
Proof.
  split; [by intros j; split; [exists []; by rewrite app_nil_r|]|].
  intros j1 j2 j3 [[n1 E1] H1] [[n2 E2] H2]. split.
  - exists (n1 ++ n2). by rewrite E2, E1, app_assoc.
  - intros k Hk. rewrite H2, H1; [done|done|]. rewrite E1. set_solver.
Qed.

Lemma grow_continues R j j' : log_ok j → grow R j j' → continues j j'.
Proof.
  intros Hok Hg. revert Hok.
  destruct Hg as [j0 k e Hk _ He Hc|j0 k c|j0 scope command_id e]; intros Hok; unfold continues, push; cbn.
  - split; [by eexists|]. intros k' Hk'. rewrite lookup_insert_ne; [done|].
    intros ->. apply (lo_dom _ Hok) in Hk' as [? ?]. congruence.
  - split; [exists []; by rewrite app_nil_r|done].
  - split; [exists []; by rewrite app_nil_r|done].
Qed.

Lemma grow_subscriptions R j j' : grow R j j' → event_subscriptions j' = event_subscriptions j.
Proof. by intros []. Qed.

Lemma grows_ok R j j' :
  rtc (grow R) j j' → log_ok j →
  log_ok j' ∧ continues j j' ∧ event_subscriptions j' = event_subscriptions j.
Proof.
  induction 1 as [j|j j1 j2 Hg _ IH]; intros Hok; [done|].
  destruct IH as (? & ? & Es); [by eapply grow_log_ok|].
  split_and!; [done|by etrans; [eapply grow_continues|]|]. by rewrite Es, (grow_subscriptions _ _ _ Hg).
Qed.

Lemma resolve_continues j j' keys :
  continues j j' → (∀ k, k ∈ keys → k ∈ event_order j) → resolve j' keys = resolve j keys.
Proof.
  intros [_ Hk] Hin. induction keys as [|k keys IH]; [done|]. unfold resolve in *. cbn.
  rewrite Hk by set_solver. by rewrite IH by set_solver.
Qed.

(** ** The events a subscription sees *)

Definition slice (a b : Z) (order : list RecordKey) : list RecordKey :=
  take (Z.to_nat (b - a)) (drop (Z.to_nat a) order).

Definition visible (j : Journal) (st : MemoryEventSubscriptionState) (a b : Z) :
    list EventEnvelope :=
  List.filter (deliverable st) (resolve j (slice a b (event_order j))).

Lemma slice_elem k a b order : k ∈ slice a b order → k ∈ order.
Proof.
  unfold slice. intros Hk. rewrite <- (take_drop (Z.to_nat a) order), elem_of_app. right.
  rewrite <- (take_drop (Z.to_nat (b - a)) (drop _ _)), elem_of_app. by left.
Qed.

Lemma slice_app a b c order :
  (0 ≤ a ≤ b)%Z → (b ≤ c)%Z → slice a c order = slice a b order ++ slice b c order.
Proof.
  intros Ha Hb. unfold slice.
  replace (Z.to_nat (c - a)) with (Z.to_nat (b - a) + Z.to_nat (c - b)) by lia.
  rewrite <- take_take_drop, drop_drop. do 3 f_equal. lia.
Qed.

Lemma visible_app j st a b c :
  (0 ≤ a ≤ b)%Z → (b ≤ c)%Z → visible j st a c = visible j st a b ++ visible j st b c.
Proof.
  intros Ha Hb. unfold visible. rewrite (slice_app a b c) by done.
  unfold resolve. by rewrite omap_app, List.filter_app.
Qed.

Lemma slice_nil a order : slice a a order = [].
Proof. unfold slice. by rewrite Z.sub_diag. Qed.

Lemma visible_nil j st a : visible j st a a = [].
Proof. unfold visible. by rewrite slice_nil. Qed.

Lemma slice_continues j j' a b :
  continues j j' → (0 ≤ a ≤ b)%Z → (b ≤ len (event_order j))%Z →
  slice a b (event_order j') = slice a b (event_order j).
Proof.
  intros [[new ->] _] Ha Hb. unfold slice, len in *.
  rewrite drop_app_le by lia. apply take_app_le. rewrite length_drop. lia.
Qed.

Lemma visible_continues j j' st a b :
  continues j j' → (0 ≤ a ≤ b)%Z → (b ≤ len (event_order j))%Z →
  visible j' st a b = visible j st a b.
Proof.
  intros Hc Ha Hb. unfold visible. f_equal.
  rewrite (slice_continues j) by done.
  apply resolve_continues; [done|]. intros k. apply slice_elem.
Qed.

(** What a subscription sees are distinct events. *)
Lemma resolve_keys_sublist j st keys :
  log_ok j →
  (event_key <$> List.filter (deliverable st) (resolve j keys)) `sublist_of` keys.
Proof.
  intros Hlog. induction keys as [|k keys IH]; [done|]. unfold resolve in *. cbn.
  destruct (events j !! k) as [e|] eqn:Hk; cbn; [|by constructor].
  apply (lo_event _ Hlog) in Hk as [-> _].
  destruct (deliverable st e); cbn; [by apply sublist_skip|by apply sublist_cons].
Qed.

Lemma visible_NoDup j st a b : log_ok j → NoDup (event_key <$> visible j st a b).
Proof.
  intros Hlog. eapply sublist_NoDup; [|by apply resolve_keys_sublist].
  unfold slice. eapply sublist_NoDup; [|apply sublist_take].
  eapply sublist_NoDup; [|apply sublist_drop]. apply Hlog.
Qed.

(** ** The operations grow the journal *)

(** The operation changed only the journal, by growing it. *)
Definition grows (m m' : Memory) : Prop :=
  ∃ j', m' = with_journal j' m ∧ rtc (grow (event_id_reserved m)) (m_journal m) j'.

Lemma grows_refl m : grows m m.
Proof. exists (m_journal m). split; [by destruct m|done]. Qed.

Lemma grows_push m k e :
  events (m_journal m) !! k = None → event_id_reserved m k = false →
  k = event_key e → canonical_event e = Ok e → grows m (push_event k e m).1.
Proof. intros ????. eexists. split; [done|]. by apply rtc_once, grow_push. Qed.

Lemma grows_journal m (o : journal_op CommandReceipt) :
  rtc (grow (event_id_reserved m)) (m_journal m) (o (m_journal m)).1 →
  wp (on_journal o) m (λ m' _, grows m m').
Proof.
  intros Ho. apply wp_zoom. unfold wp. by eexists.
Qed.

Lemma canonical_command_inv c c' :
  canonical_command c = Ok c' → ∃ l,
    validate_command c = Ok tt ∧ canonical_protocol_extensions (cmd_extensions c) = Ok l
    ∧ c' = set_command_extensions l c.
Proof. unfold canonical_command. intros Hc. res_inv. eauto. Qed.

Lemma canonical_command_stable c c' : canonical_command c = Ok c' → canonical_command c' = Ok c'.
Proof.
  intros (l & Hv & Hx & ->)%canonical_command_inv.
  assert (canonical_protocol_extensions l = Ok l) as Hl.
  { apply canonical_protocol_extensions_wf. by apply canonical_protocol_extensions_Ok in Hx as [_ Hx]. }
  assert (validate_command (set_command_extensions l c) = Ok tt) as Hv'.
  { revert Hv. unfold validate_command. cbn [cmd_command_type cmd_correlation cmd_payload
      cmd_schema_version cmd_extensions set_command_extensions]. by rewrite Hl, Hx. }
  unfold canonical_command. rewrite Hv'. cbn. rewrite Hl. cbn. by destruct c.
Qed.

Lemma canonical_command_key c c' : canonical_command c = Ok c' → command_key c' = command_key c.
Proof. by intros (l & _ & _ & ->)%canonical_command_inv. Qed.

Lemma accept_canonical_wp R key command j :
  canonical_command command = Ok command → command_key command = Ok key →
  wp (accept_canonical key command) j (λ j' _, rtc (grow R) j j').
Proof.
  intros Hc Hk. unfold accept_canonical, insert_command. wp_steps; try apply rtc_refl. bool_norm.
  apply rtc_once, grow_command; [done| |done|done]. by apply eq_None_not_Some.
Qed.

Lemma accept_command_wp m command : wp (on_journal (accept_command command)) m (λ m' _, grows m m').
Proof.
  apply grows_journal. change (wp (accept_command command) (m_journal m)
    (λ j' _, rtc (grow (event_id_reserved m)) (m_journal m) j')).
  unfold accept_command. wp_steps; [|done..].
  apply accept_canonical_wp; [by eapply canonical_command_stable|done].
Qed.

Lemma accept_legacy_wp m generated command key :
  wp (on_journal (accept_command_with_legacy_reservation generated command key)) m
    (λ m' _, grows m m').
Proof.
  apply grows_journal. change (wp (accept_command_with_legacy_reservation generated command key)
    (m_journal m) (λ j' _, rtc (grow (event_id_reserved m)) (m_journal m) j')).
  unfold accept_command_with_legacy_reservation, insert_command. wp_steps; try done.
  - apply accept_canonical_wp; [by eapply canonical_command_stable|done].
  - eapply wp_mono; [|apply accept_canonical_wp; [by eapply canonical_command_stable|done]].
    cbn. intros j' _ Hj. eapply rtc_l; [|exact Hj]. bool_norm.
    apply grow_command; [done|by apply eq_None_not_Some|by eapply canonical_command_stable|].
    match goal with Hres : canonical_command (legacy_reservation _ _) = Ok _ |- _ =>
      rewrite (canonical_command_key _ _ Hres) end. done.
Qed.

(** A fresh canonical event was appended. *)
Definition appended (m : Memory) (e : EventEnvelope) (m' : Memory) : Prop :=
  events (m_journal m) !! event_key e = None ∧ event_id_reserved m (event_key e) = false
  ∧ canonical_event e = Ok e ∧ m' = (push_event (event_key e) e m).1.

Lemma appended_grows m e m' : appended m e m' → grows m m'.
Proof. intros (? & ? & ? & ->). by apply grows_push. Qed.

Lemma append_event_wp m e :
  wp (append_event e) m (λ m' r,
    match r with
    | Ok EaAppended => ∃ c, canonical_event e = Ok c ∧ appended m c m'
    | Ok EaDuplicate => m' = m ∧ ∃ c, canonical_event e = Ok c
                        ∧ events (m_journal m) !! event_key c = Some c
    | Err _ => m' = m
    end).
Proof.
  unfold append_event, append_event_to_memory_state. wp_steps; try done.
  - bool_norm. subst. split; [done|]. eauto.
  - apply wp_bind. unfold wp. cbn. eexists. split; [done|].
    split_and!; [done|done|by eapply validate_event_canonical|done].
Qed.

#[global] Instance grows_trans : Transitive grows.
Proof.
  intros m m1 m2 (j1 & -> & H1) (j2 & -> & H2). exists j2. split; [done|]. by etrans.
Qed.

(** What the staging loop has collected: fresh, distinct, canonical events. *)
Definition staged_ok (m : Memory) (staged : list (RecordKey * EventEnvelope)) : Prop :=
  NoDup staged.*1
  ∧ Forall (λ x, x.1 = event_key x.2 ∧ canonical_event x.2 = Ok x.2
                 ∧ events (m_journal m) !! x.1 = None ∧ event_id_reserved m x.1 = false) staged.

Lemma stage_events_ok m batch staged statuses out :
  Forall (λ e, canonical_event e = Ok e) batch → staged_ok m staged →
  stage_events m staged statuses batch = Ok out → staged_ok m out.1.
Proof.
  intros Hb. revert staged statuses. induction Hb as [|e batch He _ IH]; intros staged statuses Hst; cbn.
  { by intros [= <-]. }
  destruct (events (m_journal m) !! event_key e) eqn:Hk; [intros Hs; res_inv; by eapply IH|].
  intros Hs. res_inv. destruct (List.find _ staged) as [[k e']|] eqn:Hf; [res_inv; by eapply IH|].
  eapply IH; [|exact Hs]. destruct Hst as [Hnd Hall]. split.
  - rewrite fmap_app. apply NoDup_app. split_and!; [done| |apply NoDup_singleton].
    intros k Hk1 ->%list_elem_of_singleton. apply find_None_Forall in Hf.
    apply list_elem_of_fmap in Hk1 as (x & Ex & Hx). rewrite Forall_forall in Hf.
    specialize (Hf x Hx). bool_norm. by apply Hf.
  - apply Forall_app. split; [done|]. by apply Forall_singleton.
Qed.

Lemma commit_grows m staged : staged_ok m staged → grows m (commit_staged staged m).
Proof.
  revert m. induction staged as [|[k e] staged IH]; intros m [Hnd Hall]; cbn; [apply grows_refl|].
  cbn in Hnd. apply NoDup_cons in Hnd as [Hk Hnd].
  apply Forall_cons in Hall as [(Ek & Hc & Hf & Hr) Hall]; cbn in *.
  etrans; [by apply grows_push|]. apply IH. split; [done|].
  apply Forall_forall. intros x Hx. rewrite Forall_forall in Hall.
  destruct (Hall x Hx) as (? & ? & ? & ?). split_and!; [done..| |done].
  change (<[k := e]> (events (m_journal m)) !! x.1 = None).
  rewrite lookup_insert_ne; [done|]. intros ->. apply Hk. by apply list_elem_of_fmap_2.
Qed.

Lemma append_all_wp m batch :
  wp (append_events_atomically batch) m (λ m' r, grows m m' ∧ (¬ is_ok r → m' = m)).
Proof.
  unfold append_events_atomically. wp_steps; try (split; [apply grows_refl|done]).
  split; [|by intros []]. apply commit_grows.
  match goal with Hs : stage_events _ _ _ ?c = Ok _ |- _ => apply (stage_events_ok m c [] []) in Hs end;
    [done| |by split; constructor].
  match goal with Hc : try_collect _ _ = Ok _ |- _ => apply try_collect_Ok in Hc; revert Hc end.
  clear. intros Hc. induction Hc as [|e c es cs He _ IH]; constructor; [|done].
  apply map_err_Ok in He. by eapply validate_event_canonical.
Qed.

Lemma reconcile_event_wp `{Sha256} m scope session_id e :
  wp (reconcile_event scope session_id e) m (λ m' r,
    match r with
    | Ok EaAppended => ∃ c, canonical_event e = Ok c ∧ ev_scope c = scope ∧ appended m c m'
    | _ => m' = m
    end).
Proof.
  unfold reconcile_event. wp_steps; try done.
  apply wp_bind. unfold wp. cbn. bool_norm. eexists. split; [done|]. split; [done|].
  split_and!; [done|done|by eapply validate_event_canonical|done].
Qed.

Lemma record_terminal_wp m scope command_id e :
  wp (record_terminal_event scope command_id e) m (λ m' r,
    grows m m' ∧ match r with
                 | Ok EaAppended => terminal_events (m_journal m) !! record_key scope command_id = None
                 | _ => m' = m
                 end).
Proof.
  unfold record_terminal_event. wp_steps; try (split; [apply grows_refl|done]).
  - apply wp_bind. unfold wp. cbn. split; [|done]. eexists. split; [done|].
    bool_norm. apply rtc_once, grow_outcome; [done|by apply not_eq_None_Some|naive_solver..].
  - apply wp_bind. unfold wp. cbn. split; [|done]. eexists. split; [done|].
    eapply rtc_l; [apply grow_push; [done|done|done|by eapply validate_event_canonical]|].
    bool_norm. apply rtc_once, grow_outcome; [done|by apply not_eq_None_Some|apply lookup_insert_eq|naive_solver..].
Qed.

(** ** No operation finds the journal corrupt *)

Lemma append_event_sound m e : wp (append_event e) m (λ _ r, r ≠ Err StCorrupt).
Proof.
  unfold append_event, append_event_to_memory_state. by wp_steps.
Qed.

Lemma stage_events_sound m staged statuses batch : stage_events m staged statuses batch ≠ Err StCorrupt.
Proof.
  revert staged statuses. induction batch as [|e batch IH]; intros staged statuses; cbn; [done|].
  destruct (events (m_journal m) !! event_key e).
  { destruct (negb _); cbn; [done|apply IH]. }
  destruct (event_id_reserved _ _); cbn; [done|]. destruct (List.find _ _) as [[]|]; [|apply IH].
  destruct (negb _); cbn; [done|apply IH].
Qed.

Lemma canonical_all_sound batch :
  try_collect (λ e, map_err map_event_error (canonical_event e)) batch ≠ Err StCorrupt.
Proof.
  induction batch as [|e batch IH]; cbn; [done|]. destruct (canonical_event e); cbn; [|done].
  by destruct (try_collect _ batch); cbn; [|congruence].
Qed.

Lemma append_all_sound m batch : wp (append_events_atomically batch) m (λ _ r, r ≠ Err StCorrupt).
Proof.
  unfold append_events_atomically. wp_steps; try done.
  - intros [= ->]. by eapply stage_events_sound.
  - intros [= ->]. by eapply canonical_all_sound.
Qed.

Lemma receipt_sound original incoming : receipt_for_existing original incoming ≠ Err StCorrupt.
Proof.
  unfold receipt_for_existing. destruct (compare_command_idempotency _ _) as [[]|e]; cbn; try done.
  by destruct e.
Qed.

Lemma accept_canonical_sound key command j :
  wp (accept_canonical key command) j (λ _ r, r ≠ Err StCorrupt).
Proof. unfold accept_canonical, insert_command. wp_steps; try done. apply receipt_sound. Qed.

Lemma command_key_sound command e : command_key command = Err e → e = StInvalidRecord.
Proof. unfold command_key. destruct (idempotency_key _); cbn; [done|by intros [= <-]]. Qed.

Lemma map_command_error_sound e : map_command_error e ≠ StCorrupt.
Proof. by destruct e. Qed.

Lemma accept_command_sound command j : wp (accept_command command) j (λ _ r, r ≠ Err StCorrupt).
Proof.
  unfold accept_command. wp_steps.
  - apply accept_canonical_sound.
  - match goal with Hk : command_key _ = Err _ |- _ => apply command_key_sound in Hk as -> end. done.
  - intros [= E]. by eapply map_command_error_sound.
Qed.

Lemma accept_legacy_sound generated command key j :
  wp (accept_command_with_legacy_reservation generated command key) j (λ _ r, r ≠ Err StCorrupt).
Proof.
  unfold accept_command_with_legacy_reservation, insert_command.
  wp_steps; try done; try apply accept_canonical_sound; try apply receipt_sound;
    try (intros [= E]; by eapply map_command_error_sound);
    match goal with Hk : command_key _ = Err _ |- _ => apply command_key_sound in Hk as -> end; done.
Qed.

Lemma reconcile_sound `{Sha256} m scope session_id e :
  log_ok (m_journal m) → wp (reconcile_event scope session_id e) m (λ _ r, r ≠ Err StCorrupt).
Proof.
  intros Hlog. unfold reconcile_event, event_fingerprint, load_anti_entropy_session.
  wp_steps; try done.
  - match goal with Hk : events _ !! _ = Some _ |- _ => apply (lo_event _ Hlog) in Hk as [_ Hc] end.
    match goal with Hf : _ = Err _ |- _ => by rewrite Hc in Hf end.
  - match goal with Hf : _ = Err _ |- _ => revert Hf end.
    destruct (sync_sessions (m_base m) !! _); cbn; [|by intros [= <-]].
    destruct (validate_anti_entropy_session _); cbn; [done|by intros [= <-]].
Qed.

Lemma record_terminal_sound m scope command_id e :
  wp (record_terminal_event scope command_id e) m (λ _ r, r ≠ Err StCorrupt).
Proof. unfold record_terminal_event. by wp_steps. Qed.
