(* ===== verification/Subscription.v ===== *)
(** The invariant of the event subscriptions and what their operations do under it: a poll
    hands out the pending visible events, an acknowledgement settles them, a rejection
    retries or dead-letters them, a replay starts over. *)

From S2P Require Import Prelude Ids Framing Extension Message Delivery StoreForward Sync Store.
From S2P Require Import Call Group Version Event Bridge Offline Memory OpLogic EventStore EventFacts.

(** * The invariant *)

(** The filters are in the order [binary_search] relies on, the limits in range. *)
Record subscription_ok (s : EventSubscription) : Prop := {
  so_filters : strict_sorted (λ t : bytes, t) bytes_cmp (sub_event_types s);
  so_in_flight : (1 ≤ sub_max_in_flight s ≤ MAX_EVENT_BATCH_ITEMS)%Z;
  so_attempts : (1 ≤ sub_max_attempts s ≤ MAX_EVENT_DELIVERY_ATTEMPTS)%Z;
}.

(** The batch handed out ends at a journal position, is not empty and fits the limits. *)
Record active_ok (j : Journal) (st : MemoryEventSubscriptionState) (a : MemoryEventActiveBatch) :
    Prop := {
  ao_end : (ss_committed_position st < ab_end_position a ≤ len (event_order j))%Z;
  ao_attempt : (1 ≤ ab_attempt a ≤ sub_max_attempts (ss_subscription st))%Z;
  ao_some : visible j st (ss_committed_position st) (ab_end_position a) ≠ [];
  ao_items : (len (visible j st (ss_committed_position st) (ab_end_position a))
              ≤ sub_max_in_flight (ss_subscription st))%Z;
  ao_bytes : (total_size (visible j st (ss_committed_position st) (ab_end_position a))
              ≤ MAX_EVENT_DELIVERY_BATCH_BYTES)%Z;
}.

Record sub_ok (j : Journal) (k : RecordKey) (st : MemoryEventSubscriptionState) : Prop := {
  sk_key : k = record_key (sub_scope (ss_subscription st))
                 (sub_subscription_id (ss_subscription st));
  sk_sub : subscription_ok (ss_subscription st);
  sk_owner : sp_scope (ss_owner st) = sub_scope (ss_subscription st);
  sk_committed : (0 ≤ ss_committed_position st ≤ len (event_order j))%Z;
  sk_generation : (1 ≤ ss_generation st ≤ u64_max)%Z;
  sk_active a : ss_active st = Some a → active_ok j st a;
}.

Record journal_ok (j : Journal) : Prop := {
  jo_log : log_ok j;
  jo_subs k st : event_subscriptions j !! k = Some st → sub_ok j k st;
}.

Lemma continues_len j j' : continues j j' → (len (event_order j) ≤ len (event_order j'))%Z.
Proof. intros [[new ->] _]. unfold len. rewrite length_app. lia. Qed.

Lemma sub_ok_continues j j' k st : continues j j' → sub_ok j k st → sub_ok j' k st.
Proof.
  intros Hc [? ? ? ? ? Ha]. pose proof (continues_len _ _ Hc).
  split; [done..|lia|done|]. intros a Ea. destruct (Ha a Ea).
  assert (visible j' st (ss_committed_position st) (ab_end_position a)
          = visible j st (ss_committed_position st) (ab_end_position a)) as Ev.
  { apply visible_continues; [done|lia|lia]. }
  split; rewrite ?Ev; [lia|done..].
Qed.

Lemma grows_journal_ok R j j' : rtc (grow R) j j' → journal_ok j → journal_ok j'.
Proof.
  intros Hg [Hlog Hsub]. destruct (grows_ok _ _ _ Hg Hlog) as (Hlog' & Hc & Es).
  split; [done|]. intros k st. rewrite Es. intros Hk. eapply sub_ok_continues; [done|auto].
Qed.

(** Only the subscription and its owner decide what is visible. *)
Lemma visible_same j st st' a b :
  ss_subscription st' = ss_subscription st → ss_owner st' = ss_owner st →
  visible j st' a b = visible j st a b.
Proof.
  intros Es Eo. unfold visible. apply List.filter_ext. intros e. unfold deliverable. by rewrite Es, Eo.
Qed.

(** A batch retried, at most as often as the subscription allows. *)
Lemma active_ok_retry j st st' a n t :
  active_ok j st a → ss_subscription st' = ss_subscription st → ss_owner st' = ss_owner st →
  ss_committed_position st' = ss_committed_position st →
  (1 ≤ n ≤ sub_max_attempts (ss_subscription st))%Z →
  active_ok j st' (mk_active (ab_end_position a) n t).
Proof.
  intros [? ? ? ? ?] Es Eo Ec Hn. split; cbn [ab_end_position ab_attempt]; rewrite ?Ec, ?Es;
    [lia|lia|by rewrite (visible_same j st)..].
Qed.

Lemma active_ok_same j st st' a :
  active_ok j st a → ss_subscription st' = ss_subscription st → ss_owner st' = ss_owner st →
  ss_committed_position st' = ss_committed_position st → active_ok j st' a.
Proof.
  intros Ha Es Eo Ec. destruct a as [e n t].
  apply (active_ok_retry j st st' (mk_active e n t)); [done..|]. apply Ha.
Qed.

Lemma sub_ok_advance j k st st' :
  sub_ok j k st → ss_subscription st' = ss_subscription st → ss_owner st' = ss_owner st →
  (0 ≤ ss_committed_position st' ≤ len (event_order j))%Z →
  (1 ≤ ss_generation st' ≤ u64_max)%Z → (∀ a, ss_active st' = Some a → active_ok j st' a) →
  sub_ok j k st'.
Proof. intros [? ? ? ? ? ?] Es Eo Hc Hg Ha. by split; rewrite ?Es, ?Eo. Qed.

(** A subscription's state replaced by one that is in order. *)
Definition put_sub (k : RecordKey) (st : MemoryEventSubscriptionState) (j : Journal) : Journal :=
  with_subscriptions (<[k := st]> (event_subscriptions j)) j.

Lemma put_sub_continues k st j : continues j (put_sub k st j).
Proof. split; [exists []; by rewrite app_nil_r|done]. Qed.

Lemma put_sub_ok j k st : journal_ok j → sub_ok j k st → journal_ok (put_sub k st j).
Proof.
  intros [[Hnd Hdom Hev] Hsub] Hst. split; [by split|]. cbn.
  intros k' st' [[<- <-]|[_ Hk]]%lookup_insert_Some;
    (eapply sub_ok_continues; [apply put_sub_continues|auto]).
Qed.

(** ** Persisting *)

Lemma validate_filters_strict prev l :
  validate_filters prev l = Ok tt →
  windows_any (same_key (λ t : bytes, t)) l = false
  ∧ ∀ p, prev = Some p → head l ≠ Some p.
Proof.
  revert prev. induction l as [|t l IH]; intros prev; cbn; [done|].
  intros Hv. res_inv. bool_norm. apply IH in Hv as [Hw Hh]. split.
  - destruct l as [|t' l]; [done|]. apply orb_false_iff. split; [|done].
    apply bool_decide_eq_false. intros <-. by apply (Hh t).
  - intros p ->. naive_solver.
Qed.

Lemma canonical_subscription_ok s c :
  (0 ≤ sub_max_in_flight s)%Z → (0 ≤ sub_max_attempts s)%Z →
  canonical_event_subscription s = Ok c → subscription_ok c.
Proof.
  intros Hi Ha. unfold canonical_event_subscription, validate_event_subscription. intros Hc.
  res_inv. bool_norm. subst c.
  split; cbn [sub_event_types sub_max_in_flight sub_max_attempts set_event_types]; [|lia|lia].
  match goal with Hv : validate_filters _ _ = Ok _ |- _ =>
    apply validate_filters_strict in Hv as [Hw _] end.
  apply (no_window_dup_strict (λ t : bytes, t) bytes_cmp); [apply (sort_by_sorted (λ t : bytes, t) bytes_cmp)|done].
Qed.

(** ** The batches *)

Lemma log_stored j keys :
  log_ok j → (∀ k, k ∈ keys → k ∈ event_order j) → stored j keys.
Proof.
  intros Hlog Hin. apply Forall_forall. intros k Hk.
  apply Hin, (lo_dom _ Hlog) in Hk as [e He]. exists e. split; [done|].
  apply (lo_event _ Hlog) in He as [_ Hc]. by eapply validate_event_canonical.
Qed.

Lemma drop_elem {A} n (l : list A) x : x ∈ drop n l → x ∈ l.
Proof. intros Hx. rewrite <- (take_drop n l). set_solver. Qed.

Section batches.
Context (j : Journal) (k : RecordKey) (st : MemoryEventSubscriptionState).
Context (Hlog : log_ok j) (Hst : sub_ok j k st).

Abbreviation committed := (ss_committed_position st).

(** What is in flight can always be loaded again. *)
Lemma active_events_ok a :
  active_ok j st a →
  memory_active_events j st a = Ok (visible j st committed (ab_end_position a)).
Proof.
  intros [He _ Hne Hi Hb]. unfold memory_active_events. destruct (sk_committed _ _ _ Hst) as [? ?].
  destruct (Z.ltb_spec (ab_end_position a) committed); [lia|].
  destruct (Z.ltb_spec (len (event_order j)) (ab_end_position a)); [lia|]. cbn [orb reject_if mbind result_bind].
  rewrite active_events_loop_spec
    by (apply log_stored; [done|]; intros k' Hk'; by apply (slice_elem _ committed (ab_end_position a))).
  cbn [app mbind result_bind fst snd]. rewrite Z.add_0_l.
  unfold visible, slice in *. cbn [fst snd]. rewrite bool_decide_eq_false_2 by done.
  destruct (Z.ltb_spec (sub_max_in_flight (ss_subscription st))
    (len (List.filter (deliverable st) (resolve j (take (Z.to_nat (ab_end_position a - committed))
       (drop (Z.to_nat committed) (event_order j))))))); [lia|].
  destruct (Z.ltb_spec MAX_EVENT_DELIVERY_BATCH_BYTES
    (total_size (List.filter (deliverable st) (resolve j (take (Z.to_nat (ab_end_position a - committed))
       (drop (Z.to_nat committed) (event_order j))))))); [lia|]. done.
Qed.

(** The next batch is a prefix of the pending visible events, empty only if none is. *)
Lemma next_batch_ok limit :
  0 < limit → (Z.of_nat limit ≤ sub_max_in_flight (ss_subscription st))%Z →
  (memory_next_event_batch j st limit = Ok None
   ∧ visible j st committed (len (event_order j)) = [])
  ∨ ∃ e, memory_next_event_batch j st limit = Ok (Some (visible j st committed e, e))
         ∧ ∀ now, active_ok j st (mk_active e 1 now).
Proof.
  intros Hl Hm. unfold memory_next_event_batch. destruct (sk_committed _ _ _ Hst) as [H0 Hc].
  destruct (Z.ltb_spec (len (event_order j)) committed); [lia|].
  destruct (next_batch_loop_spec j st limit (drop (Z.to_nat committed) (event_order j)) committed [])
    as (found & Hloop & n & Hn & -> & Hlen & Hsz & Hall);
    [by apply log_stored; [|intros ?; apply drop_elem]|done|done|].
  rewrite length_drop in Hn. unfold len in *.
  assert (slice committed (committed + Z.of_nat n) (event_order j)
          = take n (drop (Z.to_nat committed) (event_order j))) as Es.
  { unfold slice. do 2 f_equal. lia. }
  change (total_size []) with 0%Z in Hloop. cbn [reject_if mbind result_bind]. rewrite Hloop.
  cbn [mbind result_bind fst snd app] in *. rewrite <- Es in *. fold (visible j st committed (committed + Z.of_nat n)) in *.
  destruct (decide (visible j st committed (committed + Z.of_nat n) = [])) as [E|Hne].
  - left. rewrite bool_decide_eq_true_2 by done. split; [done|]. specialize (Hall E).
    rewrite length_drop in Hall. rewrite <- E. f_equal. lia.
  - right. eexists. rewrite bool_decide_eq_false_2 by done. split; [done|]. intros now.
    split; cbn [ab_end_position ab_attempt]; [|pose proof (so_attempts _ (sk_sub _ _ _ Hst)); lia|done| |done].
    + destruct n as [|n]; [|unfold len; lia]. destruct Hne. by rewrite Z.add_0_r, visible_nil.
    + unfold len. lia.
Qed.
End batches.

(** * What the operations do *)

Lemma put_sub_twice k st st' j : put_sub k st' (put_sub k st j) = put_sub k st' j.
Proof. unfold put_sub, with_subscriptions. cbn. by rewrite insert_insert_eq. Qed.

Lemma put_sub_id k st j : event_subscriptions j !! k = Some st → put_sub k st j = j.
Proof.
  intros Hk. unfold put_sub, with_subscriptions. rewrite insert_id by done. by destruct j.
Qed.

Lemma wp_put_sub {A} k st (f : unit → journal_op A) j Q :
  wp (f tt) (put_sub k st j) Q → wp (put_subscription k st ≫= f) j Q.
Proof. done. Qed.

Ltac sub_steps := repeat first [wp_step | apply wp_put_sub; cbn beta].

(** The state a fresh subscription starts in. *)
Definition fresh_sub (owner : ScopedPrincipal) (c : EventSubscription) (j : Journal) :
    MemoryEventSubscriptionState :=
  mk_sub_state c owner
    match sub_start c with SsBeginning => 0%Z | SsLatest => len (event_order j) end
    1 None None None [].

Definition sub_key (s : EventSubscription) : RecordKey :=
  record_key (sub_scope s) (sub_subscription_id s).

Lemma persist_wp owner s j :
  wp (persist_event_subscription owner s) j (λ j' r,
    match r with
    | Ok RecPersisted => ∃ c, canonical_event_subscription s = Ok c
        ∧ sp_scope owner = sub_scope c ∧ event_subscriptions j !! sub_key c = None
        ∧ j' = put_sub (sub_key c) (fresh_sub owner c j) j
    | _ => j' = j ∧ r ≠ Err StCorrupt
    end).
Proof.
  unfold persist_event_subscription. sub_steps; try done.
  bool_norm. eexists. split_and!; [done..|]. done.
Qed.

Section operations.
Context `{Sha256}.
Context (scope : TenantScope) (id : EventSubscriptionId) (j : Journal).

Abbreviation key := (record_key scope id).
Abbreviation unchanged j' r := (j' = j ∧ r ≠ Err StCorrupt).

(** An unknown subscription. *)
Lemma poll_unknown max_items now :
  event_subscriptions j !! key = None →
  wp (poll_event_subscription scope id max_items now) j (λ j' r, j' = j ∧ ∃ e, r = Err e ∧ e ≠ StCorrupt).
Proof. intros Hk. unfold poll_event_subscription. sub_steps; try (split; [done|by eexists]); congruence. Qed.

Lemma acknowledge_unknown cursor :
  event_subscriptions j !! key = None →
  wp (acknowledge_event_cursor scope id cursor) j (λ j' r, j' = j ∧ ∃ e, r = Err e ∧ e ≠ StCorrupt).
Proof. intros Hk. unfold acknowledge_event_cursor. sub_steps; try (split; [done|by eexists]); congruence. Qed.

Lemma reject_unknown cursor kind now :
  event_subscriptions j !! key = None →
  wp (reject_event_cursor scope id cursor kind now) j (λ j' r, j' = j ∧ ∃ e, r = Err e ∧ e ≠ StCorrupt).
Proof. intros Hk. unfold reject_event_cursor. sub_steps; try (split; [done|by eexists]); congruence. Qed.

Lemma replay_unknown replay_id :
  event_subscriptions j !! key = None →
  wp (replay_event_subscription scope id replay_id) j (λ j' r, j' = j ∧ ∃ e, r = Err e ∧ e ≠ StCorrupt).
Proof. intros Hk. unfold replay_event_subscription. sub_steps; try (split; [done|by eexists]); congruence. Qed.

Lemma active_cursor_valid st a : validate_event_consumer_cursor (active_cursor scope st a) = Ok tt.
Proof.
  assert (length (active_cursor scope st a) = 32) as Hlen by apply sha256_length.
  unfold validate_event_consumer_cursor, len. rewrite Hlen.
  by rewrite bool_decide_eq_false_2 by (by intros E; rewrite E in Hlen).
Qed.

Section known.
Context (st : MemoryEventSubscriptionState).
Context (Hj : journal_ok j) (Hk : event_subscriptions j !! key = Some st).

Abbreviation committed := (ss_committed_position st).
Abbreviation latest := (len (event_order j)).

Lemma known_scope : sub_scope (ss_subscription st) = scope.
Proof. by destruct (record_key_inj _ _ _ _ (sk_key _ _ _ (jo_subs _ Hj _ _ Hk))). Qed.

(** The batch a poll returned. *)
Definition polled (a : MemoryEventActiveBatch) : EventDeliveryBatch :=
  mk_batch id scope (visible j st committed (ab_end_position a)) (active_cursor scope st a)
    (ab_attempt a).

Definition poll_outcome (max_items now : Z) (j' : Journal) (r : result DurableStoreError EventPollResult) :
    Prop :=
  match r with
  | Ok PollEmpty =>
      ss_active st = None ∧ visible j st committed latest = []
      ∧ j' = put_sub key (set_progress latest None st) j
  | Ok (PollRetryAfter wait) =>
      j' = j ∧ ∃ a, ss_active st = Some a ∧ (now < ab_not_before_unix_ms a)%Z
  | Ok (PollBatch b) =>
      ∃ a, active_ok j st a ∧ b = polled a
        ∧ ((ss_active st = Some a ∧ j' = j)
           ∨ (ss_active st = None ∧ a = mk_active (ab_end_position a) 1 now
              ∧ j' = put_sub key (set_progress committed (Some a) st) j))
  | Err e => j' = j ∧ e = StInvalidRecord
      ∧ (max_items = 0 ∨ MAX_EVENT_BATCH_ITEMS < max_items ∨ now < 0)%Z
  end.

Lemma poll_wp max_items now :
  (0 ≤ max_items)%Z → wp (poll_event_subscription scope id max_items now) j (poll_outcome max_items now).
Proof.
  intros Hm. pose proof (jo_subs _ Hj _ _ Hk) as Hst. destruct Hj as [Hlog _].
  unfold poll_event_subscription, validate_event_batch_size.
  apply wp_invalid; intros ? Hmax; [res_inv|destruct (_ || _) eqn:Hbad; [|done]]; bool_norm;
    [|split_and!; [done|done|naive_solver]].
  apply wp_guard; intros Hnow; bool_norm; [|split_and!; [done|done|naive_solver]]. apply wp_get.
  apply wp_ok_or; [|congruence]. intros st' Hst'. assert (st' = st) as -> by congruence. clear Hst'.
  apply wp_guard; [intros _|intros Hs; bool_norm; by destruct Hs; apply known_scope].
  destruct (ss_active st) as [a|] eqn:Ea.
  - pose proof (sk_active _ _ _ Hst a Ea) as Hok.
    destruct (Z.ltb_spec now (ab_not_before_unix_ms a)); [apply wp_ret; split; [done|by eauto]|].
    rewrite active_events_ok with (k := key) by done. apply wp_lift; [|done].
    intros b [= <-]. apply wp_ret. exists a. split_and!; [done|done|by left].
  - destruct (next_batch_ok j key st Hlog Hst
      (Z.to_nat (Z.min max_items (sub_max_in_flight (ss_subscription st)))))
      as [[-> Hnone]|(e & -> & Hok)]; [destruct (so_in_flight _ (sk_sub _ _ _ Hst)); lia| | |].
    + destruct (so_in_flight _ (sk_sub _ _ _ Hst)); lia.
    + apply wp_lift; [|done]. intros ? [= <-]. apply wp_put_sub, wp_ret. done.
    + apply wp_lift; [|done]. intros ? [= <-]. apply wp_put_sub, wp_ret.
      exists (mk_active e 1 now). split_and!; [done|done|by right].
Qed.

Lemma acknowledge_wp cursor :
  wp (acknowledge_event_cursor scope id cursor) j (λ j' r,
    match r with
    | Ok RecPersisted => ∃ a, ss_active st = Some a ∧ cursor = active_cursor scope st a
        ∧ j' = put_sub key (set_cursor_action cursor CaAcknowledge
                              (set_progress (ab_end_position a) None st)) j
    | _ => unchanged j' r
    end).
Proof.
  unfold acknowledge_event_cursor. apply wp_invalid; [intros [] _|done]. apply wp_get.
  apply wp_ok_or; [|congruence]. intros st' Hst'. assert (st' = st) as -> by congruence. clear Hst'.
  destruct (cursor_replay st cursor CaAcknowledge) as [r|] eqn:Hr.
  { apply wp_lift_end. unfold cursor_replay in Hr. by repeat case_match; simplify_eq. }
  apply wp_ok_or; [|done]. intros a Ha. apply wp_guard; [intros Hc; bool_norm|done].
  apply wp_put_sub, wp_ret. by eauto.
Qed.

(** The batch goes to the dead letters instead of being retried. *)
Definition terminal_rejection (kind : EventDeliveryFailureKind) (a : MemoryEventActiveBatch) : bool :=
  bool_decide (kind = FkPermanent) || (sub_max_attempts (ss_subscription st) <=? ab_attempt a)%Z.

Definition letters (kind : EventDeliveryFailureKind) (a : MemoryEventActiveBatch) :
    list EventDeadLetter :=
  (λ e, mk_dead_letter id scope e (ab_attempt a) kind)
    <$> visible j st committed (ab_end_position a).

(** A cursor acted on before is answered from the record. *)
Lemma acknowledge_replayed cursor answer :
  cursor_replay st cursor CaAcknowledge = Some answer →
  wp (acknowledge_event_cursor scope id cursor) j (λ j' r,
    j' = j ∧ (r = answer ∨ validate_event_consumer_cursor cursor ≠ Ok tt)).
Proof.
  intros Hr. unfold acknowledge_event_cursor.
  apply wp_invalid; [intros [] _|by intros e ->; split; [|right]]. apply wp_get.
  apply wp_ok_or; [|congruence]. intros st' Hst'. assert (st' = st) as -> by congruence.
  rewrite Hr. apply wp_lift_end. by split; [|left].
Qed.

Lemma reject_replayed cursor kind now answer :
  cursor_replay st cursor CaReject = Some answer →
  wp (reject_event_cursor scope id cursor kind now) j (λ j' _, j' = j).
Proof.
  intros Hr. unfold reject_event_cursor. apply wp_invalid; [intros [] _|done].
  apply wp_guard; [intros _|done]. apply wp_get.
  apply wp_ok_or; [|done]. intros st' Hst'. assert (st' = st) as -> by congruence.
  by rewrite Hr.
Qed.

(** The active batch is settled by its cursor unless that cursor was used before. *)
Lemma acknowledge_succeeds a :
  ss_active st = Some a → cursor_replay st (active_cursor scope st a) CaAcknowledge = None →
  wp (acknowledge_event_cursor scope id (active_cursor scope st a)) j (λ j' r,
    r = Ok RecPersisted
    ∧ j' = put_sub key (set_cursor_action (active_cursor scope st a) CaAcknowledge
                          (set_progress (ab_end_position a) None st)) j).
Proof.
  intros Ha Hr. unfold acknowledge_event_cursor. rewrite active_cursor_valid. apply wp_invalid; [intros _ _|done]. apply wp_get.
  apply wp_ok_or; [|congruence]. intros st' Hst'. assert (st' = st) as -> by congruence.
  rewrite Hr. apply wp_ok_or; [|congruence]. intros a' Ha'. assert (a' = a) as -> by congruence.
  apply wp_guard; [intros _|intros Hc; by bool_norm]. by apply wp_put_sub, wp_ret.
Qed.

Definition reject_outcome (cursor : EventConsumerCursor) (kind : EventDeliveryFailureKind)
    (now : Z) (j' : Journal) (r : result DurableStoreError DurableRecordStatus) : Prop :=
  let marked := set_cursor_action cursor CaReject st in
  match r with
  | Ok RecPersisted => ∃ a, ss_active st = Some a ∧ cursor = active_cursor scope st a
      ∧ if terminal_rejection kind a
        then j' = put_sub key (set_progress (ab_end_position a) None
                                 (push_dead_letters (letters kind a) marked)) j
        else ∃ not_before, j' = put_sub key (set_progress committed
                 (Some (mk_active (ab_end_position a) (ab_attempt a + 1) not_before)) marked) j
  | Ok RecDuplicate => j' = j
  | Err e => e ≠ StCorrupt ∧ (j' = j ∨
      ∃ a, ss_active st = Some a ∧ cursor = active_cursor scope st a
        ∧ terminal_rejection kind a = false
        ∧ (i64_max < now + event_retry_delay_ms (ab_attempt a + 1))%Z
        ∧ e = StInvalidRecord ∧ j' = put_sub key marked j)
  end.

Lemma retry_delay_bound n : (0 ≤ event_retry_delay_ms n ≤ EVENT_RETRY_MAX_MS)%Z.
Proof.
  unfold event_retry_delay_ms, saturating_mul_u64, EVENT_RETRY_BASE_MS, EVENT_RETRY_MAX_MS.
  assert (0 ≤ Z.shiftl 1 (Z.min (Z.max 0 (n - 2)) 31))%Z by (apply Z.shiftl_nonneg; lia).
  unfold u64_max. lia.
Qed.

Lemma reject_wp cursor kind now :
  wp (reject_event_cursor scope id cursor kind now) j (reject_outcome cursor kind now).
Proof.
  pose proof (jo_subs _ Hj _ _ Hk) as Hst. destruct Hj as [Hlog _].
  unfold reject_event_cursor. apply wp_invalid; [intros [] _|cbn; auto].
  apply wp_guard; [intros Hnow|cbn; auto]. apply wp_get.
  apply wp_ok_or; [|congruence]. intros st' Hst'. assert (st' = st) as -> by congruence. clear Hst'.
  destruct (cursor_replay st cursor CaReject) as [r|] eqn:Hr.
  { apply wp_lift_end. unfold cursor_replay in Hr. repeat case_match; simplify_eq; cbn; auto. }
  apply wp_ok_or; [|cbn; auto]. intros a Ha. apply wp_guard; [intros Hc; bool_norm|cbn; auto].
  pose proof (sk_active _ _ _ Hst a Ha) as Hok.
  change (bool_decide (kind = FkPermanent) || _) with (terminal_rejection kind a).
  destruct (terminal_rejection kind a) eqn:Ht'.
  - rewrite active_events_ok with (k := key) by done. apply wp_bind, wp_ret, wp_put_sub, wp_put_sub, wp_ret.
    rewrite put_sub_twice. exists a. by rewrite Ht'.
  - apply wp_bind, wp_ret, wp_put_sub.
    pose proof Ht' as Ht. unfold terminal_rejection in Ht. bool_norm. destruct Ht as [_ Ht].
    destruct (ao_attempt _ _ _ Hok) as [H1 H2]. destruct (so_attempts _ (sk_sub _ _ _ Hst)) as [_ H3].
    pose proof (retry_delay_bound (ab_attempt a + 1)) as Hd.
    unfold MAX_EVENT_DELIVERY_ATTEMPTS, EVENT_RETRY_MAX_MS in *.
    rewrite (proj2 (checked_add_u32_Some _ _ _)) by (split; [done|unfold u32_max; lia]).
    apply wp_ok_or; [intros ? [= <-]|done].
    rewrite (proj2 (i64_try_from_Some _ _)) by (split; [done|unfold i64_min, i64_max; lia]).
    apply wp_ok_or; [intros ? [= <-]|done].
    apply wp_ok_or; [intros nb Hadd|intros Hadd].
    + apply wp_put_sub, wp_ret. rewrite put_sub_twice. exists a. split_and!; [done|done|].
      rewrite Ht'. by eexists.
    + split; [done|]. right. exists a. split_and!; [done|done|done| |done|done].
      unfold checked_add_i64 in Hadd. case_match; bool_norm; [done|]. unfold i64_min in *. lia.
Qed.

(** A rejection whose retry time does not fit fails after recording the cursor. *)
Lemma reject_overflow_wp a kind now :
  ss_active st = Some a → cursor_replay st (active_cursor scope st a) CaReject = None →
  terminal_rejection kind a = false → (0 ≤ now)%Z →
  (i64_max < now + event_retry_delay_ms (ab_attempt a + 1))%Z →
  wp (reject_event_cursor scope id (active_cursor scope st a) kind now) j (λ j' r,
    r = Err StInvalidRecord
    ∧ j' = put_sub key (set_cursor_action (active_cursor scope st a) CaReject st) j).
Proof.
  intros Ha Hr Ht Hnow Hover. pose proof (jo_subs _ Hj _ _ Hk) as Hst.
  unfold reject_event_cursor. rewrite active_cursor_valid. apply wp_invalid; [intros _ _|done].
  apply wp_guard; [intros _|intros Hn; bool_norm; lia]. apply wp_get.
  apply wp_ok_or; [|congruence]. intros st' Hst'. assert (st' = st) as -> by congruence.
  rewrite Hr. apply wp_ok_or; [|congruence]. intros a' Ha'. assert (a' = a) as -> by congruence.
  apply wp_guard; [intros _|intros Hc; by bool_norm].
  change (bool_decide (kind = FkPermanent) || _) with (terminal_rejection kind a).
  rewrite Ht. apply wp_bind, wp_ret, wp_put_sub.
  pose proof (retry_delay_bound (ab_attempt a + 1)) as Hd.
  destruct (ao_attempt _ _ _ (sk_active _ _ _ Hst a Ha)). destruct (so_attempts _ (sk_sub _ _ _ Hst)).
  unfold MAX_EVENT_DELIVERY_ATTEMPTS, EVENT_RETRY_MAX_MS in *.
  rewrite (proj2 (checked_add_u32_Some _ _ _)) by (split; [done|unfold u32_max; lia]).
  apply wp_ok_or; [intros ? [= <-]|done].
  rewrite (proj2 (i64_try_from_Some _ _)) by (split; [done|unfold i64_min, i64_max; lia]).
  apply wp_ok_or; [intros ? [= <-]|done].
  apply wp_ok_or; [intros nb [_ ?]%checked_add_i64_Some; lia|done].
Qed.

Lemma replay_wp replay_id :
  wp (replay_event_subscription scope id replay_id) j (λ j' r,
    match r with
    | Ok RecPersisted => (ss_generation st < u64_max)%Z
        ∧ j' = put_sub key (mk_sub_state (ss_subscription st) (ss_owner st) 0
                              (ss_generation st + 1) None None (Some replay_id) []) j
    | Ok RecDuplicate => j' = j
    | Err e => j' = j ∧ (e = StCorrupt → (u64_max < ss_generation st + 1)%Z)
    end).
Proof.
  pose proof (sk_generation _ _ _ (jo_subs _ Hj _ _ Hk)) as Hg.
  unfold replay_event_subscription. apply wp_get.
  apply wp_ok_or; [|done]. intros st' Hst'. assert (st' = st) as -> by congruence. clear Hst'.
  destruct (bool_decide _); [by apply wp_ret|].
  apply wp_ok_or; [intros g [-> Hmax]%checked_add_u64_Some|].
  - apply wp_put_sub, wp_ret. split; [lia|done].
  - intros Hn. split; [done|]. intros _. unfold checked_add_u64 in Hn.
    by case_match; bool_norm.
Qed.
End known.
End operations.
