(* ===== verification/EventCalls.v ===== *)
(** The journal, its subscriptions and the commands as one component: its calls, the
    effects they can have, and that every call keeps the journal well formed. *)

From S2P Require Import Prelude Ids Framing Extension Message Delivery StoreForward Sync Store.
From S2P Require Import Call Group Version Event Bridge Offline Memory OpLogic.
From S2P Require Import EventStore EventFacts Subscription.

(** * Calls *)

(** The calls that change the journal or its subscriptions; [CallElsewhere] is a call of
    another component, which may change every table but these. *)
Inductive journal_call :=
| CallPersist (owner : ScopedPrincipal) (subscription : EventSubscription)
| CallPoll (scope : TenantScope) (id : EventSubscriptionId) (max_items now_unix_ms : Z)
| CallAcknowledge (scope : TenantScope) (id : EventSubscriptionId) (cursor : bytes)
| CallReject (scope : TenantScope) (id : EventSubscriptionId) (cursor : bytes)
    (kind : EventDeliveryFailureKind) (now_unix_ms : Z)
| CallReplay (scope : TenantScope) (id : EventSubscriptionId) (replay_id : OpaqueId)
| CallAppend (event : EventEnvelope)
| CallAppendAll (batch : list EventEnvelope)
| CallAccept (command : CommandEnvelope)
| CallAcceptLegacy (generated : option OpaqueId) (command : CommandEnvelope) (key : bytes)
| CallReconcile (scope : TenantScope) (session_id : SessionId) (event : EventEnvelope)
| CallTerminal (scope : TenantScope) (command_id : CommandId) (event : EventEnvelope)
| CallElsewhere (tables : Memory).

Inductive answer :=
| AnsRecord (status : DurableRecordStatus)
| AnsPoll (outcome : EventPollResult)
| AnsAppend (status : EventAppendStatus)
| AnsAppendAll (statuses : list EventAppendStatus)
| AnsReceipt (receipt : CommandReceipt)
| AnsNone.

(** The unsigned arguments are not negative. *)
Definition typed_call (c : journal_call) : Prop :=
  match c with
  | CallPersist _ s => (0 ≤ sub_max_in_flight s ∧ 0 ≤ sub_max_attempts s)%Z
  | CallPoll _ _ max_items _ => (0 ≤ max_items)%Z
  | _ => True
  end.

Section calls.
Context `{Sha256}.

Definition answering {A} (f : A → answer) (m : mem_op A) : mem_op answer := x ← m; mret (f x).

Definition exec (c : journal_call) : mem_op answer :=
  match c with
  | CallPersist owner s => answering AnsRecord (on_journal (persist_event_subscription owner s))
  | CallPoll scope id n now =>
      answering AnsPoll (on_journal (poll_event_subscription scope id n now))
  | CallAcknowledge scope id cursor =>
      answering AnsRecord (on_journal (acknowledge_event_cursor scope id cursor))
  | CallReject scope id cursor kind now =>
      answering AnsRecord (on_journal (reject_event_cursor scope id cursor kind now))
  | CallReplay scope id replay_id =>
      answering AnsRecord (on_journal (replay_event_subscription scope id replay_id))
  | CallAppend e => answering AnsAppend (append_event e)
  | CallAppendAll batch => answering AnsAppendAll (append_events_atomically batch)
  | CallAccept command => answering AnsReceipt (on_journal (accept_command command))
  | CallAcceptLegacy generated command key =>
      answering AnsReceipt
        (on_journal (accept_command_with_legacy_reservation generated command key))
  | CallReconcile scope session_id e =>
      answering AnsAppend (reconcile_event scope session_id e)
  | CallTerminal scope command_id e =>
      answering AnsAppend (record_terminal_event scope command_id e)
  | CallElsewhere tables => m ← get; put (with_journal (m_journal m) tables) ;; mret AnsNone
  end.

Fixpoint run (cs : list journal_call) (m : Memory) : Memory :=
  match cs with
  | [] => m
  | c :: cs => run cs (exec c m).1
  end.

Lemma answering_wp {A} (f : A → answer) (o : mem_op A) m (Q : Memory → result _ answer → Prop) :
  wp o m (λ m' r, Q m' match r with Ok a => Ok (f a) | Err e => Err e end) →
  wp (answering f o) m Q.
Proof.
  intros Ho. unfold answering. apply wp_bind. eapply wp_mono; [|exact Ho]. cbn.
  intros m' [a|e]; [by intros; apply wp_ret|done].
Qed.

Lemma answering_journal_wp {A} (f : A → answer) (o : journal_op A) m
    (Q : Memory → result _ answer → Prop) :
  wp o (m_journal m)
    (λ j' r, Q (with_journal j' m) match r with Ok a => Ok (f a) | Err e => Err e end) →
  wp (answering f (on_journal o)) m Q.
Proof. intros Ho. apply answering_wp, wp_zoom. exact Ho. Qed.

(** ** The kinds of effect *)

(** The subscription a call is about. *)
Definition target (c : journal_call) : option RecordKey :=
  match c with
  | CallPoll scope id _ _ | CallAcknowledge scope id _ | CallReject scope id _ _ _
  | CallReplay scope id _ => Some (record_key scope id)
  | _ => None
  end.

(** Calls on the journal leave the subscriptions and the other tables alone and only append
    events. *)
Lemma exec_appends c m :
  target c = None → (∀ owner s, c ≠ CallPersist owner s) → (∀ tables, c ≠ CallElsewhere tables) →
  wp (exec c) m (λ m' _, grows m m').
Proof.
  intros Ht Hp He. destruct c; try done; cbn [exec]; [by edestruct Hp| | | | | | |by edestruct He];
    apply answering_wp.
  - eapply wp_mono; [|apply append_event_wp]. intros m' [[]|]; cbn.
    + intros (? & _ & ?). by eapply appended_grows.
    + intros [-> _]. apply grows_refl.
    + intros ->. apply grows_refl.
  - eapply wp_mono; [|apply append_all_wp]. by intros m' r [? _].
  - apply accept_command_wp.
  - apply accept_legacy_wp.
  - eapply wp_mono; [|apply reconcile_event_wp]. intros m' [[]|]; cbn.
    + intros (? & _ & _ & ?). by eapply appended_grows.
    + intros ->. apply grows_refl.
    + intros ->. apply grows_refl.
  - eapply wp_mono; [|apply record_terminal_wp]. by intros m' r [? _].
Qed.

Lemma exec_grows c m :
  target c = None → (∀ owner s, c ≠ CallPersist owner s) →
  wp (exec c) m (λ m' _, ∃ R, rtc (grow R) (m_journal m) (m_journal m')).
Proof.
  intros Ht Hp. destruct c as [| | | | | | | | | | |tables];
    try (eapply wp_mono; [|by apply exec_appends]; by intros m' _ (j' & -> & Hg); eexists).
  apply wp_get, wp_put, wp_ret. by exists (λ _, true).
Qed.

(** Calls on a subscription that does not exist fail. *)
Lemma exec_unknown c m k :
  target c = Some k → event_subscriptions (m_journal m) !! k = None →
  wp (exec c) m (λ m' r, m_journal m' = m_journal m ∧ ∃ e, r = Err e ∧ e ≠ StCorrupt).
Proof.
  destruct c; cbn; try done; intros [= <-] Hk; apply answering_journal_wp; cbn.
  - eapply wp_mono; [|by apply poll_unknown]. intros j' r [-> (e & -> & ?)]. eauto.
  - eapply wp_mono; [|by apply acknowledge_unknown]. intros j' r [-> (e & -> & ?)]. eauto.
  - eapply wp_mono; [|by apply reject_unknown]. intros j' r [-> (e & -> & ?)]. eauto.
  - eapply wp_mono; [|by apply replay_unknown]. intros j' r [-> (e & -> & ?)]. eauto.
Qed.

(** Calls on a subscription change nothing but its state. *)
Lemma exec_target c m k :
  typed_call c → journal_ok (m_journal m) → target c = Some k →
  wp (exec c) m (λ m' _, m_journal m' = m_journal m
                         ∨ ∃ st, m_journal m' = put_sub k st (m_journal m)).
Proof.
  intros Hty Hj Ht. destruct (event_subscriptions (m_journal m) !! k) as [st|] eqn:Hk.
  2: { eapply wp_mono; [|by eapply exec_unknown]. intros m' r (-> & _). by left. }
  destruct c; try done; cbn in Ht; injection Ht as <-; apply answering_journal_wp.
  - eapply wp_mono; [|by apply (poll_wp _ _ _ st)].
    intros j' [[]|]; cbn; [naive_solver..| |naive_solver].
    intros (a & _ & _ & [[_ ->]|(_ & _ & ->)]); eauto.
  - eapply wp_mono; [|by apply (acknowledge_wp _ _ _ st)]. intros j' [[]|]; cbn; naive_solver.
  - eapply wp_mono; [|by apply (reject_wp _ _ _ st)]. intros j' [[]|]; cbn; [|naive_solver..].
    intros (a & _ & _ & Hr). case_match; [|destruct Hr]; subst; eauto.
  - eapply wp_mono; [|by apply (replay_wp _ _ _ st)]. intros j' [[]|]; cbn; naive_solver.
Qed.

(** A call that is not about an existing subscription leaves its state alone. *)
Lemma exec_elsewhere c m k :
  typed_call c → journal_ok (m_journal m) → target c ≠ Some k →
  is_Some (event_subscriptions (m_journal m) !! k) →
  wp (exec c) m (λ m' _, continues (m_journal m) (m_journal m')
    ∧ event_subscriptions (m_journal m') !! k = event_subscriptions (m_journal m) !! k).
Proof.
  intros Hty Hj Ht [st Hst]. destruct (target c) as [k'|] eqn:Hk.
  { eapply wp_mono; [|by apply (exec_target c m k')]. intros m' _ [->|[st' ->]]; [done|].
    split; [apply put_sub_continues|]. cbn. rewrite lookup_insert_ne; [done|congruence]. }
  destruct (decide (is_Some (match c with CallPersist _ _ => Some tt | _ => None end))) as [Hp|Hp].
  { destruct c; try by destruct Hp. apply answering_journal_wp.
    eapply wp_mono; [|by apply persist_wp]. intros j' [[]|e]; [|by intros [-> _]..].
    intros (c & _ & _ & Hn & ->). split; [apply put_sub_continues|].
    cbn. rewrite lookup_insert_ne; [done|congruence]. }
  eapply wp_mono; [|apply exec_grows; [done|intros ? ? ->; by apply Hp]].
  intros m' _ [R Hg]. destruct (grows_ok _ _ _ Hg (jo_log _ Hj)) as (_ & Hc & Es).
  by rewrite Es.
Qed.

(** The journal only ever grows at its end. *)
Lemma exec_continues c m :
  typed_call c → journal_ok (m_journal m) →
  wp (exec c) m (λ m' _, continues (m_journal m) (m_journal m')).
Proof.
  intros Hty Hj. destruct (target c) as [k|] eqn:Hk.
  { eapply wp_mono; [|by apply (exec_target c m k)].
    intros m' _ [->|[st' ->]]; [done|apply put_sub_continues]. }
  destruct (decide (is_Some (match c with CallPersist _ _ => Some tt | _ => None end))) as [Hp|Hp].
  { destruct c; try by destruct Hp. apply answering_journal_wp.
    eapply wp_mono; [|by apply persist_wp]. intros j' [[]|e]; [|by intros [-> _]..].
    intros (c & _ & _ & _ & ->). apply put_sub_continues. }
  eapply wp_mono; [|apply exec_grows; [done|intros ? ? ->; by apply Hp]].
  intros m' _ [R Hg]. by destruct (grows_ok _ _ _ Hg (jo_log _ Hj)) as (_ & Hc & _).
Qed.

(** ** Every call keeps the journal well formed *)

Section one_subscription.
Context (j : Journal) (scope : TenantScope) (id : EventSubscriptionId).
Context (st : MemoryEventSubscriptionState).
Context (Hj : journal_ok j) (Hk : event_subscriptions j !! record_key scope id = Some st).

#[local] Lemma Hst : sub_ok j (record_key scope id) st.
Proof. by apply Hj. Qed.

Lemma poll_keeps n now :
  (0 ≤ n)%Z →
  wp (poll_event_subscription scope id n now) j (λ j' r, journal_ok j' ∧ r ≠ Err StCorrupt).
Proof.
  intros Hn. pose proof Hst as Hs. eapply wp_mono; [|by apply (poll_wp scope id j st)].
  intros j' [[|wait|b]|e]; cbn.
  - intros (Ha & _ & ->). split; [|done]. apply put_sub_ok; [done|].
    eapply sub_ok_advance; [done..| |by apply Hs|done]. cbn. unfold len. lia.
  - intros [-> _]. done.
  - intros (a & Ha & -> & [[_ ->]|(_ & _ & ->)]); [done|]. split; [|done].
    apply put_sub_ok; [done|]. eapply sub_ok_advance; [done..|by apply Hs|by apply Hs|].
    intros a' [= <-]. by apply (active_ok_same _ st).
  - by intros (-> & -> & _).
Qed.

Lemma acknowledge_keeps cursor :
  wp (acknowledge_event_cursor scope id cursor) j (λ j' r, journal_ok j' ∧ r ≠ Err StCorrupt).
Proof.
  pose proof Hst as Hs. eapply wp_mono; [|by apply (acknowledge_wp scope id j st)].
  intros j' [[]|e]; [|naive_solver..].
  intros (a & Ha & _ & ->). split; [|done]. apply put_sub_ok; [done|].
  eapply sub_ok_advance; [done..| |by apply Hs|done].
  destruct (ao_end _ _ _ (sk_active _ _ _ Hs a Ha)). destruct (sk_committed _ _ _ Hs). cbn. lia.
Qed.

Lemma reject_keeps cursor kind now :
  wp (reject_event_cursor scope id cursor kind now) j (λ j' r, journal_ok j' ∧ r ≠ Err StCorrupt).
Proof.
  pose proof Hst as Hs. eapply wp_mono; [|by apply (reject_wp scope id j st)].
  intros j' [[]|e]; cbn.
  - intros (a & Ha & _ & Hr). split; [|done].
    destruct (ao_end _ _ _ (sk_active _ _ _ Hs a Ha)). destruct (sk_committed _ _ _ Hs).
    destruct (terminal_rejection st kind a) eqn:Ht; [subst j'|destruct Hr as [nb ->]];
      (apply put_sub_ok; [done|]); (eapply sub_ok_advance; [done..|cbn; lia|by apply Hs|]); [done|].
    intros a' [= <-]. unfold terminal_rejection in Ht. bool_norm.
    destruct (ao_attempt _ _ _ (sk_active _ _ _ Hs a Ha)).
    eapply (active_ok_retry _ st); [by apply Hs|done..|lia].
  - by intros ->.
  - intros [He Hr]. split; [|congruence]. destruct Hr as [->|(a & Ha & _ & _ & _ & _ & ->)]; [done|].
    apply put_sub_ok; [done|]. eapply sub_ok_advance; [done..|by apply Hs|by apply Hs|].
    cbn. intros a' Ha'. apply (active_ok_same _ st); [by apply Hs|done..].
Qed.

Lemma replay_keeps replay_id :
  wp (replay_event_subscription scope id replay_id) j (λ j' r,
    journal_ok j' ∧ (r = Err StCorrupt → (u64_max < ss_generation st + 1)%Z)).
Proof.
  pose proof Hst as Hs. eapply wp_mono; [|by apply (replay_wp scope id j st)].
  intros j' [[]|e]; cbn.
  - intros [Hg ->]. split; [|done]. apply put_sub_ok; [done|].
    destruct (sk_generation _ _ _ Hs). eapply sub_ok_advance; [done..|cbn; unfold len; lia|cbn; lia|done].
  - by intros ->.
  - intros [-> He]. split; [done|]. intros [= ->]. by apply He.
Qed.
End one_subscription.

Lemma persist_keeps owner s j :
  journal_ok j → (0 ≤ sub_max_in_flight s)%Z → (0 ≤ sub_max_attempts s)%Z →
  wp (persist_event_subscription owner s) j (λ j' r, journal_ok j' ∧ r ≠ Err StCorrupt).
Proof.
  intros Hj H1 H2. eapply wp_mono; [|by apply persist_wp].
  intros j' [[]|e]; [|naive_solver..].
  intros (c & Hc & Ho & _ & ->). split; [|done]. apply put_sub_ok; [done|].
  split; cbn; [done|by eapply canonical_subscription_ok|done| |unfold u64_max; lia|done].
  destruct (sub_start c); unfold len; lia.
Qed.

Lemma exec_sound c m :
  target c = None → (∀ owner s, c ≠ CallPersist owner s) → log_ok (m_journal m) →
  wp (exec c) m (λ _ r, r ≠ Err StCorrupt).
Proof.
  assert (∀ A (f : A → answer) (o : mem_op A),
    wp o m (λ _ r, r ≠ Err StCorrupt) → wp (answering f o) m (λ _ r, r ≠ Err StCorrupt)) as Ha.
  { intros A f o Ho. apply answering_wp. eapply wp_mono; [|exact Ho]. cbn.
    intros _ [a|e]; [done|congruence]. }
  intros Ht Hp Hlog. destruct c; try done; cbn [exec]; [by edestruct Hp| | | | | |].
  all: apply Ha.
  - apply append_event_sound.
  - apply append_all_sound.
  - apply wp_zoom, accept_command_sound.
  - apply wp_zoom, accept_legacy_sound.
  - by apply reconcile_sound.
  - apply record_terminal_sound.
Qed.

(** A replay at the last generation is the one call that can report corruption. *)
Definition exhausted (c : journal_call) (m : Memory) : Prop :=
  ∃ scope id replay_id st, c = CallReplay scope id replay_id
    ∧ event_subscriptions (m_journal m) !! record_key scope id = Some st
    ∧ (u64_max < ss_generation st + 1)%Z.

Lemma exec_keeps c m :
  typed_call c → journal_ok (m_journal m) →
  wp (exec c) m (λ m' r, journal_ok (m_journal m') ∧ (r = Err StCorrupt → exhausted c m)).
Proof.
  intros Hty Hj. destruct (target c) as [k|] eqn:Ht.
  { destruct (event_subscriptions (m_journal m) !! k) as [st|] eqn:Hk.
    - destruct c; try done; cbn in Ht; injection Ht as <-; apply answering_journal_wp.
      + eapply wp_mono; [|by eapply poll_keeps]. intros j' [] []; split; done || congruence.
      + eapply wp_mono; [|by eapply acknowledge_keeps]. intros j' [] []; split; done || congruence.
      + eapply wp_mono; [|by eapply reject_keeps]. intros j' [] []; split; done || congruence.
      + eapply wp_mono; [|by eapply replay_keeps]. intros j' r [? He]. split; [done|].
        destruct r; [done|]. intros [= ->]. repeat eexists; [exact Hk|by apply He].
    - eapply wp_mono; [|by eapply exec_unknown]. intros m' r (-> & e & -> & ?). split; congruence. }
  destruct (decide (is_Some (match c with CallPersist _ _ => Some tt | _ => None end))) as [Hp|Hp].
  { destruct c; try by destruct Hp. destruct Hty. apply answering_journal_wp.
    eapply wp_mono; [|by eapply persist_keeps]. intros j' [] []; split; done || congruence. }
  assert (∀ owner s, c ≠ CallPersist owner s) as Hp' by (intros ? ? ->; by apply Hp).
  eapply wp_mono; [|apply wp_and; [by apply exec_grows|apply exec_sound; [done|done|apply Hj]]].
  intros m' r [[R Hg] ?]. split; [by eapply grows_journal_ok|done].
Qed.

Lemma empty_journal_ok : journal_ok empty_journal.
Proof.
  split; [|done]. split; cbn; [constructor| |done].
  intros k. rewrite lookup_empty. split; [by intros ?%elem_of_nil|by intros []].
Qed.

Lemma run_keeps cs m :
  Forall typed_call cs → journal_ok (m_journal m) → journal_ok (m_journal (run cs m)).
Proof.
  intros Hcs. revert m. induction Hcs as [|c cs Hc _ IH]; intros m Hj; cbn; [done|].
  apply IH. by apply (exec_keeps c m).
Qed.

Lemma run_continues cs m :
  Forall typed_call cs → journal_ok (m_journal m) → continues (m_journal m) (m_journal (run cs m)).
Proof.
  intros Hcs. revert m. induction Hcs as [|c cs Hty _ IH]; intros m Hj; cbn; [done|].
  etrans; [by apply (exec_continues c m)|]. apply IH. by apply (exec_keeps c m).
Qed.
End calls.

(** * A small journal, for concrete runs *)

Definition news_scope : TenantScope := mk_scope (oid "acme") None.
Definition news_owner : ScopedPrincipal :=
  mk_scoped_principal news_scope (mk_principal (oid "alice") PkPerson).
Definition news_subscription : EventSubscription :=
  mk_subscription (oid "s1") news_scope SmDurableStream None [] 2 3 SsBeginning.
Definition news (id : string) (cause : option CommandId) : EventEnvelope :=
  mk_event (oid id) news_scope (str "vendor.example.news") (str id)
    (mk_actor (oid "alice") AkPerson None) (mk_device_ref (oid "phone") (oid "alice-id")) 0 0
    (mk_correlation (oid "c1") cause None) (mk_version 1 0) [] [].

(** Three events in the journal. *)
Definition news_history : list journal_call :=
  [CallAppend (news "e1" None); CallAppend (news "e2" None); CallAppend (news "e3" None)].

(** Concrete calls are typed. *)
Ltac typed_calls :=
  repeat (apply List.Forall_cons; [cbn; first [exact I | lia | split; lia]|]); apply List.Forall_nil.

Lemma news_history_typed : Forall typed_call news_history.
Proof. typed_calls. Qed.
