(* ===== verification/EventTheorems.v ===== *)
(** The event journal and its subscriptions as one component: any sequence of calls keeps
    it well formed, every subscription settles each event it sees exactly once and in
    order, and a consumer that acknowledges what it polls receives everything. *)

From S2P Require Import Prelude Ids Framing Extension Message Delivery StoreForward Sync Store.
From S2P Require Import Call Group Version Event Bridge Offline Memory OpLogic.
From S2P Require Import EventStore EventFacts Subscription EventCalls.

Section theorems.
Context `{Sha256}.

(** C23: Whatever sequence of calls is made on an empty store (appends, commands, outcomes,
    reconciliations, subscriptions, polls, acknowledgements, rejections, replays, and calls
    that change the other tables), the journal stays well formed: no event is ordered twice,
    exactly the stored events are ordered, each is canonical and under its own key; every
    subscription has sorted filters, its owner's scope and limits in range, its position is
    within the journal, and a batch in flight is not empty, ends within the journal, and
    respects the limits on items, bytes and attempts.  In such a state no call reports
    corruption, except a replay when the generation counter is exhausted. *)
Theorem journal_stays_well_formed cs c :
  Forall typed_call cs → typed_call c →
  let m := run cs empty_mem in
  journal_ok (m_journal m) ∧ ((exec c m).2 = Err StCorrupt → exhausted c m).
Proof.
  intros Hcs Hc m. assert (journal_ok (m_journal m)) as Hj by by apply run_keeps, empty_journal_ok.
  split; [done|]. by apply (exec_keeps c m).
Qed.

(** * Settlement *)

(** What a consumer of one subscription has seen: the journal position its subscription
    started from, the events and attempt of the batch it holds, the events it has settled
    by acknowledging or finally rejecting them, and the rejected ones. *)
Record consumer := mk_consumer {
  cn_from : Z;
  cn_batch : option (list EventEnvelope * Z);
  cn_settled : list EventEnvelope;
  cn_dead : list EventDeadLetter;
}.

Definition settle (letters : list EventEnvelope → Z → list EventDeadLetter) (g : consumer) :
    consumer :=
  match cn_batch g with
  | Some (es, n) =>
      mk_consumer (cn_from g) None (cn_settled g ++ es) (cn_dead g ++ letters es n)
  | None => g
  end.

Definition hold (es : list EventEnvelope) (n : Z) (g : consumer) : consumer :=
  mk_consumer (cn_from g) (Some (es, n)) (cn_settled g) (cn_dead g).

Section consumer.
Context (scope : TenantScope) (id : EventSubscriptionId) (max_attempts : Z).

Definition mine (scope' : TenantScope) (id' : EventSubscriptionId) : bool :=
  bool_decide (record_key scope' id' = record_key scope id).

(** What the consumer learns from a call and its answer. *)
Definition observe (c : journal_call) (r : result DurableStoreError answer) (g : consumer) :
    consumer :=
  match c, r with
  | CallPoll s i _ _, Ok (AnsPoll (PollBatch b)) =>
      if mine s i then hold (eb_events b) (eb_attempt b) g else g
  | CallAcknowledge s i _, Ok (AnsRecord RecPersisted) =>
      if mine s i then settle (λ _ _, []) g else g
  | CallReject s i _ kind _, Ok (AnsRecord RecPersisted) =>
      if mine s i then
        match cn_batch g with
        | Some (es, n) =>
            if bool_decide (kind = FkPermanent) || (max_attempts <=? n)%Z
            then settle (λ es n, (λ e, mk_dead_letter id scope e n kind) <$> es) g
            else hold es (n + 1) g
        | None => g
        end
      else g
  | CallReplay s i _, Ok (AnsRecord RecPersisted) =>
      if mine s i then mk_consumer 0 None [] [] else g
  | _, _ => g
  end.

Fixpoint run_observed (cs : list journal_call) (m : Memory) (g : consumer) : Memory * consumer :=
  match cs with
  | [] => (m, g)
  | c :: cs => let '(m', r) := exec c m in run_observed cs m' (observe c r g)
  end.

(** The store agrees with what the consumer has seen. *)
Definition follows (owner : ScopedPrincipal) (s : EventSubscription) (j : Journal) (g : consumer) :
    Prop :=
  ∃ st, event_subscriptions j !! record_key scope id = Some st
    ∧ ss_subscription st = s ∧ ss_owner st = owner
    ∧ (0 ≤ cn_from g ≤ ss_committed_position st)%Z
    ∧ cn_settled g = visible j st (cn_from g) (ss_committed_position st)
    ∧ cn_dead g = ss_dead_letters st
    ∧ cn_batch g = (λ a, (visible j st (ss_committed_position st) (ab_end_position a),
                          ab_attempt a)) <$> ss_active st.

Context (owner : ScopedPrincipal) (s : EventSubscription).
Context (Hmax : sub_max_attempts s = max_attempts).

Lemma follows_continues j j' g :
  journal_ok j → continues j j' →
  event_subscriptions j' !! record_key scope id = event_subscriptions j !! record_key scope id →
  follows owner s j g → follows owner s j' g.
Proof.
  intros Hj Hc Es (st & Hk & Hs & Ho & [? ?] & Hset & Hd & Hb).
  pose proof (jo_subs _ Hj _ _ Hk) as Hst. destruct (sk_committed _ _ _ Hst).
  exists st. rewrite Es. split_and!; [done..|by rewrite (visible_continues j)|done|].
  rewrite Hb. destruct (ss_active st) as [a|] eqn:Ha; [|done]. cbn. do 2 f_equal.
  destruct (ao_end _ _ _ (sk_active _ _ _ Hst a Ha)). symmetry. by apply visible_continues; [|lia|lia].
Qed.

(** The subscription's own state moved. *)
Lemma follows_put j st st' g :
  ss_subscription st = s → ss_owner st = owner →
  ss_subscription st' = s → ss_owner st' = owner →
  (0 ≤ cn_from g ≤ ss_committed_position st')%Z →
  cn_settled g = visible j st (cn_from g) (ss_committed_position st') →
  cn_dead g = ss_dead_letters st' →
  cn_batch g = (λ a, (visible j st (ss_committed_position st') (ab_end_position a),
                      ab_attempt a)) <$> ss_active st' →
  follows owner s (put_sub (record_key scope id) st' j) g.
Proof.
  intros Es Eo Es' Eo' [? ?] Hset Hd Hb.
  assert (∀ a b, visible (put_sub (record_key scope id) st' j) st' a b = visible j st a b) as Ev.
  { intros a b. change (visible j st' a b = visible j st a b). apply visible_same; congruence. }
  exists st'. split_and!; [apply lookup_insert_eq|done..|by rewrite Ev|done|].
  rewrite Hb. destruct (ss_active st'); [|done]. cbn. by rewrite Ev.
Qed.

Abbreviation tracks c g := (λ m' r, follows owner s (m_journal m') (observe c r g)).

Lemma mine_true : mine scope id = true.
Proof. by apply bool_decide_eq_true. Qed.

Section own.
Context (m : Memory) (g : consumer).
Context (Hj : journal_ok (m_journal m)) (Hf : follows owner s (m_journal m) g).

Lemma poll_follows n now :
  (0 ≤ n)%Z → wp (exec (CallPoll scope id n now)) m (tracks (CallPoll scope id n now) g).
Proof.
  intros Hn. destruct Hf as (st & Hk & Hs & Ho & Hfrom & Hset & Hd & Hb).
  apply answering_journal_wp. eapply wp_mono; [|by apply (poll_wp _ _ _ st)].
  cbn. rewrite mine_true. destruct (sk_committed _ _ _ (jo_subs _ Hj _ _ Hk)).
  intros j' [[|w|b]|e]; cbn [poll_outcome].
  - intros (Ha & Hv & ->). rewrite Ha in Hb. apply (follows_put _ st); [done..|cbn; lia| |done|done].
    cbn. rewrite (visible_app _ _ _ (ss_committed_position st)) by lia. by rewrite Hv, app_nil_r.
  - by intros [-> _].
  - intros (a & Ha & -> & [[Ea ->]|(Ea & E1 & ->)]).
    + exists st. split_and!; [done..|cbn; lia|cbn; lia|done|done|]. by rewrite Ea.
    + apply (follows_put _ st); done.
  - by intros [-> _].
Qed.

Lemma acknowledge_follows cursor :
  wp (exec (CallAcknowledge scope id cursor)) m (tracks (CallAcknowledge scope id cursor) g).
Proof.
  destruct Hf as (st & Hk & Hs & Ho & Hfrom & Hset & Hd & Hb).
  apply answering_journal_wp. eapply wp_mono; [|by apply (acknowledge_wp _ _ _ st)].
  cbn. rewrite mine_true. intros j' [[]|e]; [|by intros [-> _]..].
  intros (a & Ha & _ & ->). rewrite Ha in Hb. cbn in Hb. unfold settle. rewrite Hb.
  pose proof (jo_subs _ Hj _ _ Hk) as Hst. destruct (sk_committed _ _ _ Hst).
  destruct (ao_end _ _ _ (sk_active _ _ _ Hst a Ha)).
  apply (follows_put _ st); cbn; [done..|lia| |by rewrite app_nil_r|done].
  by rewrite Hset, <- visible_app by lia.
Qed.

Lemma reject_follows cursor kind now :
  wp (exec (CallReject scope id cursor kind now)) m (tracks (CallReject scope id cursor kind now) g).
Proof.
  destruct Hf as (st & Hk & Hs & Ho & Hfrom & Hset & Hd & Hb).
  apply answering_journal_wp. eapply wp_mono; [|by apply (reject_wp _ _ _ st)].
  cbn. rewrite mine_true. pose proof (jo_subs _ Hj _ _ Hk) as Hst.
  destruct (sk_committed _ _ _ Hst). intros j' [[]|e]; cbn [reject_outcome]; [|by intros ->|].
  - intros (a & Ha & _ & Hr). rewrite Ha in Hb. cbn in Hb. rewrite Hb.
    destruct (ao_end _ _ _ (sk_active _ _ _ Hst a Ha)).
    unfold terminal_rejection in Hr. rewrite Hs, Hmax in Hr.
    destruct (bool_decide _ || _); [subst j'; unfold settle; rewrite Hb|destruct Hr as [nb ->]].
    + apply (follows_put _ st); cbn; [done..|lia| | |done].
      * by rewrite Hset, <- visible_app by lia.
      * by rewrite Hd.
    + apply (follows_put _ st); cbn; [done..|lia|done|done|done].
  - intros [_ [->|(a & Ha & _ & _ & _ & _ & ->)]]; [done|].
    apply (follows_put _ st); done.
Qed.

Lemma replay_follows replay_id :
  wp (exec (CallReplay scope id replay_id)) m (tracks (CallReplay scope id replay_id) g).
Proof.
  destruct Hf as (st & Hk & Hs & Ho & Hfrom & Hset & Hd & Hb).
  apply answering_journal_wp. eapply wp_mono; [|by apply (replay_wp _ _ _ st)].
  cbn. rewrite mine_true. intros j' [[]|e]; [|by intros ->|by intros [-> _]].
  intros (_ & ->). apply (follows_put _ st); cbn; [done..|lia|by rewrite visible_nil|done|done].
Qed.
End own.

Lemma observe_other c r g : target c ≠ Some (record_key scope id) → observe c r g = g.
Proof.
  intros Ht. assert (∀ s' i', target c = Some (record_key s' i') → mine s' i' = false) as Hm.
  { intros s' i' E. apply bool_decide_eq_false. congruence. }
  destruct c; cbn [observe]; try done; rewrite Hm by done; by repeat case_match.
Qed.

Lemma follows_step c m g :
  typed_call c → journal_ok (m_journal m) → follows owner s (m_journal m) g →
  wp (exec c) m (tracks c g).
Proof.
  intros Hty Hj Hf. destruct (decide (target c = Some (record_key scope id))) as [Ht|Ht].
  { destruct c; try done; cbn in Ht; apply (inj Some), record_key_inj in Ht as [-> ->].
    - by apply poll_follows.
    - by apply acknowledge_follows.
    - by apply reject_follows.
    - by apply replay_follows. }
  apply wp_mono with (λ m' _, follows owner s (m_journal m') g);
    [intros; by rewrite observe_other|].
  eapply wp_mono; [|apply exec_elsewhere; [done|done|exact Ht|]].
  - intros m' _ [Hc Es]. by eapply follows_continues.
  - destruct Hf as (st & Hst & _). by rewrite Hst.
Qed.

Lemma run_follows cs m g :
  Forall typed_call cs → journal_ok (m_journal m) → follows owner s (m_journal m) g →
  let '(m', g') := run_observed cs m g in
  journal_ok (m_journal m') ∧ follows owner s (m_journal m') g'.
Proof.
  intros Hcs. revert m g. induction Hcs as [|c cs Hc _ IH]; intros m g Hj Hf; cbn; [done|].
  pose proof (exec_keeps c m Hc Hj) as Hk. pose proof (follows_step c m g Hc Hj Hf) as Hs.
  unfold wp in *. destruct (exec c m) as [m' r]. apply IH; [apply Hk|done].
Qed.
End consumer.

(** C3: Every subscription settles each event it sees exactly once and in journal order.
    Take any history, a subscription persisted after it, and any further calls: polls,
    acknowledgements and rejections of this and other subscriptions, replays, concurrent
    appends and calls on other tables.  Let a consumer add the events of the batch it holds
    to its settled events whenever an acknowledgement or a final rejection answers
    [Persisted], and start over when a replay does.  Then the settled events followed by
    the events still pending are exactly the visible events since the subscription's start:
    nothing is lost, skipped or reordered, nothing is settled twice, and the dead letters
    are the finally rejected events with their attempts and failure kind. *)
Theorem subscription_settles_each_event_once history owner s c m1 cs :
  Forall typed_call history → Forall typed_call cs →
  (0 ≤ sub_max_in_flight s)%Z → (0 ≤ sub_max_attempts s)%Z →
  canonical_event_subscription s = Ok c →
  let m0 := run history empty_mem in
  exec (CallPersist owner s) m0 = (m1, Ok (AnsRecord RecPersisted)) →
  let from := match sub_start c with
              | SsBeginning => 0%Z
              | SsLatest => len (event_order (m_journal m0))
              end in
  let '(m, g) := run_observed (sub_scope c) (sub_subscription_id c) (sub_max_attempts c) cs m1
                   (mk_consumer from None [] []) in
  ∃ st, event_subscriptions (m_journal m) !! sub_key c = Some st
    ∧ ss_subscription st = c ∧ ss_owner st = owner
    ∧ cn_settled g ++ visible (m_journal m) st (ss_committed_position st)
                        (len (event_order (m_journal m)))
      = visible (m_journal m) st (cn_from g) (len (event_order (m_journal m)))
    ∧ NoDup (event_key <$> cn_settled g)
    ∧ cn_dead g = ss_dead_letters st.
Proof.
  intros Hh Hcs Hi Ha Hc m0 Hp from.
  assert (journal_ok (m_journal m0)) as Hj by by apply run_keeps, empty_journal_ok.
  pose proof (exec_keeps (CallPersist owner s) m0 (conj Hi Ha) Hj) as Hk.
  assert (wp (exec (CallPersist owner s)) m0 (λ m' r, r = Ok (AnsRecord RecPersisted) →
    m_journal m' = put_sub (sub_key c) (fresh_sub owner c (m_journal m0)) (m_journal m0))) as Hnew.
  { apply answering_journal_wp. eapply wp_mono; [|by apply persist_wp].
    intros j' [[]|e]; [|done..]. intros (c' & Hc' & _ & _ & ->) _. by assert (c' = c) as -> by congruence. }
  unfold wp in Hk, Hnew. rewrite Hp in Hk, Hnew. cbn [fst snd] in Hk, Hnew.
  destruct Hk as [Hj1 _]. specialize (Hnew eq_refl).
  pose proof (run_follows (sub_scope c) (sub_subscription_id c) (sub_max_attempts c) owner c eq_refl
    cs m1 (mk_consumer from None [] []) Hcs Hj1) as Hrun.
  destruct (run_observed _ _ _ _ _ _) as [m g]. destruct Hrun as [Hjm (st & Hst & Hs & Ho & Hf & Hset & Hd & _)].
  - rewrite Hnew. apply (follows_put _ _ _ _ _ (fresh_sub owner c (m_journal m0))); cbn; [done..| |by rewrite visible_nil|done|done].
    unfold from. destruct (sub_start c); unfold len; lia.
  - exists st. destruct (sk_committed _ _ _ (jo_subs _ Hjm _ _ Hst)).
    split_and!; [done..| | |done]; rewrite Hset.
    + symmetry. by apply visible_app.
    + apply visible_NoDup, Hjm.
Qed.

(** * Delivery *)

(** A recorded cursor belongs to a settled position or to an earlier attempt. *)
Definition spent (st : MemoryEventSubscriptionState) : Prop :=
  ∀ token action, ss_last_cursor_action st = Some (token, action) →
  ∃ e n, token = event_consumer_cursor_token (sub_scope (ss_subscription st)) (ss_subscription st)
                   (ss_generation st) e n
    ∧ (0 ≤ e)%Z ∧ (1 ≤ n ≤ MAX_EVENT_DELIVERY_ATTEMPTS)%Z
    ∧ ((e ≤ ss_committed_position st)%Z
       ∨ ∃ a, ss_active st = Some a ∧ e = ab_end_position a ∧ (n < ab_attempt a)%Z).

(** A rejection whose retry time can be represented. *)
Definition calm_call (c : journal_call) : Prop :=
  match c with
  | CallReject _ _ _ _ now => (now + EVENT_RETRY_MAX_MS ≤ i64_max)%Z
  | _ => True
  end.

Definition all_spent (j : Journal) : Prop :=
  ∀ k st, event_subscriptions j !! k = Some st → spent st.

Lemma put_sub_spent j k st : all_spent j → spent st → all_spent (put_sub k st j).
Proof. intros Hj Hst k' st'. cbn. intros [[_ <-]|[_ ?]]%lookup_insert_Some; [done|by eapply Hj]. Qed.

(** Moving forward, or taking a new batch, keeps recorded cursors spent. *)
Lemma spent_advance st st' :
  spent st → ss_active st = None → ss_subscription st' = ss_subscription st →
  ss_generation st' = ss_generation st → ss_last_cursor_action st' = ss_last_cursor_action st →
  (ss_committed_position st ≤ ss_committed_position st')%Z → spent st'.
Proof.
  intros Hs Ha Es Eg El Hc token action E. rewrite El in E. rewrite Es, Eg.
  destruct (Hs token action E) as (e & n & -> & ? & ? & [?|(a & ? & _)]); [|congruence].
  exists e, n. split_and!; [done..|lia|lia|]. left. lia.
Qed.

Section spent_cursors.
Context (j : Journal) (scope : TenantScope) (id : EventSubscriptionId).
Context (st : MemoryEventSubscriptionState).
Context (Hj : journal_ok j) (Hk : event_subscriptions j !! record_key scope id = Some st).
Context (Hall : all_spent j).

(** The state after an action on the active batch. *)
Lemma spent_active st' a action :
  ss_active st = Some a →
  ss_subscription st' = ss_subscription st → ss_generation st' = ss_generation st →
  ss_last_cursor_action st' = Some (active_cursor scope st a, action) →
  ((ab_end_position a ≤ ss_committed_position st')%Z
   ∨ ∃ a', ss_active st' = Some a' ∧ ab_end_position a = ab_end_position a'
           ∧ (ab_attempt a < ab_attempt a')%Z) →
  spent st'.
Proof.
  intros Ha Es Eg El Hpos token action' E. rewrite El in E. injection E as <- _.
  pose proof (jo_subs _ Hj _ _ Hk) as Hst. pose proof (sk_active _ _ _ Hst a Ha) as [? ? _ _ _].
  destruct (sk_committed _ _ _ Hst). destruct (so_attempts _ (sk_sub _ _ _ Hst)).
  exists (ab_end_position a), (ab_attempt a). rewrite Es, Eg.
  rewrite (known_scope scope id j st) by done. split_and!; [done|lia|lia|lia|].
  destruct Hpos as [|(a' & ? & ? & ?)]; [by left|by right; eauto].
Qed.

Lemma poll_spent n now :
  (0 ≤ n)%Z → wp (poll_event_subscription scope id n now) j (λ j' _, all_spent j').
Proof.
  intros Hn. eapply wp_mono; [|by apply (poll_wp scope id j st)]. pose proof (Hall _ _ Hk) as Hs.
  pose proof (sk_committed _ _ _ (jo_subs _ Hj _ _ Hk)) as Hc.
  intros j' [[|w|b]|e]; cbn; [|by intros [-> _]| |by intros [-> _]].
  - intros (Ha & _ & ->). apply put_sub_spent; [done|]. eapply spent_advance; [done..|cbn; lia].
  - intros (a & _ & _ & [[_ ->]|(Ha & _ & ->)]); [done|]. apply put_sub_spent; [done|].
    by eapply spent_advance.
Qed.

Lemma acknowledge_spent cursor :
  wp (acknowledge_event_cursor scope id cursor) j (λ j' _, all_spent j').
Proof.
  eapply wp_mono; [|by apply (acknowledge_wp scope id j st)].
  intros j' [[]|e]; cbn; [|by intros [-> _]..].
  intros (a & Ha & -> & ->). apply put_sub_spent; [done|].
  eapply spent_active; [done..|]. left. cbn. lia.
Qed.

Lemma reject_spent cursor kind now :
  (now + EVENT_RETRY_MAX_MS ≤ i64_max)%Z →
  wp (reject_event_cursor scope id cursor kind now) j (λ j' _, all_spent j').
Proof.
  intros Hnow. eapply wp_mono; [|by apply (reject_wp scope id j st)].
  intros j' [[]|e]; cbn; [|by intros ->|].
  - intros (a & Ha & -> & Hr).
    destruct (terminal_rejection st kind a); [subst j'|destruct Hr as [nb ->]];
      (apply put_sub_spent; [done|]); (eapply spent_active; [done..|]); cbn; [left; lia|right].
    eexists. split_and!; [done|done|cbn; lia].
  - intros [_ [->|(a & _ & _ & _ & Hover & _)]]; [done|].
    pose proof (retry_delay_bound (ab_attempt a + 1)). lia.
Qed.

Lemma replay_spent replay_id :
  wp (replay_event_subscription scope id replay_id) j (λ j' _, all_spent j').
Proof.
  eapply wp_mono; [|by apply (replay_wp scope id j st)].
  intros j' [[]|e]; cbn; [|by intros ->|by intros [-> _]].
  intros [_ ->]. by apply put_sub_spent.
Qed.
End spent_cursors.

Lemma exec_spent c m :
  typed_call c → calm_call c → journal_ok (m_journal m) → all_spent (m_journal m) →
  wp (exec c) m (λ m' _, all_spent (m_journal m')).
Proof.
  intros Hty Hcalm Hj Hall. destruct (target c) as [k|] eqn:Ht.
  { destruct (event_subscriptions (m_journal m) !! k) as [st|] eqn:Hk.
    - destruct c; try done; cbn in Ht; injection Ht as <-; apply answering_journal_wp; cbn.
      + by eapply poll_spent.
      + by eapply acknowledge_spent.
      + by eapply reject_spent.
      + by eapply replay_spent.
    - eapply wp_mono; [|by eapply exec_unknown]. by intros m' r (-> & _). }
  destruct (decide (is_Some (match c with CallPersist _ _ => Some tt | _ => None end))) as [Hp|Hp].
  { destruct c; try by destruct Hp. apply answering_journal_wp.
    eapply wp_mono; [|by eapply persist_wp]. intros j' [[]|e]; [|by intros [-> _]..].
    intros (c & _ & _ & _ & ->). by apply put_sub_spent. }
  eapply wp_mono; [|apply exec_grows; [done|intros ? ? ->; by apply Hp]].
  intros m' _ [R Hg]. destruct (grows_ok _ _ _ Hg (jo_log _ Hj)) as (_ & _ & Es).
  unfold all_spent. by rewrite Es.
Qed.

Lemma run_spent cs m :
  Forall typed_call cs → Forall calm_call cs → journal_ok (m_journal m) →
  all_spent (m_journal m) → all_spent (m_journal (run cs m)).
Proof.
  intros Hty. revert m. induction Hty as [|c cs Hc _ IH]; intros m Hcalm Hj Hs; cbn; [done|].
  apply Forall_cons in Hcalm as [? ?]. apply IH; [done|by apply (exec_keeps c m)|by apply (exec_spent c m)].
Qed.

(** ** A consumer that acknowledges what it polls *)

Section delivery.
Context (scope : TenantScope) (id : EventSubscriptionId) (max_items now : Z).

(** One round: other callers run, then the consumer polls and acknowledges. *)
Definition round (others : list journal_call) (m : Memory) :
    Memory * option (list EventEnvelope) :=
  match exec (CallPoll scope id max_items now) (run others m) with
  | (m, Ok (AnsPoll PollEmpty)) => (m, Some [])
  | (m, Ok (AnsPoll (PollBatch b))) =>
      match exec (CallAcknowledge scope id (eb_cursor b)) m with
      | (m, Ok (AnsRecord RecPersisted)) => (m, Some (eb_events b))
      | (m, _) => (m, None)
      end
  | (m, _) => (m, None)
  end.

Fixpoint consume (rounds : list (list journal_call)) (m : Memory) :
    Memory * option (list EventEnvelope) :=
  match rounds with
  | [] => (m, Some [])
  | others :: rounds =>
      let '(m, got) := round others m in
      match got with
      | None => (m, None)
      | Some es => let '(m, rest) := consume rounds m in (m, (es ++.) <$> rest)
      end
  end.

(** The cursors of the subscription are told apart by generation, position and attempt. *)
Definition distinct_cursors (s : EventSubscription) : Prop :=
  ∀ g e n g' e' n',
  (1 ≤ g ≤ u64_max)%Z → (0 ≤ e ≤ u64_max)%Z → (1 ≤ n ≤ MAX_EVENT_DELIVERY_ATTEMPTS)%Z →
  (1 ≤ g' ≤ u64_max)%Z → (0 ≤ e' ≤ u64_max)%Z → (1 ≤ n' ≤ MAX_EVENT_DELIVERY_ATTEMPTS)%Z →
  event_consumer_cursor_token scope s g e n = event_consumer_cursor_token scope s g' e' n' →
  g = g' ∧ e = e' ∧ n = n'.

Lemma replay_unspent st a action k j :
  journal_ok j → event_subscriptions j !! k = Some st → spent st → ss_active st = Some a →
  sub_scope (ss_subscription st) = scope → (len (event_order j) ≤ u64_max)%Z →
  distinct_cursors (ss_subscription st) →
  cursor_replay st (active_cursor scope st a) action = None.
Proof.
  intros Hj Hk Hs Ha Esc Hlen Hd. unfold cursor_replay.
  destruct (ss_last_cursor_action st) as [[token action']|] eqn:El; [|done].
  rewrite bool_decide_eq_false_2; [done|]. intros ->.
  destruct (Hs _ _ El) as (e & n & E & He & Hn & Hpos). rewrite Esc in E.
  pose proof (jo_subs _ Hj _ _ Hk) as Hst. destruct (sk_active _ _ _ Hst a Ha) as [Hend Hatt _ _ _].
  pose proof (so_attempts _ (sk_sub _ _ _ Hst)). pose proof (sk_generation _ _ _ Hst).
  destruct (sk_committed _ _ _ Hst).
  assert (e ≤ ab_end_position a)%Z by (destruct Hpos as [|(a' & ? & -> & _)]; simplify_eq; lia).
  apply Hd in E as (_ & ? & ?); [|lia..]. destruct Hpos as [|(a' & ? & ? & ?)]; simplify_eq; lia.
Qed.

Abbreviation key := (record_key scope id).
Definition elsewhere (c : journal_call) : Prop := typed_call c ∧ target c ≠ Some key.

Lemma run_elsewhere cs m st :
  Forall elsewhere cs → journal_ok (m_journal m) → event_subscriptions (m_journal m) !! key = Some st →
  journal_ok (m_journal (run cs m)) ∧ continues (m_journal m) (m_journal (run cs m))
  ∧ event_subscriptions (m_journal (run cs m)) !! key = Some st.
Proof.
  intros Hcs. revert m. induction Hcs as [|c cs [Hty Ht] _ IH]; intros m Hj Hk; cbn; [done|].
  destruct (exec_elsewhere c m key Hty Hj Ht) as [Hc Es]; [by eauto|].
  destruct (IH (exec c m).1) as (? & ? & ?); [by apply (exec_keeps c m)|by rewrite Es|].
  split_and!; [done|by etrans|done].
Qed.

(** The consumer may poll now. *)
Record ready (j : Journal) (st : MemoryEventSubscriptionState) : Prop := {
  rd_journal : journal_ok j;
  rd_known : event_subscriptions j !! key = Some st;
  rd_spent : spent st;
  rd_now a : ss_active st = Some a → (ab_not_before_unix_ms a ≤ now)%Z;
}.

Context (Hitems : (1 ≤ max_items ≤ MAX_EVENT_BATCH_ITEMS)%Z) (Hnow : (0 ≤ now)%Z).

(** What a poll does when the consumer is ready. *)
Lemma poll_ready m st :
  ready (m_journal m) st →
  wp (exec (CallPoll scope id max_items now)) m (λ m' r, ∃ st',
    ready (m_journal m') st' ∧ m_journal m' = put_sub key st' (m_journal m)
    ∧ ss_subscription st' = ss_subscription st ∧ ss_owner st' = ss_owner st
    ∧ ((r = Ok (AnsPoll PollEmpty) ∧ ss_committed_position st' = len (event_order (m_journal m))
        ∧ visible (m_journal m) st (ss_committed_position st) (ss_committed_position st') = [])
       ∨ ∃ a, r = Ok (AnsPoll (PollBatch (polled scope id (m_journal m) st a)))
           ∧ ss_active st' = Some a ∧ ss_committed_position st' = ss_committed_position st
           ∧ active_cursor scope st' a = active_cursor scope st a
           ∧ active_ok (m_journal m) st a)).
Proof.
  intros [Hj Hk Hs Hrd]. apply answering_journal_wp.
  destruct (sk_committed _ _ _ (jo_subs _ Hj _ _ Hk)).
  eapply wp_mono; [|apply wp_and; [by apply (poll_keeps _ scope id st Hj Hk); lia|
    apply (poll_wp scope id (m_journal m) st Hj Hk max_items now); lia]].
  intros j' [[|w|b]|e] [[Hj' _] Hp]; cbn in Hp.
  - destruct Hp as (Ha & Hv & ->). eexists. split_and!; [|done..|by left].
    split; [done|apply lookup_insert_eq|eapply spent_advance; [done..|cbn; lia]|done].
  - destruct Hp as (_ & a & Ha & ?). specialize (Hrd a Ha). lia.
  - destruct Hp as (a & Hok & -> & [[Ha ->]|(Ha & En & ->)]).
    + exists st. split_and!; [by split|by rewrite put_sub_id|done..|right]. exists a. done.
    + eexists. split_and!; [|done..|right; exists a; done].
      split; [done|apply lookup_insert_eq|by eapply spent_advance|].
      intros a' [= <-]. rewrite En. cbn. lia.
  - destruct Hp as (_ & _ & ?). lia.
Qed.

Lemma acknowledge_ready m st a :
  ready (m_journal m) st → ss_active st = Some a → distinct_cursors (ss_subscription st) →
  (len (event_order (m_journal m)) ≤ u64_max)%Z →
  let st' := set_cursor_action (active_cursor scope st a) CaAcknowledge
               (set_progress (ab_end_position a) None st) in
  wp (exec (CallAcknowledge scope id (active_cursor scope st a))) m (λ m' r,
    r = Ok (AnsRecord RecPersisted) ∧ m_journal m' = put_sub key st' (m_journal m)
    ∧ ready (m_journal m') st').
Proof.
  intros [Hj Hk Hs Hrd] Ha Hd Hlen st'. pose proof (known_scope scope id _ _ Hj Hk) as Esc.
  apply answering_journal_wp.
  eapply wp_mono; [|apply wp_and; [by apply (acknowledge_keeps _ scope id st Hj Hk)|
    apply (acknowledge_succeeds scope id _ st Hk a Ha); by eapply replay_unspent]].
  intros j' r [[Hj' _] [-> ->]]. split_and!; [done|done|].
  split; [done|apply lookup_insert_eq| |done].
  eapply (spent_active _ scope id st Hj Hk); [done..|]. left. cbn. lia.
Qed.

Lemma round_ready others m st :
  ready (m_journal m) st → distinct_cursors (ss_subscription st) → Forall elsewhere others →
  let j := m_journal (run others m) in
  (len (event_order j) ≤ u64_max)%Z →
  ∃ m' es st', round others m = (m', Some es) ∧ ready (m_journal m') st'
    ∧ ss_subscription st' = ss_subscription st ∧ ss_owner st' = ss_owner st
    ∧ continues j (m_journal m')
    ∧ (ss_committed_position st ≤ ss_committed_position st' ≤ len (event_order j))%Z
    ∧ es = visible j st (ss_committed_position st) (ss_committed_position st')
    ∧ (es = [] → ss_committed_position st' = len (event_order j)).
Proof.
  intros [Hj Hk Hs Hrd] Hd Ho j Hlen.
  destruct (run_elsewhere others m st Ho Hj Hk) as (Hj1 & Hc1 & Hk1). fold j in Hj1, Hk1.
  destruct (sk_committed _ _ _ (jo_subs _ Hj1 _ _ Hk1)).
  pose proof (poll_ready (run others m) st (Build_ready _ _ Hj1 Hk1 Hs Hrd)) as Hp.
  unfold round, wp in *. fold j in Hp.
  destruct (exec (CallPoll scope id max_items now) (run others m)) as [m1 r]. cbn [fst snd] in Hp.
  destruct Hp as (st1 & Hr1 & Em1 & Es & Eo & [(-> & Ec & Hv)|(a & -> & Ha & Ec & Ecur & Hok)]).
  - exists m1, [], st1. rewrite Em1, Ec in *.
    split_and!; [done..|apply put_sub_continues|lia|lia|done|done].
  - cbn [polled eb_cursor eb_events]. rewrite <- Ecur.
    destruct (ao_end _ _ _ Hok).
    pose proof (acknowledge_ready m1 st1 a Hr1 Ha) as Hack. rewrite Es, Em1 in Hack.
    specialize (Hack Hd Hlen). unfold wp in Hack.
    destruct (exec (CallAcknowledge scope id (active_cursor scope st1 a)) m1) as [m2 r2].
    cbn [fst snd] in Hack. destruct Hack as (-> & Em2 & Hr2).
    eexists _, _, _. split_and!; [done|exact Hr2|done|done| |cbn; lia|cbn; lia|done|].
    + rewrite Em2. etrans; apply put_sub_continues.
    + by intros ?%(ao_some _ _ _ Hok).
Qed.

Lemma elsewhere_typed cs : Forall elsewhere cs → Forall typed_call cs.
Proof. intros Hcs. eapply Forall_impl; [done|by intros ? []]. Qed.

Lemma round_continues others m :
  Forall elsewhere others → journal_ok (m_journal m) →
  journal_ok (m_journal (round others m).1)
  ∧ continues (m_journal (run others m)) (m_journal (round others m).1).
Proof.
  intros Ho Hj. pose proof (elsewhere_typed _ Ho) as Hty.
  pose proof (run_keeps others m Hty Hj) as Hj1. unfold round.
  assert (typed_call (CallPoll scope id max_items now)) as Hp by (cbn; lia).
  pose proof (exec_keeps _ _ Hp Hj1) as Hk. pose proof (exec_continues _ _ Hp Hj1) as Hc.
  unfold wp in Hk, Hc.
  destruct (exec (CallPoll scope id max_items now) (run others m)) as [m1 r]. cbn [fst snd] in *.
  destruct Hk as [Hj2 _]. destruct r as [[|[| |b]| | | |]|]; try done.
  assert (typed_call (CallAcknowledge scope id (eb_cursor b))) as Ha by done.
  pose proof (exec_keeps _ _ Ha Hj2) as Hk2. pose proof (exec_continues _ _ Ha Hj2) as Hc2.
  unfold wp in Hk2, Hc2. destruct (exec _ m1) as [m2 r2]. cbn [fst snd] in *.
  assert (journal_ok (m_journal m2) ∧ continues (m_journal (run others m)) (m_journal m2)) as Hd
    by (split; [apply Hk2|by etrans]). by destruct r2 as [[[]| | | | |]|].
Qed.

Lemma consume_continues rounds m :
  Forall (Forall elsewhere) rounds → journal_ok (m_journal m) →
  continues (m_journal m) (m_journal (consume rounds m).1).
Proof.
  intros Hr. revert m. induction Hr as [|others rounds Ho _ IH]; intros m Hj; cbn; [done|].
  destruct (round_continues others m Ho Hj) as [Hj1 Hc]. pose proof (run_continues others m) as Hrun.
  destruct (round others m) as [m1 [es|]]; cbn [fst] in *.
  - specialize (IH m1 Hj1). destruct (consume rounds m1). cbn [fst] in *. etrans; [by apply Hrun, Hj; apply elsewhere_typed|]. by etrans.
  - etrans; [by apply Hrun, Hj; apply elsewhere_typed|]. done.
Qed.

(** As many rounds as there are pending events up to a position deliver them. *)
Lemma consume_delivers rounds m st upto :
  Forall (Forall elsewhere) rounds → ready (m_journal m) st →
  distinct_cursors (ss_subscription st) →
  (len (event_order (m_journal (consume rounds m).1)) ≤ u64_max)%Z →
  (ss_committed_position st ≤ upto ≤ len (event_order (m_journal m)))%Z →
  length (visible (m_journal m) st (ss_committed_position st) upto) ≤ length rounds →
  ∃ m' es, consume rounds m = (m', Some es)
    ∧ visible (m_journal m) st (ss_committed_position st) upto `prefix_of` es.
Proof.
  intros Hr. revert m st upto. induction Hr as [|others rounds Ho Hr IH];
    intros m st upto Hrd Hd Hlen Hup Hn.
  { exists m, []. split; [done|]. destruct (visible _ _ _ _); [done|cbn in Hn; lia]. }
  pose proof (run_continues others m (elsewhere_typed _ Ho) (rd_journal _ _ Hrd)) as Hc0.
  destruct (round_continues others m Ho (rd_journal _ _ Hrd)) as [Hj1 Hc1].
  pose proof (consume_continues rounds (round others m).1 Hr Hj1) as Hc2.
  pose proof (round_ready others m st Hrd Hd Ho) as Hround. cbv zeta in Hround.
  cbn [consume] in *. pose proof (continues_len _ _ Hc0). pose proof (continues_len _ _ Hc1).
  pose proof (continues_len _ _ Hc2).
  destruct Hround as (m1 & es & st1 & E & Hrd1 & Es & Eo & _ & Hpos & Hes & Hfull).
  { destruct (round others m) as [m1 [es|]]; cbn [fst] in *; [|lia].
    destruct (consume rounds m1). cbn [fst] in *. lia. }
  rewrite E in *. cbn [fst] in *.
  destruct (sk_committed _ _ _ (jo_subs _ (rd_journal _ _ Hrd) _ _ (rd_known _ _ Hrd))).
  assert (∀ a b, (0 ≤ a ≤ b)%Z → (b ≤ len (event_order (m_journal (run others m))))%Z →
    visible (m_journal m1) st1 a b = visible (m_journal (run others m)) st a b) as Ev.
  { intros a b ? ?. rewrite (visible_same _ st) by done. by apply visible_continues. }
  assert (visible (m_journal m) st (ss_committed_position st) upto
    = visible (m_journal (run others m)) st (ss_committed_position st) upto) as E0.
  { symmetry. apply visible_continues; [done|lia|lia]. }
  rewrite E0 in *. destruct (Z.le_gt_cases upto (ss_committed_position st1)) as [Hle|Hgt].
  - destruct (IH m1 st1 (ss_committed_position st1)) as (m2 & rest & E2 & _);
      [done|by rewrite Es|destruct (consume rounds m1); exact Hlen|lia|rewrite visible_nil; cbn; lia|].
    rewrite E2. cbn. eexists _, _. split; [done|]. subst es.
    rewrite (visible_app _ _ (ss_committed_position st) upto (ss_committed_position st1)) by lia.
    rewrite <- app_assoc. by apply prefix_app_r.
  - rewrite (visible_app _ _ _ (ss_committed_position st1)) in Hn |- * by lia.
    rewrite <- Hes in Hn |- *. rewrite <- Ev in Hn |- * by lia.
    destruct (IH m1 st1 upto) as (m2 & rest & E2 & Hpre);
      [done|by rewrite Es|destruct (consume rounds m1); exact Hlen|lia| |].
    { rewrite length_app in Hn. destruct es; [rewrite Hfull in Hgt by done; lia|]. cbn in Hn. lia. }
    rewrite E2. cbn. eexists _, _. split; [done|]. by apply prefix_app.
Qed.
End delivery.

(** C14: A consumer that polls and acknowledges receives every event that was pending when
    it started, in order, whatever other callers do in between.  From any state reached by
    calls whose retry times are representable, if the subscription's batch in flight is due
    and cursors do not collide, then as many rounds of poll and acknowledge as there were
    pending visible events all succeed and return those events first; between the rounds
    other callers may append, reconcile, subscribe, and use other subscriptions. *)
Theorem acknowledged_polls_deliver_everything history scope id st max_items now rounds :
  Forall typed_call history → Forall calm_call history →
  let m := run history empty_mem in
  event_subscriptions (m_journal m) !! record_key scope id = Some st →
  (1 ≤ max_items ≤ MAX_EVENT_BATCH_ITEMS)%Z → (0 ≤ now)%Z →
  (∀ a, ss_active st = Some a → (ab_not_before_unix_ms a ≤ now)%Z) →
  distinct_cursors scope (ss_subscription st) →
  Forall (Forall (elsewhere scope id)) rounds →
  (len (event_order (m_journal (consume scope id max_items now rounds m).1)) ≤ u64_max)%Z →
  let pending := visible (m_journal m) st (ss_committed_position st)
                   (len (event_order (m_journal m))) in
  length pending ≤ length rounds →
  ∃ m' received, consume scope id max_items now rounds m = (m', Some received)
    ∧ pending `prefix_of` received.
Proof.
  intros Hty Hcalm m Hk Hi Hn Hdue Hd Hr Hlen pending Hp.
  assert (journal_ok (m_journal m)) as Hj by by apply run_keeps, empty_journal_ok.
  destruct (sk_committed _ _ _ (jo_subs _ Hj _ _ Hk)).
  eapply (consume_delivers scope id max_items now Hi Hn); [done| |done|done|lia|done].
  split; [done|done| |done]. 
  eapply (run_spent history empty_mem); [done|done|apply empty_journal_ok|done|exact Hk].
Qed.

(** * A rejection that cannot be scheduled *)

Section stuck.
Context (scope : TenantScope) (id : EventSubscriptionId).
Abbreviation key := (record_key scope id).

(** The cursor of the batch in flight was recorded as rejected. *)
Definition stuck (st : MemoryEventSubscriptionState) : Prop :=
  ∃ a, ss_active st = Some a
    ∧ ss_last_cursor_action st = Some (active_cursor scope st a, CaReject).

Lemma stuck_step c m st :
  typed_call c → (∀ replay_id, c ≠ CallReplay scope id replay_id) → journal_ok (m_journal m) →
  event_subscriptions (m_journal m) !! key = Some st → stuck st →
  event_subscriptions (m_journal (exec c m).1) !! key = Some st.
Proof.
  intros Hty Hc Hj Hk (a & Ha & Hl). destruct (decide (target c = Some key)) as [Ht|Ht].
  2: { destruct (exec_elsewhere c m key Hty Hj Ht) as [_ ->]; [by eauto|done]. }
  change (wp (exec c) m (λ m' _, event_subscriptions (m_journal m') !! key = Some st)).
  assert (∀ cursor action, cursor = active_cursor scope st a →
    is_Some (cursor_replay st cursor action)) as Hrep.
  { intros cursor action ->. unfold cursor_replay. rewrite Hl. by rewrite bool_decide_eq_true_2. }
  destruct c; try done; cbn in Ht; apply (inj Some), record_key_inj in Ht as [-> ->];
    [| | |by edestruct Hc]; apply answering_journal_wp; cbn.
  - eapply wp_mono; [|by apply (poll_wp scope id (m_journal m) st)].
    intros j' [[]|]; cbn; [|by intros [-> _]| |by intros [-> _]]; [by intros (? & _); simplify_eq|].
    intros (a' & _ & _ & [[_ ->]|(? & _)]); [done|]. by simplify_eq.
  - destruct (cursor_replay st cursor CaAcknowledge) as [r|] eqn:Hr.
    + eapply wp_mono; [|by eapply (acknowledge_replayed scope id (m_journal m) st)]. by intros j' _ [-> _].
    + eapply wp_mono; [|by apply (acknowledge_wp scope id (m_journal m) st)].
      intros j' [[]|]; cbn; [|by intros [-> _]..]. intros (a' & Ha' & -> & _). simplify_eq.
      destruct (Hrep _ CaAcknowledge eq_refl). congruence.
  - destruct (cursor_replay st cursor CaReject) as [r|] eqn:Hr.
    + eapply wp_mono; [|by eapply (reject_replayed scope id (m_journal m) st)]. by intros j' _ ->.
    + eapply wp_mono; [|by apply (reject_wp scope id (m_journal m) st)].
      assert (∀ a', ss_active st = Some a' → cursor = active_cursor scope st a' → False) as Hno.
      { intros a' Ha' ->. simplify_eq. destruct (Hrep _ CaReject eq_refl). congruence. }
      intros j' [[]|]; cbn; [|by intros ->|].
      * intros (a' & ? & ? & _). by destruct (Hno a').
      * intros [_ [->|(a' & ? & ? & _)]]; [done|]. by destruct (Hno a').
Qed.

Lemma stuck_run cs m st :
  Forall typed_call cs → Forall (λ c, ∀ replay_id, c ≠ CallReplay scope id replay_id) cs →
  journal_ok (m_journal m) → event_subscriptions (m_journal m) !! key = Some st → stuck st →
  journal_ok (m_journal (run cs m)) ∧ event_subscriptions (m_journal (run cs m)) !! key = Some st.
Proof.
  intros Hty. revert m. induction Hty as [|c cs Hc _ IH]; intros m Hn Hj Hk Hs; cbn; [done|].
  apply Forall_cons in Hn as [Hn1 Hn]. apply IH; [done|by apply (exec_keeps c m)| |done].
  by apply stuck_step.
Qed.

(** C37: A rejection is not applied atomically: when the retry time does not fit in 64 bits,
    [reject_event_cursor] answers [InvalidRecord] but has already recorded the cursor as
    rejected.  From then on nothing but a replay moves the subscription: whatever is called,
    its state does not change, and acknowledging the batch it keeps handing out is answered
    [Conflict]. *)
Theorem failed_rejection_wedges_subscription m st a kind now cs :
  journal_ok (m_journal m) → event_subscriptions (m_journal m) !! key = Some st →
  ss_active st = Some a → cursor_replay st (active_cursor scope st a) CaReject = None →
  terminal_rejection st kind a = false → (0 ≤ now)%Z →
  (i64_max < now + event_retry_delay_ms (ab_attempt a + 1))%Z →
  Forall typed_call cs → Forall (λ c, ∀ replay_id, c ≠ CallReplay scope id replay_id) cs →
  let rejected := exec (CallReject scope id (active_cursor scope st a) kind now) m in
  let later := run cs rejected.1 in
  rejected.2 = Err StInvalidRecord
  ∧ event_subscriptions (m_journal later) !! key
    = Some (set_cursor_action (active_cursor scope st a) CaReject st)
  ∧ (exec (CallAcknowledge scope id (active_cursor scope st a)) later).2 = Err StConflict.
Proof.
  intros Hj Hk Ha Hr Ht Hnow Hover Hty Hn rejected later.
  set (st' := set_cursor_action (active_cursor scope st a) CaReject st).
  assert (rejected.2 = Err StInvalidRecord
          ∧ m_journal rejected.1 = put_sub key st' (m_journal m)) as [Er Em].
  { change (wp (exec (CallReject scope id (active_cursor scope st a) kind now)) m
      (λ m' r, r = Err StInvalidRecord ∧ m_journal m' = put_sub key st' (m_journal m))).
    apply answering_journal_wp. eapply wp_mono; [|by apply (reject_overflow_wp scope id _ st)].
    by intros j' r [-> ->]. }
  assert (journal_ok (m_journal rejected.1)) as Hj1 by by apply (exec_keeps (CallReject _ _ _ _ _) m).
  destruct (stuck_run cs rejected.1 st' Hty Hn Hj1) as [Hj2 Hk2];
    [rewrite Em; apply lookup_insert_eq|by exists a|].
  split_and!; [done|done|].
  change (wp (exec (CallAcknowledge scope id (active_cursor scope st a))) later
    (λ _ r, r = Err StConflict)). apply answering_journal_wp.
  eapply wp_mono; [|apply (acknowledge_replayed scope id _ st' Hk2 _ (Err StConflict))].
  - intros j' r [_ [->|Hv]]; [done|]. destruct Hv. apply active_cursor_valid.
  - unfold cursor_replay. cbn -[active_cursor]. by rewrite bool_decide_eq_true_2.
Qed.
End stuck.
End theorems.

(** * Witnesses *)

#[local] Existing Instance toy_digest.

Lemma journal_stays_well_formed_witness :
  let m := run (news_history ++ [CallPersist news_owner news_subscription]) empty_mem in
  len (event_order (m_journal m)) = 3%Z
  ∧ (exec (CallPoll news_scope (oid "s1") 10 0) m).2 ≠ Err StCorrupt
  ∧ journal_ok (m_journal m).
Proof.
  cbv zeta. split; [vm_compute; reflexivity|]. split; [vm_compute; discriminate|].
  apply (journal_stays_well_formed (news_history ++ [CallPersist news_owner news_subscription])
    (CallPoll news_scope (oid "s1") 10 0)); [|cbn; lia].
  apply Forall_app. split; [apply news_history_typed|typed_calls].
Defined.

(** Two events acknowledged, an event appended meanwhile, the rest rejected for good. *)
Definition news_calls : list journal_call :=
  [CallPoll news_scope (oid "s1") 10 0;
   CallAppend (news "e4" None);
   CallAcknowledge news_scope (oid "s1")
     (event_consumer_cursor_token news_scope news_subscription 1 2 1);
   CallPoll news_scope (oid "s1") 10 0;
   CallReject news_scope (oid "s1")
     (event_consumer_cursor_token news_scope news_subscription 1 4 1) FkPermanent 0].

Lemma subscription_settles_each_event_once_witness :
  let m1 := (exec (CallPersist news_owner news_subscription) (run news_history empty_mem)).1 in
  let out := run_observed news_scope (oid "s1") 3 news_calls m1 (mk_consumer 0 None [] []) in
  cn_settled out.2 = [news "e1" None; news "e2" None; news "e3" None; news "e4" None]
  ∧ (dl_event <$> cn_dead out.2) = [news "e3" None; news "e4" None]
  ∧ NoDup (event_key <$> cn_settled out.2).
Proof.
  cbv zeta. split; [vm_compute; reflexivity|]. split; [vm_compute; reflexivity|].
  pose proof (subscription_settles_each_event_once news_history news_owner news_subscription
    news_subscription (exec (CallPersist news_owner news_subscription) (run news_history empty_mem)).1
    news_calls) as Hs.
  cbv zeta in Hs. cbn [sub_scope sub_subscription_id sub_max_attempts sub_start news_subscription] in Hs.
  destruct (run_observed _ _ _ news_calls _ _) as [m g].
  destruct Hs as (st & _ & _ & _ & _ & Hnd & _);
    [apply news_history_typed|typed_calls|done|done|vm_compute; reflexivity|
     vm_compute; reflexivity|exact Hnd].
Defined.

(** The concrete digest tells the cursors apart. *)
Lemma tail_digest_suffix x s x' s' n :
  n ≤ 32 → length s = n → length s' = n → Forall is_u8 s → Forall is_u8 s' →
  tail_digest (x ++ s) = tail_digest (x' ++ s') → s = s'.
Proof.
  intros Hn Hl Hl' Hu Hu' E.
  assert (∀ y t, length t = n → Forall is_u8 t → take n (tail_digest (y ++ t)) = reverse t) as Ht.
  { intros y t Hlen Ht. unfold tail_digest. rewrite take_take, Nat.min_l by done.
    rewrite <- fmap_take, reverse_app, <- app_assoc, take_app_length' by (by rewrite length_reverse).
    rewrite <- (map_id (reverse t)) at 2. apply map_ext_Forall. apply Forall_reverse.
    eapply Forall_impl; [exact Ht|]. intros b Hb. cbn in Hb |- *. apply Z.mod_small. exact Hb. }
  apply (f_equal (take n)) in E. rewrite !Ht in E by done. by apply (inj reverse).
Qed.

Lemma toy_distinct_cursors scope s : distinct_cursors scope s.
Proof.
  intros g e n g' e' n' Hg He Hn Hg' He' Hn'. unfold event_consumer_cursor_token, event_cursor_preimage.
  rewrite !app_assoc. rewrite <- !(app_assoc _ (be_bytes 8 _)).
  intros E. apply (tail_digest_suffix _ _ _ _ 20) in E; try (rewrite !length_app, !length_be_bytes; done);
    [|lia|repeat apply Forall_app_2; apply be_bytes_u8..].
  unfold MAX_EVENT_DELIVERY_ATTEMPTS, u64_max in *.
  apply app_inj_1 in E as [E1 E]; [|by rewrite !length_be_bytes].
  apply app_inj_1 in E as [E2 E3]; [|by rewrite !length_be_bytes].
  apply be_bytes_inj in E1, E2, E3; [done|cbn; lia..].
Qed.

Definition subscribed : list journal_call :=
  news_history ++ [CallPersist news_owner news_subscription].
Definition subscribed_state : MemoryEventSubscriptionState :=
  mk_sub_state news_subscription news_owner 0 1 None None None [].

Lemma subscribed_typed : Forall typed_call subscribed.
Proof. apply Forall_app. split; [apply news_history_typed|typed_calls]. Qed.

Lemma acknowledged_polls_deliver_everything_witness :
  let rounds := [[]; [CallAppend (news "e4" None)]; []] in
  ∃ m' received,
    consume news_scope (oid "s1") 2 0 rounds (run subscribed empty_mem) = (m', Some received)
    ∧ [news "e1" None; news "e2" None; news "e3" None] `prefix_of` received.
Proof.
  cbv zeta.
  apply (acknowledged_polls_deliver_everything subscribed news_scope (oid "s1") subscribed_state 2 0
    [[]; [CallAppend (news "e4" None)]; []]).
  - apply subscribed_typed.
  - repeat (apply List.Forall_cons; [exact I|]). apply List.Forall_nil.
  - vm_compute. reflexivity.
  - split; vm_compute; discriminate.
  - done.
  - intros a [=].
  - apply toy_distinct_cursors.
  - repeat (apply List.Forall_cons || apply List.Forall_nil); split; done.
  - vm_compute. discriminate.
  - vm_compute. lia.
Defined.

(** A batch polled at the end of time cannot be rescheduled. *)
Definition late : list journal_call :=
  subscribed ++ [CallPoll news_scope (oid "s1") 2 i64_max].
Definition late_batch : MemoryEventActiveBatch := mk_active 2 1 i64_max.
Definition late_state : MemoryEventSubscriptionState :=
  set_progress 0 (Some late_batch) subscribed_state.

Lemma failed_rejection_wedges_subscription_witness :
  let cursor := active_cursor news_scope late_state late_batch in
  let rejected := exec (CallReject news_scope (oid "s1") cursor FkRetryable i64_max)
                    (run late empty_mem) in
  let later := run [CallPoll news_scope (oid "s1") 2 i64_max; CallAppend (news "e4" None);
                    CallReject news_scope (oid "s1") cursor FkPermanent 0] rejected.1 in
  rejected.2 = Err StInvalidRecord
  ∧ event_subscriptions (m_journal later) !! record_key news_scope (oid "s1")
    = Some (set_cursor_action cursor CaReject late_state)
  ∧ (exec (CallAcknowledge news_scope (oid "s1") cursor) later).2 = Err StConflict.
Proof.
  cbv zeta. apply (failed_rejection_wedges_subscription news_scope (oid "s1") (run late empty_mem)
    late_state late_batch FkRetryable i64_max
    [CallPoll news_scope (oid "s1") 2 i64_max; CallAppend (news "e4" None);
     CallReject news_scope (oid "s1") (active_cursor news_scope late_state late_batch) FkPermanent 0]).
  - apply run_keeps; [|apply empty_journal_ok].
    apply Forall_app. split; [apply subscribed_typed|typed_calls].
  - vm_compute. reflexivity.
  - done.
  - done.
  - vm_compute. reflexivity.
  - done.
  - vm_compute. reflexivity.
  - typed_calls.
  - repeat (apply List.Forall_cons; [done|]). apply List.Forall_nil.
Defined.
