(* ===== verification/CommandTheorems.v ===== *)
(** Commands and their outcomes: a command is accepted once per idempotency key, and the
    outcome recorded for it is final. *)

From S2P Require Import Prelude Ids Framing Extension Message Delivery StoreForward Sync Store.
From S2P Require Import Call Group Version Event Bridge Offline Memory OpLogic.
From S2P Require Import EventStore EventFacts Subscription EventCalls.

(** The tables of commands agree, and every outcome names an accepted command and a stored
    event it caused. *)
Record commands_ok (j : Journal) : Prop := {
  co_key k c : accepted j !! k = Some c → canonical_command c = Ok c ∧ command_key c = Ok k;
  co_outcome k id : terminal_events j !! k = Some id →
    ∃ scope command_id e, k = record_key scope command_id ∧ is_Some (accepted_by_id j !! k)
      ∧ events j !! record_key scope id = Some e ∧ causation_id (ev_correlation e) = Some command_id;
}.

(** No accepted command, stored event or outcome is ever changed or removed. *)
Record kept (j j' : Journal) : Prop := {
  kp_accepted : accepted j ⊆ accepted j';
  kp_by_id : accepted_by_id j ⊆ accepted_by_id j';
  kp_events : events j ⊆ events j';
  kp_outcomes : terminal_events j ⊆ terminal_events j';
}.

#[global] Instance kept_preorder : PreOrder kept.
Proof. split; [by split|]. intros j1 j2 j3 [] []. by split; etrans. Qed.

Lemma grow_kept R j j' : grow R j j' → kept j j'.
Proof.
  intros [j0 k e Hk|j0 k c Hk Hi|j0 scope command_id e Hk]; split; cbn; try done;
    by apply insert_subseteq.
Qed.

Lemma grow_commands_ok R j j' : grow R j j' → commands_ok j → commands_ok j'.
Proof.
  intros Hg. pose proof (grow_kept _ _ _ Hg) as Hkept. revert Hkept.
  destruct Hg as [j0 k e Hk|j0 k c Hk Hi Hc Hck|j0 scope command_id e Hk Ha He Hs Hcause];
    intros [_ Hid Hev _] [Hkey Hout]; split; cbn; try done.
  - intros k' id Hk'. destruct (Hout k' id Hk') as (sc & cid & e' & ? & ? & ? & ?).
    exists sc, cid, e'. split_and!; [done|done|by eapply lookup_weaken|done].
  - intros k' c' [[<- <-]|[_ ?]]%lookup_insert_Some; [done|by apply Hkey].
  - intros k' id Hk'. destruct (Hout k' id Hk') as (sc & cid & e' & ? & [? ?] & ? & ?).
    exists sc, cid, e'. split_and!; [done|eexists; by eapply lookup_weaken|done|done].
  - intros k' id [[<- <-]|[_ ?]]%lookup_insert_Some; [|by apply Hout].
    exists scope, command_id, e. subst scope. done.
Qed.

Lemma grows_commands R j j' : rtc (grow R) j j' → kept j j' ∧ (commands_ok j → commands_ok j').
Proof.
  induction 1 as [|j j1 j2 Hg _ [Hk Hc]]; [done|]. split.
  - etrans; [by eapply grow_kept|done].
  - intros Hok. by eapply Hc, grow_commands_ok.
Qed.

Lemma put_sub_commands k st j : kept j (put_sub k st j) ∧ (commands_ok j → commands_ok (put_sub k st j)).
Proof. by split; [|intros []]. Qed.

Section commands.
Context `{Sha256}.

Lemma exec_commands c m :
  typed_call c → journal_ok (m_journal m) →
  wp (exec c) m (λ m' _, kept (m_journal m) (m_journal m')
                         ∧ (commands_ok (m_journal m) → commands_ok (m_journal m'))).
Proof.
  intros Hty Hj. destruct (target c) as [k|] eqn:Hk.
  { eapply wp_mono; [|by apply (exec_target c m k)].
    intros m' _ [->|[st' ->]]; [done|apply put_sub_commands]. }
  destruct (decide (is_Some (match c with CallPersist _ _ => Some tt | _ => None end))) as [Hp|Hp].
  { destruct c; try by destruct Hp. apply answering_journal_wp.
    eapply wp_mono; [|by apply persist_wp]. intros j' [[]|e]; [|by intros [-> _]..].
    intros (c & _ & _ & _ & ->). apply put_sub_commands. }
  eapply wp_mono; [|apply exec_grows; [done|intros ? ? ->; by apply Hp]].
  intros m' _ [R Hg]. by eapply grows_commands.
Qed.

Lemma run_commands cs m :
  Forall typed_call cs → journal_ok (m_journal m) →
  journal_ok (m_journal (run cs m)) ∧ kept (m_journal m) (m_journal (run cs m))
  ∧ (commands_ok (m_journal m) → commands_ok (m_journal (run cs m))).
Proof.
  intros Hcs. revert m. induction Hcs as [|c cs Hc _ IH]; intros m Hj; cbn; [done|].
  destruct (exec_commands c m Hc Hj) as [Hk Hok].
  destruct (IH (exec c m).1) as (? & ? & ?); [by apply (exec_keeps c m)|].
  split_and!; [done|by etrans|auto].
Qed.

Lemma empty_commands_ok : commands_ok empty_journal.
Proof. by split. Qed.

(** ** Idempotency *)

(** Two commands say the same, identifiers and correlation aside. *)
Definition same_content (c c' : CommandEnvelope) : bool :=
  bool_decide (cmd_command_type c = cmd_command_type c')
  && bool_decide (cmd_payload c = cmd_payload c')
  && bool_decide (cmd_schema_version c = cmd_schema_version c')
  && bool_decide (cmd_extensions c = cmd_extensions c').

Lemma compare_same_key c c' k :
  canonical_command c = Ok c → canonical_command c' = Ok c' →
  command_key c = Ok k → command_key c' = Ok k →
  receipt_for_existing c c'
  = if same_content c c'
    then Ok (duplicate_command_receipt (cmd_command_id c') (cmd_command_id c)) else Err StConflict.
Proof.
  intros Hc Hc' Hk Hk'. unfold receipt_for_existing, compare_command_idempotency.
  rewrite Hc, Hc'. cbn [mbind result_bind].
  assert (cmd_scope c = cmd_scope c'
    ∧ idempotency_key (cmd_correlation c) = idempotency_key (cmd_correlation c')) as [Es Ek].
  { unfold command_key in Hk, Hk'.
    destruct (idempotency_key (cmd_correlation c)), (idempotency_key (cmd_correlation c')); try done.
    cbn [ok_or mbind result_bind] in *. rewrite <- Hk' in Hk.
    apply (inj Ok), pair_eq in Hk as [Es ->]. split; [|done]. by apply (inj scope_key). }
  rewrite (bool_decide_eq_true_2 _ Es), (bool_decide_eq_true_2 _ Ek). cbn [negb orb].
  fold (same_content c c'). by destruct (same_content c c').
Qed.

(** The answer to a command whose key an earlier one holds. *)
Definition verdict (original incoming : CommandEnvelope) : result DurableStoreError CommandReceipt :=
  if same_content original incoming
  then Ok (duplicate_command_receipt (cmd_command_id incoming) (cmd_command_id original))
  else Err StConflict.

(** The two ways to submit a command; the second also reserves a key of the older form. *)
Definition submission (c : CommandEnvelope) (legacy : option (option OpaqueId * bytes)) :
    journal_call :=
  match legacy with
  | None => CallAccept c
  | Some (generated, key) => CallAcceptLegacy generated c key
  end.

Lemma receipt_not_accepted original incoming id :
  receipt_for_existing original incoming ≠ Ok (accepted_command_receipt id).
Proof.
  unfold receipt_for_existing.
  destruct (compare_command_idempotency original incoming) as [[]|[]]; cbn; done.
Qed.

Lemma accept_canonical_stored key d j id :
  wp (accept_canonical key d) j (λ j' r,
    r = Ok (accepted_command_receipt id) → accepted j' !! key = Some d).
Proof.
  unfold accept_canonical. apply wp_get. destruct (accepted j !! key) as [original|].
  - apply wp_lift_end. by intros ?%receipt_not_accepted.
  - apply wp_guard; [intros _|done]. intros _. apply lookup_insert_eq.
Qed.

(** Accepting a command stores it under its key. *)
Lemma accepted_stored c d legacy m m1 id :
  canonical_command c = Ok d →
  exec (submission c legacy) m = (m1, Ok (AnsReceipt (accepted_command_receipt id))) →
  ∃ k, command_key d = Ok k ∧ accepted (m_journal m1) !! k = Some d.
Proof.
  intros Hc He.
  assert (wp (exec (submission c legacy)) m (λ m' r,
    r = Ok (AnsReceipt (accepted_command_receipt id)) →
    ∃ k, command_key d = Ok k ∧ accepted (m_journal m') !! k = Some d)) as Hw;
    [|by eapply (wp_run _ _ _ _ _ Hw)].
  assert (∀ k (j' : Journal) (r : result DurableStoreError CommandReceipt),
    command_key d = Ok k →
    (r = Ok (accepted_command_receipt id) → accepted j' !! k = Some d) →
    match r with Ok a => Ok (AnsReceipt a) | Err e => Err e end
      = Ok (AnsReceipt (accepted_command_receipt id)) →
    ∃ k, command_key d = Ok k ∧ accepted j' !! k = Some d) as Hend.
  { intros k j' [r|e] Hk Hr; [|done]. intros [= E]. exists k. split; [done|]. apply Hr. by rewrite E. }
  destruct legacy as [[generated key]|]; apply answering_journal_wp.
  - unfold accept_command_with_legacy_reservation. rewrite Hc.
    apply wp_map_err; [|done]. intros ? [= <-]. apply wp_map_err; [|done]. intros incoming _.
    apply wp_lift; [|done]. intros raw _. apply wp_lift; [|done]. intros k Hk. apply wp_get.
    destruct (accepted (m_journal m) !! raw) as [holder|].
    + destruct (is_legacy_reservation holder);
        [by eapply wp_mono; [|apply accept_canonical_stored]; intros j' r; apply (Hend k j')|].
      apply wp_lift_end. destruct (receipt_for_existing holder incoming) eqn:E; [|done].
      intros [= ->]. by apply receipt_not_accepted in E.
    + apply wp_lift; [|done]. intros reservation_id _. apply wp_map_err; [|done]. intros reservation _.
      apply wp_guard; [intros _|done]. apply wp_bind, wp_get, wp_put_end.
      eapply wp_mono; [|apply accept_canonical_stored]. intros j' r. by apply (Hend k j').
  - unfold accept_command. rewrite Hc. apply wp_map_err; [|done].
    intros ? [= <-]. apply wp_lift; [|done]. intros k Hk.
    eapply wp_mono; [|apply accept_canonical_stored]. intros j' r. by apply (Hend k j').
Qed.

(** An accepted key answers every later command under it. *)
Lemma accept_canonical_existing k original d j :
  canonical_command original = Ok original → command_key original = Ok k →
  canonical_command d = Ok d → command_key d = Ok k → accepted j !! k = Some original →
  accept_canonical k d j = (j, verdict original d).
Proof.
  intros Hoc Hok Hc Hk Ha. unfold accept_canonical, mbind, op_bind, lift, get. rewrite Ha.
  unfold verdict. by rewrite (compare_same_key original d k).
Qed.

(** ** The reservation of a legacy key *)

Definition legacy_key (c : CommandEnvelope) (key : bytes) : RecordKey := (scope_key (cmd_scope c), key).

(** At most a reservation was inserted, under a free legacy key. *)
Definition reserved (c : CommandEnvelope) (key : bytes) (j j' : Journal) : Prop :=
  j' = j
  ∨ ∃ reservation, is_legacy_reservation reservation = true
      ∧ accepted j !! legacy_key c key = None
      ∧ accepted_by_id j !! command_ref reservation = None
      ∧ j' = with_accepted (<[legacy_key c key := reservation]> (accepted j))
               (<[command_ref reservation := reservation]> (accepted_by_id j)) j.

(** What a submission with a legacy key is answered when the command's own key is held: what
    [original] makes of it; or else nothing changed, and it failed or was found to repeat the
    ordinary command that holds the legacy key. *)
Definition legacy_answer (c d original : CommandEnvelope) (key : bytes) (j j' : Journal)
    (r : result DurableStoreError CommandReceipt) : Prop :=
  r = verdict original d
  ∨ j' = j ∧ ((∃ e, r = Err e)
              ∨ ∃ holder, accepted j !! legacy_key c key = Some holder
                  ∧ is_legacy_reservation holder = false
                  ∧ r = Ok (duplicate_command_receipt (cmd_command_id c) (cmd_command_id holder))).

Lemma legacy_incoming_key c d key incoming raw :
  canonical_command c = Ok d → canonical_command (set_idempotency_key key d) = Ok incoming →
  command_key incoming = Ok raw →
  raw = legacy_key c key ∧ cmd_command_id incoming = cmd_command_id c.
Proof.
  intros (l & _ & _ & ->)%canonical_command_inv (l' & _ & _ & ->)%canonical_command_inv Hk.
  split; [|done]. by injection Hk as <-.
Qed.

Lemma canonical_reservation id c reservation :
  canonical_command (legacy_reservation id c) = Ok reservation →
  is_legacy_reservation reservation = true.
Proof.
  intros (l & _ & _ & ->)%canonical_command_inv. unfold is_legacy_reservation. cbn.
  by rewrite !bool_decide_eq_true_2.
Qed.

Lemma legacy_existing generated c d key k original j :
  commands_ok j → canonical_command c = Ok d → command_key d = Ok k →
  accepted j !! k = Some original →
  wp (accept_command_with_legacy_reservation generated c key) j (λ j' r,
    reserved c key j j' ∧ legacy_answer c d original key j j' r).
Proof.
  intros Hok Hc Hk Ha. destruct (co_key _ Hok _ _ Ha) as [Hoc Hok'].
  pose proof (canonical_command_stable _ _ Hc) as Hd.
  assert (∀ e, reserved c key j j ∧ legacy_answer c d original key j j (Err e)) as Herr.
  { intros e. split; [by left|]. right. split; [done|]. left. by exists e. }
  unfold accept_command_with_legacy_reservation. rewrite Hc.
  apply wp_map_err; [|done]. intros ? [= <-]. apply wp_map_err; [|done]. intros incoming Hin.
  apply wp_lift; [|done]. intros raw Hraw. rewrite Hk. apply wp_lift; [|done]. intros ? [= <-].
  destruct (legacy_incoming_key c d key incoming raw) as [Eraw Eid]; [done..|]. apply wp_get.
  destruct (accepted j !! raw) as [holder|] eqn:Eh.
  - destruct (is_legacy_reservation holder) eqn:Er.
    { unfold wp. rewrite (accept_canonical_existing k original d j) by done.
      split; [by left|by left]. }
    apply wp_lift_end. destruct (co_key _ Hok _ _ Eh) as [Hhc Hhk].
    rewrite (compare_same_key holder incoming raw); [|done|by eapply canonical_command_stable|done..].
    destruct (same_content holder incoming); [|done]. split; [by left|]. right. split; [done|].
    right. exists holder. rewrite Eid. by subst raw.
  - apply wp_lift; [|done]. intros reservation_id _. apply wp_map_err; [|done].
    intros reservation Hres%canonical_reservation.
    apply wp_guard; [intros Hfree%bool_decide_eq_false|done]. apply wp_bind, wp_get, wp_put_end.
    unfold wp. rewrite (accept_canonical_existing k original d); [|done..|].
    + split; [|by left]. right. exists reservation. rewrite <- Eraw.
      split_and!; [done|done|by apply eq_None_not_Some|done].
    + cbn. rewrite lookup_insert_ne; [done|]. congruence.
Qed.

(** An accepted command holds its key from then on. *)
Lemma accepted_later history between c d legacy m1 id :
  Forall typed_call history → Forall typed_call between → canonical_command c = Ok d →
  exec (submission c legacy) (run history empty_mem)
  = (m1, Ok (AnsReceipt (accepted_command_receipt id))) →
  commands_ok (m_journal (run between m1))
  ∧ ∃ k, command_key d = Ok k ∧ accepted (m_journal (run between m1)) !! k = Some d.
Proof.
  intros Hh Hb Hc Hacc.
  destruct (run_commands history empty_mem Hh empty_journal_ok) as (Hj & _ & Hok).
  specialize (Hok empty_commands_ok).
  assert (typed_call (submission c legacy)) as Ht by by destruct legacy as [[]|].
  pose proof (exec_commands _ _ Ht Hj) as He. pose proof (exec_keeps _ _ Ht Hj) as Hk.
  unfold wp in He, Hk. rewrite Hacc in He, Hk. cbn [fst snd] in *.
  destruct Hk as [Hj1 _], He as [_ Hok1]. specialize (Hok1 Hok).
  destruct (run_commands between m1 Hb Hj1) as (_ & [Hsub _ _ _] & Hok2). split; [auto|].
  destruct (accepted_stored c d legacy _ m1 id Hc Hacc) as (k & Hk1 & Hin).
  exists k. split; [done|]. by eapply lookup_weaken.
Qed.

(** C24: A command is accepted at most once, by whichever of the two ways it is submitted.  Once
    a command was accepted, whatever is called afterwards, a command with the same scope and
    idempotency key is never accepted again.  Submitted without a legacy key it changes nothing:
    if it says the same as the first it is answered as a duplicate that names the first, and
    otherwise as a conflict.  Submitted with a legacy key it changes at most one thing, a
    reservation inserted under that key where the key was free, and is then answered in the
    same way; or it changes nothing and either fails or is answered as a duplicate of the
    ordinary command that holds the legacy key. *)
Theorem command_is_accepted_once history between c1 c2 d1 d2 legacy1 m1 :
  Forall typed_call history → Forall typed_call between →
  canonical_command c1 = Ok d1 → canonical_command c2 = Ok d2 → command_key d1 = command_key d2 →
  exec (submission c1 legacy1) (run history empty_mem)
  = (m1, Ok (AnsReceipt (accepted_command_receipt (cmd_command_id c1)))) →
  let m2 := run between m1 in
  exec (submission c2 None) m2
  = (m2, if same_content d1 d2
         then Ok (AnsReceipt (duplicate_command_receipt (cmd_command_id c2) (cmd_command_id c1)))
         else Err StConflict)
  ∧ ∀ generated key, ∃ j3 r,
      exec (submission c2 (Some (generated, key))) m2
      = (with_journal j3 m2, match r with Ok a => Ok (AnsReceipt a) | Err e => Err e end)
      ∧ reserved c2 key (m_journal m2) j3 ∧ legacy_answer c2 d2 d1 key (m_journal m2) j3 r.
Proof.
  intros Hh Hb Hc1 Hc2 Ek Hacc m2.
  destruct (accepted_later history between c1 d1 legacy1 m1 (cmd_command_id c1))
    as (Hok & k & Hk1 & Hin); [done..|]. fold m2 in Hok, Hin.
  assert (command_key d2 = Ok k) as Hk2 by congruence. split.
  - destruct (co_key _ Hok _ _ Hin) as [Hoc Hok'].
    cbn. unfold answering, on_journal, zoom, accept_command, mbind, op_bind, lift, get.
    rewrite Hc2. cbn [map_err]. rewrite Hk2, (accept_canonical_existing k d1 d2);
      [|done|done|by eapply canonical_command_stable|done|done].
    unfold verdict. apply canonical_command_inv in Hc1 as (l1 & _ & _ & ->).
    apply canonical_command_inv in Hc2 as (l2 & _ & _ & ->).
    destruct (same_content _ _); cbn; by destruct m2.
  - intros generated key.
    pose proof (legacy_existing generated c2 d2 key k d1 (m_journal m2) Hok Hc2 Hk2 Hin) as Hw.
    unfold wp in Hw. cbn. unfold answering, on_journal, zoom, mbind, op_bind, mret, op_ret.
    destruct (accept_command_with_legacy_reservation generated c2 key (m_journal m2)) as [j3 r].
    exists j3, r. split; [|done]. by destruct r.
Qed.

(** C36: The outcome of a command is final.  Once a terminal event is recorded for a command,
    the command is an accepted one and the event is stored in the journal and names it as
    its cause; and whatever is called afterwards the outcome stays the same, and a further
    attempt to record an outcome for that command changes nothing. *)
Theorem command_outcome_is_final history later k id :
  Forall typed_call history → Forall typed_call later →
  let m := run history empty_mem in
  terminal_events (m_journal m) !! k = Some id →
  (∃ scope command_id command e, k = record_key scope command_id
     ∧ accepted_by_id (m_journal m) !! k = Some command
     ∧ events (m_journal m) !! record_key scope id = Some e
     ∧ causation_id (ev_correlation e) = Some command_id)
  ∧ terminal_events (m_journal (run later m)) !! k = Some id
  ∧ ∀ scope command_id e, k = record_key scope command_id →
      (exec (CallTerminal scope command_id e) (run later m)).1 = run later m.
Proof.
  intros Hh Hl m Hk.
  destruct (run_commands history empty_mem Hh empty_journal_ok) as (Hj & _ & Hok).
  destruct (run_commands later m Hl Hj) as (_ & [_ _ _ Hsub] & _).
  assert (terminal_events (m_journal (run later m)) !! k = Some id) as Hk' by by eapply lookup_weaken.
  split_and!; [|done|].
  - destruct (co_outcome _ (Hok empty_commands_ok) _ _ Hk) as (scope & cid & e & ? & [c ?] & ? & ?).
    by exists scope, cid, c, e.
  - intros scope command_id e ->.
    change (wp (exec (CallTerminal scope command_id e)) (run later m) (λ m' _, m' = run later m)).
    apply answering_wp. eapply wp_mono; [|apply record_terminal_wp].
    intros m' [[]|] [_ Hr]; [congruence|done..].
Qed.
End commands.

(** * Witnesses *)

#[local] Existing Instance toy_digest.

Definition order (id : string) (payload : string) : CommandEnvelope :=
  mk_command (oid id) news_scope (str "vendor.example.order") (str payload)
    (mk_correlation (oid id) None (Some (str "k1"))) (mk_version 1 0) [].

Lemma command_is_accepted_once_witness :
  let m1 := (exec (submission (order "o1" "two") (Some (Some (oid "r1"), str "old-1")))
               (run news_history empty_mem)).1 in
  let m2 := run [CallAppend (news "e4" None)] m1 in
  (exec (submission (order "o2" "two") None) m2).2
  = Ok (AnsReceipt (duplicate_command_receipt (oid "o2") (oid "o1")))
  ∧ (exec (submission (order "o2" "three") None) m2).2 = Err StConflict
  ∧ ∃ j3 r, exec (submission (order "o2" "two") (Some (Some (oid "r2"), str "old-2"))) m2
      = (with_journal j3 m2, match r with Ok a => Ok (AnsReceipt a) | Err e => Err e end)
      ∧ reserved (order "o2" "two") (str "old-2") (m_journal m2) j3.
Proof.
  cbv zeta. split; [|split].
  - destruct (command_is_accepted_once news_history [CallAppend (news "e4" None)] (order "o1" "two")
      (order "o2" "two") (order "o1" "two") (order "o2" "two")
      (Some (Some (oid "r1"), str "old-1"))
      (exec (submission (order "o1" "two") (Some (Some (oid "r1"), str "old-1")))
         (run news_history empty_mem)).1) as [E _];
      [apply news_history_typed|typed_calls|vm_compute; reflexivity..|].
    rewrite E. vm_compute. reflexivity.
  - destruct (command_is_accepted_once news_history [CallAppend (news "e4" None)] (order "o1" "two")
      (order "o2" "three") (order "o1" "two") (order "o2" "three")
      (Some (Some (oid "r1"), str "old-1"))
      (exec (submission (order "o1" "two") (Some (Some (oid "r1"), str "old-1")))
         (run news_history empty_mem)).1) as [E _];
      [apply news_history_typed|typed_calls|vm_compute; reflexivity..|].
    rewrite E. vm_compute. reflexivity.
  - destruct (command_is_accepted_once news_history [CallAppend (news "e4" None)] (order "o1" "two")
      (order "o2" "two") (order "o1" "two") (order "o2" "two")
      (Some (Some (oid "r1"), str "old-1"))
      (exec (submission (order "o1" "two") (Some (Some (oid "r1"), str "old-1")))
         (run news_history empty_mem)).1) as [_ H];
      [apply news_history_typed|typed_calls|vm_compute; reflexivity..|].
    destruct (H (Some (oid "r2")) (str "old-2")) as (j3 & r & E & Hr & _). exists j3, r.
    split; [exact E|exact Hr].
Defined.

(** An order accepted and its outcome recorded. *)
Definition ordered : list journal_call :=
  [CallAccept (order "o1" "two");
   CallTerminal news_scope (oid "o1") (news "done" (Some (oid "o1")))].

Lemma command_outcome_is_final_witness :
  let k := record_key news_scope (oid "o1") in
  let m := run ordered empty_mem in
  terminal_events (m_journal (run news_history m)) !! k = Some (oid "done")
  ∧ (exec (CallTerminal news_scope (oid "o1") (news "again" (Some (oid "o1"))))
       (run news_history m)).1 = run news_history m.
Proof.
  cbv zeta.
  destruct (command_outcome_is_final ordered news_history (record_key news_scope (oid "o1")) (oid "done"))
    as (_ & Hk & Hfinal); [typed_calls|apply news_history_typed|vm_compute; reflexivity|].
  split; [exact Hk|]. by apply Hfinal.
Defined.
