(* ===== verification/AntiEntropy.v ===== *)
(** Anti-entropy paging: following the cursors enumerates the snapshot the first page was
    taken from, however much the journal grows meanwhile, and it ends. *)

From S2P Require Import Prelude Ids Framing Extension Message Delivery StoreForward Sync Store.
From S2P Require Import Call Group Version Event Bridge Offline Memory OpLogic.
From S2P Require Import EventStore EventFacts Subscription EventCalls.

Section anti_entropy.
Context `{Sha256}.

(** The summary of a stored event. *)
Definition summary_of (e : EventEnvelope) : EventSummary :=
  mk_summary (ev_event_id e) (mk_fingerprint FaSha256V1 (sha256 (event_preimage e))).

Definition in_scope (scope : TenantScope) (keys : list RecordKey) : list RecordKey :=
  List.filter (λ k, bool_decide (k.1 = scope_key scope)) keys.

(** The summaries of the events of a scope among the first [snapshot] of the journal. *)
Definition summaries_between (scope : TenantScope) (j : Journal) (a b : Z) : list EventSummary :=
  summary_of <$> resolve j (in_scope scope (slice a b (event_order j))).

(** A client that follows the cursors; the journal may differ from page to page. *)
Fixpoint collect (scope : TenantScope) (session_id : SessionId) (max_items : Z)
    (cursor : option AntiEntropyCursor) (states : list Memory) : option (list EventSummary) :=
  match states with
  | [] => None
  | m :: states =>
      match (anti_entropy_summary_page scope session_id cursor max_items m).2 with
      | Ok page =>
          match ap_next_cursor page with
          | None => Some (ap_summaries page)
          | Some cursor =>
              rest ← collect scope session_id max_items (Some cursor) states;
              Some (ap_summaries page ++ rest)
          end
      | Err _ => None
      end
  end.

Lemma cursor_roundtrip session snapshot position :
  (0 ≤ position ≤ snapshot)%Z → (snapshot ≤ u64_max)%Z →
  decode_memory_cursor session (encode_memory_cursor session snapshot position)
  = Ok (snapshot, position).
Proof.
  intros Hp Hs. unfold encode_memory_cursor. set (binding := anti_entropy_session_binding session).
  assert (length binding = 32) as Hb by apply sha256_length.
  pose proof (length_be_bytes 8 snapshot) as Hl1. pose proof (length_be_bytes 8 position) as Hl2.
  remember (MEMORY_CURSOR_VERSION :: binding ++ be_bytes 8 snapshot ++ be_bytes 8 position)
    as token eqn:Etoken.
  assert (len token = MEMORY_CURSOR_LEN) as Hlen.
  { subst token. unfold len. cbn [length]. rewrite !length_app, Hb, Hl1, Hl2. done. }
  assert (take 32 (drop 1 token) = binding) as E1.
  { subst token. cbn [drop]. rewrite drop_0. by apply take_app_length'. }
  assert (take 8 (drop 33 token) = be_bytes 8 snapshot) as E2.
  { subst token. cbn [drop]. rewrite drop_app_length' by done. by apply take_app_length'. }
  assert (drop 41 token = be_bytes 8 position) as E3.
  { subst token. cbn [drop]. rewrite app_assoc. apply drop_app_length'. rewrite length_app. lia. }
  unfold decode_memory_cursor, validate_anti_entropy_cursor. rewrite Hlen, E1, E2, E3.
  rewrite (bool_decide_eq_false_2 (token = [])) by (by subst).
  rewrite (bool_decide_eq_true_2 (head token = _)) by (by subst).
  rewrite (bool_decide_eq_true_2 (binding = _)) by done.
  rewrite !be_value_be_bytes, !Z.mod_small by (unfold u64_max in Hs; cbn; lia). cbn.
  destruct (Z.ltb_spec snapshot position); [lia|done].
Qed.

Lemma stored_fingerprint j k e :
  log_ok j → events j !! k = Some e →
  event_fingerprint e = Ok (mk_fingerprint FaSha256V1 (sha256 (event_preimage e))).
Proof. intros Hlog Hk. apply (lo_event _ Hlog) in Hk as [_ Hc]. unfold event_fingerprint. by rewrite Hc. Qed.

Abbreviation summarised j scope keys := (summary_of <$> resolve j (in_scope scope keys)).

(** A page summarises a prefix of what is left of the snapshot; it is full unless it
    reaches the snapshot. *)
Lemma summary_loop_spec j scope snapshot n order p acc :
  log_ok j → (∀ k, k ∈ order → k ∈ event_order j) → (p ≤ snapshot ≤ p + len order)%Z →
  ∃ c, c ≤ length order ∧ (p + Z.of_nat c ≤ snapshot)%Z
    ∧ summary_loop j (scope_key scope) snapshot n p acc order
      = Ok (acc ++ summarised j scope (take c order), p + Z.of_nat c)%Z
    ∧ ((p + Z.of_nat c < snapshot)%Z → n ≤ length (acc ++ summarised j scope (take c order))).
Proof.
  intros Hlog. revert p acc. induction order as [|k order IH]; intros p acc Hin Hs.
  { exists 0. unfold len in Hs. cbn in Hs |- *. rewrite app_nil_r, Z.add_0_r.
    destruct (Z.leb_spec snapshot p); [|lia]. split_and!; [lia|lia|done|lia]. }
  cbn [summary_loop]. destruct (Z.leb_spec snapshot p) as [Hle|Hlt]; cbn [orb].
  { exists 0. cbn. rewrite app_nil_r, Z.add_0_r. split_and!; [lia|lia|done|lia]. }
  destruct (Nat.leb_spec n (length acc)) as [Hn|Hn].
  { exists 0. cbn. rewrite app_nil_r, Z.add_0_r. split_and!; [lia|lia|done|done]. }
  unfold len in Hs. cbn [length] in Hs.
  destruct (proj1 (lo_dom _ Hlog k)) as [e He]; [apply Hin; set_solver|].
  assert (summarised j scope (k :: order) = [] ++ summarised j scope (k :: order)) by done.
  destruct (bool_decide (k.1 = scope_key scope)) eqn:Hk; cbn [negb].
  - rewrite He. cbn [ok_or mbind result_bind]. rewrite (stored_fingerprint _ _ _ Hlog He).
    cbn [map_err mbind result_bind].
    destruct (IH (p + 1)%Z (acc ++ [summary_of e])) as (c & Hc & Hpos & E & Hfull);
      [set_solver|unfold len; lia|].
    exists (S c). cbn [take in_scope List.filter]. unfold summary_of at 1 in E. rewrite E.
    unfold in_scope. cbn [List.filter]. rewrite Hk. unfold resolve. cbn [omap list_omap]. rewrite He. cbn [fmap list_fmap].
    fold (in_scope scope (take c order)). fold (resolve j (in_scope scope (take c order))).
    rewrite <- app_assoc in *. split_and!; [cbn; lia|lia|f_equal; f_equal; lia|].
    intros ?. apply Hfull. lia.
  - destruct (IH (p + 1)%Z acc) as (c & Hc & Hpos & E & Hfull); [set_solver|unfold len; lia|].
    exists (S c). cbn [take]. rewrite E. unfold in_scope. cbn [List.filter]. rewrite Hk.
    fold (in_scope scope (take c order)).
    split_and!; [cbn; lia|lia|f_equal; f_equal; lia|]. intros ?. apply Hfull. lia.
Qed.

Section paging.
Context (scope : TenantScope) (session_id : SessionId) (session : SyncSession) (max_items : Z).
Context (Hitems : (1 ≤ max_items ≤ MAX_ANTI_ENTROPY_PAGE_ITEMS)%Z).

(** The session is open for anti-entropy. *)
Definition session_open (m : Memory) : Prop :=
  sync_sessions (m_base m) !! record_key scope session_id = Some session
  ∧ validate_anti_entropy_session session = Ok tt.

(** The cursor that resumes a snapshot at a position. *)
Definition resumes (j : Journal) (snapshot p : Z) (cursor : option AntiEntropyCursor) : Prop :=
  (cursor = None ∧ snapshot = len (event_order j) ∧ p = 0%Z)
  ∨ cursor = Some (encode_memory_cursor session snapshot p).

Lemma page_spec m snapshot p cursor :
  log_ok (m_journal m) → session_open m → (0 ≤ p ≤ snapshot)%Z →
  (snapshot ≤ len (event_order (m_journal m)))%Z → (snapshot ≤ u64_max)%Z →
  resumes (m_journal m) snapshot p cursor →
  ∃ p', (p ≤ p' ≤ snapshot)%Z
    ∧ (anti_entropy_summary_page scope session_id cursor max_items m).2
      = Ok (mk_page (sy_session_id session) (sy_scope session)
              (summaries_between scope (m_journal m) p p')
              (if (p' <? snapshot)%Z then Some (encode_memory_cursor session snapshot p') else None))
    ∧ ((p' < snapshot)%Z → 0 < length (summaries_between scope (m_journal m) p p')).
Proof.
  intros Hlog [Hs Hv] Hp Hlen Hmax Hcur.
  destruct (summary_loop_spec (m_journal m) scope snapshot (Z.to_nat max_items)
    (drop (Z.to_nat p) (event_order (m_journal m))) p [] Hlog) as (c & Hc & Hpos & E & Hfull);
    [intros k; apply drop_elem|unfold len in *; rewrite length_drop; lia|].
  exists (p + Z.of_nat c)%Z. cbn [app] in E, Hfull.
  assert (slice p (p + Z.of_nat c) (event_order (m_journal m))
          = take c (drop (Z.to_nat p) (event_order (m_journal m)))) as Es.
  { unfold slice. f_equal. lia. }
  unfold summaries_between. rewrite Es. split; [lia|]. split; [|intros Hlt; specialize (Hfull Hlt); lia].
  change (wp (anti_entropy_summary_page scope session_id cursor max_items) m (λ _ r, r = Ok (mk_page
    (sy_session_id session) (sy_scope session)
    (summarised (m_journal m) scope (take c (drop (Z.to_nat p) (event_order (m_journal m)))))
    (if (p + Z.of_nat c <? snapshot)%Z
     then Some (encode_memory_cursor session snapshot (p + Z.of_nat c)) else None)))).
  unfold anti_entropy_summary_page, validate_anti_entropy_page_size.
  destruct (Z.eqb_spec max_items 0); [lia|].
  destruct (Z.ltb_spec MAX_ANTI_ENTROPY_PAGE_ITEMS max_items); [lia|].
  apply wp_invalid; [intros [] _|done]. apply wp_get.
  unfold load_anti_entropy_session. rewrite Hs. cbn [ok_or mbind result_bind]. rewrite Hv.
  apply wp_lift; [|done]. intros ? [= <-].
  assert (match cursor with
          | Some cursor => decode_memory_cursor session cursor
          | None => Ok (len (event_order (m_journal m)), 0%Z)
          end = Ok (snapshot, p)) as ->.
  { destruct Hcur as [(-> & -> & ->)| ->]; [done|]. by apply cursor_roundtrip. }
  apply wp_lift; [|done]. intros ? [= <-].
  apply wp_guard; [intros _|intros Hbad; bool_norm; lia].
  rewrite E. apply wp_lift; [|done]. intros ? [= <-]. by apply wp_ret.
Qed.

Lemma summaries_between_app j a b c :
  (0 ≤ a ≤ b)%Z → (b ≤ c)%Z →
  summaries_between scope j a c = summaries_between scope j a b ++ summaries_between scope j b c.
Proof.
  intros Ha Hb. unfold summaries_between, resolve, in_scope.
  by rewrite (slice_app a b c), List.filter_app, omap_app, fmap_app by done.
Qed.

Lemma summaries_between_continues j j' a b :
  continues j j' → (0 ≤ a ≤ b)%Z → (b ≤ len (event_order j))%Z →
  summaries_between scope j' a b = summaries_between scope j a b.
Proof.
  intros Hc Ha Hb. unfold summaries_between. f_equal. rewrite (slice_continues j j') by done.
  apply resolve_continues; [done|]. intros k Hk. apply (slice_elem k a b).
  apply list_elem_of_In. by apply list_elem_of_In, List.filter_In in Hk as [? _].
Qed.

(** From any position on, the rest of the snapshot is collected. *)
Lemma collect_from j snapshot states p cursor :
  (snapshot ≤ len (event_order j))%Z → (snapshot ≤ u64_max)%Z →
  Forall (λ m, log_ok (m_journal m) ∧ session_open m ∧ continues j (m_journal m)) states →
  (0 ≤ p ≤ snapshot)%Z → (∀ m, head states = Some m → resumes (m_journal m) snapshot p cursor) →
  length (summaries_between scope j p snapshot) < length states →
  collect scope session_id max_items cursor states = Some (summaries_between scope j p snapshot).
Proof.
  intros Hs Hmax Hst. revert p cursor.
  induction Hst as [|m states (Hlog & Hopen & Hc) _ IH]; intros p cursor Hp Hcur Hn; [cbn in Hn; lia|].
  pose proof (continues_len _ _ Hc).
  destruct (page_spec m snapshot p cursor) as (p' & Hp' & E & Hfull); [done|done|done|lia|done|by apply Hcur|].
  cbn [collect]. rewrite E. cbn [ap_next_cursor ap_summaries].
  rewrite (summaries_between_app j p p' snapshot) in Hn |- * by lia.
  rewrite (summaries_between_continues j) in Hfull |- * by (done || lia).
  destruct (Z.ltb_spec p' snapshot) as [Hlt|Hge].
  - rewrite (IH p'); [done|lia|by right|]. rewrite length_app in Hn. specialize (Hfull Hlt). cbn in Hn. lia.
  - assert (p' = snapshot) as -> by lia. f_equal.
    unfold summaries_between at 3. rewrite slice_nil. by rewrite app_nil_r.
Qed.
End paging.

(** C35: As long as the sync session stays stored unchanged and open for anti-entropy at every
    page, following the cursors of anti-entropy pages enumerates exactly the events of the
    scope that were in the journal when the first page was requested, each once and in journal
    order, however many events are appended and whatever else is called between the pages;
    with any admitted page size, and a journal whose positions fit 64 bits, one page more than
    there are such events is enough to reach the last page. *)
Theorem anti_entropy_pages_enumerate_snapshot history scope session_id session max_items between :
  Forall typed_call history → Forall (Forall typed_call) between →
  (1 ≤ max_items ≤ MAX_ANTI_ENTROPY_PAGE_ITEMS)%Z →
  let m := run history empty_mem in
  let states := m :: ((λ cs, run cs m) <$> between) in
  Forall (session_open scope session_id session) states →
  (len (event_order (m_journal m)) ≤ u64_max)%Z →
  let all := summaries_between scope (m_journal m) 0 (len (event_order (m_journal m))) in
  length all < length states →
  collect scope session_id max_items None states = Some all.
Proof.
  intros Hh Hb Hi m states Hopen Hlen all Hn.
  assert (journal_ok (m_journal m)) as Hj by by apply run_keeps, empty_journal_ok.
  apply (collect_from scope session_id session max_items Hi); [done|done| |unfold len; lia| |done].
  - apply Forall_forall. intros m' Hm'. rewrite Forall_forall in Hopen. specialize (Hopen _ Hm').
    apply elem_of_cons in Hm' as [->|(cs & -> & Hcs)%list_elem_of_fmap];
      [split_and!; [apply Hj|done|done]|].
    rewrite Forall_forall in Hb. specialize (Hb _ Hcs).
    split_and!; [by apply run_keeps|done|by apply run_continues].
  - intros m' [= <-]. by left.
Qed.
End anti_entropy.

(** * Witness *)

#[local] Existing Instance toy_digest.

Definition news_session : SyncSession :=
  mk_sync_session (oid "sync") news_scope (oid "laptop") (oid "phone") SlDeviceDevice
    (mk_selection SmFull []) SsActive.
(** The session is open before the events arrive. *)
Definition syncing : list journal_call :=
  CallElsewhere (with_base (with_sync_sessions
    {[record_key news_scope (oid "sync") := news_session]} empty_memory) empty_mem) :: news_history.

Lemma anti_entropy_pages_enumerate_snapshot_witness :
  let m := run syncing empty_mem in
  let later := run [CallAppend (news "e4" None)] m in
  collect news_scope (oid "sync") 2 None [m; later; later; later]
  = Some (summary_of <$> [news "e1" None; news "e2" None; news "e3" None]).
Proof.
  cbv zeta. apply (anti_entropy_pages_enumerate_snapshot syncing news_scope (oid "sync") news_session 2
    [[CallAppend (news "e4" None)]; [CallAppend (news "e4" None)]; [CallAppend (news "e4" None)]]).
  - typed_calls.
  - repeat (apply List.Forall_cons; [typed_calls|]). apply List.Forall_nil.
  - split; vm_compute; discriminate.
  - repeat (apply List.Forall_cons; [split; vm_compute; reflexivity|]). apply List.Forall_nil.
  - vm_compute. discriminate.
  - vm_compute. lia.
Defined.
