(* ===== verification/CallStore.v ===== *)
(** Calls in the in-memory store: creation, signals, the joint termination of a direct call
    and the media call derived from it, and the reconciliation of group calls with a changed
    membership (crates/ucr-storage-memory/src/call_store.rs). *)

From S2P Require Import Prelude Ids Framing Extension Message StoreForward Store Call Group Event.
From S2P Require Import Memory.

Definition map_call_error (error : CallSignallingError) : DurableStoreError :=
  match error with
  | CePermissionDenied => StPermissionDenied
  | CeRevisionMismatch | CeInvalidTransition | CeParticipantAlreadyExists
  | CeWouldRemoveInitiator => StConflict
  | CeTooManyParticipants => StFull
  | _ => StInvalidRecord
  end.

Definition call_key : TenantScope → CallId → RecordKey := record_key.
Definition call_signal_key : TenantScope → EventId → RecordKey := record_key.

(** * Group membership of call participants *)

(** [groups.values().find(..)] by scope and conversation. *)
Definition bound_group (m : Memory) (scope : TenantScope) (conversation : ConversationRef) :
    option GroupRecord :=
  List.find (λ group, bool_decide (gr_scope group = scope)
                      && bool_decide (gr_conversation group = conversation))
    (values (groups (m_groups m))).

(** [group_memberships.values().any(..)]: the principal is an active member. *)
Definition member_active (m : Memory) (scope : TenantScope) (group_id : GroupId)
    (principal : PrincipalRef) : bool :=
  existsb (λ membership, bool_decide (gm_scope membership = scope)
                         && bool_decide (gm_group_id membership = group_id)
                         && bool_decide (gm_member membership = principal)
                         && bool_decide (gm_state membership = GmActive))
    (values (group_memberships (m_groups m))).

Definition require_group_participants_if_needed (m : Memory) (session : CallSession) :
    result DurableStoreError unit :=
  if negb (is_group_conversation_kind (conversation_kind (cs_conversation session))) then Ok tt
  else
    group ← ok_or (bound_group m (cs_scope session) (cs_conversation session)) StPermissionDenied;
    try_for_each (λ participant,
      reject_if (negb (member_active m (cs_scope session) (gr_group_id group)
                         (cp_principal participant))) StPermissionDenied)
      (cs_participants session).

Definition group_actor_current_if_needed (m : Memory) (session : CallSession)
    (actor : PrincipalRef) : bool :=
  if negb (is_group_conversation_kind (conversation_kind (cs_conversation session))) then true
  else
    match bound_group m (cs_scope session) (cs_conversation session) with
    | None => false
    | Some group => member_active m (cs_scope session) (gr_group_id group) actor
    end.

Definition require_group_signal_target_if_needed (m : Memory) (session : CallSession)
    (signal : CallSignal) : result DurableStoreError unit :=
  match sg_kind signal with
  | SkParticipantUpdate participant CuAdd =>
      if negb (is_group_conversation_kind (conversation_kind (cs_conversation session)))
      then Ok tt
      else
        group ← ok_or (bound_group m (cs_scope session) (cs_conversation session))
                  StPermissionDenied;
        reject_if (negb (member_active m (cs_scope session) (gr_group_id group) participant))
          StPermissionDenied
  | _ => Ok tt
  end.

Definition duplicate_actor_allowed (session : CallSession) (actor : PrincipalRef)
    (applied_revision : Z) : bool :=
  match List.find (λ value, bool_decide (cp_principal value = actor)) (cs_participants session) with
  | None => false
  | Some participant =>
      if bool_decide (cs_signalling_state session = CsTerminated)
      then (cs_revision session =? applied_revision)%Z
      else if active_call_participant session actor then true
      else match cp_state participant with
           | CpRejected | CpBusy =>
               bool_decide (cp_left_revision participant = None)
               && (applied_revision <=? cs_revision session)%Z
           | CpLeft => bool_decide (cp_left_revision participant = Some applied_revision)
           | CpInvited | CpRinging | CpAccepted => false
           end
  end.

(** * Creation and signals *)

Section store.
Context `{Sha256}.

Definition validated_call_from_state (m : Memory) (scope : TenantScope) (call_id : CallId) :
    result DurableStoreError (option CallSession) :=
  let key := call_key scope call_id in
  match calls (m_calls m) !! key with
  | None =>
      if bool_decide (is_Some (call_creation_fingerprints (m_calls m) !! key))
      then Err StCorrupt else Ok None
  | Some session =>
      canonical ← map_err map_call_error (canonical_call_session session);
      recorded ← ok_or (call_creation_fingerprints (m_calls m) !! key) StCorrupt;
      derived ← map_err map_call_error (call_creation_fingerprint sha256 canonical);
      reject_if (negb (bool_decide (recorded = derived))) StCorrupt ;;
      Ok (Some canonical)
  end.

(** The tests of [parent_invalid] before the stored parent is read. *)
Definition parent_mismatch (creator : ScopedPrincipal) (session parent : CallSession) : bool :=
  negb (bool_decide (cs_scope parent = cs_scope session))
  || bool_decide (cs_call_id parent = cs_call_id session)
  || negb (bool_decide (cs_initiated_by parent = sp_principal creator))
  || negb (bool_decide (cs_initiated_by session = cs_initiated_by parent))
  || negb (len (cs_participants session) =? 2)%Z
  || negb (forallb (λ participant,
             existsb (λ member, bool_decide (cp_principal member = cp_principal participant))
               (cs_participants parent)) (cs_participants session))
  || negb (bool_decide (conversation_kind (cs_conversation parent) = CkDirect))
  || negb (bool_decide (cs_signalling_state parent = CsActive))
  || negb (len (cs_participants parent) =? 2)%Z
  || negb (forallb (λ participant, bool_decide (cp_state participant = CpAccepted)
                                   && bool_decide (cp_left_revision participant = None))
             (cs_participants parent)).

Definition parent_guard (m : Memory) (creator : ScopedPrincipal) (session : CallSession)
    (parent : option CallSession) : result DurableStoreError unit :=
  match parent with
  | None => Ok tt
  | Some parent =>
      if parent_mismatch creator session parent then Err StPermissionDenied
      else
        current ← validated_call_from_state m (cs_scope parent) (cs_call_id parent);
        reject_if (negb (bool_decide (current = Some parent))) StPermissionDenied
  end.

Definition create_call_with_parent_guard (creator : ScopedPrincipal) (session : CallSession)
    (parent : option CallSession) : mem_op DurableRecordStatus :=
  session ← lift (map_err map_call_error
    (canonical_call_creation session (sp_scope creator) (sp_principal creator)));
  creation_fingerprint ← lift (map_err map_call_error (call_creation_fingerprint sha256 session));
  let key := call_key (cs_scope session) (cs_call_id session) in
  m ← get;
  lift (parent_guard m creator session parent) ;;
  conversation ← lift (ok_or (conversations (m_base m)
      !! record_key (cs_scope session) (conversation_id (cs_conversation session)))
    StInvalidRecord);
  guard (negb (bool_decide (cr_conversation conversation = cs_conversation session)))
    StInvalidRecord ;;
  current ← lift (validated_call_from_state m (cs_scope session) (cs_call_id session));
  match current with
  | Some existing =>
      guard (negb (group_actor_current_if_needed m existing (sp_principal creator)))
        StPermissionDenied ;;
      recorded ← lift (ok_or (call_creation_fingerprints (m_calls m) !! key) StCorrupt);
      same_or_conflict (bool_decide (recorded = creation_fingerprint)
                        && bool_decide (sp_principal creator = cs_initiated_by existing))
  | None =>
      lift (require_group_participants_if_needed m session) ;;
      put (with_calls (mk_call_tables (<[key := session]> (calls (m_calls m)))
             (<[key := creation_fingerprint]> (call_creation_fingerprints (m_calls m)))
             (call_signals (m_calls m)) (conference_join_grants (m_calls m))) m) ;;
      mret RecPersisted
  end.

Definition create_call (creator : ScopedPrincipal) (session : CallSession) :
    mem_op DurableRecordStatus :=
  create_call_with_parent_guard creator session None.

Definition create_call_if_parent_current (creator : ScopedPrincipal)
    (session parent : CallSession) : mem_op DurableRecordStatus :=
  create_call_with_parent_guard creator session (Some parent).

Definition apply_call_signal_in_state (actor : ScopedPrincipal) (signal : CallSignal) :
    mem_op DurableRecordStatus :=
  guard (negb (bool_decide (sp_scope actor = sg_scope signal))) StPermissionDenied ;;
  fingerprint ← lift (map_err map_call_error (call_signal_fingerprint sha256 signal));
  let key := call_key (sg_scope signal) (sg_call_id signal) in
  let signal_key := call_signal_key (sg_scope signal) (sg_event_id signal) in
  m ← get;
  found ← lift (validated_call_from_state m (sg_scope signal) (sg_call_id signal));
  current ← lift (ok_or found StInvalidRecord);
  guard (negb (group_actor_current_if_needed m current (sp_principal actor)))
    StPermissionDenied ;;
  match call_signals (m_calls m) !! signal_key with
  | Some (recorded_actor, existing, applied_revision) =>
      guard (negb (bool_decide (recorded_actor = sp_principal actor))
             || negb (duplicate_actor_allowed current (sp_principal actor) applied_revision))
        StPermissionDenied ;;
      same_or_conflict (bool_decide (existing = fingerprint))
  | None =>
      guard (negb (active_call_participant current (sp_principal actor))) StPermissionDenied ;;
      lift (require_group_signal_target_if_needed m current signal) ;;
      next ← lift (map_err map_call_error
        (apply_call_signal current (sp_scope actor) (sp_principal actor) signal));
      let event_key := record_key (sg_scope signal) (sg_event_id signal) in
      guard (bool_decide (is_Some (events (m_journal m) !! event_key))
             || bool_decide (is_Some (group_changes (m_groups m) !! event_key))) StConflict ;;
      put (with_calls (mk_call_tables (<[key := next]> (calls (m_calls m)))
             (call_creation_fingerprints (m_calls m))
             (<[signal_key := (sp_principal actor, fingerprint, cs_revision next)]>
                (call_signals (m_calls m)))
             (conference_join_grants (m_calls m))) m) ;;
      mret RecPersisted
  end.

(** [CallStore::apply_call_signal]. *)
Definition apply_call_signal_op (actor : ScopedPrincipal) (signal : CallSignal) :
    mem_op DurableRecordStatus :=
  apply_call_signal_in_state actor signal.

(** * A direct call and its derived media call *)

Definition set_revoked (grant : ConferenceJoinGrantRecord) : ConferenceJoinGrantRecord :=
  mk_join_grant (jg_scope grant) (jg_conference_id grant) (jg_integration_id grant)
    (jg_call_id grant) (jg_participant grant) (jg_device_id grant) (jg_session_id grant)
    (jg_issued_at_unix_ms grant) (jg_not_before_unix_ms grant) (jg_expires_at_unix_ms grant)
    (jg_use_policy grant) true (jg_redeemed grant).

Definition derived_grant (scope : TenantScope) (derived_call_id : CallId)
    (grant : ConferenceJoinGrantRecord) : bool :=
  bool_decide (jg_scope grant = scope)
  && bool_decide (jg_call_id grant = derived_call_id)
  && bool_decide (as_wire_bytes (jg_integration_id grant)
                  = str "ucr-first-party-direct-media").

Definition revoke_first_party_derived_joins (scope : TenantScope) (derived_call_id : CallId)
    (m : Memory) : Memory :=
  with_calls (mk_call_tables (calls (m_calls m)) (call_creation_fingerprints (m_calls m))
    (call_signals (m_calls m))
    ((λ grant, if derived_grant scope derived_call_id grant then set_revoked grant else grant)
       <$> conference_join_grants (m_calls m))) m.

(** The media call belongs to the two parties of the direct call. *)
Definition media_mismatch (direct media : CallSession) : bool :=
  negb (bool_decide (cs_scope media = cs_scope direct))
  || negb (bool_decide (conversation_kind (cs_conversation media) = CkPrivateGroup))
  || negb (bool_decide (cs_initiated_by media = cs_initiated_by direct))
  || negb (len (cs_participants media) =? len (cs_participants direct))%Z
  || negb (forallb (λ member,
             existsb (λ p, bool_decide (cp_principal p = cp_principal member))
               (cs_participants direct)) (cs_participants media)).

Definition media_signal_kind (state : CallSignallingState) : option CallSignalKind :=
  match state with
  | CsTerminated => None
  | CsInviting | CsRinging => Some SkCancel
  | CsActive | CsReconnecting => Some (SkTerminate CtCompleted)
  end.

(** The closure of [terminate_direct_call_with_derived]. *)
Definition terminate_both (actor : ScopedPrincipal) (direct : CallSession)
    (direct_signal : CallSignal) (derived_call_id : CallId) (derived_event_id : EventId) :
    mem_op DurableRecordStatus :=
  result ← apply_call_signal_in_state actor direct_signal;
  if bool_decide (result = RecDuplicate) then mret result
  else
    m ← get;
    found ← lift (validated_call_from_state m (cs_scope direct) derived_call_id);
    match found with
    | None => mret result
    | Some media =>
        guard (media_mismatch direct media) StPermissionDenied ;;
        match media_signal_kind (cs_signalling_state media) with
        | None => mret result
        | Some kind =>
            apply_call_signal_in_state
              (mk_scoped_principal (cs_scope direct) (cs_initiated_by direct))
              (mk_signal derived_event_id (cs_scope direct) derived_call_id (cs_revision media)
                 kind) ;;
            mret result
        end
    end.

Definition restore_call (key : RecordKey) (before : option CallSession) (c : CallTables) :
    CallTables :=
  match before with Some call => set_calls (<[key := call]> (calls c)) c | None => c end.

Definition restore_signal (key : RecordKey) (before : option (PrincipalRef * bytes * Z))
    (c : CallTables) : CallTables :=
  match before with
  | Some record => set_call_signals (<[key := record]> (call_signals c)) c
  | None => set_call_signals (delete key (call_signals c)) c
  end.

(** What follows the closure: one state update when it failed, another when it did not. *)
Definition settle {A} (body : mem_op A) (failed succeeded : Memory → Memory) : mem_op A :=
  λ m, let '(m', outcome) := body m in
       match outcome with
       | Err e => (failed m', Err e)
       | Ok a => (succeeded m', Ok a)
       end.

Definition terminate_direct_call_with_derived (actor : ScopedPrincipal)
    (direct_signal : CallSignal) (derived_call_id : CallId) (derived_event_id : EventId) :
    mem_op DurableRecordStatus :=
  guard (negb (bool_decide (sp_scope actor = sg_scope direct_signal))
         || bool_decide (derived_call_id = sg_call_id direct_signal)
         || negb match sg_kind direct_signal with SkTerminate _ => true | _ => false end)
    StPermissionDenied ;;
  before ← get;
  found ← lift (validated_call_from_state before (sg_scope direct_signal)
                  (sg_call_id direct_signal));
  direct ← lift (ok_or found StInvalidRecord);
  guard (negb (bool_decide (conversation_kind (cs_conversation direct) = CkDirect)))
    StPermissionDenied ;;
  let direct_key := call_key (cs_scope direct) (cs_call_id direct) in
  let media_key := call_key (cs_scope direct) derived_call_id in
  let direct_event_key := call_signal_key (cs_scope direct) (sg_event_id direct_signal) in
  let media_event_key := call_signal_key (cs_scope direct) derived_event_id in
  let tables := m_calls before in
  settle (terminate_both actor direct direct_signal derived_call_id derived_event_id)
    (λ m, with_calls
       (restore_signal media_event_key (call_signals tables !! media_event_key)
         (restore_signal direct_event_key (call_signals tables !! direct_event_key)
           (restore_call media_key (calls tables !! media_key)
             (restore_call direct_key (calls tables !! direct_key) (m_calls m))))) m)
    (revoke_first_party_derived_joins (cs_scope direct) derived_call_id).

(** * Queries *)

Definition call (scope : TenantScope) (call_id : CallId) : mem_op (option CallSession) :=
  m ← get; lift (validated_call_from_state m scope call_id).

Definition call_for_participant (subject : ScopedPrincipal) (scope : TenantScope)
    (call_id : CallId) : mem_op (option CallSession) :=
  guard (negb (bool_decide (sp_scope subject = scope))) StPermissionDenied ;;
  m ← get;
  found ← lift (validated_call_from_state m scope call_id);
  match found with
  | None => mret None
  | Some session =>
      mret (if negb (active_call_participant session (sp_principal subject))
               || negb (group_actor_current_if_needed m session (sp_principal subject))
            then None else Some session)
  end.

(** The calls a filter selects, by call id, at most [max_items] of them, each read back
    through [validated_call_from_state]. *)
Definition selected_calls (m : Memory) (scope : TenantScope) (wanted : CallSession → bool)
    (max_items : Z) : result DurableStoreError (list CallSession) :=
  let ids := sort_by opaque_cmp (cs_call_id <$> List.filter wanted (values (calls (m_calls m)))) in
  try_collect (λ id,
    found ← validated_call_from_state m scope id;
    ok_or found StCorrupt) (take (Z.to_nat max_items) ids).

Definition bad_limit (max_items : Z) : bool := (max_items =? 0)%Z || (64 <? max_items)%Z.

(** [groups.values().find(..)] by scope and group id. *)
Definition group_by_id (m : Memory) (scope : TenantScope) (group_id : GroupId) :
    option GroupRecord :=
  List.find (λ group, bool_decide (gr_scope group = scope)
                      && bool_decide (gr_group_id group = group_id))
    (values (groups (m_groups m))).

Definition calls_for_group (scope : TenantScope) (group_id : GroupId) (max_items : Z) :
    mem_op (list CallSession) :=
  guard (bad_limit max_items) StInvalidRecord ;;
  m ← get;
  match group_by_id m scope group_id with
  | None => mret []
  | Some group =>
      lift (selected_calls m scope
        (λ call, bool_decide (cs_scope call = scope)
                 && bool_decide (cs_conversation call = gr_conversation group)) max_items)
  end.

Definition active_calls_for_group (scope : TenantScope) (group_id : GroupId) (max_items : Z) :
    mem_op (list CallSession) :=
  guard (bad_limit max_items) StInvalidRecord ;;
  m ← get;
  match group_by_id m scope group_id with
  | None => mret []
  | Some group =>
      lift (selected_calls m scope
        (λ call, bool_decide (cs_scope call = scope)
                 && bool_decide (cs_conversation call = gr_conversation group)
                 && negb (bool_decide (cs_signalling_state call = CsTerminated))) max_items)
  end.

Definition call_belongs_to_group (scope : TenantScope) (group_id : GroupId) (call_id : CallId) :
    mem_op bool :=
  m ← get;
  match group_by_id m scope group_id with
  | None => mret false
  | Some group =>
      found ← lift (validated_call_from_state m scope call_id);
      mret match found with
           | None => false
           | Some call => bool_decide (cs_conversation call = gr_conversation group)
           end
  end.

Definition incoming (recipient : ScopedPrincipal) (call : CallSession) : bool :=
  bool_decide (cs_scope call = sp_scope recipient)
  && bool_decide (conversation_kind (cs_conversation call) = CkDirect)
  && negb (bool_decide (cs_initiated_by call = sp_principal recipient))
  && match cs_signalling_state call with CsInviting | CsRinging => true | _ => false end
  && existsb (λ participant, bool_decide (cp_principal participant = sp_principal recipient)
                             && match cp_state participant with
                                | CpInvited | CpRinging => true
                                | _ => false
                                end) (cs_participants call).

Definition incoming_direct_calls (recipient : ScopedPrincipal) (max_items : Z) :
    mem_op (list CallSession) :=
  guard (bad_limit max_items) StInvalidRecord ;;
  m ← get;
  let ids := sort_by opaque_cmp
    (cs_call_id <$> List.filter (incoming recipient) (values (calls (m_calls m)))) in
  lift (try_collect (λ id,
    found ← validated_call_from_state m (sp_scope recipient) id;
    call ← ok_or found StCorrupt;
    reject_if (negb (active_call_participant call (sp_principal recipient))) StCorrupt ;;
    Ok call) (take (Z.to_nat max_items) ids)).
End store.

(** * Membership changes *)

Definition reconcile_group_calls_after_membership_change (group : GroupRecord)
    (memberships : list GroupMembership) : mem_op unit :=
  let active_members :=
    gm_member <$> List.filter (λ membership, bool_decide (gm_state membership = GmActive))
                    memberships in
  m ← get;
  let bound := List.filter (λ entry : RecordKey * CallSession,
      bool_decide (cs_scope entry.2 = gr_scope group)
      && bool_decide (cs_conversation entry.2 = gr_conversation group))
    (map_to_list (calls (m_calls m))) in
  reconciled ← lift (try_collect (λ entry : RecordKey * CallSession,
      next ← map_err map_call_error (reconcile_group_call_membership entry.2 active_members);
      Ok (entry, next)) bound);
  let updates := List.filter (λ update : RecordKey * CallSession * CallSession,
      negb (bool_decide (update.2 = update.1.2))) reconciled in
  put (with_calls (set_calls
    (foldl (λ t (update : RecordKey * CallSession * CallSession), <[update.1.1 := update.2]> t)
       (calls (m_calls m)) updates) (m_calls m)) m).
