(* ===== verification/GroupStore.v ===== *)
(** Groups in the in-memory store: creation, membership changes with the calls they end,
    bridge mappings, group messages and history floors, and the replicas exchanged offline or
    over a mesh (crates/ucr-storage-memory/src/group_store.rs). *)

From S2P Require Import Prelude Ids Framing Extension Message StoreForward Store Call Group Event.
From S2P Require Import Bridge Offline Memory CallStore.

Definition map_group_error (error : GroupError) : DurableStoreError :=
  match error with
  | GePermissionDenied => StPermissionDenied
  | GeRevisionMismatch | GeMemberAlreadyActive | GeMemberNotActive | GeInvalidRoleTransition
  | GeOwnershipTransferNotSupported | GeWouldOrphanGroup => StConflict
  | GeTooManyMembers => StFull
  | _ => StInvalidRecord
  end.

Definition group_key : TenantScope → GroupId → RecordKey := record_key.
Definition change_key : TenantScope → EventId → RecordKey := record_key.
Definition membership_key (scope : TenantScope) (group_id : GroupId) (member : PrincipalRef) :
    GroupMembershipKey :=
  (scope_key scope, as_wire_bytes group_id, member).

Definition set_groups t (g : GroupTables) : GroupTables :=
  mk_group_tables t (group_memberships g) (group_changes g) (offline_group_change_replicas g)
    (offline_group_message_replicas g) (offline_group_next_sequence g)
    (mesh_group_message_paths g).
Definition set_memberships t (g : GroupTables) : GroupTables :=
  mk_group_tables (groups g) t (group_changes g) (offline_group_change_replicas g)
    (offline_group_message_replicas g) (offline_group_next_sequence g)
    (mesh_group_message_paths g).
Definition set_changes t (g : GroupTables) : GroupTables :=
  mk_group_tables (groups g) (group_memberships g) t (offline_group_change_replicas g)
    (offline_group_message_replicas g) (offline_group_next_sequence g)
    (mesh_group_message_paths g).
Definition push_change_replica (sequence : Z) (r : OfflineGroupChangeReplica)
    (g : GroupTables) : GroupTables :=
  mk_group_tables (groups g) (group_memberships g) (group_changes g)
    (offline_group_change_replicas g ++ [(sequence, r)])
    (offline_group_message_replicas g) sequence (mesh_group_message_paths g).
Definition push_message_replica (sequence : Z) (r : OfflineGroupMessageReplica)
    (g : GroupTables) : GroupTables :=
  mk_group_tables (groups g) (group_memberships g) (group_changes g)
    (offline_group_change_replicas g) (offline_group_message_replicas g ++ [(sequence, r)])
    sequence (mesh_group_message_paths g).
Definition set_paths t (g : GroupTables) : GroupTables :=
  mk_group_tables (groups g) (group_memberships g) (group_changes g)
    (offline_group_change_replicas g) (offline_group_message_replicas g)
    (offline_group_next_sequence g) t.

Definition set_history_floor (floor : Z) (membership : GroupMembership) : GroupMembership :=
  mk_membership (gm_scope membership) (gm_group_id membership) (gm_member membership)
    (gm_role membership) (gm_permissions membership) (gm_state membership)
    (gm_joined_revision membership) (gm_removed_revision membership) floor.
Definition set_logical_order (order : Z) (m : MessageEnvelope) : MessageEnvelope :=
  mk_message (me_message_id m) (me_scope m) (me_conversation m) (me_author m)
    (me_author_device m) (me_created_at_unix_ms m) order (me_content m)
    (me_attachment_ids m) (me_reply_to m) (me_relations m) (me_crypto_metadata m)
    (me_delivery_policy m) (me_delivery_state m) (me_origin m) (me_correlation m)
    (me_extensions m) (me_external_mappings m) (me_signature m).

(** * Bridge mappings *)

Definition registration_active (m : Memory) (scope : TenantScope) (mapping : GroupBridgeMapping) :
    result DurableStoreError unit :=
  registration ← ok_or (bridge_registrations (m_bridges m)
                          !! record_key scope (bm_integration_id mapping)) StConflict;
  reject_if (negb (bool_decide (br_state registration = BrActive))) StConflict.

Definition ensure_initial_bridge_registrations_active (m : Memory) (group : GroupRecord) :
    result DurableStoreError unit :=
  try_for_each (registration_active m (gr_scope group)) (gr_bridge_mappings group).

Definition maps_to (integration_id : IntegrationId) (external_group_id : bytes)
    (group : GroupRecord) : bool :=
  existsb (λ mapping, bool_decide (bm_integration_id mapping = integration_id)
                      && bool_decide (bm_external_group_id mapping = external_group_id))
    (gr_bridge_mappings group).

Definition ensure_bridge_mapping_uniqueness (m : Memory) (candidate : GroupRecord)
    (exclude_group_id : option GroupId) : result DurableStoreError unit :=
  try_for_each (λ mapping,
    reject_if (existsb (λ existing,
        bool_decide (gr_scope existing = gr_scope candidate)
        && negb (bool_decide (exclude_group_id = Some (gr_group_id existing)))
        && maps_to (bm_integration_id mapping) (bm_external_group_id mapping) existing)
      (values (groups (m_groups m)))) StConflict) (gr_bridge_mappings candidate).

(** * History *)

(** The logical orders of the messages a group's conversation holds. *)
Definition conversation_orders (m : Memory) (scope : TenantScope) (conversation : ConversationRef) :
    list Z :=
  me_logical_order <$> List.filter (λ message, bool_decide (me_scope message = scope)
                         && bool_decide (me_conversation message = conversation))
    (values (messages (m_base m))).

(** The index [len - count] is in range for every policy [validate_history_policy] accepts:
    it refuses a count of zero. *)
Definition history_floor_for_add (m : Memory) (group : GroupRecord) :
    result DurableStoreError Z :=
  let orders := sort_by Z.compare
                  (conversation_orders m (gr_scope group) (gr_conversation group)) in
  match gr_history_policy group with
  | GhFullHistory | GhFromTimestamp _ => Ok 0%Z
  | GhNoHistory | GhFromJoin =>
      ok_or (checked_add_u64 (default 0%Z (last orders)) 1) StInvalidRecord
  | GhLastNMessages count =>
      if (len orders <=? count)%Z then Ok 0%Z
      else
        cutoff ← ok_or (orders !! Z.to_nat (len orders - count)) StInternal;
        if (count <? len (List.filter (λ order, (cutoff <=? order)%Z) orders))%Z
        then ok_or (checked_add_u64 cutoff 1) StInvalidRecord
        else Ok cutoff
  | GhCustomPolicy _ => Ok u64_max
  end.

Definition history_allows (group : GroupRecord) (membership : GroupMembership)
    (message : MessageEnvelope) : bool :=
  if (me_logical_order message <? gm_history_floor membership)%Z then false
  else match gr_history_policy group with
       | GhFromTimestamp _ | GhCustomPolicy _ => false
       | GhNoHistory | GhFromJoin | GhLastNMessages _ | GhFullHistory => true
       end.

(** * Creation and queries *)

Definition create_group (conversation : ConversationRecord) (group : GroupRecord)
    (creator : ScopedPrincipal) : mem_op DurableRecordStatus :=
  invalid (validate_conversation conversation) ;;
  guard (bool_decide (is_Some (cr_parent_conversation_id conversation))
         || negb (is_group_conversation_kind (conversation_kind (cr_conversation conversation)))
         || negb (bool_decide (cr_scope conversation = gr_scope group))
         || negb (bool_decide (cr_conversation conversation = gr_conversation group)))
    StInvalidRecord ;;
  created ← lift (map_err map_group_error
    (canonical_group_creation group (sp_scope creator) (sp_principal creator)));
  let group := created.1 in
  let creator_membership := created.2 in
  let key := group_key (gr_scope group) (gr_group_id group) in
  let creator_key := membership_key (gr_scope group) (gr_group_id group) (sp_principal creator) in
  let conversation_key := record_key (cr_scope conversation)
                            (conversation_id (cr_conversation conversation)) in
  m ← get;
  match groups (m_groups m) !! key with
  | Some existing =>
      same_or_conflict
        match group_memberships (m_groups m) !! creator_key with
        | Some persisted =>
            bool_decide (existing = group)
            && bool_decide (persisted
                            = set_history_floor (gm_history_floor persisted) creator_membership)
        | None => false
        end
  | None =>
      guard (bool_decide (is_Some (bound_group m (gr_scope group) (gr_conversation group))))
        StConflict ;;
      lift (ensure_initial_bridge_registrations_active m group) ;;
      lift (ensure_bridge_mapping_uniqueness m group None) ;;
      match conversations (m_base m) !! conversation_key with
      | Some existing => guard (negb (bool_decide (existing = conversation))) StConflict
      | None =>
          put (with_base (with_conversations
            (<[conversation_key := conversation]> (conversations (m_base m))) (m_base m)) m)
      end ;;
      m ← get;
      floor ← lift (history_floor_for_add m group);
      put (with_groups (set_memberships
        (<[creator_key := set_history_floor floor creator_membership]>
           (group_memberships (m_groups m)))
        (set_groups (<[key := group]> (groups (m_groups m))) (m_groups m))) m) ;;
      mret RecPersisted
  end.

Definition group_op (scope : TenantScope) (group_id : GroupId) : mem_op (option GroupRecord) :=
  m ← get; mret (groups (m_groups m) !! group_key scope group_id).

Definition group_for_conversation (scope : TenantScope) (conversation : ConversationId) :
    mem_op (option GroupRecord) :=
  m ← get;
  mret (List.find (λ group, bool_decide (gr_scope group = scope)
          && bool_decide (conversation_id (gr_conversation group) = conversation))
    (values (groups (m_groups m)))).

Definition group_for_bridge_mapping (scope : TenantScope) (integration_id : IntegrationId)
    (external_group_id : bytes) : mem_op (option GroupRecord) :=
  guard (bool_decide (external_group_id = []) || (4096 <? len external_group_id)%Z)
    StInvalidRecord ;;
  m ← get;
  let matches := List.filter (λ group, bool_decide (gr_scope group = scope)
                                       && maps_to integration_id external_group_id group)
                   (values (groups (m_groups m))) in
  guard (1 <? len matches)%Z StCorrupt ;;
  mret (head matches).

(** [group_memberships.get(..).filter(|membership| membership.member == *member)]. *)
Definition membership_of (m : Memory) (scope : TenantScope) (group_id : GroupId)
    (member : PrincipalRef) : option GroupMembership :=
  membership ← group_memberships (m_groups m) !! membership_key scope group_id member;
  if bool_decide (gm_member membership = member) then Some membership else None.

Definition group_membership (scope : TenantScope) (group_id : GroupId) (member : PrincipalRef) :
    mem_op (option GroupMembership) :=
  m ← get; mret (membership_of m scope group_id member).

(** [group_memberships.values().filter(..)] by scope and group. *)
Definition memberships_of (m : Memory) (scope : TenantScope) (group_id : GroupId) :
    list GroupMembership :=
  List.filter (λ membership, bool_decide (gm_scope membership = scope)
                             && bool_decide (gm_group_id membership = group_id))
    (values (group_memberships (m_groups m))).

Definition group_memberships_op (scope : TenantScope) (group_id : GroupId) (max_items : Z) :
    mem_op (list GroupMembership) :=
  lift (map_err map_group_error (validate_group_member_list_limit max_items)) ;;
  m ← get;
  group ← lift (ok_or (groups (m_groups m) !! group_key scope group_id) StInvalidRecord);
  memberships ← lift (map_err map_group_error
    (canonical_group_memberships group (memberships_of m scope group_id)));
  guard (max_items <? len memberships)%Z StFull ;;
  mret memberships.

Definition active_membership (membership : option GroupMembership) : bool :=
  match membership with
  | Some membership => bool_decide (gm_state membership = GmActive)
  | None => false
  end.

Definition group_membership_for_active_member (subject : ScopedPrincipal) (scope : TenantScope)
    (group_id : GroupId) (member : PrincipalRef) : mem_op (option GroupMembership) :=
  guard (negb (bool_decide (sp_scope subject = scope))) StPermissionDenied ;;
  m ← get;
  mret (if negb (active_membership (membership_of m scope group_id (sp_principal subject)))
        then None else membership_of m scope group_id member).

Definition group_memberships_for_active_member (subject : ScopedPrincipal) (scope : TenantScope)
    (group_id : GroupId) (max_items : Z) : mem_op (list GroupMembership) :=
  guard (negb (bool_decide (sp_scope subject = scope))) StPermissionDenied ;;
  m ← get;
  guard (negb (active_membership (membership_of m scope group_id (sp_principal subject))))
    StPermissionDenied ;;
  lift (map_err map_group_error (validate_group_member_list_limit max_items)) ;;
  group ← lift (ok_or (groups (m_groups m) !! group_key scope group_id) StInvalidRecord);
  memberships ← lift (map_err map_group_error
    (canonical_group_memberships group (memberships_of m scope group_id)));
  guard (max_items <? len memberships)%Z StFull ;;
  mret memberships.

(** * Changes *)

Definition checked_next_offline_group_sequence (m : Memory) : result DurableStoreError Z :=
  ok_or (checked_add_u64 (offline_group_next_sequence (m_groups m)) 1) StFull.

(** [retain] the other groups' memberships, then insert the new ones. *)
Definition replace_memberships (scope : TenantScope) (group_id : GroupId)
    (memberships : list GroupMembership) (t : gmap GroupMembershipKey GroupMembership) :
    gmap GroupMembershipKey GroupMembership :=
  foldl (λ t membership,
      <[membership_key (gm_scope membership) (gm_group_id membership) (gm_member membership)
        := membership]> t)
    (filter (λ entry : GroupMembershipKey * GroupMembership,
       gm_scope entry.2 ≠ scope ∨ gm_group_id entry.2 ≠ group_id) t) memberships.

Section changes.
Context `{Sha256}.

Definition change_bridge_guard (m : Memory) (change : GroupChange) :
    result DurableStoreError unit :=
  match ch_kind change with
  | GkAddBridgeMapping mapping => registration_active m (ch_scope change) mapping
  | _ => Ok tt
  end.

Definition change_history_floor (m : Memory) (group : GroupRecord) (change : GroupChange) :
    result DurableStoreError (option Z) :=
  match ch_kind change with
  | GkAddMember _ _ => floor ← history_floor_for_add m group; Ok (Some floor)
  | _ => Ok None
  end.

(** The sequence number reserved for an exported replica. *)
Definition replica_sequence (m : Memory) (export_replica : bool) :
    result DurableStoreError (option Z) :=
  if export_replica
  then sequence ← checked_next_offline_group_sequence m; Ok (Some sequence)
  else Ok None.

Definition apply_group_change_in_state (actor : ScopedPrincipal) (change : GroupChange)
    (export_replica : bool) : mem_op DurableRecordStatus :=
  guard (negb (bool_decide (sp_scope actor = ch_scope change))) StPermissionDenied ;;
  fingerprint ← lift (map_err map_group_error (group_change_fingerprint change));
  let key := group_key (ch_scope change) (ch_group_id change) in
  let change_key := change_key (ch_scope change) (ch_event_id change) in
  m ← get;
  group ← lift (ok_or (groups (m_groups m) !! key) StInvalidRecord);
  let memberships := memberships_of m (ch_scope change) (ch_group_id change) in
  lift (map_err map_group_error
    (active_group_actor_role group memberships (sp_scope actor) (sp_principal actor))) ;;
  match group_changes (m_groups m) !! change_key with
  | Some (recorded_actor, existing) =>
      guard (negb (bool_decide (recorded_actor = sp_principal actor))) StPermissionDenied ;;
      same_or_conflict (bool_decide (existing = fingerprint))
  | None =>
      lift (change_bridge_guard m change) ;;
      history_floor ← lift (change_history_floor m group change);
      transition ← lift (map_err map_group_error
        (apply_group_change group memberships (sp_scope actor) (sp_principal actor) change
           history_floor));
      lift (ensure_bridge_mapping_uniqueness m (gt_group transition) (Some (gr_group_id group))) ;;
      guard (bool_decide (is_Some (events (m_journal m) !! change_key))
             || bool_decide (is_Some (call_signals (m_calls m) !! change_key))) StConflict ;;
      sequence ← lift (replica_sequence m export_replica);
      reconcile_group_calls_after_membership_change (gt_group transition)
        (gt_memberships transition) ;;
      m ← get;
      let tables :=
        set_changes (<[change_key := (sp_principal actor, fingerprint)]>
                       (group_changes (m_groups m)))
          (set_memberships (replace_memberships (ch_scope change) (ch_group_id change)
                              (gt_memberships transition) (group_memberships (m_groups m)))
            (set_groups (<[key := gt_group transition]> (groups (m_groups m))) (m_groups m))) in
      put (with_groups match sequence with
           | Some sequence =>
               push_change_replica sequence
                 (mk_change_replica actor (gr_replication_generation (gt_group transition)) change)
                 tables
           | None => tables
           end m) ;;
      mret RecPersisted
  end.

(** [GroupStore::apply_group_change]. *)
Definition apply_group_change_op (actor : ScopedPrincipal) (change : GroupChange) :
    mem_op DurableRecordStatus :=
  apply_group_change_in_state actor change true.
End changes.
