(* ===== verification/GroupMessages.v ===== *)
(** Group messages in the in-memory store, and their exchange as replicas offline or over a
    mesh (crates/ucr-storage-memory/src/group_store.rs: [GroupMessageStore],
    [OfflineGroupStore], [MeshGroupStore]). *)

From S2P Require Import Prelude Ids Framing Extension Message StoreForward Store Call Group Event.
From S2P Require Import Bridge Offline Memory CallStore GroupStore.

Definition membership_active_at_generation (membership : GroupMembership) (generation : Z) :
    bool :=
  (gm_joined_revision membership <=? generation)%Z
  && match gm_removed_revision membership with
     | None => true
     | Some removed => (generation <? removed)%Z
     end.

Definition permits (permission : GroupPermission) (membership : GroupMembership) : bool :=
  bool_decide (permission ∈ gm_permissions membership).

(** * Sending *)

Definition sendable (message : MessageEnvelope) : bool :=
  is_group_conversation_kind (conversation_kind (me_conversation message))
  && (bool_decide (me_delivery_state message = DsCreated)
      || bool_decide (me_delivery_state message = DsPersisted)).

Definition foreign_author (subject : ScopedPrincipal) (message : MessageEnvelope) : bool :=
  negb (bool_decide (me_scope message = sp_scope subject))
  || negb (bool_decide (or_principal_id (me_origin message)
                        = Some (principal_id (sp_principal subject)))).

(** The group of the message and the sender's right to send, as both send operations
    establish them under the lock. *)
Definition sending_group (m : Memory) (subject : ScopedPrincipal) (message : MessageEnvelope) :
    result DurableStoreError GroupRecord :=
  group ← ok_or (bound_group m (me_scope message) (me_conversation message)) StPermissionDenied;
  reject_if (negb (bool_decide (me_delivery_policy message = gr_delivery_policy group)))
    StInvalidRecord ;;
  membership ← ok_or (membership_of m (gr_scope group) (gr_group_id group)
                        (sp_principal subject)) StPermissionDenied;
  reject_if (negb (bool_decide (gm_state membership = GmActive))
             || negb (permits GpSendMessage membership)) StPermissionDenied ;;
  Ok group.

(** The replica of a newly persisted message is exported if it is canonical, that is signed. *)
Definition export_message (subject : ScopedPrincipal) (group : GroupRecord) (sequence : Z)
    (message : MessageEnvelope) (m : Memory) : Memory :=
  let replica := mk_message_replica subject (gr_group_id group)
                   (gr_replication_generation group) message in
  if is_ok (canonical_offline_group_message_replica replica)
  then with_groups (push_message_replica sequence replica (m_groups m)) m
  else m.

Definition persist_group_message (subject : ScopedPrincipal) (message : MessageEnvelope) :
    mem_op DurableRecordStatus :=
  canonical ← invalid (canonical_message message);
  guard (negb (sendable canonical)) StInvalidRecord ;;
  guard (foreign_author subject canonical) StPermissionDenied ;;
  m ← get;
  group ← lift (sending_group m subject canonical);
  sequence ← lift (checked_next_offline_group_sequence m);
  status ← on_base (persist_message_in_state canonical);
  m ← get;
  put (if bool_decide (status = RecPersisted)
       then export_message subject group sequence (set_message_state DsPersisted canonical) m
       else m) ;;
  mret status.

(** [map(..).max().unwrap_or(0)] of unsigned orders. *)
Definition max_order (orders : list Z) : Z := foldr Z.max 0%Z orders.

Definition persist_group_message_with_next_logical_order (subject : ScopedPrincipal)
    (message : MessageEnvelope) : mem_op (DurableRecordStatus * MessageEnvelope) :=
  canonical ← invalid (canonical_message message);
  guard (negb (me_logical_order canonical =? 0)%Z || negb (sendable canonical))
    StInvalidRecord ;;
  guard (foreign_author subject canonical) StPermissionDenied ;;
  m ← get;
  group ← lift (sending_group m subject canonical);
  let key := record_key (me_scope canonical) (me_message_id canonical) in
  match messages (m_base m) !! key with
  | Some existing =>
      let replay := set_message_state DsPersisted
                      (set_logical_order (me_logical_order existing) canonical) in
      guard (negb (bool_decide (replay = existing))) StConflict ;;
      mret (RecDuplicate, existing)
  | None =>
      next_order ← lift (ok_or (checked_add_u64
        (max_order (conversation_orders m (me_scope canonical) (me_conversation canonical))) 1)
        StFull);
      let canonical := set_logical_order next_order canonical in
      sequence ← lift (checked_next_offline_group_sequence m);
      status ← on_base (persist_message_in_state canonical);
      m ← get;
      persisted ← lift (ok_or (messages (m_base m) !! key) StInternal);
      put (if bool_decide (status = RecPersisted)
           then export_message subject group sequence persisted m else m) ;;
      mret (status, persisted)
  end.

Definition group_message (subject : ScopedPrincipal) (scope : TenantScope)
    (message_id : MessageId) : mem_op (option MessageEnvelope) :=
  guard (negb (bool_decide (sp_scope subject = scope))) StPermissionDenied ;;
  m ← get;
  mret (message ← messages (m_base m) !! record_key scope message_id;
        if negb (is_group_conversation_kind (conversation_kind (me_conversation message)))
        then None
        else
          group ← bound_group m scope (me_conversation message);
          membership ← membership_of m scope (gr_group_id group) (sp_principal subject);
          if negb (bool_decide (gm_state membership = GmActive))
             || negb (permits GpReadHistory membership)
             || negb (history_allows group membership message)
          then None else Some message).

(** * Pages *)

(** [take(max_items + 1)], and if that is more than a page, all but the last together with
    the sequence number the next page starts after. *)
Definition page_of {A} (max_items : Z) (eligible : list (Z * A)) : list (Z * A) * option Z :=
  let taken := take (S (Z.to_nat max_items)) eligible in
  if (max_items <? len taken)%Z
  then (take (Z.to_nat max_items) taken, fst <$> last (take (Z.to_nat max_items) taken))
  else (taken, None).

(** [group_memberships.get(..)] of an active member. *)
Definition active_member_of (m : Memory) (group : GroupRecord) (principal : PrincipalRef) :
    option GroupMembership :=
  membership ← membership_of m (gr_scope group) (gr_group_id group) principal;
  if bool_decide (gm_state membership = GmActive) then Some membership else None.

Definition require_two_active_members (m : Memory) (group : GroupRecord)
    (source recipient : ScopedPrincipal) : result DurableStoreError GroupMembership :=
  ok_or (active_member_of m group (sp_principal source)) StPermissionDenied ;;
  ok_or (active_member_of m group (sp_principal recipient)) StPermissionDenied.

Definition scoped_device_id (principal : ScopedPrincipal) : result DurableStoreError DeviceId :=
  reject_if (negb (bool_decide (principal_kind (sp_principal principal) = PkDevice)))
    StPermissionDenied ;;
  Ok (principal_id (sp_principal principal)).

(** [cursor.map_or(Ok(0), ..)]. *)
Definition cursor_after {E} (decode : bytes → result E Z) (cursor : option bytes) :
    result DurableStoreError Z :=
  match cursor with
  | None => Ok 0%Z
  | Some cursor => map_err (λ _, StInvalidRecord) (decode cursor)
  end.

Section pages.
Context `{Sha256}.

Definition offline_group_change_page (source recipient : ScopedPrincipal) (scope : TenantScope)
    (group_id : GroupId) (cursor : option OfflineGroupCursor) (max_items : Z) :
    mem_op OfflineGroupChangePage :=
  invalid (validate_offline_group_page_size max_items) ;;
  guard (negb (bool_decide (sp_scope source = scope))
         || negb (bool_decide (sp_scope recipient = scope))) StPermissionDenied ;;
  after ← lift (cursor_after (offline_group_cursor_sequence scope group_id OsChanges) cursor);
  m ← get;
  group ← lift (ok_or (groups (m_groups m) !! group_key scope group_id) StInvalidRecord);
  lift (require_two_active_members m group source recipient) ;;
  let '(page, next) := page_of max_items
    (List.filter (λ entry : Z * OfflineGroupChangeReplica,
       (after <? entry.1)%Z
       && bool_decide (ch_scope (oc_change entry.2) = scope)
       && bool_decide (ch_group_id (oc_change entry.2) = group_id)
       && bool_decide (oc_actor entry.2 = source))
     (offline_group_change_replicas (m_groups m))) in
  mret (mk_change_page scope group_id page.*2
          (offline_group_cursor scope group_id OsChanges <$> next)).

Definition offline_group_message_page (source recipient : ScopedPrincipal) (scope : TenantScope)
    (group_id : GroupId) (cursor : option OfflineGroupCursor) (max_items : Z) :
    mem_op OfflineGroupMessagePage :=
  invalid (validate_offline_group_page_size max_items) ;;
  guard (negb (bool_decide (sp_scope source = scope))
         || negb (bool_decide (sp_scope recipient = scope))) StPermissionDenied ;;
  after ← lift (cursor_after (offline_group_cursor_sequence scope group_id OsMessages) cursor);
  m ← get;
  group ← lift (ok_or (groups (m_groups m) !! group_key scope group_id) StInvalidRecord);
  recipient_membership ← lift (require_two_active_members m group source recipient);
  let '(page, next) := page_of max_items
    (List.filter (λ entry : Z * OfflineGroupMessageReplica,
       (after <? entry.1)%Z
       && bool_decide (me_scope (om_message entry.2) = scope)
       && bool_decide (om_group_id entry.2 = group_id)
       && bool_decide (om_author entry.2 = source)
       && history_allows group recipient_membership (om_message entry.2))
     (offline_group_message_replicas (m_groups m))) in
  mret (mk_message_page scope group_id page.*2
          (offline_group_cursor scope group_id OsMessages <$> next)).

(** The path a replica has travelled, the author's device if none is recorded. *)
Definition mesh_path (m : Memory) (scope : TenantScope) (replica : OfflineGroupMessageReplica) :
    list DeviceId :=
  default [dr_device_id (me_author_device (om_message replica))]
    (mesh_group_message_paths (m_groups m)
       !! record_key scope (me_message_id (om_message replica))).

(** One turn of the scan: the replica as it is offered to the recipient's device. *)
Definition mesh_offer (m : Memory) (scope : TenantScope) (group : GroupRecord)
    (membership : GroupMembership) (source_device recipient_device : DeviceId)
    (replica : OfflineGroupMessageReplica) : option MeshGroupMessageReplica :=
  if negb (history_allows group membership (om_message replica)) then None
  else
    let path := mesh_path m scope replica in
    if (MAX_MESH_PATH_DEVICES <=? len path)%Z || bool_decide (recipient_device ∈ path) then None
    else
      let mesh := mk_mesh_replica replica path in
      if negb (is_ok (canonical_mesh_group_message_replica mesh))
         || negb (is_ok (validate_mesh_source mesh source_device))
      then None else Some mesh.

Definition mesh_group_message_page (source recipient : ScopedPrincipal) (scope : TenantScope)
    (group_id : GroupId) (cursor : option MeshCursor) (max_items : Z) :
    mem_op MeshGroupMessagePage :=
  invalid (validate_mesh_group_page_size max_items) ;;
  guard (negb (bool_decide (sp_scope source = scope))
         || negb (bool_decide (sp_scope recipient = scope))) StPermissionDenied ;;
  source_device ← lift (scoped_device_id source);
  recipient_device ← lift (scoped_device_id recipient);
  after ← lift (cursor_after (mesh_group_cursor_sequence scope group_id) cursor);
  m ← get;
  group ← lift (ok_or (groups (m_groups m) !! group_key scope group_id) StInvalidRecord);
  recipient_membership ← lift (require_two_active_members m group source recipient);
  let '(scanned, next) := page_of max_items
    (List.filter (λ entry : Z * OfflineGroupMessageReplica,
       (after <? entry.1)%Z
       && bool_decide (me_scope (om_message entry.2) = scope)
       && bool_decide (om_group_id entry.2 = group_id))
     (offline_group_message_replicas (m_groups m))) in
  mret (mk_mesh_page scope group_id
          (omap (mesh_offer m scope group recipient_membership source_device recipient_device)
             scanned.*2)
          (mesh_group_cursor scope group_id <$> next)).
End pages.

(** * Reconciliation *)

(** The recipient reads history and sees the message, and its author was a member at the
    generation the message was sent in. *)
Definition replica_admitted (m : Memory) (recipient : ScopedPrincipal)
    (record : OfflineGroupMessageReplica) : result DurableStoreError unit :=
  group ← ok_or (groups (m_groups m)
                   !! group_key (me_scope (om_message record)) (om_group_id record))
            StInvalidRecord;
  reject_if (negb (bool_decide (me_conversation (om_message record) = gr_conversation group))
             || negb (bool_decide (me_delivery_policy (om_message record)
                                   = gr_delivery_policy group))
             || (gr_replication_generation group <? om_group_generation record)%Z)
    StInvalidRecord ;;
  membership ← ok_or (active_member_of m group (sp_principal recipient)) StPermissionDenied;
  reject_if (negb (permits GpReadHistory membership)) StPermissionDenied ;;
  reject_if (negb (history_allows group membership (om_message record))) StPermissionDenied ;;
  author ← ok_or (membership_of m (gr_scope group) (gr_group_id group)
                    (sp_principal (om_author record))) StPermissionDenied;
  reject_if (negb (membership_active_at_generation author (om_group_generation record)))
    StPermissionDenied.

Definition reconcile_offline_group_change `{Sha256} (recipient : ScopedPrincipal)
    (record : OfflineGroupChangeReplica) : mem_op DurableRecordStatus :=
  record ← invalid (canonical_offline_group_change_replica record);
  guard (negb (bool_decide (sp_scope recipient = ch_scope (oc_change record))))
    StPermissionDenied ;;
  m ← get;
  group ← lift (ok_or (groups (m_groups m)
                         !! group_key (ch_scope (oc_change record)) (ch_group_id (oc_change record)))
                  StInvalidRecord);
  membership ← lift (ok_or (active_member_of m group (sp_principal recipient))
                       StPermissionDenied);
  guard (negb (permits GpReadHistory membership)) StPermissionDenied ;;
  expected_generation ← lift (ok_or (checked_add_u64 (gr_replication_generation group) 1) StFull);
  guard (expected_generation <? oc_group_generation record)%Z StConflict ;;
  apply_group_change_in_state (oc_actor record) (oc_change record) false.

Definition reconcile_offline_group_message (recipient : ScopedPrincipal)
    (record : OfflineGroupMessageReplica) : mem_op DurableRecordStatus :=
  record ← invalid (canonical_offline_group_message_replica record);
  guard (negb (bool_decide (sp_scope recipient = me_scope (om_message record))))
    StPermissionDenied ;;
  m ← get;
  lift (replica_admitted m recipient record) ;;
  on_base (persist_message_in_state (om_message record)).

Definition reconcile_mesh_group_message (recipient : ScopedPrincipal)
    (record : MeshGroupMessageReplica) : mem_op DurableRecordStatus :=
  canonical ← invalid (canonical_mesh_group_message_replica record);
  recipient_device ← lift (scoped_device_id recipient);
  extended ← invalid (append_mesh_recipient canonical recipient_device);
  let record := mr_record extended in
  guard (negb (bool_decide (sp_scope recipient = me_scope (om_message record))))
    StPermissionDenied ;;
  m ← get;
  lift (replica_admitted m recipient record) ;;
  let key := record_key (me_scope (om_message record)) (me_message_id (om_message record)) in
  status ← match messages (m_base m) !! key with
           | Some existing =>
               same_or_conflict (bool_decide (existing = om_message record))
           | None => on_base (persist_message_in_state (om_message record))
           end;
  m ← get;
  let has_replica := existsb (λ entry : Z * OfflineGroupMessageReplica,
      bool_decide (me_scope (om_message entry.2) = me_scope (om_message record))
      && bool_decide (me_message_id (om_message entry.2) = me_message_id (om_message record)))
    (offline_group_message_replicas (m_groups m)) in
  if has_replica then mret status
  else
    sequence ← lift (checked_next_offline_group_sequence m);
    put (with_groups (set_paths (<[key := mr_forward_path extended]>
                                   (mesh_group_message_paths (m_groups m)))
           (push_message_replica sequence record (m_groups m))) m) ;;
    mret status.
