(* ===== verification/CallEntry.v ===== *)
(** What the store keeps about one call: newcomers of a signal, and the entry invariant that
    makes [validated_call_from_state] total. *)

From S2P Require Import Prelude Ids Framing Extension Message StoreForward Store Call Group Event.
From S2P Require Import CallFacts CallSafety CallFingerprint Memory OpLogic CallStore.

(** * Newcomers *)

(** Every participant comes from an earlier one or is the invited [target]. *)
Definition continued (target : option PrincipalRef) (l l' : list CallParticipant) : Prop :=
  ∀ p', p' ∈ l' → (∃ p, p ∈ l ∧ participant_evolves p p') ∨ target = Some (cp_principal p').

Definition added_participant (kind : CallSignalKind) : option PrincipalRef :=
  match kind with SkParticipantUpdate target CuAdd => Some target | _ => None end.

Lemma continued_refl target l : continued target l l.
Proof. intros p Hp. left. by exists p. Qed.

Lemma continued_write target s q i v st lr :
  participant_mut s q = Ok (i, v) → live_state (cp_state v) = true →
  continued target (cs_participants s)
    (cs_participants (write_participant i (set_participant_state st lr v) s)).
Proof.
  intros (l1 & l2 & Hps & _ & Hw)%participant_mut_Ok Hv p'. rewrite Hw, Hps. cbn.
  rewrite elem_of_app, elem_of_cons. intros [?|[->|?]]; left.
  - exists p'. set_solver.
  - exists v. split; [set_solver|by apply restate_evolves].
  - exists p'. set_solver.
Qed.

Lemma dispatch_continued s actor kind rev s' :
  dispatch_call_signal s actor kind rev = Ok s' →
  continued (added_participant kind) (cs_participants s) (cs_participants s').
Proof.
  destruct kind as [| | | | | |phase|target []|r|reason]; cbn;
    unfold apply_ringing, apply_accept, apply_decline, reject_or_busy,
      apply_pre_accept_termination, apply_reconnect, add_participant, remove_participant,
      apply_media_renegotiation, apply_explicit_termination;
    intros H; res_inv; repeat case_match; res_inv; simplify_eq;
    rewrite ?settle_participants; bool_norm; destruct_and?;
    try (cbn; apply continued_refl).
  all: try (eapply (continued_write _ s); [eassumption|];
    first [by eauto using pending_live|by match goal with H : cp_state _ = _ |- _ => rewrite H end]).
  intros p'. cbn. rewrite elem_of_app, list_elem_of_singleton.
  intros [?| ->]; [left; by exists p'|by right].
Qed.

(** The live participants after a signal were live before it, or are the invited one. *)
Lemma signal_live s scope actor signal c p' :
  call_wf s → apply_call_signal s scope actor signal = Ok c →
  p' ∈ cs_participants c → live_state (cp_state p') = true →
  (∃ p, p ∈ cs_participants s ∧ cp_principal p = cp_principal p' ∧ live_state (cp_state p) = true)
  ∨ sg_kind signal = SkParticipantUpdate (cp_principal p') CuAdd.
Proof.
  intros Hwf (s0 & s' & Hc & _ & Hd & ->)%apply_call_signal_Ok Hp' Hl.
  rewrite canonical_call_session_wf in Hc by done. injection Hc as <-.
  assert (p' ∈ cs_participants s') as Hin.
  { revert Hp'. unfold sort_session. cbn. by rewrite elem_of_sort_by. }
  destruct (dispatch_continued _ _ _ _ _ Hd p' Hin) as [(p & Hp & [E _ Ht])|E]; [left|right].
  - exists p. split_and!; [done..|]. destruct (live_state (cp_state p)) eqn:El; [done|].
    rewrite Ht in Hl by done. congruence.
  - unfold added_participant in E. repeat case_match; simplify_eq. done.
Qed.

(** * Entries *)

Section entry.
Context `{Sha256}.

(** A stored call is canonical, is stored under its own identifier, and still has the
    creation fingerprint recorded for it. *)
Record call_entry (c : CallTables) (k : RecordKey) (s : CallSession) : Prop := {
  ce_key : k = call_key (cs_scope s) (cs_call_id s);
  ce_wf : call_wf s;
  ce_revision : (0 ≤ cs_revision s)%Z;
  ce_fingerprint : ∃ preimage, call_creation_preimage s = Ok preimage
                     ∧ call_creation_fingerprints c !! k = Some (sha256 preimage);
}.

Record calls_ok (c : CallTables) : Prop := {
  ck_entry k s : calls c !! k = Some s → call_entry c k s;
  ck_fingerprint k : is_Some (call_creation_fingerprints c !! k) → is_Some (calls c !! k);
}.

Lemma validated_ok m scope call_id :
  calls_ok (m_calls m) →
  validated_call_from_state m scope call_id = Ok (calls (m_calls m) !! call_key scope call_id).
Proof.
  intros [He Hf]. unfold validated_call_from_state.
  destruct (calls (m_calls m) !! _) as [s|] eqn:Hs.
  - destruct (He _ _ Hs) as [_ Hwf _ (preimage & Hp & Hfp)].
    rewrite canonical_call_session_wf by done. cbn. rewrite Hfp. cbn.
    unfold call_creation_fingerprint. rewrite Hp. cbn. by rewrite bool_decide_true.
  - rewrite bool_decide_false; [done|]. intros [s Hs']%Hf. congruence.
Qed.

Lemma call_entry_step c k s s' :
  call_entry c k s → call_step s s' → call_entry c k s'.
Proof.
  intros [Hk Hwf Hrev (preimage & Hp & Hfp)] Hs. pose proof (call_step_facts _ _ Hwf Hs) as F.
  split.
  - by rewrite (sf_scope _ _ F), (sf_call_id _ _ F).
  - apply F.
  - destruct (sf_counters _ _ F) as [->|[-> _]]; [done|lia].
  - exists preimage. split; [|done]. rewrite <- Hp.
    by apply steps_creation_preimage, rtc_once.
Qed.

Lemma call_entry_tables c c' k s :
  call_creation_fingerprints c' = call_creation_fingerprints c → call_entry c k s →
  call_entry c' k s.
Proof. intros E [? ? ? ?]. split; [done..|]. by rewrite E. Qed.

(** Entries may be overwritten by successors of themselves. *)
Lemma calls_ok_update c c' :
  calls_ok c → call_creation_fingerprints c' = call_creation_fingerprints c →
  (∀ k s', calls c' !! k = Some s' → ∃ s, calls c !! k = Some s ∧ rtc call_step s s') →
  (∀ k, is_Some (calls c !! k) → is_Some (calls c' !! k)) →
  calls_ok c'.
Proof.
  intros [He Hf] E Hold Hnew. split.
  - intros k s' Hs'. destruct (Hold k s' Hs') as (s & Hs & Hsteps).
    apply (call_entry_tables c); [done|]. apply He in Hs.
    induction Hsteps as [|s s1 s' Hst _ IH]; [done|]. eauto using call_entry_step.
  - intros k. rewrite E. eauto.
Qed.
End entry.
