(* ===== verification/Directory.v ===== *)
(** The directory of groups and memberships the store keeps, its invariant, and that the
    operations on groups preserve it: one group per conversation and per external mapping,
    and every roster satisfies the invariant of the group protocol. *)

From stdpp Require Import gmap.
From S2P Require Import Prelude Ids Framing Extension Message StoreForward Store Call Group Event.
From S2P Require Import GroupFacts GroupRefinement GroupHistory Bridge Offline Memory OpLogic.
From S2P Require Import CallStore GroupStore.

(** * Rosters *)

Definition memberships_keyed (t : gmap GroupMembershipKey GroupMembership) : Prop :=
  map_Forall (λ k x, k = membership_key (gm_scope x) (gm_group_id x) (gm_member x)) t.

#[global] Instance membership_key_inj p : Inj2 (=) (=) (=) (λ s g, membership_key s g p).
Proof.
  intros s g s' g'. unfold membership_key. intros E.
  apply pair_eq in E as [E _]. apply pair_eq in E as [->%scope_key_inj ->%as_wire_bytes_inj]. done.
Qed.

Lemma membership_key_eq s g p s' g' p' :
  membership_key s g p = membership_key s' g' p' → s = s' ∧ g = g' ∧ p = p'.
Proof.
  intros E. assert (p = p') as -> by by apply pair_eq in E as [_ ?].
  by apply membership_key_inj in E as [-> ->].
Qed.

Lemma elem_of_memberships m scope gid x :
  x ∈ memberships_of m scope gid
  ↔ (∃ k, group_memberships (m_groups m) !! k = Some x) ∧ gm_scope x = scope ∧ gm_group_id x = gid.
Proof.
  unfold memberships_of. rewrite list_elem_of_In, filter_In, <- list_elem_of_In, elem_of_values.
  by rewrite andb_true_iff, !bool_decide_eq_true.
Qed.

Lemma member_active_true m scope gid p :
  member_active m scope gid p = true ↔
  ∃ x, x ∈ memberships_of m scope gid ∧ gm_member x = p ∧ gm_state x = GmActive.
Proof.
  unfold member_active. rewrite existsb_true, Exists_exists. setoid_rewrite elem_of_memberships.
  setoid_rewrite elem_of_values. setoid_rewrite andb_true_iff. setoid_rewrite andb_true_iff.
  setoid_rewrite andb_true_iff. setoid_rewrite bool_decide_eq_true. naive_solver.
Qed.

Section keyed.
Context (m : Memory) (Hkeyed : memberships_keyed (group_memberships (m_groups m))).

Lemma elem_of_roster scope gid x :
  x ∈ memberships_of m scope gid
  ↔ group_memberships (m_groups m) !! membership_key scope gid (gm_member x) = Some x
    ∧ gm_scope x = scope ∧ gm_group_id x = gid.
Proof.
  rewrite elem_of_memberships. split.
  - intros ([k Hk] & <- & <-). pose proof (Hkeyed _ _ Hk) as E. cbn in E. by subst k.
  - intros (Hk & ? & ?). by eauto.
Qed.

Lemma roster_NoDup scope gid : NoDup (gm_member <$> memberships_of m scope gid).
Proof.
  apply NoDup_fmap_2_strong.
  - intros x y (Hx & _)%elem_of_roster (Hy & _)%elem_of_roster E. rewrite E in Hx. congruence.
  - apply NoDup_filter_b, NoDup_fmap_2_strong; [|apply NoDup_map_to_list].
    intros [k x] [k' x'] Hx%elem_of_map_to_list%Hkeyed Hx'%elem_of_map_to_list%Hkeyed.
    cbn in *. congruence.
Qed.

(** The roster as the partial map of the group protocol. *)
Definition roster (scope : TenantScope) (gid : GroupId) : member_map :=
  members_map (memberships_of m scope gid).

Lemma roster_lookup scope gid p :
  roster scope gid !! p = group_memberships (m_groups m) !! membership_key scope gid p.
Proof.
  apply option_eq. intros x. unfold roster.
  rewrite members_map_lookup, elem_of_roster by apply roster_NoDup. split.
  - by intros [(? & _ & _) <-].
  - intros Hx. pose proof (Hkeyed _ _ Hx) as E. cbn in E.
    by apply membership_key_eq in E as (-> & -> & ->).
Qed.

Lemma member_active_roster scope gid p :
  member_active m scope gid p = true ↔ ∃ x, roster scope gid !! p = Some x ∧ gm_state x = GmActive.
Proof.
  rewrite member_active_true. unfold roster.
  setoid_rewrite (members_map_lookup _ _ _ (roster_NoDup scope gid)). naive_solver.
Qed.
End keyed.

(** * The invariant *)

Record directory_ok (m : Memory) : Prop := {
  dk_group k g : groups (m_groups m) !! k = Some g → k = group_key (gr_scope g) (gr_group_id g);
  dk_membership : memberships_keyed (group_memberships (m_groups m));
  dk_member_group k x : group_memberships (m_groups m) !! k = Some x →
    is_Some (groups (m_groups m) !! group_key (gm_scope x) (gm_group_id x));
  dk_ok k g : groups (m_groups m) !! k = Some g → group_ok g (roster m (gr_scope g) (gr_group_id g));
  dk_conversation k g : groups (m_groups m) !! k = Some g →
    ∃ c, conversations (m_base m) !! record_key (gr_scope g) (conversation_id (gr_conversation g))
           = Some c ∧ cr_conversation c = gr_conversation g;
  dk_bound k k' g g' : groups (m_groups m) !! k = Some g → groups (m_groups m) !! k' = Some g' →
    gr_scope g = gr_scope g' → gr_conversation g = gr_conversation g' → k = k';
  dk_mapping k k' g g' b : groups (m_groups m) !! k = Some g → groups (m_groups m) !! k' = Some g' →
    gr_scope g = gr_scope g' → b ∈ gr_bridge_mappings g → b ∈ gr_bridge_mappings g' → k = k';
}.

Lemma maps_to_true i e g : maps_to i e g = true ↔ mk_bridge_mapping i e ∈ gr_bridge_mappings g.
Proof.
  unfold maps_to. rewrite existsb_true, Exists_exists. split.
  - intros ([i' e'] & Hb & [Ei Ee]%andb_true_iff). apply bool_decide_eq_true in Ei, Ee.
    cbn in *. by subst.
  - intros Hb. eexists. split; [done|]. cbn. by rewrite !bool_decide_true.
Qed.

Lemma bound_group_Some m scope conversation g :
  bound_group m scope conversation = Some g →
  (∃ k, groups (m_groups m) !! k = Some g) ∧ gr_scope g = scope ∧ gr_conversation g = conversation.
Proof.
  intros [Hg Hb]%find_Some_elem. rewrite elem_of_values in Hg.
  apply andb_true_iff in Hb as [?%bool_decide_eq_true ?%bool_decide_eq_true]. done.
Qed.

Lemma bound_group_None m scope conversation :
  bound_group m scope conversation = None ↔
  ∀ k g, groups (m_groups m) !! k = Some g → gr_scope g = scope → gr_conversation g ≠ conversation.
Proof.
  unfold bound_group. rewrite find_None_Forall, Forall_forall. split.
  - intros Hn k g Hg Hs Hc. specialize (Hn g). rewrite elem_of_values in Hn.
    rewrite !bool_decide_true in Hn by done. by discriminate Hn; eauto.
  - intros Hn g [k Hg]%elem_of_values. apply andb_false_iff.
    destruct (decide (gr_scope g = scope)) as [Hs|Hs]; [right|left]; apply bool_decide_eq_false;
      [by eapply Hn|done].
Qed.

(** The one group of a conversation. *)
Lemma bound_group_unique m k g :
  directory_ok m → groups (m_groups m) !! k = Some g →
  bound_group m (gr_scope g) (gr_conversation g) = Some g.
Proof.
  intros Hd Hg. destruct (bound_group m _ _) as [g'|] eqn:Hb.
  - apply bound_group_Some in Hb as ([k' Hg'] & Hs & Hc).
    assert (k' = k) as -> by (by eapply (dk_bound _ Hd)). congruence.
  - rewrite bound_group_None in Hb. by destruct (Hb k g Hg).
Qed.

(** A change of the other tables of the store. *)
Lemma directory_frame m m' :
  groups (m_groups m') = groups (m_groups m) →
  group_memberships (m_groups m') = group_memberships (m_groups m) →
  (∀ k c, conversations (m_base m) !! k = Some c → conversations (m_base m') !! k = Some c) →
  directory_ok m → directory_ok m'.
Proof.
  intros Hg Hm Hc [? ? ? Hok Hconv ? ?]. split; rewrite ?Hg, ?Hm; try done.
  - intros k g Hk. unfold roster, memberships_of. rewrite Hm. by apply (Hok k).
  - intros k g Hk. destruct (Hconv k g Hk) as (c & ? & ?). eauto.
Qed.

(** * Replacing a roster *)

Definition own_membership (x : GroupMembership) : GroupMembershipKey :=
  membership_key (gm_scope x) (gm_group_id x) (gm_member x).

Section replace.
Context (scope : TenantScope) (gid : GroupId) (ms : list GroupMembership).
Context (t : gmap GroupMembershipKey GroupMembership).
Context (Hms : Forall (λ x, gm_scope x = scope ∧ gm_group_id x = gid) ms).
Context (Hnd : NoDup (gm_member <$> ms)) (Ht : memberships_keyed t).

Lemma own_NoDup : NoDup (own_membership <$> ms).
Proof.
  apply (NoDup_fmap_1 (λ k : GroupMembershipKey, k.2)). rewrite <- list_fmap_compose.
  replace (_ <$> ms) with (gm_member <$> ms); [done|]. by apply list_fmap_ext.
Qed.

Lemma replace_Some k x :
  replace_memberships scope gid ms t !! k = Some x ↔
  x ∈ ms ∧ own_membership x = k
  ∨ (∀ p, k ≠ membership_key scope gid p) ∧ t !! k = Some x.
Proof.
  unfold replace_memberships.
  rewrite (foldl_insert_Some own_membership id) by apply own_NoDup.
  rewrite map_lookup_filter_Some. cbn. rewrite Forall_forall in Hms.
  split.
  - intros [(y & Hy & E & <-)|(Hk & Hx & Hne)]; [by left|right]. split; [|done]. intros p ->.
    pose proof (Ht _ _ Hx) as E. cbn in E. apply membership_key_eq in E as (-> & -> & _).
    by destruct Hne.
  - intros [(Hx & E)|(Hk & Hx)]; [left; by eauto|right]. split_and!; [|done|].
    + rewrite list_elem_of_fmap. intros (y & -> & Hy). destruct (Hms y Hy) as [<- <-].
      by apply (Hk (gm_member y)).
    + pose proof (Ht _ _ Hx) as ->. cbn in Hk. apply not_and_l. intros [E1 E2].
      apply (Hk (gm_member x)). by rewrite E1, E2.
Qed.

Lemma replace_keyed : memberships_keyed (replace_memberships scope gid ms t).
Proof. intros k x [[_ <-]|[_ Hx]]%replace_Some; [done|by apply Ht]. Qed.

Lemma replace_same p : replace_memberships scope gid ms t !! membership_key scope gid p
  = members_map ms !! p.
Proof.
  apply option_eq. intros x. rewrite replace_Some, members_map_lookup by done.
  rewrite Forall_forall in Hms. split.
  - intros [(Hx & E)|[Hp _]]; [|by destruct (Hp p)]. by apply membership_key_eq in E as (_ & _ & ?).
  - intros [Hx <-]. left. split; [done|]. unfold own_membership. by destruct (Hms x Hx) as [-> ->].
Qed.

Lemma replace_other scope' gid' p :
  (scope', gid') ≠ (scope, gid) →
  replace_memberships scope gid ms t !! membership_key scope' gid' p
  = t !! membership_key scope' gid' p.
Proof.
  intros Hne. apply option_eq. intros x. rewrite replace_Some. rewrite Forall_forall in Hms. split.
  - intros [(Hx & E)|[_ ?]]; [|done]. destruct (Hms x Hx) as [? ?].
    apply membership_key_eq in E as (? & ? & ?). congruence.
  - intros Hx. right. split; [|done]. intros p' E. apply membership_key_eq in E as (? & ? & ?).
    congruence.
Qed.
End replace.

(** * Creation *)

(** The groups that exist keep their record and their roster. *)
Definition groups_kept (m m' : Memory) : Prop :=
  ∀ k g, groups (m_groups m) !! k = Some g →
    groups (m_groups m') !! k = Some g
    ∧ ∀ p, roster m' (gr_scope g) (gr_group_id g) !! p = roster m (gr_scope g) (gr_group_id g) !! p.

Lemma groups_kept_same m m' :
  groups (m_groups m') = groups (m_groups m) →
  group_memberships (m_groups m') = group_memberships (m_groups m) → groups_kept m m'.
Proof. intros E E' k g Hk. unfold roster, memberships_of. by rewrite E, E'. Qed.

Lemma group_ok_floors g M floor : group_ok g M → group_ok g (set_history_floor floor <$> M).
Proof.
  intros [Hrec Hrows Ho Ha (p & r & (x & Hp & Hs & Hr) & Hne)].
  assert (∀ p x, (set_history_floor floor <$> M) !! p = Some x ↔
    ∃ y, M !! p = Some y ∧ x = set_history_floor floor y) as Hf.
  { intros q y. rewrite lookup_fmap. destruct (M !! q); naive_solver. }
  split; [done|..].
  - intros q y (y' & Hy & ->)%Hf. destruct (Hrows q y' Hy) as [? [? ? ? ? ?]]. done.
  - intros q. rewrite (Ho q). setoid_rewrite Hf. split; [|naive_solver].
    intros (y & ? & ?). exists (set_history_floor floor y). naive_solver.
  - intros q y (y' & Hy & ->)%Hf. cbn. by apply (Ha q).
  - exists p, r. split; [|done]. exists (set_history_floor floor x). rewrite Hf. eauto.
Qed.

Definition created (m : Memory) (g : GroupRecord) (x : GroupMembership) : Memory :=
  with_groups (set_memberships
    (<[membership_key (gr_scope g) (gr_group_id g) (gm_member x) := x]>
       (group_memberships (m_groups m)))
    (set_groups (<[group_key (gr_scope g) (gr_group_id g) := g]> (groups (m_groups m)))
       (m_groups m))) m.

Section created.
Context (m : Memory) (g : GroupRecord) (x : GroupMembership).
Context (Hd : directory_ok m).
Context (Hfresh : groups (m_groups m) !! group_key (gr_scope g) (gr_group_id g) = None).
Context (Hx : gm_scope x = gr_scope g ∧ gm_group_id x = gr_group_id g).

#[local] Abbreviation m' := (created m g x).

Lemma created_keyed : memberships_keyed (group_memberships (m_groups m')).
Proof.
  destruct Hx as [E1 E2]. cbn. intros k y [[<- <-]|[_ Hy]]%lookup_insert_Some; [by rewrite E1, E2|].
  by apply (dk_membership _ Hd).
Qed.

Lemma created_new p : roster m' (gr_scope g) (gr_group_id g) !! p = members_map [x] !! p.
Proof.
  rewrite roster_lookup by apply created_keyed. cbn. unfold members_map. cbn.
  destruct (decide (p = gm_member x)) as [->|Hne]; [by rewrite !lookup_insert_eq|].
  rewrite !lookup_insert_ne, lookup_empty by (congruence || intros E;
    apply membership_key_eq in E as (_ & _ & ?); congruence).
  destruct (group_memberships (m_groups m) !! _) as [y|] eqn:Hy; [|done].
  pose proof (dk_membership _ Hd _ _ Hy) as E. cbn in E. apply membership_key_eq in E as (E1 & E2 & _).
  destruct (dk_member_group _ Hd _ _ Hy) as [? Hg]. rewrite <- E1, <- E2 in Hg. congruence.
Qed.

Lemma created_kept : groups_kept m m'.
Proof.
  intros k g' Hk. pose proof (dk_group _ Hd _ _ Hk) as E. split.
  - cbn. rewrite lookup_insert_ne; [done|]. intros <-. congruence.
  - intros p. rewrite !roster_lookup by (apply created_keyed || apply Hd). cbn.
    rewrite lookup_insert_ne; [done|]. intros (E1 & E2 & _)%membership_key_eq.
    rewrite E, <- E1, <- E2 in Hk. congruence.
Qed.

Lemma created_directory c :
  group_ok g (members_map [x]) →
  bound_group m (gr_scope g) (gr_conversation g) = None →
  ensure_bridge_mapping_uniqueness m g None = Ok tt →
  conversations (m_base m) !! record_key (gr_scope g) (conversation_id (gr_conversation g)) = Some c →
  cr_conversation c = gr_conversation g →
  directory_ok m'.
Proof.
  intros Hok Hb Hu Hc Ec. rewrite bound_group_None in Hb.
  assert (∀ k g' b, groups (m_groups m) !! k = Some g' → gr_scope g' = gr_scope g →
    b ∈ gr_bridge_mappings g → b ∈ gr_bridge_mappings g' → False) as Hmap.
  { intros k g' [i e] Hg' Es Hi Hi'. unfold ensure_bridge_mapping_uniqueness in Hu.
    apply try_for_each_Ok in Hu. rewrite Forall_forall in Hu. specialize (Hu _ Hi).
    apply reject_if_Ok, existsb_false in Hu. rewrite Forall_forall in Hu.
    specialize (Hu g'). rewrite elem_of_values in Hu. cbn in Hu.
    rewrite (proj2 (maps_to_true i e g')), bool_decide_true in Hu by done.
    by discriminate Hu; eauto. }
  split; cbn.
  - intros k g' [[<- <-]|[_ Hk]]%lookup_insert_Some; [done|by apply (dk_group _ Hd)].
  - apply created_keyed.
  - intros k y [[<- <-]|[_ Hy]]%lookup_insert_Some.
    + destruct Hx as [-> ->]. rewrite lookup_insert_eq. eauto.
    + rewrite lookup_insert_is_Some. destruct (decide (group_key (gr_scope g) (gr_group_id g)
        = group_key (gm_scope y) (gm_group_id y))); [by left|right].
      split; [done|]. by apply (dk_member_group _ Hd k).
  - intros k g' [[<- <-]|[_ Hk]]%lookup_insert_Some.
    + replace (roster m' _ _) with (members_map [x]); [done|]. apply map_eq.
      intros p. by rewrite created_new.
    + replace (roster m' _ _) with (roster m (gr_scope g') (gr_group_id g'));
        [by apply (dk_ok _ Hd k)|]. apply map_eq. intros p. by destruct (created_kept _ _ Hk) as [_ ->].
  - intros k g' [[<- <-]|[_ Hk]]%lookup_insert_Some; [by eauto|by apply (dk_conversation _ Hd k)].
  - intros k k' g1 g2 [[<- <-]|[_ H1]]%lookup_insert_Some [[<- <-]|[_ H2]]%lookup_insert_Some Es E;
      [done|..|by eapply (dk_bound _ Hd)]; [by destruct (Hb _ _ H2)|by destruct (Hb _ _ H1)].
  - intros k k' g1 g2 b [[<- <-]|[_ H1]]%lookup_insert_Some [[<- <-]|[_ H2]]%lookup_insert_Some
      Es E1 E2; [done|..|by eapply (dk_mapping _ Hd)]; exfalso; by eapply Hmap.
Qed.
End created.

(** What creating a group and writing to other tables have in common. *)
Record directory_kept (m m' : Memory) : Prop := {
  dkp_ok : directory_ok m';
  dkp_groups : groups_kept m m';
  dkp_calls : m_calls m' = m_calls m;
  dkp_journal : m_journal m' = m_journal m;
  dkp_changes : group_changes (m_groups m') = group_changes (m_groups m);
}.

Lemma directory_kept_refl m : directory_ok m → directory_kept m m.
Proof. by intros Hd. Qed.

Lemma directory_kept_base m b :
  directory_ok m →
  (∀ k c, conversations (m_base m) !! k = Some c → conversations b !! k = Some c) →
  directory_kept m (with_base b m).
Proof. intros Hd Hc. split; try done. by apply (directory_frame m). Qed.

Lemma canonical_creation_binds g0 scope creator g x :
  canonical_group_creation g0 scope creator = Ok (g, x) →
  gr_scope g = gr_scope g0 ∧ gr_conversation g = gr_conversation g0 ∧ gm_member x = creator.
Proof.
  unfold canonical_group_creation. intros H. res_inv. simplify_eq.
  match goal with H : canonical_group_record _ = Ok _ |- _ => rename H into Hg end.
  by destruct (decides_Ok _ _ _ _ (canonical_group_record_spec g0) Hg) as [_ ->].
Qed.

#[global] Instance directory_kept_trans : Transitive directory_kept.
Proof.
  intros m1 m2 m3 [? Hg ? ? ?] [? Hg' ? ? ?]. split; [done| |congruence..].
  intros k g Hk. destruct (Hg k g Hk) as [Hk' Hr]. destruct (Hg' k g Hk') as [? Hr'].
  split; [done|]. intros p. by rewrite Hr', Hr.
Qed.

Lemma created_directory_kept m g x c floor :
  directory_ok m → groups (m_groups m) !! group_key (gr_scope g) (gr_group_id g) = None →
  group_ok g (members_map [x]) → membership_valid g x →
  bound_group m (gr_scope g) (gr_conversation g) = None →
  ensure_bridge_mapping_uniqueness m g None = Ok tt →
  conversations (m_base m) !! record_key (gr_scope g) (conversation_id (gr_conversation g)) = Some c →
  cr_conversation c = gr_conversation g →
  directory_kept m (created m g (set_history_floor floor x)).
Proof.
  intros Hd Hfresh Hok [Hs Hi _ _ _] Hb Hu Hc Ec. split; try done; [|by apply created_kept].
  eapply created_directory; try done. apply (group_ok_floors _ _ floor) in Hok.
  replace (members_map [_]) with (set_history_floor floor <$> members_map [x]); [done|].
  unfold members_map. cbn. by rewrite fmap_insert, fmap_empty.
Qed.

Lemma create_group_wp m conversation g0 creator :
  directory_ok m → wp (create_group conversation g0 creator) m (λ m' _, directory_kept m m').
Proof.
  intros Hd. pose proof (directory_kept_refl m Hd) as Hid. unfold create_group.
  do 3 (wp_step; try done). destruct a0 as [g x]. cbn [fst snd].
  match goal with H : canonical_group_creation _ _ _ = Ok _ |- _ => rename H into Hcr end.
  destruct (canonical_creation_binds _ _ _ _ _ Hcr) as (Es & Econv & Ex).
  apply group_ok_creation in Hcr as (Hok & _ & _ & [[Hv _]%Forall_cons _]).
  bool_norm. destruct_and?. rewrite <- Es in *. rewrite <- Econv in *. rewrite <- Ex.
  wp_step. destruct (groups (m_groups m) !! _) as [g'|] eqn:Hfresh; [by wp_steps|].
  wp_step; [|done]. wp_step; [|done].
  match goal with H : bool_decide (is_Some _) = false |- _ =>
    apply bool_decide_eq_false, eq_None_not_Some in H as Hb end.
  wp_step; [|done]. destruct a1. destruct (conversations (m_base m) !! _) as [c|] eqn:Hc.
  - wp_steps; try done. bool_norm. subst c. eapply created_directory_kept; try done.
    by match goal with H : cr_scope _ = _, H' : cr_conversation _ = _ |- _ => rewrite <- H, <- H' end.
  - assert (directory_kept m (with_base (with_conversations
      (<[record_key (cr_scope conversation) (conversation_id (cr_conversation conversation))
         := conversation]> (conversations (m_base m))) (m_base m)) m)) as Hk.
    { apply directory_kept_base; [done|]. intros k c Hkc. cbn. rewrite lookup_insert_ne; [done|].
      intros <-. congruence. }
    wp_steps; [|done]. transitivity (with_base (with_conversations
      (<[record_key (cr_scope conversation) (conversation_id (cr_conversation conversation))
         := conversation]> (conversations (m_base m))) (m_base m)) m); [done|].
    eapply (created_directory_kept _ g x conversation); try done; [apply Hk|].
    match goal with H : cr_scope _ = _, H' : cr_conversation _ = _ |- _ => rewrite <- H, <- H' end.
    cbn. by rewrite lookup_insert_eq.
Qed.

(** * Changes *)

Section changed.
Context (m m' : Memory) (g : GroupRecord) (scope : TenantScope) (actor : PrincipalRef).
Context (change : GroupChange) (floor : option Z) (t : GroupTransition) (k : RecordKey).
Context (Hd : directory_ok m) (Hg : groups (m_groups m) !! k = Some g).
Context (Ht : apply_group_change g (memberships_of m (gr_scope g) (gr_group_id g)) scope actor
                change floor = Ok t).
Context (Hgroups : groups (m_groups m') = <[k := gt_group t]> (groups (m_groups m))).
Context (Hmembers : group_memberships (m_groups m')
  = replace_memberships (gr_scope g) (gr_group_id g) (gt_memberships t)
      (group_memberships (m_groups m))).
Context (Hbase : conversations (m_base m') = conversations (m_base m)).

Lemma transition_binds :
  gr_scope (gt_group t) = gr_scope g ∧ gr_group_id (gt_group t) = gr_group_id g
  ∧ gr_conversation (gt_group t) = gr_conversation g.
Proof.
  destruct (apply_group_change_canonical _ _ _ _ _ _ _ Ht) as (_ & _ & [_ _ _ _ _ _ E _ _] & _).
  rewrite E. by destruct (ch_kind change).
Qed.

Lemma transition_members :
  Forall (λ x, gm_scope x = gr_scope g ∧ gm_group_id x = gr_group_id g) (gt_memberships t)
  ∧ NoDup (gm_member <$> gt_memberships t).
Proof.
  destruct (apply_group_change_canonical _ _ _ _ _ _ _ Ht) as (_ & _ & _ & Hms).
  apply canonical_members_valid in Hms as ([Hv Hnd] & _). split; [|done].
  destruct transition_binds as (Es & Ei & _).
  eapply Forall_impl; [exact Hv|]. intros x [? ? _ _ _]. split; congruence.
Qed.

Lemma changed_keyed : memberships_keyed (group_memberships (m_groups m')).
Proof.
  destruct transition_members as [Hms Hnd]. rewrite Hmembers.
  by apply replace_keyed; [..|apply Hd].
Qed.

Lemma changed_roster p :
  roster m' (gr_scope g) (gr_group_id g) !! p = members_map (gt_memberships t) !! p.
Proof.
  destruct transition_members as [Hms Hnd].
  rewrite roster_lookup, Hmembers by apply changed_keyed. by apply replace_same; [..|apply Hd].
Qed.

Lemma changed_other g' p :
  group_key (gr_scope g') (gr_group_id g') ≠ k →
  roster m' (gr_scope g') (gr_group_id g') !! p = roster m (gr_scope g') (gr_group_id g') !! p.
Proof.
  intros Hne. destruct transition_members as [Hms Hnd].
  rewrite !roster_lookup, Hmembers by (apply changed_keyed || apply Hd).
  apply replace_other; [done..|apply Hd|]. intros [E1 E2]%pair_eq. apply Hne.
  by rewrite E1, E2, (dk_group _ Hd _ _ Hg).
Qed.

Lemma changed_directory :
  ensure_bridge_mapping_uniqueness m (gt_group t) (Some (gr_group_id g)) = Ok tt →
  directory_ok m'.
Proof.
  intros Hu. destruct transition_binds as (Es & Ei & Ec).
  pose proof (dk_group _ Hd _ _ Hg) as Ek.
  assert (∀ k' g' b, groups (m_groups m) !! k' = Some g' → k ≠ k' → gr_scope g' = gr_scope g →
    b ∈ gr_bridge_mappings (gt_group t) → b ∈ gr_bridge_mappings g' → False) as Hmap.
  { intros k' g' [i e] Hg' Hne Es' Hi Hi'. unfold ensure_bridge_mapping_uniqueness in Hu.
    apply try_for_each_Ok in Hu. rewrite Forall_forall in Hu. specialize (Hu _ Hi).
    apply reject_if_Ok, existsb_false in Hu. rewrite Forall_forall in Hu.
    specialize (Hu g'). rewrite elem_of_values in Hu. cbn in Hu.
    rewrite (proj2 (maps_to_true i e g')) in Hu by done. rewrite bool_decide_true in Hu by congruence.
    rewrite bool_decide_false in Hu; [by discriminate Hu; eauto|].
    intros [= E]. apply Hne. rewrite Ek, (dk_group _ Hd _ _ Hg'). congruence. }
  split; rewrite ?Hgroups, ?Hbase.
  - intros k' g' [[<- <-]|[_ Hk]]%lookup_insert_Some; [congruence|by apply (dk_group _ Hd)].
  - apply changed_keyed.
  - rewrite Hmembers. intros k' x. destruct transition_members as [Hms Hnd].
    intros [[Hx _]|[_ Hx]]%replace_Some; [| |done..|apply Hd].
    + rewrite Forall_forall in Hms. destruct (Hms x Hx) as [-> ->]. rewrite <- Ek, lookup_insert_eq. eauto.
    + rewrite lookup_insert_is_Some. destruct (decide (k = group_key (gm_scope x) (gm_group_id x)));
        [by left|right]. split; [done|]. by apply (dk_member_group _ Hd k').
  - intros k' g' [[<- <-]|[Hne Hk]]%lookup_insert_Some.
    + replace (roster m' _ _) with (members_map (gt_memberships t)).
      * eapply group_ok_change; [|done]. by apply (dk_ok _ Hd k).
      * apply map_eq. intros p. by rewrite Es, Ei, changed_roster.
    + replace (roster m' _ _) with (roster m (gr_scope g') (gr_group_id g'));
        [by apply (dk_ok _ Hd k')|]. apply map_eq. intros p.
      rewrite changed_other; [done|]. by rewrite <- (dk_group _ Hd _ _ Hk).
  - intros k' g' [[<- <-]|[_ Hk]]%lookup_insert_Some; [|by apply (dk_conversation _ Hd k')].
    rewrite Es, Ec. by apply (dk_conversation _ Hd k).
  - intros k1 k2 g1 g2 [[<- <-]|[_ H1]]%lookup_insert_Some [[<- <-]|[_ H2]]%lookup_insert_Some E E';
      [done|..|by eapply (dk_bound _ Hd)]; [eapply (dk_bound _ Hd k k2 g)|eapply (dk_bound _ Hd k1 k _ g)];
      done || congruence.
  - intros k1 k2 g1 g2 b [[<- <-]|[N1 H1]]%lookup_insert_Some [[<- <-]|[N2 H2]]%lookup_insert_Some
      E E1 E2; [done|..|by eapply (dk_mapping _ Hd)]; exfalso; eapply Hmap; done || congruence.
Qed.
End changed.
