(* ===== verification/Attendance.v ===== *)
(** Calls and groups as one component: the effect of every call operation and of the
    reconciliation that follows a membership change. *)

From stdpp Require Import gmap.
From S2P Require Import Prelude Ids Framing Extension Message StoreForward Store Call Group Event.
From S2P Require Import CallFacts CallSafety CallFingerprint GroupFacts GroupRefinement GroupHistory.
From S2P Require Import Bridge Offline Memory OpLogic CallStore GroupStore CallEntry Directory.

Section effects.
Context `{Sha256}.

(** * Signals *)

Definition signalled (actor : ScopedPrincipal) (signal : CallSignal) (next : CallSession)
    (m : Memory) : Memory :=
  with_calls (mk_call_tables
    (<[call_key (sg_scope signal) (sg_call_id signal) := next]> (calls (m_calls m)))
    (call_creation_fingerprints (m_calls m))
    (<[call_signal_key (sg_scope signal) (sg_event_id signal)
       := (sp_principal actor, sha256 (call_signal_preimage signal), cs_revision next)]>
       (call_signals (m_calls m)))
    (conference_join_grants (m_calls m))) m.

(** An accepted signal: the stored call steps, under a fresh identifier. *)
Record signal_accepted (m : Memory) (actor : ScopedPrincipal) (signal : CallSignal)
    (s next : CallSession) : Prop := {
  sa_scope : sp_scope actor = sg_scope signal;
  sa_call : calls (m_calls m) !! call_key (sg_scope signal) (sg_call_id signal) = Some s;
  sa_step : apply_call_signal s (sp_scope actor) (sp_principal actor) signal = Ok next;
  sa_target : require_group_signal_target_if_needed m s signal = Ok tt;
  sa_signal : call_signals (m_calls m) !! record_key (sg_scope signal) (sg_event_id signal) = None;
  sa_event : events (m_journal m) !! record_key (sg_scope signal) (sg_event_id signal) = None;
  sa_change : group_changes (m_groups m) !! record_key (sg_scope signal) (sg_event_id signal) = None;
}.

Lemma signal_target_Err m s signal e :
  require_group_signal_target_if_needed m s signal = Err e → e = StPermissionDenied.
Proof.
  unfold require_group_signal_target_if_needed. intros E.
  repeat (case_match; try done); apply bind_Err in E as [E|(g & _ & E)];
    [by apply ok_or_Err in E as [_ ->]|by apply reject_if_Err in E as [_ ->]].
Qed.

Lemma signal_wp m actor signal :
  calls_ok (m_calls m) →
  wp (apply_call_signal_in_state actor signal) m (λ m' r,
    m' = m ∧ r ≠ Ok RecPersisted ∧ r ≠ Err StCorrupt
    ∨ r = Ok RecPersisted ∧ ∃ s next, signal_accepted m actor signal s next
                              ∧ m' = signalled actor signal next m).
Proof.
  intros Hc. unfold apply_call_signal_in_state. wp_step; [|by left]. wp_step; [|by cbn in *].
  wp_step. rewrite validated_ok by done.
  wp_step; [|by discriminate]. match goal with H : Ok _ = Ok _ |- _ => injection H as <- end.
  wp_step; [|by left]. rename a0 into s. wp_step; [|by left].
  destruct (call_signals (m_calls m) !! _) as [[[actor0 f] rev]|] eqn:Hsig.
  { wp_steps; by left. }
  wp_step; [|by left]. wp_step; [|by left; match goal with H : _ = Err _ |- _ =>
    apply signal_target_Err in H as -> end].
  wp_step; [|by left; destruct e]. wp_steps; [|by left].
  right. split; [done|]. bool_norm. destruct_and?. destruct a0.
  match goal with H : call_signal_fingerprint _ _ = Ok _ |- _ => injection H as <- end.
  cbn in *. exists s. eexists. split; [split; try done; by apply eq_None_not_Some|done].
Qed.

(** * Creation *)

Definition call_stored (s : CallSession) (preimage : bytes) (m : Memory) : Memory :=
  let key := call_key (cs_scope s) (cs_call_id s) in
  with_calls (mk_call_tables (<[key := s]> (calls (m_calls m)))
    (<[key := sha256 preimage]> (call_creation_fingerprints (m_calls m)))
    (call_signals (m_calls m)) (conference_join_grants (m_calls m))) m.

Record call_admitted (m : Memory) (s : CallSession) (preimage : bytes) : Prop := {
  ca_fresh : calls (m_calls m) !! call_key (cs_scope s) (cs_call_id s) = None;
  ca_wf : call_wf s;
  ca_revision : cs_revision s = 0%Z;
  ca_preimage : call_creation_preimage s = Ok preimage;
  ca_members : require_group_participants_if_needed m s = Ok tt;
}.

Lemma map_call_error_sound e : map_call_error e ≠ StCorrupt.
Proof. by destruct e. Qed.

Lemma parent_guard_sound m creator s parent :
  calls_ok (m_calls m) → parent_guard m creator s parent ≠ Err StCorrupt.
Proof.
  intros Hc. unfold parent_guard. destruct parent as [p|]; [|done]. case_match; [done|].
  rewrite validated_ok by done. cbn. by intros [_ ?]%reject_if_Err.
Qed.

Lemma group_participants_sound m s :
  require_group_participants_if_needed m s ≠ Err StCorrupt.
Proof.
  unfold require_group_participants_if_needed. case_match; [done|].
  destruct (bound_group _ _ _) as [g|]; [cbn|done].
  induction (cs_participants s) as [|p l IH]; [done|]. cbn.
  by intros [[_ ?]%reject_if_Err|([] & _ & ?)]%bind_Err.
Qed.

Lemma canonical_call_creation_wf s0 scope creator s :
  canonical_call_creation s0 scope creator = Ok s → call_wf s ∧ cs_revision s = 0%Z.
Proof.
  unfold canonical_call_creation. intros E. res_inv. simplify_eq.
  match goal with H : canonical_call_session _ = Ok _ |- _ =>
    apply canonical_call_session_Ok in H as [-> Hwf] end.
  split; [done|]. bool_norm. destruct_and?. done.
Qed.

Lemma create_call_wp m creator s0 parent :
  calls_ok (m_calls m) →
  wp (create_call_with_parent_guard creator s0 parent) m (λ m' r,
    m' = m ∧ r ≠ Ok RecPersisted ∧ r ≠ Err StCorrupt
    ∨ r = Ok RecPersisted ∧ ∃ s preimage, call_admitted m s preimage
                              ∧ m' = call_stored s preimage m).
Proof.
  intros Hc. unfold create_call_with_parent_guard.
  wp_step; [|left; split_and!; [done..|injection; apply map_call_error_sound]].
  wp_step; [|left; split_and!; [done..|injection; apply map_call_error_sound]].
  rename a into s, a0 into f. wp_step.
  wp_step; [|left; split_and!; [done..|intros [= ->]; by eapply parent_guard_sound]].
  wp_step; [|by left]. wp_step; [|by left]. rewrite validated_ok by done.
  wp_step; [|by discriminate]. match goal with H : Ok _ = Ok _ |- _ => injection H as <- end.
  destruct (calls (m_calls m) !! _) as [existing|] eqn:Hk.
  - destruct (ck_entry _ Hc _ _ Hk) as [_ _ _ (preimage & _ & Hf)].
    wp_steps; try by left. congruence.
  - wp_step; [|left; split_and!; [done..|intros [= ->]; by eapply group_participants_sound]].
    wp_steps. right. split; [done|]. destruct a1.
    match goal with H : canonical_call_creation _ _ _ = Ok _ |- _ =>
      apply canonical_call_creation_wf in H as [Hwf Hrev] end.
    match goal with H : call_creation_fingerprint _ _ = Ok _ |- _ =>
      apply bind_Ok in H as (preimage & Hp & [= <-]) end.
    by exists s, preimage.
Qed.
End effects.

(** * Reconciliation *)

Lemma NoDup_fmap_filter_b {A B} (f : A → B) (keep : A → bool) l :
  NoDup (f <$> l) → NoDup (f <$> List.filter keep l).
Proof.
  induction l as [|x l IH]; [done|]. intros [Hx Hnd]%NoDup_cons. cbn. case_match; [|by apply IH].
  cbn. apply NoDup_cons. split; [|by apply IH]. intros (y & E & Hy)%list_elem_of_fmap.
  apply Hx. rewrite E. apply list_elem_of_fmap_2.
  by apply list_elem_of_In, filter_In in Hy as [?%list_elem_of_In _].
Qed.

Lemma foldl_insert_is_Some {A B} `{Countable K} (f : A → K) (g : A → B) l (t : gmap K B) k :
  is_Some (t !! k) → is_Some (foldl (λ t x, <[f x := g x]> t) t l !! k).
Proof.
  revert t. induction l as [|x l IH]; intros t Ht; [done|]. cbn. apply IH.
  rewrite lookup_insert_is_Some. destruct (decide (f x = k)); [by left|by right].
Qed.

Definition active_members (memberships : list GroupMembership) : list PrincipalRef :=
  gm_member <$> List.filter (λ x, bool_decide (gm_state x = GmActive)) memberships.

Definition bound_call (g : GroupRecord) (s : CallSession) : bool :=
  bool_decide (cs_scope s = gr_scope g) && bool_decide (cs_conversation s = gr_conversation g).

(** The calls of the group are reconciled, the others kept. *)
Definition reconciles (g : GroupRecord) (members : list PrincipalRef) (s s' : CallSession) : Prop :=
  if bound_call g s then reconcile_group_call_membership s members = Ok s' else s' = s.

Lemma try_collect_Err {E A B} (f : A → result E B) l e :
  try_collect f l = Err e → ∃ x, f x = Err e.
Proof.
  induction l as [|x l IH]; [done|]. cbn. intros [?|(b & _ & [?|(bs & _ & [=])]%bind_Err)]%bind_Err;
    [by exists x|by apply IH].
Qed.

Definition update_key (u : RecordKey * CallSession * CallSession) : RecordKey := u.1.1.

(** The updates the scan collects: each entry of the group with its successor. *)
Lemma reconciled_spec members (bound : list (RecordKey * CallSession)) reconciled :
  try_collect (λ entry : RecordKey * CallSession,
    next ← map_err map_call_error (reconcile_group_call_membership entry.2 members);
    Ok (entry, next)) bound = Ok reconciled →
  reconciled.*1 = bound
  ∧ Forall (λ u, reconcile_group_call_membership u.1.2 members = Ok u.2) reconciled.
Proof.
  intros Hr%try_collect_Ok. induction Hr as [|e u l l' Hu _ [IH1 IH2]]; [done|].
  apply bind_Ok in Hu as (next & Hn%map_err_Ok & [= <-]). cbn. by rewrite IH1; split; [|constructor].
Qed.

Lemma reconcile_calls_wp m g memberships :
  wp (reconcile_group_calls_after_membership_change g memberships) m (λ m' r,
    m' = m ∧ (∃ e, r = Err e ∧ e ≠ StCorrupt)
    ∨ r = Ok tt ∧ ∃ t, m' = with_calls (set_calls t (m_calls m)) m
      ∧ (∀ k s', t !! k = Some s' →
           ∃ s, calls (m_calls m) !! k = Some s ∧ reconciles g (active_members memberships) s s')
      ∧ ∀ k, is_Some (calls (m_calls m) !! k) → is_Some (t !! k)).
Proof.
  unfold reconcile_group_calls_after_membership_change. wp_step. wp_step.
  2: { left. split; [done|]. eexists. split; [done|].
       match goal with H : _ = Err _ |- _ => apply try_collect_Err in H as (x & Hx) end.
       destruct (reconcile_group_call_membership _ _); [done|]. injection Hx as <-.
       apply map_call_error_sound. }
  rename a into rec. match goal with H : _ = Ok rec |- _ => apply reconciled_spec in H as [Hb Hn] end.
  wp_step. right. split; [done|]. eexists. split; [done|].
  set (updates := List.filter _ rec).
  assert (NoDup (update_key <$> updates)) as Hnd.
  { apply NoDup_fmap_filter_b.
    replace (_ <$> rec) with (rec.*1.*1) by by rewrite <- list_fmap_compose.
    rewrite Hb. apply NoDup_fmap_filter_b, NoDup_fst_map_to_list. }
  assert (∀ u, u ∈ rec → calls (m_calls m) !! u.1.1 = Some u.1.2 ∧ bound_call g u.1.2 = true
    ∧ reconcile_group_call_membership u.1.2 (active_members memberships) = Ok u.2) as Hrec.
  { intros u Hu. rewrite Forall_forall in Hn. specialize (Hn u Hu).
    assert (u.1 ∈ rec.*1) as Hu' by by apply list_elem_of_fmap_2. rewrite Hb in Hu'.
    apply list_elem_of_In, filter_In in Hu' as [Hu' ?]. apply list_elem_of_In in Hu'.
    rewrite (surjective_pairing u.1), elem_of_map_to_list in Hu'. done. }
  split.
  - intros k s'. rewrite (foldl_insert_Some update_key snd) by done.
    intros [(u & Hu & <- & <-)|[Hk Hs']].
    + apply list_elem_of_In, filter_In in Hu as [Hu _]. apply list_elem_of_In in Hu.
      destruct (Hrec u Hu) as (Hc & Hbd & Hr). exists u.1.2. unfold reconciles. by rewrite Hbd.
    + exists s'. split; [done|]. unfold reconciles. destruct (bound_call g s') eqn:Hbd; [|done].
      assert ((k, s') ∈ rec.*1) as (u & Eu & Hu)%list_elem_of_fmap.
      { rewrite Hb. apply list_elem_of_In, filter_In. split; [|done].
        by apply list_elem_of_In, elem_of_map_to_list. }
      destruct (Hrec u Hu) as (_ & _ & Hr). rewrite <- Eu in Hr. cbn in Hr. rewrite Hr. f_equal.
      destruct (decide (u.2 = s')) as [E|Hne]; [done|]. destruct Hk. apply list_elem_of_fmap.
      exists u. unfold update_key. rewrite <- Eu. split; [done|]. apply list_elem_of_In, filter_In.
      split; [by apply list_elem_of_In|]. by rewrite <- Eu, bool_decide_false.
  - intros k. apply foldl_insert_is_Some.
Qed.
