(* ===== verification/Collaboration.v ===== *)
(** Groups, calls and the event journal as one store: the invariant that ties them together,
    and that every operation preserves it. *)

From stdpp Require Import gmap.
From S2P Require Import Prelude Ids Framing Extension Message StoreForward Store Call Group Event.
From S2P Require Import CallFacts CallSafety CallFingerprint GroupFacts GroupRefinement GroupHistory.
From S2P Require Import Bridge Offline Memory OpLogic CallStore GroupStore GroupMessages CallEntry.
From S2P Require Import Directory Attendance.

(** * Attendance *)

Definition group_call (s : CallSession) : bool :=
  is_group_conversation_kind (conversation_kind (cs_conversation s)).

Definition attends (m : Memory) (g : GroupRecord) (p : PrincipalRef) : Prop :=
  ∃ x, roster m (gr_scope g) (gr_group_id g) !! p = Some x ∧ gm_state x = GmActive.

(** A group call belongs to a group, and while it lasts its live participants are active
    members of that group. *)
Definition attended (m : Memory) (s : CallSession) : Prop :=
  group_call s = true →
  ∃ k g, groups (m_groups m) !! k = Some g ∧ gr_scope g = cs_scope s
         ∧ gr_conversation g = cs_conversation s
         ∧ (cs_signalling_state s ≠ CsTerminated → ∀ p, p ∈ cs_participants s →
              live_state (cp_state p) = true → attends m g (cp_principal p)).

Lemma attended_kept m m' s : groups_kept m m' → attended m s → attended m' s.
Proof.
  intros Hk Ha Hg. destruct (Ha Hg) as (k & g & Hgk & Es & Ec & Hl).
  destruct (Hk k g Hgk) as [Hgk' Hr]. exists k, g. split_and!; [done..|].
  intros Ht p Hp Hlive. destruct (Hl Ht p Hp Hlive) as (x & Hx & ?). exists x. by rewrite Hr.
Qed.

Lemma attends_member m g p :
  directory_ok m →
  member_active m (gr_scope g) (gr_group_id g) p = true → attends m g p.
Proof. intros Hd Ha. apply member_active_roster in Ha; [done|apply Hd]. Qed.

Lemma attended_created m s :
  directory_ok m → require_group_participants_if_needed m s = Ok tt → attended m s.
Proof.
  intros Hd Hr Hg. unfold require_group_participants_if_needed, group_call in *. rewrite Hg in Hr.
  cbn in Hr. apply bind_Ok in Hr as (g & Hb%ok_or_Ok & Hr).
  apply bound_group_Some in Hb as ([k Hk] & Es & Ec). exists k, g. split_and!; [done..|].
  intros _ p Hp _. apply try_for_each_Ok in Hr. rewrite Forall_forall in Hr.
  specialize (Hr p Hp). apply reject_if_Ok, negb_false_iff in Hr. apply attends_member; [done|].
  by rewrite Es.
Qed.

Lemma attended_signal m s scope actor signal next :
  directory_ok m → call_wf s → attended m s →
  require_group_signal_target_if_needed m s signal = Ok tt →
  apply_call_signal s scope actor signal = Ok next → attended m next.
Proof.
  intros Hd Hwf Ha Hr Hn Hg.
  pose proof (call_step_facts _ _ Hwf (step_signal _ _ _ _ _ Hn)) as F.
  unfold group_call in Hg. rewrite (sf_conversation _ _ F) in Hg.
  destruct (Ha Hg) as (k & g & Hk & Es & Ec & Hl). exists k, g.
  rewrite (sf_scope _ _ F), (sf_conversation _ _ F). split_and!; [done..|].
  intros _ p' Hp' Hlive.
  assert (cs_signalling_state s ≠ CsTerminated) as Ht.
  { apply apply_call_signal_Ok in Hn as (s0 & s' & Hc & Hgd & _).
    rewrite canonical_call_session_wf in Hc by done. injection Hc as <-. apply Hgd. }
  destruct (signal_live _ _ _ _ _ _ Hwf Hn Hp' Hlive) as [(p & Hp & E & Hlp)|E].
  - rewrite <- E. by apply Hl.
  - unfold require_group_signal_target_if_needed in Hr. rewrite E, Hg in Hr. cbn in Hr.
    rewrite <- Es, <- Ec, (bound_group_unique m k g) in Hr by done. cbn in Hr.
    apply reject_if_Ok, negb_false_iff in Hr. by apply attends_member.
Qed.

(** * Reconciliation *)

Lemma elem_of_active_members ms p :
  NoDup (gm_member <$> ms) →
  p ∈ active_members ms → ∃ x, members_map ms !! p = Some x ∧ gm_state x = GmActive.
Proof.
  intros Hnd (x & -> & Hx)%list_elem_of_fmap. apply list_elem_of_In, filter_In in Hx as [Hx E].
  apply list_elem_of_In in Hx. apply bool_decide_eq_true in E. exists x.
  by rewrite members_map_lookup.
Qed.

(** Whoever is live after a reconciliation is an active member. *)
Lemma reconciled_live s members c p :
  call_wf s → reconcile_group_call_membership s members = Ok c →
  cs_signalling_state c ≠ CsTerminated → p ∈ cs_participants c → live_state (cp_state p) = true →
  cp_principal p ∈ members.
Proof.
  intros Hwf Hc Ht Hp Hl. apply reconcile_Ok in Hc as [[-> [?|[Hi Hr]]]|[_ ->]]; [done|..|done].
  - rewrite existsb_false, Forall_forall in Hr. specialize (Hr p Hp).
    unfold revoked_participant in Hr.
    rewrite Hl, (bool_decide_eq_true_2 (cp_left_revision p = None)) in Hr
      by by apply (live_not_left s).
    case_bool_decide as E; cbn in Hr; [by rewrite E; apply member_b|].
    by apply negb_false_iff, member_b in Hr.
  - revert Ht Hp. unfold sort_session. cbn. rewrite elem_of_sort_by. intros Ht Hp.
    by eapply (revoke_members_live s members (cs_revision s + 1)).
Qed.

(** * The invariant *)

Section invariant.
Context `{Sha256}.

(** No identifier names two of: an event, a group change, a call signal. *)
Definition exclusive (m : Memory) (k : RecordKey) : Prop :=
  (events (m_journal m) !! k = None ∨ group_changes (m_groups m) !! k = None)
  ∧ (events (m_journal m) !! k = None ∨ call_signals (m_calls m) !! k = None)
  ∧ (group_changes (m_groups m) !! k = None ∨ call_signals (m_calls m) !! k = None).

Record collab_ok (m : Memory) : Prop := {
  cl_directory : directory_ok m;
  cl_calls : calls_ok (m_calls m);
  cl_attended k s : calls (m_calls m) !! k = Some s → attended m s;
  cl_exclusive k : exclusive m k;
}.

Lemma collab_kept m m' : directory_kept m m' → collab_ok m → collab_ok m'.
Proof.
  intros [Hd Hg Hc Hj Hch] [_ Hcalls Hatt Hex]. split; [done|by rewrite Hc|..].
  - intros k s. rewrite Hc. intros Hs. eapply attended_kept; [done|by eapply Hatt].
  - intros k. unfold exclusive. rewrite Hj, Hc, Hch. apply Hex.
Qed.

Lemma collab_call_stored m s preimage :
  collab_ok m → call_admitted m s preimage → collab_ok (call_stored s preimage m).
Proof.
  intros [Hd [He Hf] Hatt Hex] [Hfresh Hwf Hrev Hp Hmem]. split; [|split|..]; cbn.
  - by apply (directory_frame m).
  - intros k s' [[<- <-]|[Hne Hs']]%lookup_insert_Some.
    + split; [done..|lia|]. exists preimage. split; [done|]. cbn. by rewrite lookup_insert_eq.
    + destruct (He k s' Hs') as [? ? ? (pre & ? & ?)]. split; [done..|]. exists pre.
      split; [done|]. cbn. by rewrite lookup_insert_ne.
  - intros k. rewrite !lookup_insert_is_Some. naive_solver.
  - intros k s' [[<- <-]|[_ Hs']]%lookup_insert_Some;
      (apply (attended_kept m); [by apply groups_kept_same|]);
      [by apply attended_created|by eapply Hatt].
  - done.
Qed.

Lemma collab_signalled m actor signal s next :
  collab_ok m → signal_accepted m actor signal s next → collab_ok (signalled actor signal next m).
Proof.
  intros [Hd Hc Hatt Hex] [_ Hs Hn Hr Hsig Hev Hch].
  pose proof (ce_wf _ _ _ (ck_entry _ Hc _ _ Hs)) as Hwf. split.
  - by apply (directory_frame m).
  - eapply calls_ok_update; [exact Hc|done|..]; cbn.
    + intros k s' [[<- <-]|[_ Hs']]%lookup_insert_Some; [|by eauto using rtc_refl].
      exists s. split; [done|]. by eapply rtc_once, step_signal.
    + intros k Hk. apply lookup_insert_is_Some. destruct (decide (call_key (sg_scope signal)
        (sg_call_id signal) = k)); [by left|by right].
  - cbn. intros k s' [[<- <-]|[_ Hs']]%lookup_insert_Some;
      (apply (attended_kept m); [by apply groups_kept_same|]); [|by eapply Hatt].
    eapply attended_signal; [done|done|by eapply Hatt|done..].
  - intros k. destruct (Hex k) as (? & ? & ?). unfold exclusive. cbn.
    destruct (decide (call_signal_key (sg_scope signal) (sg_event_id signal) = k)) as [<-|Hne].
    + unfold call_signal_key. rewrite Hev, Hch. by auto.
    + by rewrite lookup_insert_ne.
Qed.

Section change.
Context (m m' : Memory) (g : GroupRecord) (scope : TenantScope) (actor : PrincipalRef).
Context (change : GroupChange) (floor : option Z) (t : GroupTransition) (k ck : RecordKey).
Context (table : gmap RecordKey CallSession) (record : PrincipalRef * bytes).
Context (Hok : collab_ok m) (Hg : groups (m_groups m) !! k = Some g).
Context (Ht : apply_group_change g (memberships_of m (gr_scope g) (gr_group_id g)) scope actor
                change floor = Ok t).
Context (Hu : ensure_bridge_mapping_uniqueness m (gt_group t) (Some (gr_group_id g)) = Ok tt).
Context (Hstep : ∀ k s', table !! k = Some s' → ∃ s, calls (m_calls m) !! k = Some s
  ∧ reconciles (gt_group t) (active_members (gt_memberships t)) s s').
Context (Hkeep : ∀ k, is_Some (calls (m_calls m) !! k) → is_Some (table !! k)).
Context (Hgroups : groups (m_groups m') = <[k := gt_group t]> (groups (m_groups m))).
Context (Hmembers : group_memberships (m_groups m')
  = replace_memberships (gr_scope g) (gr_group_id g) (gt_memberships t)
      (group_memberships (m_groups m))).
Context (Hchanges : group_changes (m_groups m') = <[ck := record]> (group_changes (m_groups m))).
Context (Hbase : m_base m' = m_base m) (Hjournal : m_journal m' = m_journal m).
Context (Hcalls : m_calls m' = set_calls table (m_calls m)).
Context (Hev : events (m_journal m) !! ck = None) (Hsig : call_signals (m_calls m) !! ck = None).

Lemma changed_call s s' :
  call_wf s → reconciles (gt_group t) (active_members (gt_memberships t)) s s' →
  rtc call_step s s'.
Proof.
  unfold reconciles. intros Hwf. case_match; [|by intros ->; apply rtc_refl].
  intros Hr. by eapply rtc_once, step_membership.
Qed.

Lemma changed_attended s s' :
  call_wf s → attended m s →
  reconciles (gt_group t) (active_members (gt_memberships t)) s s' → attended m' s'.
Proof.
  intros Hwf Ha Hr Hgc. pose proof (cl_directory _ Hok) as Hd.
  destruct (transition_binds _ _ _ _ _ _ _ Ht) as (Es & Ei & Ec).
  unfold reconciles in Hr. destruct (bound_call (gt_group t) s) eqn:Hb.
  - pose proof (call_step_facts _ _ Hwf (step_membership _ _ _ Hr)) as F.
    apply andb_true_iff in Hb as [Hb1%bool_decide_eq_true Hb2%bool_decide_eq_true].
    exists k, (gt_group t). rewrite Hgroups, lookup_insert_eq.
    split_and!; [done|by rewrite (sf_scope _ _ F)|by rewrite (sf_conversation _ _ F)|].
    intros Hst p Hp Hl. pose proof (reconciled_live _ _ _ _ Hwf Hr Hst Hp Hl) as Hin.
    destruct (transition_members _ _ _ _ _ _ _ Ht) as [_ Hnd].
    destruct (elem_of_active_members _ _ Hnd Hin) as (x & Hx & Hs). exists x.
    by rewrite Es, Ei, (changed_roster m m' g scope actor change floor t).
  - subst s'. destruct (Ha Hgc) as (k0 & g0 & Hk0 & E1 & E2 & Hl). exists k0, g0.
    assert (k0 ≠ k) as Hne.
    { intros ->. rewrite Hg in Hk0. injection Hk0 as <-. unfold bound_call in Hb.
      rewrite Es, Ec, E1, E2, !bool_decide_true in Hb; done. }
    rewrite Hgroups, lookup_insert_ne by done. split_and!; [done..|].
    intros Hst p Hp Hlive. destruct (Hl Hst p Hp Hlive) as (x & Hx & Hs). exists x. split; [|done].
    rewrite <- Hx. eapply (changed_other m m' g scope actor change floor t k); try done.
    by rewrite <- (dk_group _ Hd _ _ Hk0).
Qed.

Lemma change_keeps : collab_ok m'.
Proof.
  pose proof Hok as [Hd Hc Hatt Hex].
  assert (∀ k s, calls (m_calls m) !! k = Some s → call_wf s) as Hwf.
  { intros k0 s Hs. apply (ce_wf _ _ _ (ck_entry _ Hc _ _ Hs)). }
  split.
  - eapply (changed_directory m m' g); try done. by rewrite Hbase.
  - eapply calls_ok_update; [exact Hc|by rewrite Hcalls|..]; rewrite Hcalls; cbn; [|done].
    intros k0 s' Hs'. destruct (Hstep k0 s' Hs') as (s & Hs & Hr). exists s. split; [done|].
    eapply changed_call; [by eapply Hwf|done].
  - rewrite Hcalls. cbn. intros k0 s' Hs'. destruct (Hstep k0 s' Hs') as (s & Hs & Hr).
    eapply changed_attended; [by eapply Hwf|by eapply Hatt|done].
  - intros k0. destruct (Hex k0) as (? & ? & ?). unfold exclusive.
    rewrite Hjournal, Hcalls, Hchanges. cbn. destruct (decide (ck = k0)) as [<-|Hne].
    + rewrite Hev, Hsig. by auto.
    + by rewrite lookup_insert_ne.
Qed.
End change.
End invariant.
