(* ===== verification/CollaborationCalls.v ===== *)
(** The calls that change groups, group messages, calls or the journal, and that each keeps
    the invariant of the combined store and never finds it corrupt. *)

From stdpp Require Import gmap.
From S2P Require Import Prelude Ids Framing Extension Message StoreForward Store Call Group Event.
From S2P Require Import CallFacts CallSafety CallFingerprint GroupFacts GroupRefinement GroupHistory.
From S2P Require Import Bridge Offline Memory OpLogic CallStore GroupStore GroupMessages CallEntry.
From S2P Require Import Directory Attendance Collaboration EventStore EventFacts Subscription EventCalls.

(** * Errors *)

Lemma map_group_error_sound e : map_group_error e ≠ StCorrupt.
Proof. by destruct e. Qed.

Lemma map_err_sound {E F A} (f : E → F) (r : result E A) e :
  (∀ x, f x ≠ e) → map_err f r ≠ Err e.
Proof. intros Hf. destruct r; [done|]. cbn. intros [= ?]. by eapply Hf. Qed.

Lemma registration_active_sound m scope b : registration_active m scope b ≠ Err StCorrupt.
Proof.
  unfold registration_active. destruct (_ !! _); [cbn|done]. by intros [_ ?]%reject_if_Err.
Qed.

Lemma try_for_each_sound {E A} (f : A → result E unit) l e :
  (∀ x, f x ≠ Err e) → try_for_each f l ≠ Err e.
Proof.
  intros Hf. induction l as [|x l IH]; [done|]. cbn.
  intros [?|([] & _ & ?)]%bind_Err; [by eapply Hf|done].
Qed.

Lemma uniqueness_sound m g x : ensure_bridge_mapping_uniqueness m g x ≠ Err StCorrupt.
Proof. apply try_for_each_sound. intros b. by intros [_ ?]%reject_if_Err. Qed.

Lemma history_floor_sound m g : history_floor_for_add m g ≠ Err StCorrupt.
Proof.
  unfold history_floor_for_add. destruct (gr_history_policy g); try done.
  1,2: by intros [_ ?]%ok_or_Err.
  case_match; [done|]. intros [[_ ?]%ok_or_Err|(c & _ & E)]%bind_Err; [done|].
  case_match; [by apply ok_or_Err in E as [_ ?]|done].
Qed.

Lemma change_floor_sound m g change : change_history_floor m g change ≠ Err StCorrupt.
Proof.
  unfold change_history_floor. case_match; try done.
  intros [E|(? & _ & [=])]%bind_Err. by apply history_floor_sound in E.
Qed.

Lemma replica_sequence_sound m b : replica_sequence m b ≠ Err StCorrupt.
Proof.
  unfold replica_sequence. destruct b; [|done].
  by intros [[_ ?]%ok_or_Err|(? & _ & [=])]%bind_Err.
Qed.

Lemma bridge_guard_sound m change : change_bridge_guard m change ≠ Err StCorrupt.
Proof. unfold change_bridge_guard. case_match; try done. apply registration_active_sound. Qed.

Create HintDb ucr_sound.
#[global] Hint Resolve registration_active_sound
  uniqueness_sound history_floor_sound change_floor_sound replica_sequence_sound
  bridge_guard_sound : ucr_sound.

(** The error branch of a step that never reports corruption. *)
Ltac sound_err :=
  let E := fresh in intros E; injection E as E;
  first [by apply map_group_error_sound in E|by apply map_call_error_sound in E|subst;
    match goal with H : ?r = Err StCorrupt |- _ =>
      by assert (r ≠ Err StCorrupt) by eauto with ucr_sound end].

Section calls.
Context `{Sha256}.

(** * Changes *)

Definition sound {A} (r : result DurableStoreError A) : Prop := r ≠ Err StCorrupt.

Lemma change_wp m actor change export :
  collab_ok m →
  wp (apply_group_change_in_state actor change export) m (λ m' r, (collab_ok m' ∧ m_journal m' = m_journal m) ∧ sound r).
Proof.
  intros Hok. unfold apply_group_change_in_state, sound.
  wp_step; [|done]. wp_step; [|done]. wp_step. wp_step; [|done]. rename a0 into g.
  match goal with H : groups _ !! _ = Some g |- _ => rename H into Hg end.
  pose proof (dk_group _ (cl_directory _ Hok) _ _ Hg) as Ek.
  unfold group_key in Ek. apply record_key_inj in Ek as [Es Ei]. rewrite Es, Ei in *.
  wp_step; [|split; [done|]; sound_err].
  destruct (group_changes (m_groups m) !! _) as [[actor0 f0]|]; [by wp_steps|].
  wp_step; [|split; [done|]; sound_err]. wp_step; [|split; [done|]; sound_err].
  wp_step; [|split; [done|]; sound_err]. wp_step; [|split; [done|]; sound_err].
  rename a2 into floor, a3 into t. destruct a4. wp_step; [|done].
  wp_step; [|split; [done|]; sound_err].
  apply wp_bind. eapply wp_mono; [|apply reconcile_calls_wp]. cbn beta.
  intros m1 r [[-> (e & -> & He)]|[-> (table & -> & Hstep & Hkeep)]].
  { split; [done|]. by intros [= ->]. }
  wp_steps. split; [split; [|done]|done]. bool_norm. destruct_and?.
  eapply (change_keeps m _ g (sp_scope actor) (sp_principal actor) change floor t _
    (change_key (gr_scope g) (ch_event_id change)) table (sp_principal actor, a));
    first [done|by destruct a2|by apply eq_None_not_Some].
Qed.

(** * Messages *)

(** The tables of groups and calls are left alone. *)
Record quiet (m m' : Memory) : Prop := {
  qt_groups : groups (m_groups m') = groups (m_groups m);
  qt_memberships : group_memberships (m_groups m') = group_memberships (m_groups m);
  qt_changes : group_changes (m_groups m') = group_changes (m_groups m);
  qt_calls : m_calls m' = m_calls m;
  qt_journal : m_journal m' = m_journal m;
  qt_conversations : conversations (m_base m') = conversations (m_base m);
}.

#[global] Instance quiet_preorder : PreOrder quiet.
Proof.
  split; [by intros m|]. intros m1 m2 m3 [? ? ? ? ? ?] [? ? ? ? ? ?]. split; congruence.
Qed.

Lemma collab_quiet m m' : quiet m m' → collab_ok m → collab_ok m'.
Proof.
  intros [Hg Hm Hc ? ? Hb] Hok. eapply collab_kept; [|done]. split; try done.
  - eapply (directory_frame m); [done..|by rewrite Hb|apply Hok].
  - by apply groups_kept_same.
Qed.

Lemma persist_message_quiet m message :
  wp (on_base (persist_message_in_state message)) m (λ m' r, quiet m m' ∧ sound r).
Proof.
  apply wp_zoom. unfold persist_message_in_state, or_invalid, duplicate_or_conflict, sound.
  wp_steps; try done; repeat case_match; done.
Qed.

Lemma export_message_quiet subject g sequence message m :
  quiet m (export_message subject g sequence message m).
Proof. unfold export_message. by case_match. Qed.

Lemma sending_group_sound m subject message : sending_group m subject message ≠ Err StCorrupt.
Proof. unfold sending_group. intros E. repeat (apply bind_Err in E as [E|(? & _ & E)]);
  try done; first [by apply ok_or_Err in E as [_ ?]|by apply reject_if_Err in E as [_ ?]].
Qed.

Lemma replica_admitted_sound m recipient record :
  replica_admitted m recipient record ≠ Err StCorrupt.
Proof. unfold replica_admitted. intros E. repeat (apply bind_Err in E as [E|(? & _ & E)]);
  try done; first [by apply ok_or_Err in E as [_ ?]|by apply reject_if_Err in E as [_ ?]].
Qed.

Lemma scoped_device_sound p : scoped_device_id p ≠ Err StCorrupt.
Proof. unfold scoped_device_id. by intros [[_ ?]%reject_if_Err|(? & _ & [=])]%bind_Err. Qed.

Lemma next_sequence_sound m : checked_next_offline_group_sequence m ≠ Err StCorrupt.
Proof. by intros [_ ?]%ok_or_Err. Qed.
#[local] Hint Resolve sending_group_sound replica_admitted_sound scoped_device_sound
  next_sequence_sound : ucr_sound.

(** Run [persist_message_in_state] as one step. *)
Ltac persist_step :=
  apply wp_bind; eapply wp_mono; [|apply persist_message_quiet];
  intros ? [|] [? ?]; [|split; [done|]; by intros [= ->]].

Lemma persist_group_message_wp m subject message :
  wp (persist_group_message subject message) m (λ m' r, quiet m m' ∧ sound r).
Proof.
  unfold persist_group_message, sound. do 3 (wp_step; try done). wp_step.
  wp_step; [|split; [done|]; sound_err]. wp_step; [|split; [done|]; sound_err].
  persist_step. wp_steps. split; [|done]. case_match; [|done].
  etransitivity; [done|apply export_message_quiet].
Qed.

Lemma persist_next_wp m subject message :
  wp (persist_group_message_with_next_logical_order subject message) m
    (λ m' r, quiet m m' ∧ sound r).
Proof.
  unfold persist_group_message_with_next_logical_order, sound. do 3 (wp_step; try done). wp_step.
  wp_step; [|split; [done|]; sound_err]. destruct (messages (m_base m) !! _); [by wp_steps|].
  wp_step; [|done]. wp_step; [|split; [done|]; sound_err].
  persist_step. wp_steps; [|done]. split; [|done]. case_match; [|done].
  etransitivity; [done|apply export_message_quiet].
Qed.

Lemma reconcile_message_wp m recipient record :
  wp (reconcile_offline_group_message recipient record) m (λ m' r, quiet m m' ∧ sound r).
Proof.
  unfold reconcile_offline_group_message, sound. do 2 (wp_step; try done). wp_step.
  wp_step; [|split; [done|]; sound_err]. apply persist_message_quiet.
Qed.

Lemma reconcile_mesh_wp m recipient record :
  wp (reconcile_mesh_group_message recipient record) m (λ m' r, quiet m m' ∧ sound r).
Proof.
  unfold reconcile_mesh_group_message, sound. wp_step; [|done].
  wp_step; [|split; [done|]; sound_err]. do 2 (wp_step; try done). wp_step.
  wp_step; [|split; [done|]; sound_err]. destruct (messages (m_base m) !! _) as [existing|].
  - apply wp_bind. wp_step; [|done]. wp_step. case_match; [by wp_steps|].
    wp_step; [|split; [done|]; sound_err]. by wp_steps.
  - persist_step. wp_step. case_match; [by wp_steps|].
    wp_step; [|split; [done|]; sound_err]. wp_steps. split; [|done]. by etransitivity.
Qed.

Lemma reconcile_change_wp m recipient record :
  collab_ok m →
  wp (reconcile_offline_group_change recipient record) m (λ m' r, (collab_ok m' ∧ m_journal m' = m_journal m) ∧ sound r).
Proof.
  intros Hok. unfold reconcile_offline_group_change, sound. wp_steps; try done.
  by apply change_wp.
Qed.

Lemma persist_conversation_grows s conversation :
  wp (persist_conversation conversation) s (λ s' r,
    (∀ k c, conversations s !! k = Some c → conversations s' !! k = Some c) ∧ sound r).
Proof.
  assert (wp match conversations s !! record_key (cr_scope conversation)
                      (conversation_id (cr_conversation conversation)) with
             | Some existing => duplicate_or_conflict (bool_decide (existing = conversation))
             | None => put (with_conversations (<[record_key (cr_scope conversation)
                 (conversation_id (cr_conversation conversation)) := conversation]>
                 (conversations s)) s) ;; mret RecPersisted
             end s (λ s' r, (∀ k c, conversations s !! k = Some c → conversations s' !! k = Some c)
                            ∧ sound r)) as Hend.
  { unfold duplicate_or_conflict, sound. wp_steps; [by case_match|]. split; [|done].
    intros k c Hk. cbn. rewrite lookup_insert_ne; [done|]. intros <-. congruence. }
  unfold persist_conversation, or_invalid. wp_step; [|done]. wp_step.
  destruct (cr_parent_conversation_id conversation) as [p|].
  - apply wp_bind. wp_step; [|done]. apply wp_lift_end.
    destruct (validate_conversation_parent_kind _ _); [exact Hend|done].
  - exact Hend.
Qed.

Lemma conversation_wp m conversation :
  collab_ok m →
  wp (on_base (persist_conversation conversation)) m (λ m' r, (collab_ok m' ∧ m_journal m' = m_journal m) ∧ sound r).
Proof.
  intros Hok. apply wp_zoom. eapply wp_mono; [|apply persist_conversation_grows].
  intros b r [Hb Hr]. split; [split; [|done]|done]. eapply collab_kept; [|done].
  apply directory_kept_base; [apply Hok|done].
Qed.

(** * Terminating a direct call *)

(** Writing back what is there changes nothing. *)
Lemma restore_call_id c k : restore_call k (calls c !! k) c = c.
Proof.
  unfold restore_call. destruct (calls c !! k) as [s|] eqn:Hk; [|done].
  unfold set_calls. rewrite insert_id by done. by destruct c.
Qed.

Lemma restore_signal_id c k : restore_signal k (call_signals c !! k) c = c.
Proof.
  unfold restore_signal, set_call_signals.
  destruct (call_signals c !! k) as [r|] eqn:Hk; [rewrite insert_id by done|
    rewrite delete_id by done]; by destruct c.
Qed.

(** The rollback of [terminate_direct_call_with_derived]. *)
Definition rolled_back (before : CallTables) (dk mk dek mek : RecordKey) (m : Memory) : Memory :=
  with_calls
    (restore_signal mek (call_signals before !! mek)
      (restore_signal dek (call_signals before !! dek)
        (restore_call mk (calls before !! mk)
          (restore_call dk (calls before !! dk) (m_calls m))))) m.

Lemma rolled_back_id m dk mk dek mek : rolled_back (m_calls m) dk mk dek mek m = m.
Proof.
  unfold rolled_back. rewrite !restore_call_id, !restore_signal_id. by destruct m.
Qed.

(** The first two restorations undo a signal. *)
Lemma restore_signalled m actor signal next s :
  calls (m_calls m) !! call_key (sg_scope signal) (sg_call_id signal) = Some s →
  call_signals (m_calls m) !! call_signal_key (sg_scope signal) (sg_event_id signal) = None →
  restore_signal (call_signal_key (sg_scope signal) (sg_event_id signal)) None
    (restore_call (call_key (sg_scope signal) (sg_call_id signal)) (Some s)
       (m_calls (signalled actor signal next m))) = m_calls m.
Proof.
  intros Hc Hs. unfold signalled, restore_call, restore_signal, set_calls, set_call_signals. cbn.
  rewrite delete_insert_eq, delete_id, insert_insert_eq, insert_id by done. by destruct (m_calls m).
Qed.

Lemma rolled_back_signalled m actor signal next s mk mek :
  calls (m_calls m) !! call_key (sg_scope signal) (sg_call_id signal) = Some s →
  call_signals (m_calls m) !! call_signal_key (sg_scope signal) (sg_event_id signal) = None →
  rolled_back (m_calls m) (call_key (sg_scope signal) (sg_call_id signal)) mk
    (call_signal_key (sg_scope signal) (sg_event_id signal)) mek (signalled actor signal next m) = m.
Proof.
  intros Hc Hs. unfold rolled_back. rewrite Hc, Hs.
  assert (∀ b c k r, restore_signal k r (restore_call mk b c)
                     = restore_call mk b (restore_signal k r c)) as Hswap.
  { intros [b|] c k [r|]; done. }
  rewrite Hswap, restore_signalled, restore_call_id, restore_signal_id by done.
  by destruct m.
Qed.

Lemma terminal_signal s scope actor signal next :
  call_wf s → apply_call_signal s scope actor signal = Ok next →
  match sg_kind signal with SkCancel | SkTerminate _ => True | _ => False end →
  cs_signalling_state next = CsTerminated.
Proof.
  intros Hwf (s0 & s' & _ & _ & Hd & ->)%apply_call_signal_Ok Hk.
  destruct (sg_kind signal); try done; cbn in Hd;
    unfold apply_pre_accept_termination, apply_explicit_termination in Hd; res_inv; by simplify_eq.
Qed.

(** The effect of the closure: at most the two signals, and an error before the second. *)
Definition both_ended (m : Memory) (actor : ScopedPrincipal) (direct : CallSession)
    (signal : CallSignal) (derived_call_id : CallId) (derived_event_id : EventId) (m' : Memory) :
    Prop :=
  ∃ next, signal_accepted m actor signal direct next
    ∧ let m1 := signalled actor signal next m in
      let mk := call_key (cs_scope direct) derived_call_id in
      (m' = m1 ∧ (calls (m_calls m1) !! mk = None
                  ∨ (∃ media, calls (m_calls m1) !! mk = Some media
                              ∧ cs_signalling_state media = CsTerminated)
                  ∨ is_Some (call_signals (m_calls m1) !! call_signal_key (cs_scope direct) derived_event_id)))
      ∨ ∃ media kind ended,
          let signal' := mk_signal derived_event_id (cs_scope direct) derived_call_id
                           (cs_revision media) kind in
          let actor' := mk_scoped_principal (cs_scope direct) (cs_initiated_by direct) in
          media_signal_kind (cs_signalling_state media) = Some kind
          ∧ signal_accepted m1 actor' signal' media ended
          ∧ m' = signalled actor' signal' ended m1.

(** A signal that is not persisted but not refused has been recorded before. *)
Lemma duplicate_recorded m actor signal m' :
  apply_call_signal_in_state actor signal m = (m', Ok RecDuplicate) →
  is_Some (call_signals (m_calls m) !! call_signal_key (sg_scope signal) (sg_event_id signal)).
Proof.
  intros E. assert (wp (apply_call_signal_in_state actor signal) m (λ _ r, r = Ok RecDuplicate →
    is_Some (call_signals (m_calls m) !! call_signal_key (sg_scope signal) (sg_event_id signal)))) as Hwp.
  { unfold apply_call_signal_in_state. wp_steps; by eauto. }
  by apply (wp_run _ _ _ _ _ Hwp E).
Qed.

Lemma terminate_both_wp m actor direct signal derived_call_id derived_event_id :
  collab_ok m →
  calls (m_calls m) !! call_key (sg_scope signal) (sg_call_id signal) = Some direct →
  wp (terminate_both actor direct signal derived_call_id derived_event_id) m (λ m' r,
    match r with
    | Err e => e ≠ StCorrupt ∧ (m' = m ∨ ∃ next, signal_accepted m actor signal direct next
                                          ∧ m' = signalled actor signal next m)
    | Ok RecDuplicate => m' = m
    | Ok RecPersisted => both_ended m actor direct signal derived_call_id derived_event_id m'
    end).
Proof.
  intros Hok Hdirect. unfold terminate_both. apply wp_bind.
  eapply wp_mono; [|apply signal_wp, Hok]. cbn beta.
  intros m1 r [(-> & Hp & Hs)|(-> & s & next & Ha & ->)].
  { destruct r as [[]|e]; [done|by wp_steps|]. split; [congruence|by left]. }
  pose proof (sa_call _ _ _ _ _ Ha) as E. rewrite Hdirect in E. injection E as <-.
  pose proof (collab_signalled _ _ _ _ _ Hok Ha) as Hok1.
  rewrite (bool_decide_false (RecPersisted = RecDuplicate)) by done. wp_step.
  rewrite validated_ok by apply Hok1. wp_step; [|by discriminate].
  match goal with H : Ok _ = Ok _ |- _ => apply (inj Ok) in H as <- end.
  destruct (calls (m_calls (signalled actor signal next m)) !! call_key (cs_scope direct) derived_call_id)
    as [media|] eqn:Hm.
  2: { wp_steps. exists next. split; [done|]. left. by auto. }
  wp_step; [|split; [done|]; right; by eauto].
  destruct (media_signal_kind (cs_signalling_state media)) as [kind|] eqn:Hk.
  2: { wp_steps. exists next. split; [done|]. left. split; [done|]. right; left.
       exists media. split; [done|]. by destruct (cs_signalling_state media). }
  apply wp_bind. apply wp_intro. intros m2 r2 E2.
  pose proof (wp_run _ _ _ _ _ (signal_wp _ _ _ (cl_calls _ Hok1)) E2) as Hr2. cbn beta in Hr2.
  destruct Hr2 as [(-> & Hp & Hs)|(-> & media' & ended & Ha2 & ->)].
  - destruct r2 as [[]|e]; [done|..].
    + wp_steps. exists next. split; [done|]. left. split; [done|]. right; right.
      by apply duplicate_recorded in E2.
    + split; [congruence|]. right. by eauto.
  - wp_steps. pose proof (sa_call _ _ _ _ _ Ha2) as E. cbn [sg_scope sg_call_id] in E.
    rewrite Hm in E. injection E as <-. exists next. split; [done|]. right. by exists media, kind, ended.
Qed.

Lemma terminate_wp m actor signal derived_call_id derived_event_id :
  collab_ok m →
  wp (terminate_direct_call_with_derived actor signal derived_call_id derived_event_id) m (λ m' r,
    match r with
    | Err e => m' = m ∧ e ≠ StCorrupt
    | Ok status => ∃ direct m1,
        calls (m_calls m) !! call_key (sg_scope signal) (sg_call_id signal) = Some direct
        ∧ (∃ reason, sg_kind signal = SkTerminate reason)
        ∧ match status with
          | RecDuplicate => m1 = m
          | RecPersisted => both_ended m actor direct signal derived_call_id derived_event_id m1
          end
        ∧ m' = revoke_first_party_derived_joins (cs_scope direct) derived_call_id m1
    end).
Proof.
  intros Hok. unfold terminate_direct_call_with_derived. wp_step; [|done]. wp_step.
  rewrite validated_ok by apply Hok. wp_step; [|by discriminate].
  match goal with H : Ok _ = Ok _ |- _ => apply (inj Ok) in H as <- end.
  wp_step; [|done]. rename a into direct. wp_step; [|done].
  match goal with H : calls _ !! _ = Some direct |- _ => rename H into Hd end.
  destruct (ck_entry _ (cl_calls _ Hok) _ _ Hd) as [Ek _ _ _].
  apply record_key_inj in Ek as [Es Ei].
  apply wp_intro. intros m' r. unfold settle.
  destruct (terminate_both actor direct signal derived_call_id derived_event_id m) as [m1 o] eqn:Eo.
  pose proof (wp_run _ _ _ _ _ (terminate_both_wp m actor direct signal derived_call_id
    derived_event_id Hok Hd) Eo) as Ho. cbn beta in Ho.
  destruct o as [status|e]; intros [= <- <-].
  - exists direct, m1. split_and!; [done| |by destruct status|done].
    bool_norm. destruct_and?. destruct (sg_kind signal); try done. eauto.
  - destruct Ho as [Hs Ho]. split; [|done].
    change (rolled_back (m_calls m) (call_key (cs_scope direct) (cs_call_id direct))
      (call_key (cs_scope direct) derived_call_id)
      (call_signal_key (cs_scope direct) (sg_event_id signal))
      (call_signal_key (cs_scope direct) derived_event_id) m1 = m).
    destruct Ho as [->|(next & Ha & ->)]; [apply rolled_back_id|]. rewrite <- Es, <- Ei.
    by eapply rolled_back_signalled; apply Ha.
Qed.

Lemma both_ended_collab m actor direct signal dc de m' :
  collab_ok m → both_ended m actor direct signal dc de m' → collab_ok m'.
Proof.
  intros Hok (next & Ha & Hm'). pose proof (collab_signalled _ _ _ _ _ Hok Ha) as Hok1.
  destruct Hm' as [[-> _]|(media & kind & ended & _ & Ha' & ->)]; [done|].
  by eapply collab_signalled.
Qed.

Lemma collab_revoked m scope dc :
  collab_ok m → collab_ok (revoke_first_party_derived_joins scope dc m).
Proof.
  intros [Hd [He Hf] Hatt Hex]. split; [|split|..]; try done.
  - by apply (directory_frame m).
  - intros k s Hs. eapply call_entry_tables; [|by apply He]. done.
Qed.

Lemma terminate_keeps m actor signal dc de :
  collab_ok m →
  wp (terminate_direct_call_with_derived actor signal dc de) m (λ m' r, (collab_ok m' ∧ m_journal m' = m_journal m) ∧ sound r).
Proof.
  intros Hok. eapply wp_mono; [|by apply terminate_wp]. cbn beta.
  intros m' [status|e]; [|intros [-> ?]; split; [done|]; by intros [= ->]].
  intros (direct & m1 & _ & _ & Hm1 & ->). split; [|done]. split.
  - apply collab_revoked. destruct status; [by eapply both_ended_collab|by subst].
  - destruct status; [|by subst]. by destruct Hm1 as (? & _ & [[-> _]|(? & ? & ? & _ & _ & ->)]).
Qed.

(** * The journal *)

(** An append outside the identifiers of groups and calls. *)
Lemma collab_journal m j :
  collab_ok m →
  (∀ k, is_Some (events j !! k) → is_Some (events (m_journal m) !! k) ∨ event_id_reserved m k = false) →
  collab_ok (with_journal j m).
Proof.
  intros [Hd Hc Hatt Hex] Hj. split; [by apply (directory_frame m)|done|..].
  - intros k s Hs. by apply (attended_kept m); [apply groups_kept_same|eapply Hatt].
  - intros k. destruct (Hex k) as (E1 & E2 & E3). unfold exclusive. cbn.
    destruct (events j !! k) as [e|] eqn:He; [|by auto].
    destruct (Hj k) as [[e' He']|Hr]; [by eauto| |].
    + rewrite He' in E1, E2. naive_solver.
    + unfold event_id_reserved in Hr. bool_norm. destruct Hr as [H1%eq_None_not_Some H2%eq_None_not_Some].
      by auto.
Qed.

Lemma grow_events R j j' k :
  rtc (grow R) j j' → is_Some (events j' !! k) → is_Some (events j !! k) ∨ R k = false.
Proof.
  induction 1 as [|j j1 j2 Hg _ IH]; [by left|]. intros [Hk|Hk]%IH; [|by right].
  destruct Hg as [j k' e _ Hr _ _|j k' c|j scope id e]; [|by left..]. revert Hk. cbn.
  destruct (decide (k' = k)) as [->|Hne]; [by right|]. rewrite lookup_insert_ne by done. by left.
Qed.

(** Every call of the journal's own interface. *)
Lemma journal_collab c m :
  typed_call c → (∀ tables, c ≠ CallElsewhere tables) → journal_ok (m_journal m) → collab_ok m →
  wp (exec c) m (λ m' _, collab_ok m').
Proof.
  intros Hty He Hj Hok.
  assert (∀ {A} (f : A → answer) (o : journal_op A),
    wp (answering f (on_journal o)) m (λ m' _, m' = with_journal (m_journal m') m)) as Hframe.
  { intros A f o. by apply answering_journal_wp, wp_intro. }
  assert (∀ m', m' = with_journal (m_journal m') m →
    (m_journal m' = m_journal m ∨ ∃ k st, m_journal m' = put_sub k st (m_journal m)) →
    collab_ok m') as Hsub.
  { intros m' -> Hm'. apply collab_journal; [done|]. cbn in *.
    destruct Hm' as [->|(k & st & ->)]; by left. }
  destruct (target c) as [k|] eqn:Ht.
  - eapply wp_mono; [|apply wp_and; [by apply (exec_target c m k)|]].
    2: { destruct c; try done; apply Hframe. }
    intros m' _ [Hm' Hf]. apply Hsub; [done|]. destruct Hm' as [?|[st ?]]; eauto.
  - destruct c as [owner s| | | | | | | | | | |tables]; try done; [| | | | | | |by edestruct He].
    2-7: eapply wp_mono; [|by apply exec_appends]; intros m' _ (j' & -> & Hg);
      apply collab_journal; [done|intros k; by apply grow_events].
    apply answering_journal_wp. eapply wp_mono; [|apply persist_wp].
    intros j' r Hr. apply Hsub; [done|]. cbn. destruct r as [[]|]; [|left; apply Hr..].
    destruct Hr as (cs & _ & _ & _ & ->). eauto.
Qed.
End calls.
