(* ===== verification/StoreCalls.v ===== *)
(** The combined store as one component: its calls, the states they reach from an empty
    store, and the invariant of those states. *)

From stdpp Require Import gmap.
From S2P Require Import Prelude Ids Framing Extension Message StoreForward Store Call Group Event.
From S2P Require Import CallFacts CallSafety CallFingerprint GroupFacts GroupRefinement GroupHistory.
From S2P Require Import Bridge Offline Memory OpLogic CallStore GroupStore GroupMessages CallEntry.
From S2P Require Import Directory Attendance Collaboration EventStore EventFacts Subscription EventCalls.
From S2P Require Import CollaborationCalls.

Inductive store_call :=
| ScConversation (conversation : ConversationRecord)
| ScCreateGroup (conversation : ConversationRecord) (group : GroupRecord) (creator : ScopedPrincipal)
| ScChange (actor : ScopedPrincipal) (change : GroupChange)
| ScSend (subject : ScopedPrincipal) (message : MessageEnvelope)
| ScSendNext (subject : ScopedPrincipal) (message : MessageEnvelope)
| ScReconcileChange (recipient : ScopedPrincipal) (record : OfflineGroupChangeReplica)
| ScReconcileMessage (recipient : ScopedPrincipal) (record : OfflineGroupMessageReplica)
| ScReconcileMesh (recipient : ScopedPrincipal) (record : MeshGroupMessageReplica)
| ScCreateCall (creator : ScopedPrincipal) (session : CallSession) (parent : option CallSession)
| ScSignal (actor : ScopedPrincipal) (signal : CallSignal)
| ScTerminate (actor : ScopedPrincipal) (signal : CallSignal) (derived_call_id : CallId)
    (derived_event_id : EventId)
| ScJournal (c : journal_call)
| ScElsewhere (tables : Memory).

(** A call of another component: it may change the bridge registrations, the join grants and
    the tables of messages and deliveries. *)
Definition elsewhere_store (tables m : Memory) : Memory :=
  mk_mem (with_conversations (conversations (m_base m)) (m_base tables)) (m_journal m) (m_groups m)
    (mk_call_tables (calls (m_calls m)) (call_creation_fingerprints (m_calls m))
       (call_signals (m_calls m)) (conference_join_grants (m_calls tables)))
    (m_bridges tables).

Definition discard {A} (o : mem_op A) : mem_op unit := o ;; mret tt.

(** A call of the journal is one of its own interface, with unsigned arguments. *)
Definition typed_store_call (c : store_call) : Prop :=
  match c with
  | ScJournal (CallElsewhere _) => False
  | ScJournal c => typed_call c
  | _ => True
  end.

Section store.
Context `{Sha256}.

Definition exec_store (c : store_call) : mem_op unit :=
  match c with
  | ScConversation conversation => discard (on_base (persist_conversation conversation))
  | ScCreateGroup conversation group creator => discard (create_group conversation group creator)
  | ScChange actor change => discard (apply_group_change_op actor change)
  | ScSend subject message => discard (persist_group_message subject message)
  | ScSendNext subject message =>
      discard (persist_group_message_with_next_logical_order subject message)
  | ScReconcileChange recipient record => discard (reconcile_offline_group_change recipient record)
  | ScReconcileMessage recipient record => discard (reconcile_offline_group_message recipient record)
  | ScReconcileMesh recipient record => discard (reconcile_mesh_group_message recipient record)
  | ScCreateCall creator session parent =>
      discard (create_call_with_parent_guard creator session parent)
  | ScSignal actor signal => discard (apply_call_signal_op actor signal)
  | ScTerminate actor signal derived_call_id derived_event_id =>
      discard (terminate_direct_call_with_derived actor signal derived_call_id derived_event_id)
  | ScJournal c => discard (exec c)
  | ScElsewhere tables => m ← get; put (elsewhere_store tables m)
  end.

Fixpoint run_store (cs : list store_call) (m : Memory) : Memory :=
  match cs with
  | [] => m
  | c :: cs => run_store cs (exec_store c m).1
  end.

Record store_ok (m : Memory) : Prop := {
  so_journal : journal_ok (m_journal m);
  so_collab : collab_ok m;
}.

Lemma discard_wp {A} (o : mem_op A) m (P : Memory → Prop) :
  wp o m (λ m' r, P m' ∧ sound r) → wp (discard o) m (λ m' r, P m' ∧ sound r).
Proof.
  intros Ho. apply wp_bind. eapply wp_mono; [|exact Ho]. cbn beta.
  intros m' [a|e] [? Hr]; [by apply wp_ret|]. split; [done|]. intros [= ->]. by apply Hr.
Qed.

Lemma create_group_sound m conversation group creator :
  wp (create_group conversation group creator) m (λ _ r, sound r).
Proof.
  assert (∀ m g, ensure_initial_bridge_registrations_active m g ≠ Err StCorrupt) as Hinit.
  { intros m' g. apply try_for_each_sound. intros b. apply registration_active_sound. }
  unfold create_group, sound. wp_steps; try done; by sound_err.
Qed.

Lemma collab_elsewhere m tables : collab_ok m → collab_ok (elsewhere_store tables m).
Proof.
  intros [Hd [He Hf] Hatt Hex]. split; [|split|..]; try done.
  - by apply (directory_frame m).
  - intros k s Hs. by eapply call_entry_tables, He.
Qed.

(** Every call but those of the journal keeps the invariant and is never refused as corrupt. *)
Lemma exec_store_wp c m :
  store_ok m → (∀ j, c ≠ ScJournal j) → wp (exec_store c) m (λ m' r, store_ok m' ∧ sound r).
Proof.
  intros [Hj Hok] Hc.
  assert (∀ {A} (o : mem_op A),
    wp o m (λ m' r, (collab_ok m' ∧ m_journal m' = m_journal m) ∧ sound r) →
    wp (discard o) m (λ m' r, store_ok m' ∧ sound r)) as Hkeep.
  { intros A o Ho. apply discard_wp. eapply wp_mono; [|exact Ho]. cbn beta.
    intros m' r [[? E] ?]. split; [|done]. split; [by rewrite E|done]. }
  assert (∀ {A} (o : mem_op A), wp o m (λ m' r, quiet m m' ∧ sound r) →
    wp (discard o) m (λ m' r, store_ok m' ∧ sound r)) as Hquiet.
  { intros A o Ho. apply Hkeep. eapply wp_mono; [|exact Ho]. cbn beta.
    intros m' r [Hq ?]. split; [|done]. split; [by eapply collab_quiet|apply Hq]. }
  destruct c; cbn [exec_store]; [..|by edestruct Hc|].
  - by apply Hkeep, conversation_wp.
  - apply Hkeep. eapply wp_mono; [|apply wp_and; [apply create_group_wp, Hok|apply create_group_sound]].
    intros m' r [Hk ?]. split; [|done]. split; [by eapply collab_kept|apply Hk].
  - by apply Hkeep, change_wp.
  - by apply Hquiet, persist_group_message_wp.
  - by apply Hquiet, persist_next_wp.
  - by apply Hkeep, reconcile_change_wp.
  - by apply Hquiet, reconcile_message_wp.
  - by apply Hquiet, reconcile_mesh_wp.
  - apply Hkeep. eapply wp_mono; [|apply create_call_wp, Hok]. cbn beta.
    intros m' r [(-> & _ & ?)|(-> & s & pre & Ha & ->)]; [done|].
    split; [split; [by apply collab_call_stored|done]|done].
  - apply Hkeep. eapply wp_mono; [|apply signal_wp, Hok]. cbn beta.
    intros m' r [(-> & _ & ?)|(-> & s & next & Ha & ->)]; [done|].
    split; [split; [by eapply collab_signalled|done]|done].
  - by apply Hkeep, terminate_keeps.
  - apply wp_get, wp_put_end. split; [|done]. split; [done|]. by apply collab_elsewhere.
Qed.

Lemma exec_store_ok c m : typed_store_call c → store_ok m → store_ok (exec_store c m).1.
Proof.
  intros Hty Hm. destruct c as [| | | | | | | | | | |c|];
    try by refine (proj1 (exec_store_wp _ m Hm _)).
  assert (typed_call c ∧ ∀ tables, c ≠ CallElsewhere tables) as [Hty' Hne] by by destruct c.
  refine (_ : wp (discard (exec c)) m (λ m' _, store_ok m')). apply wp_bind.
  destruct Hm as [Hj Hok].
  eapply wp_mono; [|apply wp_and; [by apply exec_keeps|by apply journal_collab]].
  intros m' [a|e] [[? _] ?]; [by apply wp_ret|done].
Qed.

Lemma empty_store_ok : store_ok empty_mem.
Proof.
  split; [apply empty_journal_ok|]. split; [split|split|..]; try done.
  - intros k [? ?]. done.
  - intros k. split_and!; by left.
Qed.

Lemma run_store_ok cs m : Forall typed_store_call cs → store_ok m → store_ok (run_store cs m).
Proof.
  intros Hty. revert m. induction Hty as [|c cs Hc _ IH]; intros m Hm; [done|].
  by apply IH, exec_store_ok.
Qed.

(** The states of a store that starts empty. *)
Lemma reachable_ok cs : Forall typed_store_call cs → store_ok (run_store cs empty_mem).
Proof. intros Hty. by apply run_store_ok, empty_store_ok. Qed.
End store.
