(* ===== verification/CollaborationTheorems.v ===== *)
(** Groups, calls and events in one store: group calls follow the membership of their group,
    the store is never found corrupt, identifiers stay exclusive, and a direct call ends
    together with its derived media call or not at all. *)

From stdpp Require Import gmap.
From S2P Require Import Prelude Ids Framing Extension Message StoreForward Store Call Group Event.
From S2P Require Import CallFacts CallSafety CallFingerprint GroupFacts GroupRefinement GroupHistory.
From S2P Require Import Bridge Offline Memory OpLogic CallStore GroupStore GroupMessages CallEntry.
From S2P Require Import Directory Attendance Collaboration EventStore EventFacts Subscription EventCalls.
From S2P Require Import CollaborationCalls StoreCalls.

Section reachable.
Context `{Sha256}.

(** The stored call a query returns. *)
Lemma call_query m scope call_id s :
  collab_ok m → (call scope call_id m).2 = Ok (Some s) →
  calls (m_calls m) !! call_key scope call_id = Some s ∧ cs_scope s = scope ∧ cs_call_id s = call_id.
Proof.
  intros Hok E. change (validated_call_from_state m scope call_id = Ok (Some s)) in E.
  rewrite validated_ok in E by apply Hok. apply (inj Ok) in E. split; [done|].
  pose proof (ce_key _ _ _ (ck_entry _ (cl_calls _ Hok) _ _ E)) as Ek.
  unfold call_key in Ek. by apply record_key_inj in Ek as [-> ->].
Qed.

Lemma membership_of_roster m scope gid p :
  directory_ok m → membership_of m scope gid p = roster m scope gid !! p.
Proof.
  intros Hd. rewrite roster_lookup by apply Hd. unfold membership_of.
  destruct (group_memberships (m_groups m) !! _) as [x|] eqn:Hx; [|done]. cbn.
  pose proof (dk_membership _ Hd _ _ Hx) as E. cbn in E.
  apply membership_key_eq in E as (_ & _ & ->). by rewrite bool_decide_true.
Qed.

(** Everybody live in an unfinished group call is an active member of its group. *)
Lemma live_participant_is_member m scope call_id s p :
  collab_ok m → (call scope call_id m).2 = Ok (Some s) → group_call s = true →
  cs_signalling_state s ≠ CsTerminated → p ∈ cs_participants s → live_state (cp_state p) = true →
  ∃ g x, bound_group m scope (cs_conversation s) = Some g
    ∧ (group_membership scope (gr_group_id g) (cp_principal p) m).2 = Ok (Some x)
    ∧ gm_state x = GmActive.
Proof.
  intros Hok Hc Hg Ht Hp Hl. destruct (call_query _ _ _ _ Hok Hc) as (Hs & Es & _).
  destruct (cl_attended _ Hok _ _ Hs Hg) as (k & g & Hk & Eg & Ec & Ha).
  destruct (Ha Ht p Hp Hl) as (x & Hx & Hst). exists g, x.
  rewrite <- Es, <- Eg, <- Ec, (bound_group_unique _ k) by (done || apply Hok).
  split_and!; [done| |done].
  change (@Ok DurableStoreError _ (membership_of m (gr_scope g) (gr_group_id g) (cp_principal p))
          = Ok (Some x)).
  rewrite membership_of_roster by apply Hok. f_equal. exact Hx.
Qed.

(** Calls selected for a group or a recipient are read back without an error. *)
Lemma selected_ids m scope wanted id n :
  collab_ok m → (∀ s, wanted s = true → cs_scope s = scope) →
  id ∈ take n (sort_by opaque_cmp (cs_call_id <$> List.filter wanted (values (calls (m_calls m))))) →
  ∃ s, calls (m_calls m) !! call_key scope id = Some s ∧ wanted s = true.
Proof.
  intros Hok Hw Hid. apply (subseteq_take n), elem_of_sort_by, list_elem_of_fmap in Hid as (s & -> & Hs).
  apply list_elem_of_In, filter_In in Hs as [Hs Hws]. apply list_elem_of_In, elem_of_values in Hs as [k Hk].
  exists s. split; [|done]. rewrite <- (Hw s Hws).
  by rewrite <- (ce_key _ _ _ (ck_entry _ (cl_calls _ Hok) _ _ Hk)).
Qed.

Lemma try_collect_sound {E A B} (f : A → result E B) l e :
  (∀ x, x ∈ l → f x ≠ Err e) → try_collect f l ≠ Err e.
Proof.
  induction l as [|x l IH]; [done|]. intros Hf. cbn.
  intros [Ex|(b & _ & [El|(bs & _ & [=])]%bind_Err)]%bind_Err.
  - by apply (Hf x); [left|].
  - revert El. apply IH. intros y Hy. apply Hf. by right.
Qed.

Lemma selected_calls_sound m scope wanted n :
  collab_ok m → (∀ s, wanted s = true → cs_scope s = scope) →
  selected_calls m scope wanted n ≠ Err StCorrupt.
Proof.
  intros Hok Hw. apply try_collect_sound. intros id Hid.
  destruct (selected_ids m scope wanted id _ Hok Hw Hid) as (s & Hs & _).
  rewrite validated_ok by apply Hok. cbn. by rewrite Hs.
Qed.

Lemma incoming_sound m recipient n :
  collab_ok m → (incoming_direct_calls recipient n m).2 ≠ Err StCorrupt.
Proof.
  intros Hok. refine (_ : wp (incoming_direct_calls recipient n) m (λ _ r, r ≠ Err StCorrupt)).
  unfold incoming_direct_calls. wp_steps; [|done]. apply try_collect_sound. intros id Hid.
  destruct (selected_ids m (sp_scope recipient) (incoming recipient) id (Z.to_nat n) Hok)
    as (s & Hs & Hi); [|done|].
  { intros s Hs. unfold incoming in Hs. bool_norm. tauto. }
  rewrite validated_ok by apply Hok. cbn. rewrite Hs. cbn.
  pose proof (ce_wf _ _ _ (ck_entry _ (cl_calls _ Hok) _ _ Hs)) as Hwf.
  unfold incoming in Hi. bool_norm. destruct Hi as [_ Hp].
  apply Exists_exists in Hp as (p & Hp & [Ep Hst]%andb_true_iff). apply bool_decide_eq_true in Ep.
  assert (live_state (cp_state p) = true) as Hl by by destruct (cp_state p).
  assert (active_call_participant s (sp_principal recipient) = true) as ->; [|done].
  unfold active_call_participant.
  rewrite (proj2 (participant_Some _ s (wf_base _ Hwf) _ p)) by done. rewrite Hl. cbn.
  by apply bool_decide_eq_true, (live_not_left s).
Qed.

(** The groups that carry one external mapping. *)
Lemma mapping_matches m scope i e :
  directory_ok m →
  (len (List.filter (λ g, bool_decide (gr_scope g = scope) && maps_to i e g)
     (values (groups (m_groups m)))) ≤ 1)%Z.
Proof.
  intros Hd. set (l := List.filter _ _).
  assert (∀ g g', g ∈ l → g' ∈ l → g = g') as Hone.
  { intros g g' [Hg E]%list_elem_of_In%filter_In [Hg' E']%list_elem_of_In%filter_In.
    apply list_elem_of_In, elem_of_values in Hg as [k Hg].
    apply list_elem_of_In, elem_of_values in Hg' as [k' Hg'].
    apply andb_true_iff in E as [E1%bool_decide_eq_true E2%maps_to_true],
      E' as [E1'%bool_decide_eq_true E2'%maps_to_true].
    assert (k = k') as <- by (eapply (dk_mapping _ Hd); [done|done|congruence|done|done]). congruence. }
  assert (NoDup l) as Hnd.
  { apply NoDup_filter_b, NoDup_fmap_2_strong; [|apply NoDup_map_to_list].
    intros [k g] [k' g'] Hg%elem_of_map_to_list Hg'%elem_of_map_to_list E. cbn in E. subst g'.
    by rewrite (dk_group _ Hd _ _ Hg), (dk_group _ Hd _ _ Hg'). }
  clearbody l. destruct l as [|g [|g' l]]; [done..|]. exfalso.
  assert (g = g') as -> by (apply Hone; set_solver).
  apply NoDup_cons in Hnd as [Hnd _]. set_solver.
Qed.
End reachable.

(** C5: In every state the store reaches from an empty one, by any sequence of its operations
    on groups, calls, messages and events, everybody who is live in an unfinished group call
    is an active member of the one group the call's conversation belongs to: a membership
    change removes the principal from the group's calls in the same step. *)
Theorem group_calls_follow_membership `{Sha256} cs scope call_id s p :
  Forall typed_store_call cs →
  let m := run_store cs empty_mem in
  (call scope call_id m).2 = Ok (Some s) → group_call s = true →
  cs_signalling_state s ≠ CsTerminated →
  p ∈ cs_participants s → live_state (cp_state p) = true →
  ∃ g x, bound_group m scope (cs_conversation s) = Some g
    ∧ (group_membership scope (gr_group_id g) (cp_principal p) m).2 = Ok (Some x)
    ∧ gm_state x = GmActive.
Proof.
  intros Hty m Hc Hg Ht Hp Hl. destruct (reachable_ok cs Hty) as [_ Hok].
  exact (live_participant_is_member _ _ _ _ _ Hok Hc Hg Ht Hp Hl).
Qed.

(** C15: No operation on groups, group messages or calls, and no query of calls or of bridge
    mappings, ever reports a corrupt store, whatever operations came before: every stored call
    still matches its creation fingerprint and no two groups share an external group. *)
Theorem store_is_never_corrupt `{Sha256} cs c scope group_id call_id subject integration external n :
  Forall typed_store_call cs → (∀ j, c ≠ ScJournal j) →
  let m := run_store cs empty_mem in
  (exec_store c m).2 ≠ Err StCorrupt
  ∧ (call scope call_id m).2 ≠ Err StCorrupt
  ∧ (call_for_participant subject scope call_id m).2 ≠ Err StCorrupt
  ∧ (calls_for_group scope group_id n m).2 ≠ Err StCorrupt
  ∧ (active_calls_for_group scope group_id n m).2 ≠ Err StCorrupt
  ∧ (call_belongs_to_group scope group_id call_id m).2 ≠ Err StCorrupt
  ∧ (incoming_direct_calls subject n m).2 ≠ Err StCorrupt
  ∧ (group_for_bridge_mapping scope integration external m).2 ≠ Err StCorrupt.
Proof.
  intros Hty Hc m. pose proof (reachable_ok cs Hty) as Hso. destruct (Hso) as [_ Hok].
  assert (∀ {A} (o : mem_op A), wp o m (λ _ r, r ≠ Err StCorrupt) → (o m).2 ≠ Err StCorrupt) as Hwp
    by done.
  split; [by apply (exec_store_wp c m Hso Hc)|]. split_and!; apply Hwp.
  - unfold call. wp_steps. by rewrite validated_ok by apply Hok.
  - unfold call_for_participant. wp_step; [|done]. wp_step. rewrite validated_ok by apply Hok.
    by wp_steps.
  - unfold calls_for_group. wp_steps; try done. apply selected_calls_sound; [done|].
    intros s Hs. bool_norm. tauto.
  - unfold active_calls_for_group. wp_steps; try done. apply selected_calls_sound; [done|].
    intros s Hs. bool_norm. tauto.
  - unfold call_belongs_to_group. wp_step. case_match; [|by wp_steps].
    rewrite validated_ok by apply Hok. by wp_steps.
  - by apply incoming_sound.
  - unfold group_for_bridge_mapping. wp_steps; try done.
    pose proof (mapping_matches m scope integration external (cl_directory _ Hok)) as Hl.
    match goal with H : (1 <? _)%Z = true |- _ => apply Z.ltb_lt in H end. lia.
Qed.

(** An identifier never names two of an event, a group change and a call signal: each
    operation refuses an identifier one of the other two tables has taken. *)
Theorem identifiers_are_exclusive `{Sha256} cs k :
  Forall typed_store_call cs →
  let m := run_store cs empty_mem in
  (is_Some (events (m_journal m) !! k) → group_changes (m_groups m) !! k = None
                                          ∧ call_signals (m_calls m) !! k = None)
  ∧ (is_Some (group_changes (m_groups m) !! k) → call_signals (m_calls m) !! k = None).
Proof.
  intros Hty m. destruct (reachable_ok cs Hty) as [_ Hok].
  destruct (cl_exclusive _ Hok k) as (E1 & E2 & E3). fold m in E1, E2, E3.
  split; intros [x Hx]; rewrite Hx in *; naive_solver.
Qed.

(** * Ending a direct call *)

Section ending.
Context `{Sha256}.

Lemma ended_direct m actor signal direct next :
  collab_ok m → signal_accepted m actor signal direct next →
  (∃ reason, sg_kind signal = SkTerminate reason) → cs_signalling_state next = CsTerminated.
Proof.
  intros Hok Ha [reason E]. eapply terminal_signal; [|apply Ha|by rewrite E].
  by apply (ce_wf _ _ _ (ck_entry _ (cl_calls _ Hok) _ _ (sa_call _ _ _ _ _ Ha))).
Qed.

(** What both signals leave in the table of calls. *)
Lemma both_ended_calls m actor direct signal dc de m' :
  collab_ok m → calls (m_calls m) !! call_key (sg_scope signal) (sg_call_id signal) = Some direct →
  sg_call_id signal ≠ dc → (∃ reason, sg_kind signal = SkTerminate reason) →
  both_ended m actor direct signal dc de m' →
  (∃ s, calls (m_calls m') !! call_key (sg_scope signal) (sg_call_id signal) = Some s
        ∧ cs_signalling_state s = CsTerminated)
  ∧ (de ≠ sg_event_id signal → call_signals (m_calls m) !! call_signal_key (sg_scope signal) de = None →
     ∀ s, calls (m_calls m') !! call_key (sg_scope signal) dc = Some s →
          cs_signalling_state s = CsTerminated)
  ∧ ∀ k, k ≠ call_key (sg_scope signal) (sg_call_id signal) → k ≠ call_key (sg_scope signal) dc →
         calls (m_calls m') !! k = calls (m_calls m) !! k.
Proof.
  intros Hok Hd Hne Hk (next & Ha & Hm').
  pose proof (ended_direct _ _ _ _ _ Hok Ha Hk) as Hend.
  pose proof (collab_signalled _ _ _ _ _ Hok Ha) as Hok1.
  pose proof (ce_key _ _ _ (ck_entry _ (cl_calls _ Hok) _ _ Hd)) as Ek.
  unfold call_key in Ek. apply record_key_inj in Ek as [Es _]. rewrite <- Es in Hm'.
  assert (call_key (sg_scope signal) dc ≠ call_key (sg_scope signal) (sg_call_id signal)) as Hdc.
  { unfold call_key. by intros [_ ?]%record_key_inj. }
  destruct Hm' as [[-> Hm']|(media & kind & ended & Hkind & Ha' & ->)].
  - split_and!; [exists next; cbn; by rewrite lookup_insert_eq| |
      intros k ? _; cbn; by rewrite lookup_insert_ne].
    intros Hde Hfresh s Hs. destruct Hm' as [E|[(media & E & ?)|[r Hr]]]; [congruence..|].
    exfalso. revert Hr. cbn. rewrite lookup_insert_ne, Hfresh; [done|].
    unfold call_signal_key. by intros [_ ?]%record_key_inj.
  - assert (cs_signalling_state ended = CsTerminated) as Hend'.
    { eapply terminal_signal; [|apply Ha'|].
      - apply (ce_wf _ _ _ (ck_entry _ (cl_calls _ Hok1) _ _ (sa_call _ _ _ _ _ Ha'))).
      - cbn. revert Hkind. by destruct (cs_signalling_state media); intros [= <-]. }
    split_and!.
    + exists next. cbn. rewrite lookup_insert_ne by done. by rewrite lookup_insert_eq.
    + intros _ _ s. cbn. rewrite lookup_insert_eq. by intros [= <-].
    + intros k ? ?. cbn. by rewrite !lookup_insert_ne.
Qed.

Lemma revoked_grants m scope dc k grant :
  conference_join_grants (m_calls (revoke_first_party_derived_joins scope dc m)) !! k = Some grant →
  derived_grant scope dc grant = true → jg_revoked grant = true.
Proof.
  cbn. rewrite lookup_fmap. intros (grant0 & _ & ->)%fmap_Some.
  destruct (derived_grant scope dc grant0) eqn:E; [done|]. congruence.
Qed.
End ending.

(** C12: Ending a direct call together with its derived media call is atomic: an error leaves
    the whole store as it was.  A success revokes every first-party join grant of the derived
    call; the first time, it ends the direct call and, with a fresh event identifier, the
    derived call if there is one, and it touches no other call. *)
Theorem direct_call_ends_with_its_media `{Sha256} cs actor signal dc de m' r :
  Forall typed_store_call cs →
  let m := run_store cs empty_mem in
  terminate_direct_call_with_derived actor signal dc de m = (m', r) →
  match r with
  | Err _ => m' = m
  | Ok status =>
      (∀ k grant, conference_join_grants (m_calls m') !! k = Some grant →
                  derived_grant (sg_scope signal) dc grant = true → jg_revoked grant = true)
      ∧ match status with
        | RecDuplicate => calls (m_calls m') = calls (m_calls m)
        | RecPersisted =>
            (∃ s, calls (m_calls m') !! call_key (sg_scope signal) (sg_call_id signal) = Some s
                  ∧ cs_signalling_state s = CsTerminated)
            ∧ (de ≠ sg_event_id signal →
               call_signals (m_calls m) !! call_signal_key (sg_scope signal) de = None →
               ∀ s, calls (m_calls m') !! call_key (sg_scope signal) dc = Some s →
                    cs_signalling_state s = CsTerminated)
            ∧ ∀ k, k ≠ call_key (sg_scope signal) (sg_call_id signal) →
                   k ≠ call_key (sg_scope signal) dc →
                   calls (m_calls m') !! k = calls (m_calls m) !! k
        end
  end.
Proof.
  intros Hty m E. destruct (reachable_ok cs Hty) as [_ Hok]. fold m in Hok.
  pose proof (wp_run _ _ _ _ _ (terminate_wp m actor signal dc de Hok) E) as Hr. cbn beta in Hr.
  destruct r as [status|e]; [|by destruct Hr]. destruct Hr as (direct & m1 & Hd & Hk & Hm1 & ->).
  pose proof (ce_key _ _ _ (ck_entry _ (cl_calls _ Hok) _ _ Hd)) as Ek.
  unfold call_key in Ek. apply record_key_inj in Ek as [Es _]. rewrite <- Es.
  split; [intros k grant; apply revoked_grants|]. destruct status; [|by subst].
  assert (sg_call_id signal ≠ dc) as Hne.
  { intros Ed. revert E. unfold terminate_direct_call_with_derived.
    rewrite (bool_decide_true (dc = sg_call_id signal)), orb_true_r by done. by intros [=]. }
  apply (both_ended_calls m actor direct signal dc de m1); done.
Qed.

(** * A concrete store *)

#[local] Existing Instance toy_digest.

Definition office : TenantScope := mk_scope (oid "office") None.
Definition ada : PrincipalRef := mk_principal (oid "ada") PkPerson.
Definition bob : PrincipalRef := mk_principal (oid "bob") PkPerson.
Definition at_office (p : PrincipalRef) : ScopedPrincipal := mk_scoped_principal office p.
Definition team_room : ConversationRef := mk_conversation (oid "team-room") CkPrivateGroup.
Definition desk_line : ConversationRef := mk_conversation (oid "desk-line") CkDirect.
Definition team : GroupRecord :=
  mk_group office (oid "team") team_room (GoPersonOwned ada) (GhLastNMessages 2) DpDurable
    (mk_group_crypto None 0 None) None GmsIdle [] 0 0.
Definition team_change (id : string) (revision : Z) (kind : GroupChangeKind) : store_call :=
  ScChange (at_office ada) (mk_group_change (oid id) office (oid "team") revision kind None).
Definition call_of_two (id : string) (conversation : ConversationRef) : CallSession :=
  mk_session office (oid id) conversation ada
    [mk_participant ada CpAccepted 0 None; mk_participant bob CpInvited 0 None]
    CsInviting None None 0 0 0 None.
Definition answer_call (event id : string) : store_call :=
  ScSignal (at_office bob) (mk_signal (oid event) office (oid id) 0 SkAccept).

(** Ada founds the team, adds Bob, and both are in a call. *)
Definition team_history : list store_call :=
  [ScCreateGroup (mk_conversation_record office team_room None) team (at_office ada);
   team_change "add-bob" 0 (GkAddMember bob GrMember);
   ScCreateCall (at_office ada) (call_of_two "standup" team_room) None;
   answer_call "bob-answers" "standup"].

(** A direct call of the two, with the team call as its media call. *)
Definition desk_history : list store_call :=
  team_history
  ++ [ScConversation (mk_conversation_record office desk_line None);
      ScCreateCall (at_office ada) (call_of_two "desk" desk_line) None;
      answer_call "bob-answers-desk" "desk"].

Definition hang_up : CallSignal := mk_signal (oid "hang-up") office (oid "desk") 1 (SkTerminate CtCompleted).

Definition stored_call (m : Memory) (id : string) : option CallSession :=
  calls (m_calls m) !! call_key office (oid id).
Definition call_state (m : Memory) (id : string) : option CallSignallingState :=
  cs_signalling_state <$> stored_call m id.

Lemma team_history_typed : Forall typed_store_call team_history.
Proof. repeat constructor. Qed.
Lemma desk_history_typed : Forall typed_store_call desk_history.
Proof. repeat constructor. Qed.

Definition team_store : Memory := run_store team_history empty_mem.
#[local] Abbreviation desk_end :=
  (terminate_direct_call_with_derived (at_office ada) hang_up (oid "standup") (oid "over")
     (run_store desk_history empty_mem)).

Lemma outcome_pair {A} (x : Memory * result DurableStoreError A) r : x.2 = r → x = (x.1, r).
Proof. destruct x. cbn. by intros ->. Qed.
Definition standup : CallSession :=
  default (call_of_two "standup" team_room) (stored_call team_store "standup").

(** Bob is in the call as a member; once Ada removes Bob the call is over. *)
Lemma group_calls_follow_membership_witness :
  (∃ g x, bound_group team_store office (cs_conversation standup) = Some g
     ∧ (group_membership office (gr_group_id g) bob team_store).2 = Ok (Some x)
     ∧ gm_state x = GmActive)
  ∧ call_state team_store "standup" = Some CsActive
  ∧ call_state (run_store (team_history ++ [team_change "drop-bob" 1 (GkRemoveMember bob)])
                  empty_mem) "standup" = Some CsTerminated.
Proof.
  split; [|split; vm_compute; reflexivity].
  refine (group_calls_follow_membership team_history office (oid "standup") standup
           (mk_participant bob CpAccepted 0 None) team_history_typed _ _ _ _ _).
  - vm_compute. reflexivity.
  - vm_compute. reflexivity.
  - vm_compute. discriminate.
  - vm_compute. right. left.
  - vm_compute. reflexivity.
Defined.

Lemma store_is_never_corrupt_witness :
  let m := run_store desk_history empty_mem in
  (exec_store (ScTerminate (at_office ada) hang_up (oid "standup") (oid "over")) m).2 ≠ Err StCorrupt
  ∧ len <$> match (calls_for_group office (oid "team") 8 m).2 with Ok l => Some l | Err _ => None end
    = Some 1%Z.
Proof.
  intros m. split; [|vm_compute; reflexivity].
  refine (proj1 (store_is_never_corrupt desk_history
    (ScTerminate (at_office ada) hang_up (oid "standup") (oid "over")) office (oid "team")
    (oid "desk") (at_office bob) (oid "i") [1%Z] 8 desk_history_typed _)).
  done.
Defined.

Lemma identifiers_are_exclusive_witness :
  let m := run_store (team_history ++ [ScJournal (CallAppend (news "e1" None))]) empty_mem in
  events (m_journal m) !! record_key news_scope (oid "e1") = Some (news "e1" None)
  ∧ call_signals (m_calls m) !! record_key office (oid "add-bob") = None.
Proof.
  intros m. split; [vm_compute; reflexivity|].
  refine (proj2 (identifiers_are_exclusive
    (team_history ++ [ScJournal (CallAppend (news "e1" None))]) (record_key office (oid "add-bob")) _) _).
  - apply List.Forall_app. split; [apply team_history_typed|]. repeat constructor.
  - vm_compute. eexists. reflexivity.
Defined.

Lemma direct_call_ends_with_its_media_witness :
  call_state desk_end.1 "desk" = Some CsTerminated
  ∧ call_state desk_end.1 "standup" = Some CsTerminated
  ∧ ∀ s, calls (m_calls desk_end.1) !! call_key (sg_scope hang_up) (oid "standup") = Some s →
         cs_signalling_state s = CsTerminated.
Proof.
  split_and!; [vm_compute; reflexivity..|].
  refine (proj1 (proj2 (proj2 (direct_call_ends_with_its_media desk_history (at_office ada) hang_up
    (oid "standup") (oid "over") desk_end.1 (Ok RecPersisted) desk_history_typed _))) _ _).
  - apply outcome_pair. vm_compute. reflexivity.
  - vm_compute. discriminate.
  - vm_compute. reflexivity.
Defined.
