(* ===== verification/GroupMessageTheorems.v ===== *)
(** Correctness of group history and of mesh forwarding: the floor a new member gets, the
    logical order of a new message, and the paths along which replicas are offered. *)

From stdpp Require Import gmap.
From S2P Require Import Prelude Ids Framing Extension Message StoreForward Store Call Group Event.
From S2P Require Import Bridge Offline Memory OpLogic CallStore GroupStore GroupMessages StoreCalls.
From S2P Require Import CollaborationTheorems.

(** * History floors *)

(** How many of the orders a floor lets through. *)
Definition visible (floor : Z) (orders : list Z) : Z :=
  len (List.filter (λ order, (floor <=? order)%Z) orders).

Lemma visible_perm floor l k : l ≡ₚ k → visible floor l = visible floor k.
Proof. intros Hp. by apply len_perm, filter_b_perm. Qed.

Lemma visible_snoc floor l k : visible floor (l ++ k) = (visible floor l + visible floor k)%Z.
Proof. unfold visible, len. rewrite List.filter_app, length_app. lia. Qed.

Lemma visible_cons floor x l :
  visible floor (x :: l) = ((if (floor <=? x)%Z then 1 else 0) + visible floor l)%Z.
Proof. unfold visible, len. cbn. case_match; cbn [length]; lia. Qed.

Lemma visible_bound floor l : (0 ≤ visible floor l ≤ len l)%Z.
Proof.
  unfold visible, len. pose proof (List.filter_length_le (λ order, (floor <=? order)%Z) l). lia.
Qed.

Lemma visible_antitone floor floor' l : (floor ≤ floor')%Z → (visible floor' l ≤ visible floor l)%Z.
Proof.
  intros Hf. induction l as [|x l IH]; [done|]. rewrite !visible_cons.
  destruct (Z.leb_spec floor x), (Z.leb_spec floor' x); lia.
Qed.

Lemma visible_all floor l : Forall (λ x, floor ≤ x)%Z l → visible floor l = len l.
Proof.
  induction 1 as [|x l Hx _ IH]; [done|]. rewrite visible_cons, IH, (proj2 (Z.leb_le _ _)) by done.
  unfold len. cbn [length]. lia.
Qed.

Lemma visible_none floor l : Forall (λ x, x < floor)%Z l → visible floor l = 0%Z.
Proof.
  induction 1 as [|x l Hx _ IH]; [done|]. by rewrite visible_cons, IH, (proj2 (Z.leb_gt _ _)).
Qed.

Lemma sort_Z_sorted l : StronglySorted Z.le (sort_by Z.compare l).
Proof.
  pose proof (sort_by_sorted id Z.compare l) as Hs.
  change (key_cmp id Z.compare) with Z.compare in Hs.
  induction Hs as [|x k _ IH Hx]; constructor; [done|].
  eapply Forall_impl; [exact Hx|]. intros y Hy. by apply Z.compare_le_iff.
Qed.

(** The orders around the cut. *)
Lemma sorted_cut (o : list Z) (i : nat) cutoff :
  StronglySorted Z.le o → o !! i = Some cutoff →
  ∃ l1 l2, o = l1 ++ cutoff :: l2 ∧ length l1 = i
    ∧ Forall (λ x, x ≤ cutoff)%Z l1 ∧ Forall (λ x, cutoff ≤ x)%Z l2.
Proof.
  intros Hs Hi. exists (take i o), (drop (S i) o).
  pose proof (take_drop_middle o i cutoff Hi) as E. split_and!; [done| | |].
  - rewrite length_take. apply lookup_lt_Some in Hi. lia.
  - rewrite <- E in Hs. clear Hi E. induction (take i o) as [|x l IH]; [constructor|].
    cbn in Hs. apply StronglySorted_inv in Hs as [Hs Hx]. constructor; [|by apply IH].
    rewrite Forall_forall in Hx. apply Hx. set_solver.
  - rewrite <- E in Hs. clear Hi E. induction (take i o) as [|x l IH].
    + by apply StronglySorted_inv in Hs as [_ ?].
    + apply IH. cbn in Hs. by apply StronglySorted_inv in Hs as [? _].
Qed.

(** The floor for the last [n] orders. *)
Lemma last_n_floor o n cutoff floor :
  StronglySorted Z.le o → (1 ≤ n < len o)%Z → o !! Z.to_nat (len o - n) = Some cutoff →
  (if (n <? visible cutoff o)%Z then floor = (cutoff + 1)%Z else floor = cutoff) →
  (visible floor o ≤ n)%Z ∧ ∀ f, (visible f o ≤ n)%Z → (visible f o ≤ visible floor o)%Z.
Proof.
  intros Hs Hn Hi Hf. destruct (sorted_cut _ _ _ Hs Hi) as (l1 & l2 & E & Hl & H1 & H2).
  assert (len l2 = (n - 1)%Z) as Hl2.
  { assert (length o = length l1 + S (length l2))%nat as E' by by rewrite E, length_app.
    unfold len in *. lia. }
  assert (n ≤ visible cutoff o)%Z as Hge.
  { rewrite E, visible_snoc, visible_cons, Z.leb_refl, (visible_all cutoff l2) by done.
    pose proof (visible_bound cutoff l1). lia. }
  destruct (Z.ltb_spec n (visible cutoff o)) as [Hlt|Hle]; subst floor.
  - split.
    + rewrite E, visible_snoc, visible_cons, visible_none, (proj2 (Z.leb_gt _ _)) by
        (eapply Forall_impl; [exact H1|]; cbn; lia) || lia.
      pose proof (visible_bound (cutoff + 1) l2). lia.
    + intros f Hf. apply visible_antitone. apply Z.nlt_ge. intros Hc.
      pose proof (visible_antitone f cutoff o). lia.
  - split; [done|]. lia.
Qed.

(** C26: A member added under a last-n policy is given the best possible floor: of the messages
    the conversation holds at that moment at most n are at or above it, and no floor that
    keeps to n lets more through.  The computation cannot fail except by overflow. *)
Theorem last_n_history_is_exact m g n :
  gr_history_policy g = GhLastNMessages n → (0 ≤ n)%Z →
  validate_history_policy (GhLastNMessages n) = Ok tt →
  let orders := conversation_orders m (gr_scope g) (gr_conversation g) in
  match history_floor_for_add m g with
  | Ok floor => (visible floor orders ≤ n)%Z
                ∧ ∀ f, (0 ≤ f)%Z → (visible f orders ≤ n)%Z → (visible f orders ≤ visible floor orders)%Z
  | Err e => e = StInvalidRecord ∧ ∃ order, order ∈ orders ∧ (u64_max ≤ order)%Z
  end.
Proof.
  intros Hp Hn0 Hv orders. unfold history_floor_for_add. rewrite Hp. fold orders.
  assert (sort_by Z.compare orders ≡ₚ orders) as Hperm by apply sort_by_perm.
  pose proof (sort_Z_sorted orders) as Hs. set (o := sort_by Z.compare orders) in *.
  assert (1 ≤ n)%Z as Hn.
  { unfold validate_history_policy in Hv. apply reject_if_Ok in Hv. bool_norm. lia. }
  destruct (Z.leb_spec (len o) n) as [Hle|Hlt].
  { split; [|intros f Hf _; by apply visible_antitone].
    pose proof (visible_bound 0 orders). rewrite (len_perm _ _ Hperm) in Hle. lia. }
  destruct (o !! Z.to_nat (len o - n)) as [cutoff|] eqn:Hi.
  2: { apply lookup_ge_None in Hi. unfold len in *. lia. }
  cbn [ok_or mbind result_bind]. change (len (List.filter _ o)) with (visible cutoff o).
  assert (∀ floor, (if (n <? visible cutoff o)%Z then floor = (cutoff + 1)%Z else floor = cutoff) →
    (visible floor orders ≤ n)%Z
    ∧ ∀ f, (0 ≤ f)%Z → (visible f orders ≤ n)%Z → (visible f orders ≤ visible floor orders)%Z)
    as Hfloor.
  { intros floor Hf. destruct (last_n_floor o n cutoff floor Hs) as [H1 H2]; [lia|done..|].
    rewrite (visible_perm floor _ _ Hperm) in *. split; [done|]. intros f _.
    rewrite <- (visible_perm f _ _ Hperm). apply H2. }
  destruct (n <? visible cutoff o)%Z; [|by apply Hfloor].
  destruct (checked_add_u64 cutoff 1) as [floor|] eqn:Ha; cbn.
  - apply checked_add_u64_Some in Ha as [-> _]. by apply Hfloor.
  - split; [done|]. exists cutoff. rewrite <- Hperm. split; [by eapply list_elem_of_lookup_2|].
    unfold checked_add_u64 in Ha. case_match eqn:E; [done|]. lia.
Qed.

(** * Logical orders *)

Lemma max_order_le l x : x ∈ l → (x ≤ max_order l)%Z.
Proof.
  unfold max_order. induction l as [|y l IH]; [by intros ?%not_elem_of_nil|]. cbn [foldr].
  intros [->|Hx]%elem_of_cons; [lia|]. specialize (IH Hx). lia.
Qed.

(** What persisting a message writes. *)
Lemma persist_message_spec s message :
  wp (persist_message_in_state message) s (λ s' r,
    match r with
    | Ok RecPersisted => ∃ c, canonical_message message = Ok c
        ∧ messages s !! record_key (me_scope c) (me_message_id c) = None
        ∧ s' = with_messages (<[record_key (me_scope c) (me_message_id c)
                                := set_message_state DsPersisted c]> (messages s)) s
    | _ => s' = s
    end).
Proof.
  unfold persist_message_in_state, or_invalid, duplicate_or_conflict. wp_steps; try done.
  - by destruct (bool_decide (_ = set_message_state _ _)).
  - eexists. split_and!; [done|done|]. done.
Qed.

Lemma export_message_base subject g sequence message m :
  m_base (export_message subject g sequence message m) = m_base m.
Proof. unfold export_message. by case_match. Qed.

(** What sending with the next logical order does to the messages. *)
Definition sent_next (m m' : Memory) (status : DurableRecordStatus) (persisted : MessageEnvelope) :
    Prop :=
  let key := record_key (me_scope persisted) (me_message_id persisted) in
  messages (m_base m') !! key = Some persisted
  ∧ match status with
    | RecDuplicate => messages (m_base m') = messages (m_base m)
    | RecPersisted =>
        messages (m_base m) !! key = None
        ∧ messages (m_base m') = <[key := persisted]> (messages (m_base m))
        ∧ (max_order (conversation_orders m (me_scope persisted) (me_conversation persisted))
           < me_logical_order persisted)%Z
    end.

Lemma canonical_message_ids message c :
  canonical_message message = Ok c →
  me_scope c = me_scope message ∧ me_message_id c = me_message_id message
  ∧ me_conversation c = me_conversation message ∧ me_logical_order c = me_logical_order message.
Proof. intros [-> _]%canonical_message_shape. done. Qed.

Lemma persist_next_spec m subject message :
  wp (persist_group_message_with_next_logical_order subject message) m (λ m' r,
    match r with Ok (status, persisted) => sent_next m m' status persisted | Err _ => True end).
Proof.
  unfold persist_group_message_with_next_logical_order.
  do 3 (wp_step; try done). do 2 (wp_step; try done). rename a into c.
  destruct (messages (m_base m) !! _) as [existing|] eqn:Hk.
  - wp_steps; [|done]. bool_norm. split; [|done].
    match goal with H : _ = existing |- _ => rewrite <- H in Hk |- * end. done.
  - do 2 (wp_step; try done).
    match goal with H : checked_add_u64 _ _ = Some _ |- _ => apply checked_add_u64_Some in H as [-> _] end.
    apply wp_bind, wp_zoom. eapply wp_mono; [|apply persist_message_spec]. cbn beta.
    intros s [[]|] Hs; [..|done].
    + destruct Hs as (c' & Hc' & Hn & ->).
      destruct (canonical_message_ids _ _ Hc') as (E1 & E2 & E3 & E4). cbn in E1, E2, E3, E4.
      wp_step. wp_step; [|done]. wp_steps.
      match goal with H : _ !! _ = Some ?a |- _ => rename H into Hp; rename a into persisted end.
      cbn in Hp. rewrite E1, E2, lookup_insert_eq in Hp. injection Hp as <-.
      unfold sent_next. rewrite (bool_decide_true (RecPersisted = RecPersisted)) by done.
      rewrite export_message_base. cbn. rewrite E1, E2, E3, E4.
      split; [by rewrite lookup_insert_eq|]. split_and!; [done|done|lia].
    + subst s. wp_steps; [|done]. exfalso. cbn in *. congruence.
Qed.

(** Sending with the next logical order appends: the stored message is the one returned,
    it is new, its order is above every order the conversation held, and no other message
    changes.  A replay returns the stored message and changes no message. *)
Theorem next_logical_order_is_fresh m subject message m' status persisted :
  persist_group_message_with_next_logical_order subject message m = (m', Ok (status, persisted)) →
  let key := record_key (me_scope persisted) (me_message_id persisted) in
  messages (m_base m') !! key = Some persisted
  ∧ match status with
    | RecDuplicate => messages (m_base m') = messages (m_base m)
    | RecPersisted =>
        messages (m_base m) !! key = None
        ∧ messages (m_base m') = <[key := persisted]> (messages (m_base m))
        ∧ ∀ order, order ∈ conversation_orders m (me_scope persisted) (me_conversation persisted) →
                   (order < me_logical_order persisted)%Z
    end.
Proof.
  intros E. destruct (wp_run _ _ _ _ _ (persist_next_spec m subject message) E) as [Hk Hs].
  split; [done|]. destruct status; [|done]. destruct Hs as (? & ? & Hlt). split_and!; [done..|].
  intros order Ho%max_order_le. lia.
Qed.

(** * What a newcomer reads *)

Lemma max_order_mono l k : (∀ x, x ∈ l → x ∈ k) → (max_order l ≤ max_order k)%Z.
Proof.
  assert (0 ≤ max_order k)%Z as H0.
  { clear l. unfold max_order. induction k; cbn [foldr]; lia. }
  induction l as [|x l IH]; intros Hl; [done|].
  change (max_order (x :: l)) with (Z.max x (max_order l)).
  pose proof (max_order_le k x (Hl x ltac:(set_solver))).
  assert (max_order l ≤ max_order k)%Z by (apply IH; set_solver). lia.
Qed.

Definition reads_history (policy : GroupHistoryPolicy) : bool :=
  match policy with GhFromTimestamp _ | GhCustomPolicy _ => false | _ => true end.

Lemma floor_at_most_next m g floor :
  history_floor_for_add m g = Ok floor → reads_history (gr_history_policy g) = true →
  (floor ≤ max_order (conversation_orders m (gr_scope g) (gr_conversation g)) + 1)%Z.
Proof.
  unfold history_floor_for_add. set (orders := conversation_orders _ _ _).
  assert (0 ≤ max_order orders)%Z as H0 by (apply (max_order_mono [] orders); set_solver).
  assert (∀ x, x ∈ sort_by Z.compare orders → (x ≤ max_order orders)%Z) as Hmax.
  { intros x Hx. apply max_order_le. by rewrite elem_of_sort_by in Hx. }
  destruct (gr_history_policy g) as [| |n| | |]; try done; intros Hf _.
  - apply ok_or_Ok, checked_add_u64_Some in Hf as [-> _].
    destruct (last _) as [x|] eqn:Hx; cbn; [|lia]. apply last_Some_elem_of, Hmax in Hx. lia.
  - apply ok_or_Ok, checked_add_u64_Some in Hf as [-> _].
    destruct (last _) as [x|] eqn:Hx; cbn; [|lia]. apply last_Some_elem_of, Hmax in Hx. lia.
  - case_match; [by injection Hf as <-; lia|].
    apply bind_Ok in Hf as (c & Hc%ok_or_Ok%list_elem_of_lookup_2%Hmax & Hf).
    case_match; [apply ok_or_Ok, checked_add_u64_Some in Hf as [-> _]|injection Hf as <-]; lia.
  - injection Hf as <-. lia.
Qed.

(** A member that joins under [FromJoin] or [NoHistory] sees nothing sent before. *)
Lemma floor_hides_past m g floor order :
  history_floor_for_add m g = Ok floor →
  gr_history_policy g = GhFromJoin ∨ gr_history_policy g = GhNoHistory →
  order ∈ conversation_orders m (gr_scope g) (gr_conversation g) → (order < floor)%Z.
Proof.
  unfold history_floor_for_add. set (orders := conversation_orders _ _ _). intros Hf Hp Ho.
  pose proof (sort_Z_sorted orders) as Hs. rewrite <- (elem_of_sort_by Z.compare) in Ho.
  assert (ok_or (checked_add_u64 (default 0%Z (last (sort_by Z.compare orders))) 1) StInvalidRecord
          = Ok floor) as Hf' by by destruct Hp as [E|E]; rewrite E in Hf.
  apply ok_or_Ok, checked_add_u64_Some in Hf' as [-> _].
  destruct (last (sort_by Z.compare orders)) as [y|] eqn:Hl; cbn.
  - pose proof (StronglySorted_last _ _ _ Hs Hl) as Hy. rewrite Forall_forall in Hy.
    destruct (Hy order Ho); lia.
  - apply last_None in Hl. rewrite Hl in Ho. by apply not_elem_of_nil in Ho.
Qed.

(** Whoever is added to a group whose policy grants history reads every message that is
    sent with the next logical order from then on; under the policies that start at the join,
    it reads none of the messages the conversation held. *)
Theorem newcomer_reads_from_the_floor m g floor membership m1 subject message m2 persisted :
  history_floor_for_add m g = Ok floor → gm_history_floor membership = floor →
  (∀ order, order ∈ conversation_orders m (gr_scope g) (gr_conversation g) →
            order ∈ conversation_orders m1 (gr_scope g) (gr_conversation g)) →
  persist_group_message_with_next_logical_order subject message m1
    = (m2, Ok (RecPersisted, persisted)) →
  me_scope persisted = gr_scope g → me_conversation persisted = gr_conversation g →
  history_allows g membership persisted = reads_history (gr_history_policy g)
  ∧ (gr_history_policy g = GhFromJoin ∨ gr_history_policy g = GhNoHistory →
     ∀ k old, messages (m_base m) !! k = Some old → me_scope old = gr_scope g →
              me_conversation old = gr_conversation g → history_allows g membership old = false).
Proof.
  intros Hf Hm Hgrow E Es Ec.
  destruct (wp_run _ _ _ _ _ (persist_next_spec m1 subject message) E) as (_ & _ & _ & Hlt).
  rewrite Es, Ec in Hlt. pose proof (max_order_mono _ _ Hgrow) as Hmono. split.
  - unfold history_allows. rewrite Hm. destruct (reads_history (gr_history_policy g)) eqn:Hr.
    + pose proof (floor_at_most_next _ _ _ Hf Hr). rewrite (proj2 (Z.ltb_ge _ _)) by lia.
      by destruct (gr_history_policy g).
    + case_match; [done|]. by destruct (gr_history_policy g).
  - intros Hp k old Hk E1 E2. unfold history_allows. rewrite Hm, (proj2 (Z.ltb_lt _ _)); [done|].
    eapply floor_hides_past; [done..|]. apply list_elem_of_fmap. exists old. split; [done|].
    apply list_elem_of_In, filter_In. rewrite <- list_elem_of_In, elem_of_values.
    by rewrite !bool_decide_true by done; eauto.
Qed.

(** * Mesh forwarding *)

Lemma canonical_mesh_path replica canonical :
  canonical_mesh_group_message_replica replica = Ok canonical →
  mr_forward_path canonical = mr_forward_path replica
  ∧ NoDup (mr_forward_path replica)
  ∧ (len (mr_forward_path replica) ≤ MAX_MESH_PATH_DEVICES)%Z.
Proof.
  unfold canonical_mesh_group_message_replica. intros H. res_inv. simplify_eq. cbn. bool_norm.
  match goal with H : all_distinct _ _ _ = Ok _ |- _ => apply all_distinct_Ok in H as [Hnd _] end.
  split_and!; [done|by eapply NoDup_fmap_1|done].
Qed.

(** What the recipient can do with a replica it is offered. *)
Definition admissible_offer (source recipient : DeviceId) (r : MeshGroupMessageReplica) : Prop :=
  last (mr_forward_path r) = Some source
  ∧ ∃ extended, append_mesh_recipient r recipient = Ok extended
      ∧ mr_forward_path extended = mr_forward_path r ++ [recipient]
      ∧ NoDup (mr_forward_path extended)
      ∧ (len (mr_forward_path extended) ≤ MAX_MESH_PATH_DEVICES)%Z.

Lemma mesh_offer_admissible m scope g membership source recipient replica r :
  mesh_offer m scope g membership source recipient replica = Some r →
  mr_record r = replica ∧ history_allows g membership (om_message replica) = true
  ∧ admissible_offer source recipient r.
Proof.
  unfold mesh_offer. set (path := mesh_path m scope replica).
  destruct (history_allows _ _ _) eqn:Hh; [|done]. cbn [negb].
  destruct ((MAX_MESH_PATH_DEVICES <=? len path)%Z) eqn:Hlen; [done|]. cbn [orb].
  case_bool_decide as Hin; [done|].
  destruct (canonical_mesh_group_message_replica _) as [canonical|] eqn:Hc; [|done]. cbn [is_ok negb orb].
  destruct (validate_mesh_source _ source) as [[]|] eqn:Hs; [|done]. intros [= <-].
  destruct (canonical_mesh_path _ _ Hc) as (Ep & Hnd & _). cbn in Ep, Hnd.
  unfold validate_mesh_source in Hs. rewrite Hc in Hs. cbn in Hs.
  apply reject_if_Ok, negb_false_iff, bool_decide_eq_true in Hs.
  split_and!; [done|done|]. split; [cbn; by rewrite <- Ep|].
  unfold append_mesh_recipient. rewrite Hc. cbn [mbind result_bind].
  rewrite Ep. cbn [mr_forward_path]. rewrite (bool_decide_false _ Hin), Hlen. cbn.
  eexists. split; [done|]. cbn. split_and!; [done| |].
  - apply NoDup_app. split_and!; [done| |apply NoDup_singleton].
    by intros x Hx ->%list_elem_of_singleton.
  - apply Z.leb_gt in Hlen. unfold len in *. rewrite length_app. cbn. lia.
Qed.

(** Every replica a mesh page offers can be taken: it has reached its source along a path
    that does not contain the recipient, so extending the path by the recipient succeeds and
    gives a path without repetition of at most the allowed number of devices; and the
    recipient may read the message. *)
Theorem mesh_offers_are_admissible `{Sha256} m source recipient scope gid cursor n page r :
  (mesh_group_message_page source recipient scope gid cursor n m).2 = Ok page →
  r ∈ mp_records page →
  admissible_offer (principal_id (sp_principal source)) (principal_id (sp_principal recipient)) r
  ∧ ∃ g membership, groups (m_groups m) !! group_key scope gid = Some g
      ∧ active_member_of m g (sp_principal recipient) = Some membership
      ∧ history_allows g membership (om_message (mr_record r)) = true.
Proof.
  intros E Hr. revert E Hr.
  refine (_ : wp (mesh_group_message_page source recipient scope gid cursor n) m (λ _ res,
    res = Ok page → r ∈ mp_records page → _)).
  unfold mesh_group_message_page. wp_steps; try done.
  intros [= <-] Hr. cbn in Hr. apply list_elem_of_omap in Hr as (replica & _ & Ho).
  apply mesh_offer_admissible in Ho as (-> & Hh & Ha). unfold scoped_device_id in *. res_inv. subst.
  split; [done|]. unfold require_two_active_members in *. res_inv. eauto 10.
Qed.

(** * A concrete group with messages *)

#[local] Existing Instance toy_digest.

Definition note (id : string) : MessageEnvelope :=
  mk_message (oid id) office team_room (mk_actor (oid "ada") AkPerson None)
    (mk_device_ref (oid "phone") (oid "ada-id")) 0 0 (str id) [] None [] None DpDurable DsCreated
    (mk_origin (Some (oid "ada")) None None) (mk_correlation (oid "corr") None None) [] [] None.

Definition notes_store : Memory :=
  run_store [ScCreateGroup (mk_conversation_record office team_room None) team (at_office ada);
             ScSendNext (at_office ada) (note "n1"); ScSendNext (at_office ada) (note "n2");
             ScSendNext (at_office ada) (note "n3")] empty_mem.

(** Of three messages the policy shows the last two. *)
Lemma last_n_history_is_exact_witness :
  history_floor_for_add notes_store team = Ok 2%Z
  ∧ (visible 2 (conversation_orders notes_store (gr_scope team) (gr_conversation team)) ≤ 2)%Z.
Proof.
  split; [vm_compute; reflexivity|].
  pose proof (last_n_history_is_exact notes_store team 2 eq_refl ltac:(lia) eq_refl) as H.
  assert (history_floor_for_add notes_store team = Ok 2%Z) as E by (vm_compute; reflexivity).
  cbv zeta in H. rewrite E in H. exact (proj1 H).
Defined.

#[local] Abbreviation send_n4 :=
  (persist_group_message_with_next_logical_order (at_office ada) (note "n4") notes_store).
Definition stored_n4 : MessageEnvelope :=
  set_message_state DsPersisted (set_logical_order 4 (note "n4")).

Lemma next_logical_order_is_fresh_witness :
  messages (m_base send_n4.1) !! record_key (me_scope stored_n4) (me_message_id stored_n4)
    = Some stored_n4.
Proof.
  refine (proj1 (next_logical_order_is_fresh notes_store (at_office ada) (note "n4") send_n4.1
    RecPersisted stored_n4 _)).
  apply outcome_pair. vm_compute. reflexivity.
Defined.

Lemma newcomer_reads_from_the_floor_witness :
  history_allows team (fresh_membership team bob GrMember 1 2) stored_n4 = true.
Proof.
  refine (proj1 (newcomer_reads_from_the_floor notes_store team 2
    (fresh_membership team bob GrMember 1 2) notes_store (at_office ada) (note "n4") send_n4.1
    stored_n4 _ _ _ _ _ _)).
  - vm_compute. reflexivity.
  - reflexivity.
  - intros order Ho. exact Ho.
  - apply outcome_pair. vm_compute. reflexivity.
  - reflexivity.
  - reflexivity.
Defined.

(** Two devices of a field team; the first has signed a report. *)
Definition device (id : string) : PrincipalRef := mk_principal (oid id) PkDevice.
Definition field_team : GroupRecord :=
  mk_group office (oid "field") team_room GoSharedAdmin GhFullHistory DpDurable
    (mk_group_crypto None 0 None) None GmsIdle [] 0 0.
Definition report : MessageEnvelope :=
  mk_message (oid "report") office team_room (mk_actor (oid "d1") AkSystem None)
    (mk_device_ref (oid "d1") (oid "d1-id")) 0 0 (str "report") [] None [] None DpDurable DsCreated
    (mk_origin (Some (oid "d1")) None None) (mk_correlation (oid "corr") None None) [] []
    (Some (mk_signature (oid "key") (str "ed25519") 1 (repeat 7%Z 64))).
Definition field_store : Memory :=
  run_store [ScCreateGroup (mk_conversation_record office team_room None) field_team
               (at_office (device "d1"));
             ScChange (at_office (device "d1"))
               (mk_group_change (oid "add") office (oid "field") 0
                  (GkAddMember (device "d2") GrMember) None);
             ScSendNext (at_office (device "d1")) report] empty_mem.
#[local] Abbreviation field_page :=
  (mesh_group_message_page (at_office (device "d1")) (at_office (device "d2")) office (oid "field")
     None 8 field_store).
Definition offered : MeshGroupMessageReplica :=
  mk_mesh_replica
    (mk_message_replica (at_office (device "d1")) (oid "field") 1
       (set_message_state DsPersisted (set_logical_order 1 report)))
    [oid "d1"].

Lemma mesh_offers_are_admissible_witness : admissible_offer (oid "d1") (oid "d2") offered.
Proof.
  refine (proj1 (mesh_offers_are_admissible field_store (at_office (device "d1"))
    (at_office (device "d2")) office (oid "field") None 8
    (mk_mesh_page office (oid "field") [offered] None) offered _ _)).
  - vm_compute. reflexivity.
  - left.
Defined.
