(* ===== verification/Sfu.v ===== *)
(** The placement directory of a horizontal SFU deployment: workers with their leases and
    load, the reservations the coordinator holds on them, and the sticky placement of calls
    (crates/ucr-sfu/src/lib.rs, [SfuClusterDirectory]).

    A [BTreeMap] is a finite map whose iteration is in key order; a [String] key is its
    bytes. *)

From S2P Require Import Prelude Ids StoreForward Store.

(** * Addresses *)

(** [core::net::IpAddr]: the 32 or 128 bits of the address. *)
Inductive IpAddr := V4 (bits : Z) | V6 (bits : Z).
Record SocketAddr := mk_socket { sa_ip : IpAddr; sa_port : Z (* u16 *) }.

Definition is_unspecified (ip : IpAddr) : bool :=
  match ip with V4 b | V6 b => (b =? 0)%Z end.
(** 224.0.0.0/4 and ff00::/8. *)
Definition is_multicast (ip : IpAddr) : bool :=
  match ip with
  | V4 b => (Z.shiftr b 28 =? 14)%Z
  | V6 b => (Z.shiftr b 120 =? 255)%Z
  end.
Definition is_broadcast (ip : IpAddr) : bool :=
  match ip with V4 b => (b =? u32_max)%Z | V6 _ => false end.

(** * Data *)

Inductive SfuNodeState := SnHealthy | SnDraining | SnUnavailable.
#[global] Instance SfuNodeState_eq_dec : EqDecision SfuNodeState.
Proof. solve_decision. Defined.

Inductive SfuPlacementError :=
  SpeInvalidNode | SpeInvalidEndpoint | SpeEndpointUnavailable | SpeNoHealthyCapacity.
#[global] Instance SfuPlacementError_eq_dec : EqDecision SfuPlacementError.
Proof. solve_decision. Defined.

Definition MAX_SFU_CLUSTER_NODES : nat := 256.
Definition MAX_SFU_REGION_BYTES : nat := 64.

Record SfuNodeEndpoint := mk_node_endpoint { ne_address : SocketAddr }.

Definition sfu_node_endpoint_new (address : SocketAddr) :
    result SfuPlacementError SfuNodeEndpoint :=
  let ip := sa_ip address in
  let invalid_ip := is_unspecified ip || is_multicast ip || is_broadcast ip in
  reject_if ((sa_port address =? 0)%Z || invalid_ip) SpeInvalidEndpoint ;;
  Ok (mk_node_endpoint address).

Record SfuNodeDescriptor := mk_sfu_node {
  sn_node_id : OpaqueId;
  sn_region : bytes;
  sn_state : SfuNodeState;
  sn_active_sessions : Z; (* u32 *)
  sn_max_sessions : Z; (* u32 *)
  sn_lease_expires_at_unix_ms : Z; (* i64 *)
}.

Definition is_live_at (node : SfuNodeDescriptor) (now : Z) : bool :=
  (now <? sn_lease_expires_at_unix_ms node)%Z
  && negb (bool_decide (sn_state node = SnUnavailable)).

Record SfuNodeCapacitySnapshot := mk_capacity {
  cap_node : SfuNodeDescriptor;
  cap_reserved_sessions : Z;
  cap_effective_sessions : Z;
}.

Record SfuPlacementPolicy := mk_placement_policy {
  pp_preferred_region : option bytes;
  pp_allow_cross_region_failover : bool;
}.

Record SfuPlacementDecision := mk_decision {
  pd_node_id : OpaqueId;
  pd_retained_sticky_placement : bool;
  pd_crossed_region : bool;
}.

Record SfuClusterDirectory := mk_cluster {
  nodes : gmap bytes SfuNodeDescriptor;
  endpoints : gmap bytes SfuNodeEndpoint;
  placements : gmap bytes bytes;
  reservations : gmap bytes Z; (* u32 *)
}.
Definition empty_cluster : SfuClusterDirectory := mk_cluster ∅ ∅ ∅ ∅.

Definition set_nodes (v : gmap bytes SfuNodeDescriptor) (d : SfuClusterDirectory) :=
  mk_cluster v (endpoints d) (placements d) (reservations d).
Definition set_endpoints (v : gmap bytes SfuNodeEndpoint) (d : SfuClusterDirectory) :=
  mk_cluster (nodes d) v (placements d) (reservations d).
Definition set_placements (v : gmap bytes bytes) (d : SfuClusterDirectory) :=
  mk_cluster (nodes d) (endpoints d) v (reservations d).
Definition set_reservations (v : gmap bytes Z) (d : SfuClusterDirectory) :=
  mk_cluster (nodes d) (endpoints d) (placements d) v.

(** [OpaqueId::as_str]. *)
Abbreviation as_str := as_wire_bytes.

(** [BTreeMap::iter]: the entries in key order. *)
Definition btree_entries {V} (m : gmap bytes V) : list (bytes * V) :=
  sort_by (key_cmp fst bytes_cmp) (map_to_list m).

Abbreviation directory_op := (op SfuClusterDirectory SfuPlacementError).

(** * Load *)

Definition cluster_is_empty (d : SfuClusterDirectory) : bool :=
  bool_decide (nodes d = ∅) && bool_decide (size (endpoints d) = 0)
  && bool_decide (placements d = ∅) && bool_decide (reservations d = ∅).

Definition reserved_sessions (d : SfuClusterDirectory) (node_id : bytes) : Z :=
  default 0%Z (reservations d !! node_id).

Definition effective_sessions (d : SfuClusterDirectory) (node : SfuNodeDescriptor) : Z :=
  sn_active_sessions node + reserved_sessions d (as_str (sn_node_id node)).

Definition accepts_new_session_at (d : SfuClusterDirectory) (node : SfuNodeDescriptor)
    (now : Z) : bool :=
  is_live_at node now
  && bool_decide (sn_state node = SnHealthy)
  && (0 <? sn_max_sessions node)%Z
  && (effective_sessions d node <? sn_max_sessions node)%Z.

Definition reserve_session (node_id : bytes) : directory_op unit :=
  d ← get;
  next ← lift (ok_or (checked_add_u32 (reserved_sessions d node_id) 1) SpeNoHealthyCapacity);
  put (set_reservations (<[node_id := next]> (reservations d)) d).

Definition release_reservation (node_id : bytes) : directory_op unit :=
  d ← get;
  reserved ← lift (ok_or (reservations d !! node_id) SpeInvalidNode);
  guard (reserved =? 0)%Z SpeInvalidNode ;;
  let reserved := (reserved - 1)%Z in
  if (reserved =? 0)%Z
  then put (set_reservations (delete node_id (reservations d)) d)
  else put (set_reservations (<[node_id := reserved]> (reservations d)) d).

(** * Workers *)

Definition upsert_node (node : SfuNodeDescriptor) : directory_op unit :=
  d ← get;
  guard (bool_decide (sn_region node = [])
         || (MAX_SFU_REGION_BYTES <? length (sn_region node))
         || (sn_max_sessions node =? 0)%Z
         || (sn_max_sessions node <? sn_active_sessions node)%Z
         || (sn_lease_expires_at_unix_ms node <=? 0)%Z
         || (bool_decide (nodes d !! as_str (sn_node_id node) = None)
             && (MAX_SFU_CLUSTER_NODES <=? size (nodes d))))
    SpeInvalidNode ;;
  let node_id := as_str (sn_node_id node) in
  put (set_endpoints (delete node_id (endpoints d)) (set_nodes (<[node_id := node]> (nodes d)) d)).

Definition upsert_node_with_endpoint (node : SfuNodeDescriptor) (endpoint : SfuNodeEndpoint) :
    directory_op unit :=
  _ ← lift (sfu_node_endpoint_new (ne_address endpoint));
  upsert_node node ;;
  d ← get;
  put (set_endpoints (<[as_str (sn_node_id node) := endpoint]> (endpoints d)) d).

Definition resolve_live_endpoint (d : SfuClusterDirectory) (node_id : OpaqueId) (now : Z) :
    result SfuPlacementError SfuNodeEndpoint :=
  node ← ok_or (nodes d !! as_str node_id) SpeInvalidNode;
  reject_if (negb (is_live_at node now)) SpeEndpointUnavailable ;;
  ok_or (endpoints d !! as_str node_id) SpeEndpointUnavailable.

Definition node (d : SfuClusterDirectory) (node_id : OpaqueId) : option SfuNodeDescriptor :=
  nodes d !! as_str node_id.

Definition all_nodes (d : SfuClusterDirectory) : list SfuNodeDescriptor :=
  snd <$> btree_entries (nodes d).

Definition capacity_of (d : SfuClusterDirectory) (node : SfuNodeDescriptor) :
    SfuNodeCapacitySnapshot :=
  mk_capacity node (reserved_sessions d (as_str (sn_node_id node))) (effective_sessions d node).

Definition node_with_capacity (d : SfuClusterDirectory) (node_id : OpaqueId) :
    option SfuNodeCapacitySnapshot :=
  capacity_of d <$> nodes d !! as_str node_id.

Definition nodes_with_capacity (d : SfuClusterDirectory) : list SfuNodeCapacitySnapshot :=
  capacity_of d <$> all_nodes d.

(** [retain] on the placements. *)
Definition retain_placements (keep : bytes → bool) (d : SfuClusterDirectory) :
    SfuClusterDirectory :=
  set_placements (filter (λ e, Is_true (keep e.2)) (placements d)) d.

(** The three tables forget a worker. *)
Definition forget_node (node_id : bytes) (d : SfuClusterDirectory) : SfuClusterDirectory :=
  mk_cluster (delete node_id (nodes d)) (delete node_id (endpoints d)) (placements d)
    (delete node_id (reservations d)).

Definition expired_nodes (d : SfuClusterDirectory) (now : Z) : list bytes :=
  fst <$> List.filter (λ e, (sn_lease_expires_at_unix_ms e.2 <=? now)%Z)
            (btree_entries (nodes d)).

Definition prune_expired_nodes (now : Z) (d : SfuClusterDirectory) : SfuClusterDirectory * nat :=
  let expired := expired_nodes d now in
  if bool_decide (expired = []) then (d, 0)
  else
    let d := foldl (λ d node_id, forget_node node_id d) d expired in
    (retain_placements (λ assigned, negb (existsb (λ id, bool_decide (id = assigned)) expired)) d,
     length expired).

Definition remove_node (node_id : OpaqueId) (d : SfuClusterDirectory) : SfuClusterDirectory :=
  retain_placements (λ assigned, negb (bool_decide (assigned = as_str node_id)))
    (forget_node (as_str node_id) d).

Definition with_state (state : SfuNodeState) (node : SfuNodeDescriptor) : SfuNodeDescriptor :=
  mk_sfu_node (sn_node_id node) (sn_region node) state (sn_active_sessions node)
    (sn_max_sessions node) (sn_lease_expires_at_unix_ms node).

Definition mark_draining (node_id : OpaqueId) : directory_op unit :=
  d ← get;
  node ← lift (ok_or (nodes d !! as_str node_id) SpeInvalidNode);
  put (set_nodes (<[as_str node_id := with_state SnDraining node]> (nodes d)) d).

(** * Rendezvous scores *)

Definition wrapping_mul_u64 (a b : Z) : Z := (a * b) mod 2 ^ 64.

(** One round of FNV-1a. *)
Definition fnv_round (hash byte : Z) : Z :=
  wrapping_mul_u64 (Z.lxor hash byte) 1099511628211 (* 0x100000001b3 *).

Definition placement_score (key node_id : bytes) : Z :=
  let hash := foldl fnv_round 14695981039346656037%Z (* 0xcbf29ce484222325 *) key in
  let hash := fnv_round hash 255 in
  let hash := foldl fnv_round hash node_id in
  let hash := Z.lxor hash (Z.shiftr hash 30) in
  let hash := wrapping_mul_u64 hash 13787848793156543929 (* 0xbf58476d1ce4e5b9 *) in
  let hash := Z.lxor hash (Z.shiftr hash 27) in
  let hash := wrapping_mul_u64 hash 10723151780598845931 (* 0x94d049bb133111eb *) in
  Z.lxor hash (Z.shiftr hash 31).

Definition placement_key (scope : TenantScope) (call_id : CallId) : bytes :=
  as_wire_bytes (tenant_id scope) ++ [0%Z]
  ++ match namespace_id scope with Some namespace => as_wire_bytes namespace | None => [] end
  ++ [0%Z] ++ as_wire_bytes call_id.

(** [Iterator::max_by_key]: the last of the largest elements. *)
Definition max_by_key {A K} (cmp : K → K → comparison) (key : A → K) (l : list A) : option A :=
  foldl (λ best x,
    match best with
    | None => Some x
    | Some b => match cmp (key b) (key x) with Gt => Some b | _ => Some x end
    end) None l.

(** * Placement *)

Definition in_region (region : bytes) (node : SfuNodeDescriptor) : bool :=
  bool_decide (sn_region node = region).

(** The candidates before the region preference. *)
Definition open_nodes (d : SfuClusterDirectory) (now : Z) (excluded : option bytes) :
    list SfuNodeDescriptor :=
  List.filter (λ node, negb (bool_decide (excluded = Some (as_str (sn_node_id node)))))
    (List.filter (λ node, accepts_new_session_at d node now) (all_nodes d)).

(** The candidates a policy leaves: those of the preferred region when it has any. *)
Definition preferred_nodes (policy : SfuPlacementPolicy) (candidates : list SfuNodeDescriptor) :
    result SfuPlacementError (list SfuNodeDescriptor) :=
  match pp_preferred_region policy with
  | None => Ok candidates
  | Some region =>
      if existsb (in_region region) candidates
      then Ok (List.filter (in_region region) candidates)
      else reject_if (negb (pp_allow_cross_region_failover policy)) SpeNoHealthyCapacity ;;
           Ok candidates
  end.

(** The code returns the key, the region and the id of the selected worker; here the worker. *)
Definition select_placement_candidate (d : SfuClusterDirectory) (key : bytes)
    (policy : SfuPlacementPolicy) (now : Z) (excluded : option bytes) :
    result SfuPlacementError SfuNodeDescriptor :=
  let candidates := open_nodes d now excluded in
  reject_if (length candidates =? 0) SpeNoHealthyCapacity ;;
  candidates ← preferred_nodes policy candidates;
  ok_or (max_by_key Z.compare (λ node, placement_score key (as_wire_bytes (sn_node_id node)))
           candidates) SpeNoHealthyCapacity.

Definition crosses_region (policy : SfuPlacementPolicy) (node : SfuNodeDescriptor) : bool :=
  match pp_preferred_region policy with
  | Some region => negb (in_region region node)
  | None => false
  end.

(** [if let Err(error) = m { let _ = cleanup; return Err(error) }]. *)
Definition or_undo {S E} (m cleanup : op S E unit) : op S E unit := λ s,
  match m s with
  | (s', Ok _) => (s', Ok tt)
  | (s', Err e) => ((cleanup s').1, Err e)
  end.

Definition migrate_session_placement (key current_node_id : bytes) (policy : SfuPlacementPolicy)
    (now : Z) : directory_op (option SfuPlacementDecision) :=
  d ← get;
  match select_placement_candidate d key policy now (Some current_node_id) with
  | Err SpeNoHealthyCapacity => mret None
  | Err error => lift (Err error)
  | Ok selected =>
      let selected_id := as_str (sn_node_id selected) in
      reserve_session selected_id ;;
      or_undo (release_reservation current_node_id) (release_reservation selected_id) ;;
      d ← get;
      put (set_placements (<[key := selected_id]> (placements d)) d) ;;
      mret (Some (mk_decision (sn_node_id selected) false (crosses_region policy selected)))
  end.

(** A sticky worker that may be kept: live, not over its own capacity, allowed by the policy. *)
Definition keeps_current (policy : SfuPlacementPolicy) (now : Z) (state : SfuNodeState)
    (current : SfuNodeDescriptor) : bool :=
  is_live_at current now
  && bool_decide (sn_state current = state)
  && (sn_active_sessions current <=? sn_max_sessions current)%Z
  && (negb (crosses_region policy current) || pp_allow_cross_region_failover policy).

Definition retained (policy : SfuPlacementPolicy) (current : SfuNodeDescriptor) :
    SfuPlacementDecision :=
  mk_decision (sn_node_id current) true (crosses_region policy current).

(** Migrates, with [otherwise] when there is nowhere to go. *)
Definition migrate_or (key current_node_id : bytes) (policy : SfuPlacementPolicy) (now : Z)
    (otherwise : result SfuPlacementError SfuPlacementDecision) :
    directory_op SfuPlacementDecision :=
  migrated ← migrate_session_placement key current_node_id policy now;
  match migrated with
  | Some decision => mret decision
  | None => lift otherwise
  end.

Definition place_session (scope : TenantScope) (call_id : CallId) (policy : SfuPlacementPolicy)
    (now : Z) : directory_op SfuPlacementDecision :=
  let key := placement_key scope call_id in
  d ← get;
  match placements d !! key with
  | Some current_node_id =>
      match nodes d !! current_node_id with
      | Some current =>
          if keeps_current policy now SnHealthy current then mret (retained policy current)
          else if keeps_current policy now SnDraining current
          then migrate_or key current_node_id policy now (Ok (retained policy current))
          else migrate_or key current_node_id policy now (Err SpeNoHealthyCapacity)
      | None => migrate_or key current_node_id policy now (Err SpeNoHealthyCapacity)
      end
  | None =>
      selected ← lift (select_placement_candidate d key policy now None);
      let selected_id := as_str (sn_node_id selected) in
      reserve_session selected_id ;;
      d ← get;
      put (set_placements (<[key := selected_id]> (placements d)) d) ;;
      mret (mk_decision (sn_node_id selected) false (crosses_region policy selected))
  end.

Definition release_session_if_present (scope : TenantScope) (call_id : CallId) :
    directory_op bool :=
  let key := placement_key scope call_id in
  d ← get;
  match placements d !! key with
  | None => mret false
  | Some node_id =>
      guard (bool_decide (nodes d !! node_id = None)) SpeInvalidNode ;;
      release_reservation node_id ;;
      d ← get;
      put (set_placements (delete key (placements d)) d) ;;
      mret true
  end.

Definition release_session (scope : TenantScope) (call_id : CallId) : directory_op unit :=
  present ← release_session_if_present scope call_id;
  guard (negb present) SpeInvalidNode.

(** * The directory as a whole: every call that changes it *)

Inductive directory_call :=
  | DcUpsert (node : SfuNodeDescriptor)
  | DcUpsertWithEndpoint (node : SfuNodeDescriptor) (endpoint : SfuNodeEndpoint)
  | DcPrune (now : Z)
  | DcRemove (node_id : OpaqueId)
  | DcDrain (node_id : OpaqueId)
  | DcPlace (scope : TenantScope) (call_id : CallId) (policy : SfuPlacementPolicy) (now : Z)
  | DcRelease (scope : TenantScope) (call_id : CallId)
  | DcReleaseIfPresent (scope : TenantScope) (call_id : CallId).

Definition exec_directory (c : directory_call) (d : SfuClusterDirectory) : SfuClusterDirectory :=
  match c with
  | DcUpsert node => (upsert_node node d).1
  | DcUpsertWithEndpoint node endpoint => (upsert_node_with_endpoint node endpoint d).1
  | DcPrune now => (prune_expired_nodes now d).1
  | DcRemove node_id => remove_node node_id d
  | DcDrain node_id => (mark_draining node_id d).1
  | DcPlace scope call_id policy now => (place_session scope call_id policy now d).1
  | DcRelease scope call_id => (release_session scope call_id d).1
  | DcReleaseIfPresent scope call_id => (release_session_if_present scope call_id d).1
  end.

Definition run_directory (history : list directory_call) : SfuClusterDirectory :=
  foldl (λ d c, exec_directory c d) empty_cluster history.

(** The arguments are of the code's types: [u32] counters. *)
Definition node_typed (node : SfuNodeDescriptor) : Prop :=
  (0 ≤ sn_active_sessions node ≤ u32_max ∧ 0 ≤ sn_max_sessions node ≤ u32_max)%Z.
Definition directory_call_typed (c : directory_call) : Prop :=
  match c with
  | DcUpsert node | DcUpsertWithEndpoint node _ => node_typed node
  | _ => True
  end.
