(* ===== verification/SfuTheorems.v ===== *)
(** The placement directory keeps its books: reservations count placements, a placement
    never overbooks a worker, and workers that come and go do not move other calls. *)

From S2P Require Import Prelude Ids StoreForward Store Memory OpLogic Sfu.

(** * Counting placements *)

Definition placed_on (m : gmap bytes bytes) (id : bytes) : nat :=
  size (filter (λ e, e.2 = id) m).
Definition one_if (P : Prop) `{Decision P} : nat := if decide P then 1 else 0.

Lemma placed_on_insert m k v id :
  m !! k = None → placed_on (<[k := v]> m) id = placed_on m id + one_if (v = id).
Proof.
  intros Hk. unfold placed_on, one_if. case_decide as Hv.
  - rewrite map_filter_insert_True by done. rewrite map_size_insert_None; [lia|].
    apply map_lookup_filter_None. by left.
  - rewrite map_filter_insert_False by done. rewrite delete_id by done. lia.
Qed.

Lemma placed_on_delete m k v id :
  m !! k = Some v → placed_on m id = placed_on (delete k m) id + one_if (v = id).
Proof.
  intros Hk. rewrite <- (placed_on_insert _ k) by apply lookup_delete_eq.
  by rewrite insert_delete_id.
Qed.

Lemma placed_on_move m k v w id :
  m !! k = Some v →
  placed_on (<[k := w]> m) id + one_if (v = id) = placed_on m id + one_if (w = id).
Proof.
  intros Hk. rewrite <- insert_delete_eq, placed_on_insert by apply lookup_delete_eq.
  rewrite (placed_on_delete m k v id Hk). lia.
Qed.

Lemma size_filter_none (P : bytes * bytes → Prop) `{!∀ e, Decision (P e)} (m : gmap bytes bytes) :
  (∀ k v, m !! k = Some v → ¬ P (k, v)) → size (filter P m) = 0.
Proof.
  intros Hm. apply map_size_empty_iff, map_empty. intros k.
  apply map_lookup_filter_None. right. apply Hm.
Qed.

Lemma placed_on_retain m (keep : bytes → bool) id :
  placed_on (filter (λ e, Is_true (keep e.2)) m) id = if keep id then placed_on m id else 0.
Proof.
  unfold placed_on. rewrite map_filter_filter.
  destruct (keep id) eqn:E.
  - f_equal. apply map_filter_ext. intros k v Hk. cbn. split; [by intros []|]. intros ->.
    by rewrite E.
  - apply size_filter_none. intros k v Hk [Hv Hkeep]. cbn in *. subst v. by rewrite E in Hkeep.
Qed.

Lemma placed_on_pos m k id : m !! k = Some id → 0 < placed_on m id.
Proof. intros Hk. rewrite (placed_on_delete m k id id Hk). unfold one_if. rewrite decide_True by done. lia. Qed.

Lemma placed_on_none m id : (∀ k, m !! k ≠ Some id) → placed_on m id = 0.
Proof.
  intros Hm. apply size_filter_none. intros k v Hk. cbn. intros ->. by apply (Hm k).
Qed.

(** * The invariant *)

Record cluster_ok (d : SfuClusterDirectory) : Prop := {
  ok_nodes : map_Forall (λ id n, as_str (sn_node_id n) = id ∧ node_typed n
                                 ∧ (sn_active_sessions n ≤ sn_max_sessions n)%Z) (nodes d);
  ok_reserved : ∀ id, reserved_sessions d id = Z.of_nat (placed_on (placements d) id);
  ok_positive : map_Forall (λ _ r, 0 < r)%Z (reservations d);
  ok_placed : map_Forall (λ _ id, is_Some (nodes d !! id)) (placements d);
  ok_endpoints : map_Forall (λ id _, is_Some (nodes d !! id)) (endpoints d);
  ok_size : size (nodes d) ≤ MAX_SFU_CLUSTER_NODES;
}.

Lemma empty_cluster_ok : cluster_ok empty_cluster.
Proof.
  split; [apply map_Forall_empty|done|apply map_Forall_empty..|].
  change (size (nodes empty_cluster)) with 0. apply Nat.le_0_l.
Qed.

(** * Reservations *)

Lemma reserve_session_eq d id :
  (reserved_sessions d id < u32_max)%Z →
  reserve_session id d
  = (set_reservations (<[id := (reserved_sessions d id + 1)%Z]> (reservations d)) d, Ok tt).
Proof.
  intros H. unfold reserve_session, mbind, op_bind, get, lift, checked_add_u32. cbn.
  destruct (Z.leb_spec (reserved_sessions d id + 1) u32_max); [done|lia].
Qed.

(** The reservations after one was released. *)
Definition released (id : bytes) (m : gmap bytes Z) : gmap bytes Z :=
  if decide (default 0%Z (m !! id) - 1 = 0)%Z then delete id m
  else <[id := (default 0%Z (m !! id) - 1)%Z]> m.

Lemma release_reservation_eq d id :
  (0 < reserved_sessions d id)%Z →
  release_reservation id d = (set_reservations (released id (reservations d)) d, Ok tt).
Proof.
  unfold reserved_sessions, released, release_reservation, mbind, op_bind, get, lift. cbn.
  destruct (reservations d !! id) as [r|] eqn:E; cbn; [|lia]. intros H.
  unfold guard, lift, reject_if. destruct (Z.eqb_spec r 0); [lia|]. cbn.
  destruct (Z.eqb_spec (r - 1) 0); [by rewrite decide_True|by rewrite decide_False].
Qed.

Lemma released_lookup id m id' :
  default 0%Z (released id m !! id')
  = (default 0 (m !! id') - Z.of_nat (one_if (id = id')))%Z.
Proof.
  unfold released, one_if. repeat case_decide; subst;
    rewrite ?lookup_delete_eq, ?lookup_insert_eq, ?lookup_delete_ne, ?lookup_insert_ne by done;
    cbn; lia.
Qed.

Lemma released_positive id m :
  (0 < default 0 (m !! id))%Z → map_Forall (λ _ r, 0 < r)%Z m → map_Forall (λ _ r, 0 < r)%Z (released id m).
Proof.
  intros Hpos Hm. unfold released. case_decide; [by apply map_Forall_delete|].
  apply map_Forall_insert_2; [lia|done].
Qed.

(** * Keeping the books *)

(** New placements and reservations that agree. *)
Lemma rebook_ok d p r :
  cluster_ok d →
  (∀ id, default 0%Z (r !! id) = Z.of_nat (placed_on p id)) →
  map_Forall (λ _ x, 0 < x)%Z r →
  map_Forall (λ _ id, is_Some (nodes d !! id)) p →
  cluster_ok (mk_cluster (nodes d) (endpoints d) p r).
Proof. intros [] ???. by split. Qed.

Definition taken (key id : bytes) (d : SfuClusterDirectory) : SfuClusterDirectory :=
  mk_cluster (nodes d) (endpoints d) (<[key := id]> (placements d))
    (<[id := (reserved_sessions d id + 1)%Z]> (reservations d)).

Definition moved (key old id : bytes) (d : SfuClusterDirectory) : SfuClusterDirectory :=
  mk_cluster (nodes d) (endpoints d) (<[key := id]> (placements d))
    (released old (<[id := (reserved_sessions d id + 1)%Z]> (reservations d))).

Definition vacated (key old : bytes) (d : SfuClusterDirectory) : SfuClusterDirectory :=
  mk_cluster (nodes d) (endpoints d) (delete key (placements d)) (released old (reservations d)).

Lemma reserved_after d id id' :
  default 0%Z (<[id := (reserved_sessions d id + 1)%Z]> (reservations d) !! id')
  = (reserved_sessions d id' + Z.of_nat (one_if (id = id')))%Z.
Proof.
  unfold reserved_sessions, one_if. case_decide; subst;
    rewrite ?lookup_insert_eq, ?lookup_insert_ne by done; cbn; lia.
Qed.

Lemma reserved_nonneg d id : cluster_ok d → (0 ≤ reserved_sessions d id)%Z.
Proof. intros H. rewrite (ok_reserved _ H). lia. Qed.

Lemma reserve_positive d id :
  cluster_ok d →
  map_Forall (λ _ x, 0 < x)%Z (<[id := (reserved_sessions d id + 1)%Z]> (reservations d)).
Proof.
  intros H. apply map_Forall_insert_2; [|apply H]. pose proof (reserved_nonneg d id H). lia.
Qed.

Lemma taken_ok d key id :
  cluster_ok d → placements d !! key = None → is_Some (nodes d !! id) → cluster_ok (taken key id d).
Proof.
  intros H Hkey Hid. apply rebook_ok; [done| |by apply reserve_positive|].
  - intros id'. rewrite reserved_after, placed_on_insert, (ok_reserved _ H) by done. lia.
  - apply map_Forall_insert_2; [done|apply H].
Qed.

Lemma moved_ok d key old id :
  cluster_ok d → placements d !! key = Some old → old ≠ id → is_Some (nodes d !! id) →
  cluster_ok (moved key old id d).
Proof.
  intros H Hkey Hne Hid. apply rebook_ok; [done| | |].
  - intros id'. rewrite released_lookup, reserved_after, (ok_reserved _ H).
    pose proof (placed_on_move _ _ _ id id' Hkey). lia.
  - apply released_positive; [|by apply reserve_positive].
    rewrite reserved_after, (ok_reserved _ H). pose proof (placed_on_pos _ _ _ Hkey). lia.
  - apply map_Forall_insert_2; [done|apply H].
Qed.

Lemma placed_reserved d key old :
  cluster_ok d → placements d !! key = Some old → (0 < reserved_sessions d old)%Z.
Proof. intros H Hkey. rewrite (ok_reserved _ H). pose proof (placed_on_pos _ _ _ Hkey). lia. Qed.

Lemma vacated_ok d key old :
  cluster_ok d → placements d !! key = Some old → cluster_ok (vacated key old d).
Proof.
  intros H Hkey. apply rebook_ok; [done| | |by apply map_Forall_delete, H].
  - intros id. rewrite released_lookup. pose proof (placed_on_delete _ _ _ id Hkey).
    pose proof (ok_reserved _ H id) as Hr. unfold reserved_sessions in Hr. lia.
  - apply released_positive; [|apply H]. by eapply placed_reserved.
Qed.

(** * Selecting a worker *)

Section max_by_key.
Context {A K : Type} (cmp : K → K → comparison) (key : A → K).

Definition better (best : option A) (x : A) : option A :=
  match best with
  | None => Some x
  | Some b => match cmp (key b) (key x) with Gt => Some b | _ => Some x end
  end.

Lemma better_In best l x :
  foldl better best l = Some x → best = Some x ∨ x ∈ l.
Proof.
  revert best. induction l as [|y l IH]; intros best; cbn; [auto|].
  intros [Hb|Hl]%IH; [|right; by right]. destruct best as [b|]; cbn in Hb.
  - destruct (cmp (key b) (key y)); simplify_eq; first [by left|right; left].
  - simplify_eq. right. left.
Qed.

Lemma max_by_key_In l x : max_by_key cmp key l = Some x → x ∈ l.
Proof. intros [?|?]%better_In; done. Qed.

Lemma max_by_key_None l : max_by_key cmp key l = None → l = [].
Proof.
  destruct l as [|y l]; [done|]. unfold max_by_key. cbn.
  enough (∀ b, foldl better (Some b) l ≠ None) as H by (intros E; by destruct (H y)).
  induction l as [|z l IH]; intros b; cbn; [done|].
  destruct (cmp (key b) (key z)); apply IH.
Qed.
End max_by_key.

Lemma elem_of_all_nodes d n : n ∈ all_nodes d ↔ ∃ id, nodes d !! id = Some n.
Proof.
  unfold all_nodes, btree_entries. rewrite list_elem_of_fmap. split.
  - intros [[id n'] [-> Hin]]. rewrite elem_of_sort_by, elem_of_map_to_list in Hin. by exists id.
  - intros [id Hid]. exists (id, n). split; [done|]. by rewrite elem_of_sort_by, elem_of_map_to_list.
Qed.

Lemma elem_of_open_nodes d now ex n :
  cluster_ok d →
  n ∈ open_nodes d now ex ↔
    nodes d !! as_str (sn_node_id n) = Some n ∧ accepts_new_session_at d n now = true
    ∧ ex ≠ Some (as_str (sn_node_id n)).
Proof.
  intros H. unfold open_nodes. rewrite !list_elem_of_In, !filter_In, <- list_elem_of_In.
  rewrite elem_of_all_nodes, negb_true_iff, bool_decide_eq_false.
  split; [intros [[[id Hid] Ha] Hex]|intros (Hid & Ha & Hex); eauto].
  by destruct (ok_nodes _ H id n Hid) as [<- _].
Qed.

(** A policy admits a worker of its region, or any worker when it may cross regions. *)
Definition admits (policy : SfuPlacementPolicy) (n : SfuNodeDescriptor) : Prop :=
  crosses_region policy n = true → pp_allow_cross_region_failover policy = true.

Lemma preferred_nodes_Ok policy l l' n :
  preferred_nodes policy l = Ok l' → n ∈ l' → n ∈ l ∧ admits policy n.
Proof.
  unfold preferred_nodes, admits, crosses_region.
  destruct (pp_preferred_region policy) as [region|]; [|by intros [= <-]].
  destruct (existsb _ l) eqn:E.
  - intros [= <-]. rewrite list_elem_of_In, filter_In, <- list_elem_of_In.
    intros [Hn ->]. done.
  - destruct (pp_allow_cross_region_failover policy); cbn; [|done]. by intros [= <-].
Qed.

Lemma preferred_nodes_nonempty policy l l' :
  preferred_nodes policy l = Ok l' → l' = [] → l = [].
Proof.
  unfold preferred_nodes. destruct (pp_preferred_region policy) as [region|]; [|by intros [= <-]].
  destruct (existsb _ l) eqn:E.
  - apply existsb_exists in E as (x & Hx & Hr). intros [= <-] Hnil.
    assert (In x (List.filter (in_region region) l)) as Hin by (by apply filter_In).
    by rewrite Hnil in Hin.
  - destruct (pp_allow_cross_region_failover policy); cbn; [|done]. by intros [= <-].
Qed.

Lemma preferred_nodes_Err policy l e n :
  preferred_nodes policy l = Err e → n ∈ l → e = SpeNoHealthyCapacity ∧ ¬ admits policy n.
Proof.
  unfold preferred_nodes, admits, crosses_region.
  destruct (pp_preferred_region policy) as [region|]; [|done].
  destruct (existsb _ l) eqn:E; [done|].
  destruct (pp_allow_cross_region_failover policy); cbn; [done|]. intros [= <-] Hn. split; [done|].
  intros Hno. assert (in_region region n = true) as Hr by (destruct (in_region region n); [done|by destruct Hno]).
  apply not_true_iff_false in E. apply E, existsb_exists. exists n. by rewrite <- list_elem_of_In.
Qed.

Lemma select_Ok d key policy now ex n :
  select_placement_candidate d key policy now ex = Ok n →
  n ∈ open_nodes d now ex ∧ admits policy n.
Proof.
  unfold select_placement_candidate. cbn zeta. destruct (length _ =? 0); [done|]. cbn.
  destruct (preferred_nodes _ _) as [l|] eqn:E; [|done]. cbn.
  destruct (max_by_key _ _ l) as [n'|] eqn:Em; [|done]. intros [= <-].
  apply max_by_key_In in Em. by eapply preferred_nodes_Ok.
Qed.

Lemma select_Err d key policy now ex e :
  select_placement_candidate d key policy now ex = Err e →
  e = SpeNoHealthyCapacity ∧ ∀ n, n ∈ open_nodes d now ex → ¬ admits policy n.
Proof.
  unfold select_placement_candidate. cbn zeta.
  destruct (Nat.eqb_spec (length (open_nodes d now ex)) 0) as [Hl|Hl].
  { intros [= <-]. split; [done|]. apply length_zero_iff_nil in Hl as ->. by intros n ?%elem_of_nil. }
  cbn. destruct (preferred_nodes _ _) as [l|e'] eqn:E; cbn.
  - destruct (max_by_key _ _ l) eqn:Em; [done|]. apply max_by_key_None in Em.
    eapply preferred_nodes_nonempty in E; [|done]. by rewrite E in Hl.
  - intros [= <-]. destruct (open_nodes d now ex) as [|n0 l0] eqn:Eo; [done|].
    split; [by eapply (preferred_nodes_Err _ _ _ n0); [exact E|left]|].
    intros n Hn. by eapply preferred_nodes_Err.
Qed.

(** * Placing a call *)

Lemma accepts_room d n now :
  accepts_new_session_at d n now = true →
  is_live_at n now = true ∧ sn_state n = SnHealthy
  ∧ (effective_sessions d n < sn_max_sessions n)%Z.
Proof. unfold accepts_new_session_at. rewrite !andb_true_iff, bool_decide_eq_true, !Z.ltb_lt. tauto. Qed.

Lemma open_room d now ex n :
  cluster_ok d → n ∈ open_nodes d now ex →
  (reserved_sessions d (as_str (sn_node_id n)) < u32_max)%Z.
Proof.
  intros H [Hn [(_ & _ & Hroom)%accepts_room _]]%elem_of_open_nodes; [|done].
  destruct (ok_nodes _ H _ _ Hn) as (_ & [[? _] [_ ?]] & _).
  unfold effective_sessions in Hroom. lia.
Qed.

Definition fresh_decision (policy : SfuPlacementPolicy) (n : SfuNodeDescriptor) :
    SfuPlacementDecision :=
  mk_decision (sn_node_id n) false (crosses_region policy n).

Lemma migrate_eq d key old policy now :
  cluster_ok d → placements d !! key = Some old →
  migrate_session_placement key old policy now d =
  match select_placement_candidate d key policy now (Some old) with
  | Ok n => (moved key old (as_str (sn_node_id n)) d, Ok (Some (fresh_decision policy n)))
  | Err _ => (d, Ok None)
  end.
Proof.
  intros H Hkey. unfold migrate_session_placement, mbind, op_bind, get.
  destruct (select_placement_candidate _ _ _ _ _) as [n|e] eqn:E.
  - apply select_Ok in E as [Hn _]. rewrite reserve_session_eq by (by eapply open_room).
    cbn beta iota. unfold or_undo. rewrite release_reservation_eq; [done|].
    unfold reserved_sessions at 1. cbn [set_reservations reservations].
    rewrite reserved_after. pose proof (placed_reserved _ _ _ H Hkey). lia.
  - apply select_Err in E as [-> _]. done.
Qed.

Lemma migrate_or_eq d key old policy now otherwise :
  cluster_ok d → placements d !! key = Some old →
  migrate_or key old policy now otherwise d =
  match select_placement_candidate d key policy now (Some old) with
  | Ok n => (moved key old (as_str (sn_node_id n)) d, Ok (fresh_decision policy n))
  | Err _ => (d, otherwise)
  end.
Proof.
  intros H Hkey. unfold migrate_or, mbind, op_bind. rewrite migrate_eq by done.
  by destruct (select_placement_candidate _ _ _ _ _).
Qed.

(** Every outcome of [place_session]. *)
Inductive placing (d : SfuClusterDirectory) (key : bytes) (policy : SfuPlacementPolicy) (now : Z) :
    SfuClusterDirectory → result SfuPlacementError SfuPlacementDecision → Prop :=
  | placing_kept n old :
      placements d !! key = Some old → nodes d !! old = Some n →
      is_live_at n now = true → admits policy n →
      (sn_state n = SnHealthy ∨ ∀ n', n' ∈ open_nodes d now (Some old) → ¬ admits policy n') →
      placing d key policy now d (Ok (retained policy n))
  | placing_moved n old :
      placements d !! key = Some old → n ∈ open_nodes d now (Some old) → admits policy n →
      placing d key policy now (moved key old (as_str (sn_node_id n)) d)
        (Ok (fresh_decision policy n))
  | placing_taken n :
      placements d !! key = None → n ∈ open_nodes d now None → admits policy n →
      placing d key policy now (taken key (as_str (sn_node_id n)) d)
        (Ok (fresh_decision policy n))
  | placing_refused :
      (∀ n, n ∈ open_nodes d now (placements d !! key) → ¬ admits policy n) →
      placing d key policy now d (Err SpeNoHealthyCapacity).

Lemma keeps_current_true policy now state n :
  keeps_current policy now state n = true →
  is_live_at n now = true ∧ sn_state n = state ∧ admits policy n.
Proof.
  unfold keeps_current, admits. rewrite !andb_true_iff, bool_decide_eq_true, orb_true_iff.
  intros [[[? ?] _] Hp]. split_and!; [done..|]. intros Hc. rewrite Hc in Hp. by destruct Hp.
Qed.

Lemma migrate_or_placing d key old policy now otherwise :
  cluster_ok d → placements d !! key = Some old →
  ((∀ n, n ∈ open_nodes d now (Some old) → ¬ admits policy n) →
   placing d key policy now d otherwise) →
  wp (migrate_or key old policy now otherwise) d (placing d key policy now).
Proof.
  intros H Hkey Hother. unfold wp. rewrite migrate_or_eq by done.
  destruct (select_placement_candidate _ _ _ _ _) as [n|e] eqn:E; cbn.
  - apply select_Ok in E as [??]. by econstructor.
  - apply select_Err in E as [_ ?]. auto.
Qed.

Lemma place_session_wp d scope call_id policy now :
  cluster_ok d →
  wp (place_session scope call_id policy now) d
    (placing d (placement_key scope call_id) policy now).
Proof.
  intros H. unfold place_session. cbv zeta. set (key := placement_key scope call_id).
  apply wp_get. destruct (placements d !! key) as [old|] eqn:Hkey.
  - assert ((∀ n, n ∈ open_nodes d now (Some old) → ¬ admits policy n) →
      placing d key policy now d (Err SpeNoHealthyCapacity)) as Hrefuse
      by (intros ?; apply placing_refused; by rewrite Hkey).
    destruct (nodes d !! old) as [n|] eqn:Hn; [|by apply migrate_or_placing].
    destruct (keeps_current policy now SnHealthy n) eqn:Eh;
      [|destruct (keeps_current policy now SnDraining n) eqn:Ed]; [| |by apply migrate_or_placing].
    + apply keeps_current_true in Eh as (? & ? & ?). apply wp_ret. eapply placing_kept; eauto.
    + apply keeps_current_true in Ed as (? & ? & ?). apply migrate_or_placing; [done..|].
      intros. eapply placing_kept; eauto.
  - apply wp_lift.
    + intros n [Hn Ha]%select_Ok. apply wp_bind. unfold wp at 1.
      rewrite reserve_session_eq by (by eapply open_room). cbn beta iota.
      apply wp_get, wp_put, wp_ret. by apply (placing_taken d key).
    + intros e [-> Hno]%select_Err. apply placing_refused. by rewrite Hkey.
Qed.

Lemma release_session_if_present_eq d scope call_id :
  cluster_ok d →
  release_session_if_present scope call_id d =
  match placements d !! placement_key scope call_id with
  | None => (d, Ok false)
  | Some old => (vacated (placement_key scope call_id) old d, Ok true)
  end.
Proof.
  intros H. unfold release_session_if_present, mbind, op_bind, get. cbv zeta.
  destruct (placements d !! placement_key scope call_id) as [old|] eqn:Hkey; [|done].
  destruct (ok_placed _ H _ _ Hkey) as [n Hn]. unfold guard, lift. cbn [reject_if].
  rewrite bool_decide_eq_false_2 by congruence. cbn [reject_if].
  rewrite release_reservation_eq by (by eapply placed_reserved). done.
Qed.

(** * Workers come and go *)

Lemma upsert_node_wp d n :
  cluster_ok d → node_typed n →
  wp (upsert_node n) d (λ d' r,
    cluster_ok d' ∧ match r with
                    | Ok _ => is_Some (nodes d' !! as_str (sn_node_id n))
                    | Err _ => d' = d
                    end).
Proof.
  intros H Ht. unfold upsert_node. apply wp_get, wp_guard; [|by intros _].
  rewrite !orb_false_iff, Z.ltb_ge. intros [[[_ Hle] _] Hroom]. cbv zeta. apply wp_put_end.
  cbn. split; [|by rewrite lookup_insert_eq]. destruct H. split; cbn; [|done|done| | |].
  - by apply map_Forall_insert_2.
  - intros k id Hid. apply lookup_insert_is_Some'. eauto.
  - intros id e [_ He]%lookup_delete_Some. apply lookup_insert_is_Some'. eauto.
  - rewrite andb_false_iff, bool_decide_eq_false, Nat.leb_gt in Hroom.
    destruct (nodes d !! as_str (sn_node_id n)) eqn:E.
    + rewrite map_size_insert_Some by (by rewrite E). done.
    + rewrite map_size_insert_None by done. destruct Hroom as [|Hlt]; [done|lia].
Qed.

Lemma upsert_node_with_endpoint_wp d n e :
  cluster_ok d → node_typed n →
  wp (upsert_node_with_endpoint n e) d (λ d' _, cluster_ok d').
Proof.
  intros H Ht. unfold upsert_node_with_endpoint. apply wp_lift; [|by intros].
  intros _ _. apply wp_bind. eapply wp_mono, upsert_node_wp; [|done..].
  intros d' [[]|] [H' Hr]; [|by subst]. apply wp_get, wp_put_end.
  destruct H'. split; cbn; try done. by apply map_Forall_insert_2.
Qed.

(** Workers outside [keep] are forgotten with everything that refers to them. *)
Lemma drop_ok (keep : bytes → bool) d d' :
  cluster_ok d →
  (∀ id, nodes d' !! id = if keep id then nodes d !! id else None) →
  (∀ id, endpoints d' !! id = if keep id then endpoints d !! id else None) →
  (∀ id, reservations d' !! id = if keep id then reservations d !! id else None) →
  placements d' = filter (λ e, Is_true (keep e.2)) (placements d) →
  cluster_ok d'.
Proof.
  intros [] Hn He Hr Hp. split.
  - intros id n. rewrite Hn. destruct (keep id); [apply ok_nodes0|done].
  - intros id. unfold reserved_sessions in *. rewrite Hr, Hp, placed_on_retain.
    by destruct (keep id).
  - intros id r. rewrite Hr. destruct (keep id); [apply ok_positive0|done].
  - intros k id. rewrite Hp, Hn. intros [Hid Hk]%map_lookup_filter_Some. cbn in Hk.
    destruct (keep id); [by eapply ok_placed0|done].
  - intros id e. rewrite He, Hn. destruct (keep id); [apply ok_endpoints0|done].
  - etrans; [apply map_subseteq_size|exact ok_size0]. apply map_subseteq_spec.
    intros id n. rewrite Hn. by destruct (keep id).
Qed.

Lemma remove_node_ok d id : cluster_ok d → cluster_ok (remove_node id d).
Proof.
  intros H. eapply (drop_ok (λ a, negb (bool_decide (a = as_str id)))); [exact H|..|done];
    intros a; cbn; (case_bool_decide as E; [subst; by rewrite lookup_delete_eq|
      by rewrite lookup_delete_ne]).
Qed.

Lemma forget_nodes_lookup ids d :
  let d' := foldl (λ d id, forget_node id d) d ids in
  let keep a := negb (existsb (λ id, bool_decide (id = a)) ids) in
  placements d' = placements d
  ∧ (∀ a, nodes d' !! a = if keep a then nodes d !! a else None)
  ∧ (∀ a, endpoints d' !! a = if keep a then endpoints d !! a else None)
  ∧ (∀ a, reservations d' !! a = if keep a then reservations d !! a else None).
Proof.
  cbv zeta. revert d. induction ids as [|id ids IH]; intros d; cbn; [done|].
  destruct (IH (forget_node id d)) as (-> & Hn & He & Hr). split; [done|].
  split_and!; intros a; rewrite ?Hn, ?He, ?Hr; cbn; case_bool_decide as E; cbn; try subst;
    rewrite ?lookup_delete_eq, ?lookup_delete_ne by done; try done;
    by destruct (negb _).
Qed.

Lemma prune_expired_nodes_ok d now : cluster_ok d → cluster_ok (prune_expired_nodes now d).1.
Proof.
  intros H. unfold prune_expired_nodes. cbv zeta. case_bool_decide; [done|]. cbn [fst].
  pose proof (forget_nodes_lookup (expired_nodes d now) d) as (Hp & Hn & He & Hr).
  eapply drop_ok; [exact H|exact Hn|exact He|exact Hr|]. cbn. by rewrite Hp.
Qed.

Lemma mark_draining_ok d id : cluster_ok d → cluster_ok (mark_draining id d).1.
Proof.
  intros H. change (wp (mark_draining id) d (λ d' _, cluster_ok d')).
  unfold mark_draining. wp_steps; [|done]. destruct (ok_nodes _ H _ _ ltac:(eassumption)) as (? & ? & ?).
  destruct H. split; cbn; try done.
  - by apply map_Forall_insert_2.
  - intros k x Hx. apply lookup_insert_is_Some'. eauto.
  - intros x e Hx. apply lookup_insert_is_Some'. eauto.
  - rewrite map_size_insert_Some by (by eexists). done.
Qed.

Lemma placing_ok d key policy now d' r :
  cluster_ok d → placing d key policy now d' r → cluster_ok d'.
Proof.
  intros H [n old|n old Hk Hn|n Hk Hn|]; [done| | |done];
    apply elem_of_open_nodes in Hn as (? & _ & ?); try done.
  - apply moved_ok; [done..|congruence|by eexists].
  - apply taken_ok; [done..|by eexists].
Qed.

Lemma release_session_if_present_ok d scope call_id :
  cluster_ok d → cluster_ok (release_session_if_present scope call_id d).1.
Proof.
  intros H. rewrite release_session_if_present_eq by done.
  destruct (placements d !! _) eqn:E; [by apply vacated_ok|done].
Qed.

Lemma release_session_state scope call_id d :
  (release_session scope call_id d).1 = (release_session_if_present scope call_id d).1.
Proof.
  unfold release_session, mbind, op_bind.
  by destruct (release_session_if_present scope call_id d) as [d' [b|e]].
Qed.

Lemma exec_directory_ok c d :
  cluster_ok d → directory_call_typed c → cluster_ok (exec_directory c d).
Proof.
  intros H Ht. destruct c; cbn in *.
  - apply (upsert_node_wp d node H Ht).
  - apply (upsert_node_with_endpoint_wp d node endpoint H Ht).
  - by apply prune_expired_nodes_ok.
  - by apply remove_node_ok.
  - by apply mark_draining_ok.
  - eapply placing_ok; [done|]. apply (place_session_wp d scope call_id policy now H).
  - rewrite release_session_state. by apply release_session_if_present_ok.
  - by apply release_session_if_present_ok.
Qed.

Lemma run_directory_ok history :
  Forall directory_call_typed history → cluster_ok (run_directory history).
Proof.
  unfold run_directory. induction history as [|c h IH] using rev_ind; [intros; apply empty_cluster_ok|].
  intros [Hh [Hc _]%Forall_cons]%Forall_app. rewrite foldl_app. cbn.
  apply exec_directory_ok; auto.
Qed.

(** * Rendezvous: the choice depends on the candidates alone *)

Section rendezvous.
Context {A K : Type} (cmp : K → K → comparison) (key : A → K) `{!TotalCmp cmp}.
Abbreviation max := (max_by_key cmp key).

(** The maximum is the last element that nothing before it exceeds. *)
Definition maximal_at (l1 : list A) (x : A) (l2 : list A) : Prop :=
  Forall (λ y, cmp (key y) (key x) ≠ Gt) l1 ∧ Forall (λ y, cmp (key x) (key y) = Gt) l2.

Lemma max_split l x :
  max l = Some x → ∃ l1 l2, l = l1 ++ x :: l2 ∧ maximal_at l1 x l2.
Proof.
  revert x. induction l as [|z l IH] using rev_ind; intros x; [done|].
  unfold max_by_key. rewrite foldl_app. cbn. change (foldl _ None l) with (max l).
  destruct (max l) as [b|] eqn:Eb.
  - destruct (IH b eq_refl) as (l1 & l2 & -> & H1 & H2).
    destruct (cmp (key b) (key z)) eqn:E; intros [= <-].
    1,2: exists (l1 ++ b :: l2), []; split; [done|]; split; [|done];
      assert (∀ y, cmp (key y) (key b) ≠ Gt → cmp (key y) (key z) ≠ Gt) as Hle
        by (intros y Hy; eapply (key_le_trans key cmp y b z Hy); unfold key_le, key_cmp; congruence);
      apply Forall_app; split; [by eapply Forall_impl|];
      constructor; [congruence|]; eapply Forall_impl; [exact H2|]; intros y Hy; apply Hle;
      rewrite cmp_opp, Hy; done.
    exists l1, (l2 ++ [z]). rewrite <- app_assoc. split; [done|]. split; [done|].
    apply Forall_app. auto.
  - apply max_by_key_None in Eb as ->. intros [= <-]. exists [], []. by repeat constructor.
Qed.

Lemma max_join l1 x l2 : maximal_at l1 x l2 → max (l1 ++ x :: l2) = Some x.
Proof.
  intros [H1 H2]. unfold max_by_key. rewrite foldl_app. cbn.
  change (foldl _ None l1) with (max l1).
  assert (match max l1 with
          | Some b => match cmp (key b) (key x) with Gt => Some b | _ => Some x end
          | None => Some x end = Some x) as ->.
  { destruct (max l1) as [b|] eqn:Eb; [|done]. apply max_by_key_In in Eb.
    rewrite Forall_forall in H1. specialize (H1 b Eb). by destruct (cmp (key b) (key x)). }
  induction H2 as [|y l2 Hy _ IH]; cbn; [done|]. by rewrite Hy.
Qed.

Lemma max_filter (f : A → bool) l x :
  max l = Some x → f x = true → max (List.filter f l) = Some x.
Proof.
  intros (l1 & l2 & -> & H1 & H2)%max_split Hf.
  rewrite List.filter_app. cbn. rewrite Hf. apply max_join.
  split; apply Forall_forall; intros y; rewrite list_elem_of_In, filter_In, <- list_elem_of_In;
    intros [Hy _]; by eapply Forall_forall in Hy; [|done].
Qed.
End rendezvous.

Lemma filter_filter_comm {A} (f g : A → bool) l :
  List.filter f (List.filter g l) = List.filter g (List.filter f l).
Proof.
  induction l as [|x l IH]; cbn; [done|].
  destruct (f x) eqn:Ef, (g x) eqn:Eg; cbn; rewrite ?Ef, ?Eg, IH; done.
Qed.

Lemma filter_ext_elem {A} (f g : A → bool) l :
  (∀ x, x ∈ l → f x = g x) → List.filter f l = List.filter g l.
Proof. intros H. apply filter_ext_in. intros x Hx. apply H. by rewrite list_elem_of_In. Qed.

Lemma btree_entries_sorted {V} (m : gmap bytes V) : strict_sorted fst bytes_cmp (btree_entries m).
Proof. apply sort_by_NoDup; [apply _..|apply NoDup_fst_map_to_list]. Qed.

Lemma btree_entries_delete {V} (k : bytes) (m : gmap bytes V) :
  btree_entries (delete k m)
  = List.filter (λ e, negb (bool_decide (e.1 = k))) (btree_entries m).
Proof.
  eapply (strict_sorted_unique fst bytes_cmp); [apply btree_entries_sorted| |].
  - pose proof (btree_entries_sorted m) as Hs. unfold strict_sorted in *.
    induction Hs as [|e l Hl IH He]; cbn; [constructor|].
    destruct (negb _); [|done]. constructor; [done|].
    rewrite Forall_forall in *. intros x. rewrite list_elem_of_In, filter_In, <- list_elem_of_In.
    intros [Hx _]. auto.
  - unfold btree_entries. rewrite !sort_by_perm.
    apply NoDup_Permutation; [apply NoDup_map_to_list|apply NoDup_filter_b|].
    { rewrite sort_by_perm. apply NoDup_map_to_list. }
    intros [k' v]. rewrite elem_of_map_to_list, lookup_delete_Some, list_elem_of_In, filter_In,
      <- list_elem_of_In, elem_of_sort_by, elem_of_map_to_list, negb_true_iff,
      bool_decide_eq_false. cbn. naive_solver.
Qed.

Section removal.
Variables (d : SfuClusterDirectory) (other : OpaqueId).
Hypothesis Hd : cluster_ok d.

Definition not_other (n : SfuNodeDescriptor) : bool := negb (bool_decide (sn_node_id n = other)).

Lemma all_nodes_remove : all_nodes (remove_node other d) = List.filter not_other (all_nodes d).
Proof.
  unfold all_nodes. cbn. rewrite btree_entries_delete.
  assert (Forall (λ e, as_str (sn_node_id e.2) = e.1) (btree_entries (nodes d))) as Hk.
  { apply Forall_forall. intros [k n] Hin. unfold btree_entries in Hin.
    rewrite elem_of_sort_by, elem_of_map_to_list in Hin. apply (ok_nodes _ Hd k n Hin). }
  induction Hk as [|[k n] l Hk _ IH]; cbn in *; [done|].
  unfold not_other at 1. rewrite (bool_decide_ext (k = as_str other) (sn_node_id n = other)).
  - destruct (negb _); cbn; by rewrite IH.
  - subst k. split; [apply (inj as_wire_bytes)|by intros ->].
Qed.

Lemma open_nodes_remove now ex :
  open_nodes (remove_node other d) now ex = List.filter not_other (open_nodes d now ex).
Proof.
  unfold open_nodes. rewrite all_nodes_remove.
  rewrite (filter_filter_comm not_other). f_equal. rewrite (filter_filter_comm not_other).
  apply filter_ext_elem. intros n. rewrite list_elem_of_In, filter_In. intros [_ Hn].
  unfold not_other in Hn. apply negb_true_iff, bool_decide_eq_false in Hn.
  unfold accepts_new_session_at, effective_sessions, reserved_sessions. cbn.
  rewrite lookup_delete_ne; [done|]. intros ->%(inj as_wire_bytes). done.
Qed.

Lemma preferred_nodes_remove policy l l' n :
  preferred_nodes policy l = Ok l' → n ∈ l' → not_other n = true →
  preferred_nodes policy (List.filter not_other l) = Ok (List.filter not_other l').
Proof.
  unfold preferred_nodes. destruct (pp_preferred_region policy) as [region|]; [|by intros [= <-]].
  destruct (existsb _ l) eqn:E.
  - intros [= <-] Hn Hno. rewrite list_elem_of_In, filter_In in Hn. destruct Hn as [Hn Hr].
    rewrite (proj2 (existsb_exists _ _)).
    + by rewrite filter_filter_comm.
    + exists n. rewrite filter_In. auto.
  - destruct (pp_allow_cross_region_failover policy); cbn; [|done]. intros [= <-] Hn Hno.
    destruct (existsb _ (List.filter _ _)) eqn:E'; [|done].
    apply existsb_exists in E' as (x & [Hx _]%filter_In & Hr).
    apply not_true_iff_false in E. destruct E. apply existsb_exists. eauto.
Qed.

Lemma select_remove key policy now ex n :
  select_placement_candidate d key policy now ex = Ok n → sn_node_id n ≠ other →
  select_placement_candidate (remove_node other d) key policy now ex = Ok n.
Proof.
  intros Hs Hne. assert (not_other n = true) as Hno
    by (unfold not_other; by rewrite bool_decide_eq_false_2).
  pose proof (select_Ok _ _ _ _ _ _ Hs) as [Hin _]. revert Hs.
  unfold select_placement_candidate. cbv zeta. rewrite open_nodes_remove.
  assert (In n (List.filter not_other (open_nodes d now ex))) as Hin'
    by (rewrite filter_In, <- list_elem_of_In; done).
  destruct (length (open_nodes d now ex) =? 0); [done|].
  destruct (Nat.eqb_spec (length (List.filter not_other (open_nodes d now ex))) 0) as [Hl|_].
  { apply length_zero_iff_nil in Hl. by rewrite Hl in Hin'. }
  cbn. destruct (preferred_nodes policy _) as [l|] eqn:E; [|done]. cbn.
  destruct (max_by_key _ _ l) as [n'|] eqn:Em; [|done]. intros [= ->].
  erewrite preferred_nodes_remove; [|exact E|by eapply max_by_key_In|done]. cbn.
  by rewrite (max_filter Z.compare _ _ _ _ Em Hno).
Qed.
End removal.

(** * The directory's promises *)

(** C17: In every history of a directory the books are exact: the sessions reserved on a worker
    are the calls placed on it, a call is placed on a registered worker only, an endpoint
    belongs to a registered worker, and at most 256 workers are registered.  Therefore
    releasing a call always succeeds: it reports whether the call was placed, and the call is
    placed no more; the accounting error of the code is never met. *)
Theorem sfu_reservations_are_exact history scope call_id :
  Forall directory_call_typed history →
  let d := run_directory history in
  let key := placement_key scope call_id in
  (∀ id, reserved_sessions d id = Z.of_nat (placed_on (placements d) id))
  ∧ (∀ k id, placements d !! k = Some id → is_Some (nodes d !! id))
  ∧ (∀ id, is_Some (endpoints d !! id) → is_Some (nodes d !! id))
  ∧ size (nodes d) ≤ MAX_SFU_CLUSTER_NODES
  ∧ (release_session_if_present scope call_id d).2
    = Ok (bool_decide (is_Some (placements d !! key)))
  ∧ placements (release_session_if_present scope call_id d).1 !! key = None.
Proof.
  intros H%run_directory_ok. cbv zeta. set (d := run_directory history) in *.
  split_and!; [apply H|apply H| |apply H| |].
  - intros id [e He]. by eapply (ok_endpoints _ H).
  - rewrite release_session_if_present_eq by done.
    by destruct (placements d !! _).
  - rewrite release_session_if_present_eq by done.
    destruct (placements d !! _) eqn:E; cbn; [apply lookup_delete_eq|done].
Qed.

Definition keeps_the_rest (key : bytes) (d d' : SfuClusterDirectory) : Prop :=
  nodes d' = nodes d ∧ endpoints d' = endpoints d
  ∧ ∀ k, k ≠ key → placements d' !! k = placements d !! k.

(** A decision the directory may take: the worker is registered, its lease is running, the
    policy admits it, and the call is placed on it.  A worker chosen anew is healthy, had room,
    and is within its capacity with the call counted; a worker kept is one the call already
    had, left unhealthy only when no admitted worker has room. *)
Definition admissible_decision (d d' : SfuClusterDirectory) (key : bytes)
    (policy : SfuPlacementPolicy) (now : Z) (decision : SfuPlacementDecision) : Prop :=
  let id := as_str (pd_node_id decision) in
  ∃ n, nodes d !! id = Some n ∧ is_live_at n now = true ∧ admits policy n
    ∧ pd_crossed_region decision = crosses_region policy n
    ∧ placements d' !! key = Some id
    ∧ if pd_retained_sticky_placement decision
      then d' = d ∧ (sn_state n = SnHealthy
                     ∨ ∀ n', n' ∈ open_nodes d now (Some id) → ¬ admits policy n')
      else sn_state n = SnHealthy ∧ placements d !! key ≠ Some id
           ∧ (effective_sessions d n < sn_max_sessions n)%Z
           ∧ effective_sessions d' n = (effective_sessions d n + 1)%Z
           ∧ keeps_the_rest key d d'.

Lemma placed_anew d d' key policy now n :
  cluster_ok d → n ∈ open_nodes d now (placements d !! key) → admits policy n →
  placements d' = <[key := as_str (sn_node_id n)]> (placements d) →
  reserved_sessions d' (as_str (sn_node_id n))
  = (reserved_sessions d (as_str (sn_node_id n)) + 1)%Z →
  nodes d' = nodes d → endpoints d' = endpoints d →
  admissible_decision d d' key policy now (fresh_decision policy n).
Proof.
  intros H (Hid & (Hl & Hs & Hroom)%accepts_room & Hne)%elem_of_open_nodes Ha Hp Hr Hnodes He;
    [|done].
  exists n. cbn. split_and!; try done.
  - by rewrite Hp, lookup_insert_eq.
  - unfold effective_sessions. rewrite Hr. lia.
  - split_and!; [done..|]. intros k Hk. rewrite Hp. by apply lookup_insert_ne.
Qed.

(** C33: Placing a call either takes an admissible decision or changes nothing.  An error means
    that no worker with room, other than the one the call already has, is admitted by the
    policy. *)
Theorem sfu_placement_is_admissible history scope call_id policy now :
  Forall directory_call_typed history →
  let d := run_directory history in
  let key := placement_key scope call_id in
  match place_session scope call_id policy now d with
  | (d', Ok decision) => admissible_decision d d' key policy now decision
  | (d', Err e) =>
      d' = d ∧ e = SpeNoHealthyCapacity
      ∧ ∀ n, n ∈ open_nodes d now (placements d !! key) → ¬ admits policy n
  end.
Proof.
  intros H%run_directory_ok. cbv zeta. set (d := run_directory history) in *.
  pose proof (place_session_wp d scope call_id policy now H) as Hp. unfold wp in Hp.
  destruct (place_session scope call_id policy now d) as [d' r]. cbn in Hp.
  destruct Hp as [n old Hk Hn Hl Ha Hs|n old Hk Hn Ha|n Hk Hn Ha|Hno]; [| | |done].
  - destruct (ok_nodes _ H _ _ Hn) as [Hid _]. exists n. cbn. rewrite Hid. done.
  - pose proof Hn as (_ & _ & Hne)%elem_of_open_nodes; [|done].
    apply placed_anew; [done|by rewrite Hk|done..| |done|done]. unfold reserved_sessions at 1. cbn.
    rewrite released_lookup, reserved_after. unfold one_if.
    rewrite decide_True by done. rewrite decide_False by congruence. lia.
  - apply placed_anew; [done|by rewrite Hk|done..| |done|done]. unfold reserved_sessions at 1. cbn.
    by rewrite lookup_insert_eq.
Qed.

(** C34: A worker that leaves moves only its own calls.  The placements on other workers stay,
    and a call that is not placed yet is placed where it would have been placed before, unless
    that was the worker that left. *)
Theorem sfu_departure_moves_only_its_calls history other scope call_id policy now :
  Forall directory_call_typed history →
  let d := run_directory history in
  let d' := remove_node other d in
  (∀ k id, placements d' !! k = Some id ↔ placements d !! k = Some id ∧ id ≠ as_str other)
  ∧ ∀ decision,
      placements d !! placement_key scope call_id = None →
      (place_session scope call_id policy now d).2 = Ok decision → pd_node_id decision ≠ other →
      (place_session scope call_id policy now d').2 = Ok decision.
Proof.
  intros H%run_directory_ok. cbv zeta. set (d := run_directory history) in *. split.
  - intros k id. cbn. rewrite map_lookup_filter_Some, negb_True, Is_true_true, bool_decide_eq_true.
    done.
  - intros decision Hk. unfold place_session. cbv zeta. unfold mbind, op_bind, get.
    assert (placements (remove_node other d) !! placement_key scope call_id = None) as Hk'
      by (cbn; apply map_lookup_filter_None; by left).
    rewrite Hk, Hk'. unfold lift.
    destruct (select_placement_candidate d _ _ _ _) as [n|] eqn:Es; [|done].
    pose proof (select_Ok _ _ _ _ _ _ Es) as [Hn _].
    rewrite reserve_session_eq by (by eapply open_room). cbn. intros [= <-]. cbn. intros Hne.
    pose proof (select_remove d other H _ _ _ _ _ Es Hne) as Es'. rewrite Es'.
    pose proof (select_Ok _ _ _ _ _ _ Es') as [Hn' _].
    rewrite reserve_session_eq by (by eapply open_room; [apply remove_node_ok|]). done.
Qed.

(** * Placement keys *)

Definition nul_free (id : OpaqueId) : Prop := 0%Z ∉ as_wire_bytes id.
Definition scope_nul_free (scope : TenantScope) : Prop :=
  nul_free (tenant_id scope) ∧ from_option nul_free True (namespace_id scope).

Lemma split_at_nul (x y r s : bytes) :
  0%Z ∉ x → 0%Z ∉ y → x ++ 0%Z :: r = y ++ 0%Z :: s → x = y ∧ r = s.
Proof.
  revert y. induction x as [|a x IH]; intros [|b y] Hx Hy; cbn; intros [= ]; subst; [done|..];
    rewrite not_elem_of_cons in *; naive_solver.
Qed.

Lemma namespace_bytes_inj (n m : option NamespaceId) :
  match n with Some id => as_wire_bytes id | None => [] end
  = match m with Some id => as_wire_bytes id | None => [] end → n = m.
Proof.
  destruct n as [n|], m as [m|]; [| | |done]; intros E.
  - f_equal. by apply (inj as_wire_bytes).
  - by destruct (opaque_id_bounds n) as [? _].
  - by destruct (opaque_id_bounds m) as [? _].
Qed.

Lemma namespace_nul_free (n : option NamespaceId) :
  from_option nul_free True n →
  0%Z ∉ match n with Some id => as_wire_bytes id | None => [] end.
Proof. destruct n; [done|]. intros _. apply not_elem_of_nil. Qed.

Lemma placement_key_inj s c s' c' :
  scope_nul_free s → scope_nul_free s' →
  placement_key s c = placement_key s' c' → s = s' ∧ c = c'.
Proof.
  intros [Ht Hn] [Ht' Hn']. unfold placement_key. intros [Et E]%split_at_nul; [|done..].
  apply split_at_nul in E as [En Ec]; [|by apply namespace_nul_free..].
  apply (inj as_wire_bytes) in Et, Ec. apply namespace_bytes_inj in En.
  destruct s, s'; cbn in *. by subst.
Qed.

(** A worker of two sessions, and identifiers with two NUL bytes. *)
Definition worker : SfuNodeDescriptor := mk_sfu_node (oid "sfu-1") (str "eu") SnHealthy 0 2 100.
Definition any_policy : SfuPlacementPolicy := mk_placement_policy None true.
Definition nul_id (s t : string) : OpaqueId :=
  match opaque_id_new (str s ++ [0%Z; 0%Z] ++ str t) with Ok id => id | Err _ => fallback_id end.

(** C39: The calls of two scopes share a placement key only when a tenant or namespace
    identifier holds a NUL byte, and identifiers may hold one: such a call of another tenant
    is given the sticky placement of the first without a reservation of its own, and releasing
    it takes the placement of the first away. *)
Theorem placement_keys_collide_across_tenants :
  (∀ s c s' c', scope_nul_free s → scope_nul_free s' →
     placement_key s c = placement_key s' c' → s = s' ∧ c = c')
  ∧ ∃ s c s' c',
      tenant_id s ≠ tenant_id s'
      ∧ let d := run_directory [DcUpsert worker; DcPlace s c any_policy 1] in
        placements d !! placement_key s c = Some (as_str (sn_node_id worker))
        ∧ place_session s' c' any_policy 1 d = (d, Ok (retained any_policy worker))
        ∧ let '(d', r) := release_session s' c' d in
          r = Ok tt ∧ placements d' !! placement_key s c = None
          ∧ reserved_sessions d' (as_str (sn_node_id worker)) = 0%Z.
Proof.
  split; [apply placement_key_inj|].
  exists (mk_scope (oid "a") None), (nul_id "b" "c"), (mk_scope (nul_id "a" "b") None), (oid "c").
  split; [by vm_compute|]. split_and!; vm_compute; done.
Qed.

(** * Witnesses *)

Definition hotel : TenantScope := mk_scope (oid "hotel") None.
Definition second_worker : SfuNodeDescriptor :=
  mk_sfu_node (oid "sfu-2") (str "us") SnHealthy 1 2 100.
Definition hotel_history : list directory_call :=
  [DcUpsert worker; DcUpsert second_worker; DcPlace hotel (oid "call-1") any_policy 1].

Lemma hotel_typed : Forall directory_call_typed hotel_history.
Proof. repeat constructor; vm_compute; congruence. Qed.

Lemma sfu_reservations_are_exact_witness :
  let d := run_directory hotel_history in
  size (placements d) = 1
  ∧ placements (release_session_if_present hotel (oid "call-1") d).1
      !! placement_key hotel (oid "call-1") = None.
Proof.
  split; [by vm_compute|].
  apply (sfu_reservations_are_exact hotel_history hotel (oid "call-1") hotel_typed).
Defined.

Lemma sfu_placement_is_admissible_witness :
  let d := run_directory hotel_history in
  ∃ d' decision, place_session hotel (oid "call-2") any_policy 2 d = (d', Ok decision)
    ∧ pd_retained_sticky_placement decision = false
    ∧ admissible_decision d d' (placement_key hotel (oid "call-2")) any_policy 2 decision.
Proof.
  pose proof (sfu_placement_is_admissible hotel_history hotel (oid "call-2") any_policy 2
    hotel_typed) as H.
  cbv zeta in *. set (p := place_session _ _ _ _ _) in *.
  exists p.1, (mk_decision (oid "sfu-1") false false).
  assert (p.2 = Ok (mk_decision (oid "sfu-1") false false)) as Hp by (vm_compute; reflexivity).
  destruct p as [d' r]. cbn in *. subst r. auto.
Defined.

Lemma sfu_departure_moves_only_its_calls_witness :
  (place_session hotel (oid "call-2") any_policy 2
     (remove_node (oid "sfu-2") (run_directory hotel_history))).2
  = Ok (mk_decision (oid "sfu-1") false false).
Proof.
  apply (sfu_departure_moves_only_its_calls hotel_history (oid "sfu-2") hotel (oid "call-2")
    any_policy 2 hotel_typed); vm_compute; congruence.
Defined.
