(* ===== verification/Video.v ===== *)
(** Video profiles and frames (crates/ucr-model/src/video.rs, crates/ucr-protocol/src/video.rs). *)

From S2P Require Import Prelude Ids Extension Message StoreForward Capability.

Definition VIDEO_MEDIA_CAPABILITY : bytes := str "ucr.media.video".
Definition H264_VIDEO_CODEC_CAPABILITY : bytes := str "ucr.media.video.h264".
Definition SCREEN_SHARE_VIDEO_CAPABILITY : bytes := str "ucr.media.video.screen_share".
Definition MAX_VIDEO_WIDTH : Z := 1920.
Definition MAX_VIDEO_HEIGHT : Z := 1080.
Definition MAX_VIDEO_FRAME_RATE : Z := 60.
Definition H264_LEVEL_4_0_MAX_FRAME_MACROBLOCKS : Z := 8192.
Definition H264_LEVEL_4_0_MAX_MACROBLOCKS_PER_SECOND : Z := 245760.
Definition H264_LEVEL_4_0_MAX_DPB_MACROBLOCKS : Z := 32768.
Definition H264_MAX_REFERENCE_FRAMES : Z := 16.
Definition MIN_VIDEO_BITRATE_BPS : Z := 64000.
Definition MAX_VIDEO_BITRATE_BPS : Z := 20000000.
Definition MAX_ENCODED_VIDEO_FRAME_BYTES : Z := 2 * 1024 * 1024.

Inductive VideoProtocolError :=
  VpInvalidCapability | VpUnsupportedCodec | VpInvalidDimensions | VpUnsupportedFrameRate
| VpUnsupportedBitrate | VpEmptyPayload | VpPayloadTooLarge | VpFrameBindingMismatch.

Inductive VideoSourceKind := VsCamera | VsScreenShare.

Record VideoCodecConfig := mk_video_codec {
  vc_codec_capability_id : bytes;
  vc_width : Z; (* u32 *)
  vc_height : Z;
  vc_frame_rate : Z;
  vc_target_bitrate_bps : Z;
}.
#[global] Instance VideoCodecConfig_eq_dec : EqDecision VideoCodecConfig.
Proof. solve_decision. Defined.

Record VideoStreamDescriptor := mk_video_stream {
  vd_scope : TenantScope;
  vd_call_id : CallId;
  vd_stream_id : OpaqueId;
  vd_source : PrincipalRef;
  vd_source_kind : VideoSourceKind;
  vd_codec : VideoCodecConfig;
  vd_negotiation_ref : OpaqueId;
  vd_negotiation_generation : Z; (* u64 *)
}.

Record EncodedVideoFrame := mk_video_frame {
  vf_scope : TenantScope;
  vf_call_id : CallId;
  vf_stream_id : OpaqueId;
  vf_source : PrincipalRef;
  vf_negotiation_ref : OpaqueId;
  vf_negotiation_generation : Z; (* u64 *)
  vf_sequence : Z; (* u64 *)
  vf_media_timestamp_us : Z; (* u64 *)
  vf_keyframe : bool;
  vf_payload : bytes;
}.

Definition phase21_video_capabilities : list CapabilityDescriptor :=
  [mk_capability VIDEO_MEDIA_CAPABILITY CmPrepared [];
   mk_capability H264_VIDEO_CODEC_CAPABILITY CmPrepared [];
   mk_capability SCREEN_SHARE_VIDEO_CAPABILITY CmPrepared []].

Definition checked_mul_u32 (a b : Z) : option Z :=
  if (a * b <=? u32_max)%Z then Some (a * b)%Z else None.
(** [u32::div_ceil]. *)
Definition div_ceil (a b : Z) : Z := (a + b - 1) / b.

Definition h264_level_4_0_coded_shape (width height : Z) : result VideoProtocolError (Z * Z * Z) :=
  let width_macroblocks := div_ceil width 16 in
  let height_macroblocks := div_ceil height 16 in
  frame_macroblocks ← ok_or (checked_mul_u32 width_macroblocks height_macroblocks)
                        VpInvalidDimensions;
  reject_if (H264_LEVEL_4_0_MAX_FRAME_MACROBLOCKS <? frame_macroblocks)%Z VpInvalidDimensions ;;
  coded_width ← ok_or (checked_mul_u32 width_macroblocks 16) VpInvalidDimensions;
  coded_height ← ok_or (checked_mul_u32 height_macroblocks 16) VpInvalidDimensions;
  Ok (coded_width, coded_height, frame_macroblocks).

Definition canonical_video_codec_config (config : VideoCodecConfig) :
    result VideoProtocolError VideoCodecConfig :=
  _ ← map_err (λ _, VpInvalidCapability)
        (validate_namespaced_identifier (vc_codec_capability_id config));
  reject_if (negb (bool_decide (vc_codec_capability_id config = H264_VIDEO_CODEC_CAPABILITY)))
    VpUnsupportedCodec ;;
  reject_if ((vc_width config <? 16)%Z || (vc_height config <? 16)%Z
             || (MAX_VIDEO_WIDTH <? vc_width config)%Z
             || (MAX_VIDEO_HEIGHT <? vc_height config)%Z
             || negb (vc_width config mod 2 =? 0)%Z
             || negb (vc_height config mod 2 =? 0)%Z) VpInvalidDimensions ;;
  reject_if ((vc_frame_rate config =? 0)%Z || (MAX_VIDEO_FRAME_RATE <? vc_frame_rate config)%Z)
    VpUnsupportedFrameRate ;;
  shape ← h264_level_4_0_coded_shape (vc_width config) (vc_height config);
  macroblocks_per_second ← ok_or (checked_mul_u32 shape.2 (vc_frame_rate config))
                             VpUnsupportedFrameRate;
  reject_if (H264_LEVEL_4_0_MAX_MACROBLOCKS_PER_SECOND <? macroblocks_per_second)%Z
    VpUnsupportedFrameRate ;;
  reject_if (negb (in_range MIN_VIDEO_BITRATE_BPS MAX_VIDEO_BITRATE_BPS
                     (vc_target_bitrate_bps config))) VpUnsupportedBitrate ;;
  Ok config.

Definition h264_reference_coded_dimensions (config : VideoCodecConfig) :
    result VideoProtocolError (Z * Z) :=
  canonical ← canonical_video_codec_config config;
  shape ← h264_level_4_0_coded_shape (vc_width canonical) (vc_height canonical);
  Ok shape.1.

Definition h264_reference_max_dpb_frames (config : VideoCodecConfig) :
    result VideoProtocolError Z :=
  canonical ← canonical_video_codec_config config;
  shape ← h264_level_4_0_coded_shape (vc_width canonical) (vc_height canonical);
  reject_if (shape.2 =? 0)%Z VpInvalidDimensions ;;
  Ok (Z.min (H264_LEVEL_4_0_MAX_DPB_MACROBLOCKS / shape.2) H264_MAX_REFERENCE_FRAMES).

Definition with_codec (codec : VideoCodecConfig) (d : VideoStreamDescriptor) :
    VideoStreamDescriptor :=
  mk_video_stream (vd_scope d) (vd_call_id d) (vd_stream_id d) (vd_source d) (vd_source_kind d)
    codec (vd_negotiation_ref d) (vd_negotiation_generation d).

Definition canonical_video_stream_descriptor (descriptor : VideoStreamDescriptor) :
    result VideoProtocolError VideoStreamDescriptor :=
  codec ← canonical_video_codec_config (vd_codec descriptor);
  Ok (with_codec codec descriptor).

(** [usize] is 64 bits wide, so the two products cannot overflow. *)
Definition video_rgb8_len (config : VideoCodecConfig) : result VideoProtocolError Z :=
  canonical ← canonical_video_codec_config config;
  Ok (vc_width canonical * vc_height canonical * 3)%Z.

Definition validate_video_frame_for_stream (stream : VideoStreamDescriptor)
    (frame : EncodedVideoFrame) : result VideoProtocolError unit :=
  canonical_video_stream_descriptor stream ;;
  reject_if (bool_decide (vf_payload frame = [])) VpEmptyPayload ;;
  reject_if (MAX_ENCODED_VIDEO_FRAME_BYTES <? Z.of_nat (length (vf_payload frame)))%Z
    VpPayloadTooLarge ;;
  reject_if (negb (bool_decide (vf_scope frame = vd_scope stream))
             || negb (bool_decide (vf_call_id frame = vd_call_id stream))
             || negb (bool_decide (vf_stream_id frame = vd_stream_id stream))
             || negb (bool_decide (vf_source frame = vd_source stream))
             || negb (bool_decide (vf_negotiation_ref frame = vd_negotiation_ref stream))
             || negb (vf_negotiation_generation frame =? vd_negotiation_generation stream)%Z)
    VpFrameBindingMismatch.

Definition required_video_capability_for_source (source : VideoSourceKind) : option bytes :=
  match source with
  | VsCamera => None
  | VsScreenShare => Some SCREEN_SHARE_VIDEO_CAPABILITY
  end.
