(* ===== verification/Adaptive.v ===== *)
(** Adaptive media: the quality ladder chosen from telemetry, the controller that confirms a
    change before it acts on it, and the video layer chosen for one viewer
    (crates/ucr-model/src/adaptive_media.rs, crates/ucr-protocol/src/adaptive_media.rs,
    crates/ucr-media-adaptive/src/lib.rs). *)

From S2P Require Import Prelude Ids Extension Message StoreForward Store Capability Orchestrator Video Sfu.

(** * Data *)

Record AdaptiveMediaTelemetry := mk_media_telemetry {
  te_estimated_bandwidth_bps : Z; (* u64 *)
  te_packet_loss_basis_points : Z; (* u16 *)
  te_jitter_ms : Z; (* u32 *)
  te_rtt_ms : Z; (* u32 *)
  te_cpu_utilization_percent : Z; (* u8 *)
  te_gpu_utilization_percent : option Z; (* u8 *)
  te_battery_percent : Z; (* u8 *)
  te_external_power : bool;
  te_thermal_state : MediaThermalState;
}.

Inductive AdaptiveMediaStage :=
  Video1080p | Video720p | Video480p | VideoLowFps | Audio | AudioLowBitrate
| EventualFallbackRequired.
#[global] Instance AdaptiveMediaStage_eq_dec : EqDecision AdaptiveMediaStage.
Proof. solve_decision. Defined.

(** The discriminant, which the derived [Ord] compares. *)
Definition stage_rank (s : AdaptiveMediaStage) : Z :=
  match s with
  | Video1080p => 0 | Video720p => 1 | Video480p => 2 | VideoLowFps => 3
  | Audio => 4 | AudioLowBitrate => 5 | EventualFallbackRequired => 6
  end.
(** [left > right]. *)
Definition stage_gt (left right : AdaptiveMediaStage) : bool :=
  (stage_rank right <? stage_rank left)%Z.

Inductive AdaptiveMediaPressure :=
  ApBandwidth | ApPacketLoss | ApJitter | ApRtt | ApCpu | ApGpu | ApBattery | ApThermal.
Inductive DeferredMediaFallback := DfVoiceMessage | DfText | DfStoreAndForward.
Inductive MediaKind := MkAudio | MkVideo.

Record AdaptiveMediaDecision := mk_adaptive_decision {
  ad_stage : AdaptiveMediaStage;
  ad_changed : bool;
  ad_requires_media_renegotiation : bool;
  ad_video : option VideoCodecConfig;
  ad_opus_target_bitrate_bps : option Z;
  ad_deferred_fallbacks : list DeferredMediaFallback;
  ad_pressures : list AdaptiveMediaPressure;
}.

Inductive AdaptiveMediaProtocolError :=
  AeBandwidthOutOfRange | AePacketLossOutOfRange | AeLatencyOutOfRange | AeCpuOutOfRange
| AeGpuOutOfRange | AeBatteryOutOfRange | AeVideoProfileInvalid.

(** * The reference ladder *)

Definition MAX_ADAPTIVE_BANDWIDTH_BPS : Z := 10000000000.
Definition MAX_ADAPTIVE_LATENCY_MS : Z := 120000.
Definition OPUS_NORMAL_TARGET_BITRATE_BPS : Z := 48000.
Definition OPUS_LOW_TARGET_BITRATE_BPS : Z := 16000.
Definition ADAPTIVE_DEGRADE_CONFIRM_SAMPLES : Z := 2.
Definition ADAPTIVE_RECOVERY_CONFIRM_SAMPLES : Z := 4.

Definition canonical_adaptive_media_telemetry (telemetry : AdaptiveMediaTelemetry) :
    result AdaptiveMediaProtocolError AdaptiveMediaTelemetry :=
  reject_if (MAX_ADAPTIVE_BANDWIDTH_BPS <? te_estimated_bandwidth_bps telemetry)%Z
    AeBandwidthOutOfRange ;;
  reject_if (10000 <? te_packet_loss_basis_points telemetry)%Z AePacketLossOutOfRange ;;
  reject_if ((MAX_ADAPTIVE_LATENCY_MS <? te_jitter_ms telemetry)%Z
             || (MAX_ADAPTIVE_LATENCY_MS <? te_rtt_ms telemetry)%Z) AeLatencyOutOfRange ;;
  reject_if (100 <? te_cpu_utilization_percent telemetry)%Z AeCpuOutOfRange ;;
  reject_if (match te_gpu_utilization_percent telemetry with
             | Some value => (100 <? value)%Z | None => false end) AeGpuOutOfRange ;;
  reject_if (100 <? te_battery_percent telemetry)%Z AeBatteryOutOfRange ;;
  Ok telemetry.

(** A match on the ranges of an unsigned integer, by their upper ends. *)
Fixpoint first_up_to (value : Z) (ranges : list (Z * AdaptiveMediaStage))
    (otherwise : AdaptiveMediaStage) : AdaptiveMediaStage :=
  match ranges with
  | [] => otherwise
  | (last, stage) :: ranges =>
      if (value <=? last)%Z then stage else first_up_to value ranges otherwise
  end.
(** The same by their lower ends. *)
Fixpoint first_from (value : Z) (ranges : list (Z * AdaptiveMediaStage))
    (otherwise : AdaptiveMediaStage) : AdaptiveMediaStage :=
  match ranges with
  | [] => otherwise
  | (first, stage) :: ranges =>
      if (first <=? value)%Z then stage else first_from value ranges otherwise
  end.

Definition bandwidth_stage (value : Z) : AdaptiveMediaStage :=
  first_from value
    [(5000000, Video1080p); (2500000, Video720p); (1250000, Video480p); (500000, VideoLowFps);
     (80000, Audio); (24000, AudioLowBitrate)]%Z EventualFallbackRequired.
Definition loss_stage (value : Z) : AdaptiveMediaStage :=
  first_up_to value
    [(100, Video1080p); (200, Video720p); (400, Video480p); (800, VideoLowFps);
     (1500, Audio); (2500, AudioLowBitrate)]%Z EventualFallbackRequired.
Definition jitter_stage (value : Z) : AdaptiveMediaStage :=
  first_up_to value
    [(30, Video1080p); (45, Video720p); (75, Video480p); (120, VideoLowFps);
     (200, Audio); (350, AudioLowBitrate)]%Z EventualFallbackRequired.
Definition rtt_stage (value : Z) : AdaptiveMediaStage :=
  first_up_to value
    [(180, Video1080p); (250, Video720p); (400, Video480p); (650, VideoLowFps);
     (1000, Audio); (1800, AudioLowBitrate)]%Z EventualFallbackRequired.
Definition cpu_stage (value : Z) : AdaptiveMediaStage :=
  first_up_to value
    [(70, Video1080p); (80, Video720p); (88, Video480p); (94, VideoLowFps); (98, Audio)]%Z
    AudioLowBitrate.
Definition gpu_stage (value : Z) : AdaptiveMediaStage :=
  first_up_to value
    [(80, Video1080p); (90, Video720p); (95, Video480p); (98, VideoLowFps)]%Z Audio.
(** The first range ends at 100; [canonical_adaptive_media_telemetry] excludes what is above,
    and a value above it matches the last arm of the code. *)
Definition battery_stage (value : Z) (external_power : bool) : AdaptiveMediaStage :=
  if external_power then Video1080p
  else if (100 <? value)%Z then AudioLowBitrate
  else first_from value
    [(30, Video1080p); (20, Video720p); (12, Video480p); (8, VideoLowFps); (4, Audio)]%Z
    AudioLowBitrate.
Definition thermal_stage (value : MediaThermalState) : AdaptiveMediaStage :=
  match value with
  | MtNominal => Video1080p
  | MtElevated => Video720p
  | MtSerious => Audio
  | MtCritical => AudioLowBitrate
  end.

Definition worse (left right : AdaptiveMediaStage) : AdaptiveMediaStage :=
  if (stage_rank right <=? stage_rank left)%Z then left else right.

Definition reference_stage_for_telemetry (telemetry : AdaptiveMediaTelemetry) :
    result AdaptiveMediaProtocolError AdaptiveMediaStage :=
  telemetry ← canonical_adaptive_media_telemetry telemetry;
  let stage := bandwidth_stage (te_estimated_bandwidth_bps telemetry) in
  let stage := worse stage (loss_stage (te_packet_loss_basis_points telemetry)) in
  let stage := worse stage (jitter_stage (te_jitter_ms telemetry)) in
  let stage := worse stage (rtt_stage (te_rtt_ms telemetry)) in
  let stage := worse stage (cpu_stage (te_cpu_utilization_percent telemetry)) in
  let stage := match te_gpu_utilization_percent telemetry with
               | Some gpu => worse stage (gpu_stage gpu) | None => stage end in
  let stage := worse stage (battery_stage (te_battery_percent telemetry)
                              (te_external_power telemetry)) in
  let stage := worse stage (thermal_stage (te_thermal_state telemetry)) in
  Ok stage.

(** [if stage > Video1080p { pressures.push(p) }]. *)
Definition pressure_if (stage : AdaptiveMediaStage) (p : AdaptiveMediaPressure) :
    list AdaptiveMediaPressure :=
  if stage_gt stage Video1080p then [p] else [].

Definition adaptive_media_pressures (telemetry : AdaptiveMediaTelemetry) :
    result AdaptiveMediaProtocolError (list AdaptiveMediaPressure) :=
  telemetry ← canonical_adaptive_media_telemetry telemetry;
  Ok (pressure_if (bandwidth_stage (te_estimated_bandwidth_bps telemetry)) ApBandwidth
      ++ pressure_if (loss_stage (te_packet_loss_basis_points telemetry)) ApPacketLoss
      ++ pressure_if (jitter_stage (te_jitter_ms telemetry)) ApJitter
      ++ pressure_if (rtt_stage (te_rtt_ms telemetry)) ApRtt
      ++ pressure_if (cpu_stage (te_cpu_utilization_percent telemetry)) ApCpu
      ++ match te_gpu_utilization_percent telemetry with
         | Some gpu => pressure_if (gpu_stage gpu) ApGpu | None => [] end
      ++ pressure_if (battery_stage (te_battery_percent telemetry) (te_external_power telemetry))
           ApBattery
      ++ pressure_if (thermal_stage (te_thermal_state telemetry)) ApThermal).

Definition video_config (width height frame_rate bitrate : Z) : VideoCodecConfig :=
  mk_video_codec H264_VIDEO_CODEC_CAPABILITY width height frame_rate bitrate.

Definition reference_video_config (stage : AdaptiveMediaStage) :
    result AdaptiveMediaProtocolError (option VideoCodecConfig) :=
  let config := match stage with
                | Video1080p => Some (video_config 1920 1080 30 4000000)
                | Video720p => Some (video_config 1280 720 30 2000000)
                | Video480p => Some (video_config 854 480 30 1000000)
                | VideoLowFps => Some (video_config 640 360 12 384000)
                | Audio | AudioLowBitrate | EventualFallbackRequired => None
                end in
  match config with
  | None => Ok None
  | Some value =>
      canonical ← map_err (λ _, AeVideoProfileInvalid) (canonical_video_codec_config value);
      Ok (Some canonical)
  end.

Definition adaptive_stage_allows_media (stage : AdaptiveMediaStage) (media_kind : MediaKind) :
    bool :=
  match stage, media_kind with
  | (Video1080p | Video720p | Video480p | VideoLowFps), (MkAudio | MkVideo) => true
  | (Audio | AudioLowBitrate), MkAudio => true
  | (Audio | AudioLowBitrate | EventualFallbackRequired), MkVideo => false
  | EventualFallbackRequired, MkAudio => false
  end.

Definition reference_opus_target_bitrate (stage : AdaptiveMediaStage) : option Z :=
  match stage with
  | Audio => Some OPUS_NORMAL_TARGET_BITRATE_BPS
  | AudioLowBitrate => Some OPUS_LOW_TARGET_BITRATE_BPS
  | Video1080p | Video720p | Video480p | VideoLowFps | EventualFallbackRequired => None
  end.

Definition reference_deferred_fallbacks (stage : AdaptiveMediaStage) :
    list DeferredMediaFallback :=
  if bool_decide (stage = EventualFallbackRequired)
  then [DfVoiceMessage; DfText; DfStoreAndForward] else [].

Definition is_video_stage (stage : AdaptiveMediaStage) : bool :=
  match stage with Video1080p | Video720p | Video480p | VideoLowFps => true | _ => false end.

Definition stage_requires_media_renegotiation (previous next : AdaptiveMediaStage) : bool :=
  negb (bool_decide (previous = next)) && (is_video_stage previous || is_video_stage next).

Definition one_step_better (stage : AdaptiveMediaStage) : AdaptiveMediaStage :=
  match stage with
  | Video1080p | Video720p => Video1080p
  | Video480p => Video720p
  | VideoLowFps => Video480p
  | Audio => VideoLowFps
  | AudioLowBitrate => Audio
  | EventualFallbackRequired => AudioLowBitrate
  end.

(** * The controller *)

Inductive AdaptiveMediaError := AmProtocol (e : AdaptiveMediaProtocolError).

Record AdaptiveMediaController := mk_controller {
  ac_current_stage : AdaptiveMediaStage;
  ac_pending_stage : option AdaptiveMediaStage;
  ac_pending_samples : Z; (* u8 *)
}.

Definition controller_new (initial_stage : AdaptiveMediaStage) : AdaptiveMediaController :=
  mk_controller initial_stage None 0.

(** [u8::saturating_add]. *)
Definition saturating_add_u8 (a b : Z) : Z := Z.min 255 (a + b).

Definition record_pending (stage : AdaptiveMediaStage) (c : AdaptiveMediaController) :
    AdaptiveMediaController :=
  if bool_decide (ac_pending_stage c = Some stage)
  then mk_controller (ac_current_stage c) (ac_pending_stage c)
         (saturating_add_u8 (ac_pending_samples c) 1)
  else mk_controller (ac_current_stage c) (Some stage) 1.

(** [current_stage = stage; clear_pending()]. *)
Definition settle_on (stage : AdaptiveMediaStage) : AdaptiveMediaController :=
  mk_controller stage None 0.

Definition adaptive_decision (c : AdaptiveMediaController) (previous : AdaptiveMediaStage)
    (changed : bool) (pressures : list AdaptiveMediaPressure) :
    result AdaptiveMediaError AdaptiveMediaDecision :=
  video ← map_err AmProtocol (reference_video_config (ac_current_stage c));
  Ok (mk_adaptive_decision (ac_current_stage c) changed
        (changed && stage_requires_media_renegotiation previous (ac_current_stage c))
        video
        (reference_opus_target_bitrate (ac_current_stage c))
        (reference_deferred_fallbacks (ac_current_stage c))
        pressures).

(** The controller after a recommendation, and whether the stage changed. *)
Definition follow (recommended : AdaptiveMediaStage) (critical : bool)
    (c : AdaptiveMediaController) : AdaptiveMediaController * bool :=
  if bool_decide (recommended = ac_current_stage c) then (settle_on (ac_current_stage c), false)
  else if stage_gt recommended (ac_current_stage c) then
    let required := if bool_decide (recommended = EventualFallbackRequired) || critical then 1%Z
                    else ADAPTIVE_DEGRADE_CONFIRM_SAMPLES in
    let c := record_pending recommended c in
    if (required <=? ac_pending_samples c)%Z then (settle_on recommended, true) else (c, false)
  else
    let c' := record_pending recommended c in
    if (ADAPTIVE_RECOVERY_CONFIRM_SAMPLES <=? ac_pending_samples c')%Z
    then let next := one_step_better (ac_current_stage c) in
         (settle_on next, negb (bool_decide (next = ac_current_stage c)))
    else (c', false).

Definition is_critical (telemetry : AdaptiveMediaTelemetry) : bool :=
  bool_decide (te_thermal_state telemetry = MtCritical).

Definition observe (telemetry : AdaptiveMediaTelemetry) :
    op AdaptiveMediaController AdaptiveMediaError AdaptiveMediaDecision :=
  recommended ← lift (map_err AmProtocol (reference_stage_for_telemetry telemetry));
  pressures ← lift (map_err AmProtocol (adaptive_media_pressures telemetry));
  c ← get;
  let '(c', changed) := follow recommended (is_critical telemetry) c in
  put c' ;;
  lift (adaptive_decision c' (ac_current_stage c) changed pressures).

(** * The layer of one viewer *)

Record ViewerVideoLayer := mk_layer {
  vl_spatial_id : Z; (* u8 *)
  vl_width : Z; (* u32 *)
  vl_height : Z;
  vl_frame_rate : Z;
  vl_bitrate_bps : Z;
}.
#[global] Instance ViewerVideoLayer_eq_dec : EqDecision ViewerVideoLayer.
Proof. solve_decision. Defined.

Inductive ViewerLayerSelectionError :=
  VlTooManyLayers | VlInvalidLayer | VlDuplicateLayer | VlInvalidViewport.

Definition invalid_layer (layer : ViewerVideoLayer) : bool :=
  (vl_width layer =? 0)%Z || (vl_height layer =? 0)%Z
  || (7680 <? vl_width layer)%Z || (4320 <? vl_height layer)%Z
  || (vl_frame_rate layer =? 0)%Z || (120 <? vl_frame_rate layer)%Z
  || (vl_bitrate_bps layer =? 0)%Z || (100000000 <? vl_bitrate_bps layer)%Z.

(** The loop over the layers, with those already seen. *)
Fixpoint check_layers (prior layers : list ViewerVideoLayer) :
    result ViewerLayerSelectionError unit :=
  match layers with
  | [] => Ok tt
  | layer :: layers =>
      reject_if (invalid_layer layer) VlInvalidLayer ;;
      reject_if (existsb (λ p, vl_spatial_id p =? vl_spatial_id layer)%Z prior)
        VlDuplicateLayer ;;
      check_layers (prior ++ [layer]) layers
  end.

(** [(width * height, frame_rate, bitrate)] with its order; the product of two [u32] is an
    [u64] and does not overflow. *)
Definition layer_quality (layer : ViewerVideoLayer) : Z * Z * Z :=
  (vl_width layer * vl_height layer, vl_frame_rate layer, vl_bitrate_bps layer)%Z.
Definition quality_cmp : Z * Z * Z → Z * Z * Z → comparison :=
  pair_cmp (pair_cmp Z.compare Z.compare) Z.compare.

Definition layer_fits (ceiling : VideoCodecConfig) (max_width max_height : Z)
    (layer : ViewerVideoLayer) : bool :=
  (vl_width layer <=? max_width)%Z && (vl_height layer <=? max_height)%Z
  && (vl_bitrate_bps layer <=? vc_target_bitrate_bps ceiling)%Z
  && (vl_frame_rate layer <=? vc_frame_rate ceiling)%Z.

Definition select_viewer_video_layer (stage : AdaptiveMediaStage)
    (viewport_width viewport_height : Z) (layers : list ViewerVideoLayer) :
    result ViewerLayerSelectionError (option ViewerVideoLayer) :=
  reject_if ((viewport_width =? 0)%Z || (viewport_height =? 0)%Z
             || (7680 <? viewport_width)%Z || (4320 <? viewport_height)%Z) VlInvalidViewport ;;
  reject_if (8 <? length layers) VlTooManyLayers ;;
  check_layers [] layers ;;
  config ← map_err (λ _, VlInvalidLayer) (reference_video_config stage);
  match config with
  | None => Ok None
  | Some ceiling =>
      let max_width := Z.min viewport_width (vc_width ceiling) in
      let max_height := Z.min viewport_height (vc_height ceiling) in
      Ok (max_by_key quality_cmp layer_quality
            (List.filter (layer_fits ceiling max_width max_height) layers))
  end.

Record ViewerLayerController := mk_viewer {
  vw_selected : option ViewerVideoLayer;
  vw_pending_improvement : option ViewerVideoLayer;
  vw_improvement_samples : Z; (* u8 *)
}.
Definition viewer_new : ViewerLayerController := mk_viewer None None 0.

(** [self.selected = layer] with the pending improvement cleared. *)
Definition show_layer (layer : option ViewerVideoLayer) : ViewerLayerController :=
  mk_viewer layer None 0.

Definition still_suitable (stage : AdaptiveMediaStage) (viewport_width viewport_height : Z)
    (layers : list ViewerVideoLayer) (old : ViewerVideoLayer) : bool :=
  existsb (λ l, bool_decide (l = old)) layers
  && (vl_width old <=? viewport_width)%Z && (vl_height old <=? viewport_height)%Z
  && match reference_video_config stage with
     | Ok (Some cap) =>
         (vl_width old <=? vc_width cap)%Z && (vl_height old <=? vc_height cap)%Z
         && (vl_frame_rate old <=? vc_frame_rate cap)%Z
         && (vl_bitrate_bps old <=? vc_target_bitrate_bps cap)%Z
     | _ => false
     end.

(** The controller after a candidate was found; the code returns [self.selected]. *)
Definition follow_candidate (suitable : bool) (candidate : ViewerVideoLayer)
    (v : ViewerLayerController) : ViewerLayerController :=
  if negb suitable then show_layer (Some candidate)
  else if bool_decide (vw_selected v = Some candidate) then show_layer (vw_selected v)
  else
    match vw_selected v with
    | None => v
    | Some current =>
        match quality_cmp (layer_quality candidate) (layer_quality current) with
        | Lt => show_layer (Some candidate)
        | _ =>
            if bool_decide (vw_pending_improvement v = Some candidate) then
              let samples := saturating_add_u8 (vw_improvement_samples v) 1 in
              if (2 <=? samples)%Z then show_layer (Some candidate)
              else mk_viewer (vw_selected v) (vw_pending_improvement v) samples
            else mk_viewer (vw_selected v) (Some candidate) 1
        end
    end.

Definition viewer_observe (stage : AdaptiveMediaStage) (viewport_width viewport_height : Z)
    (layers : list ViewerVideoLayer) :
    op ViewerLayerController ViewerLayerSelectionError (option ViewerVideoLayer) :=
  preferred ← lift (select_viewer_video_layer stage viewport_width viewport_height layers);
  v ← get;
  match preferred with
  | None => put (show_layer None) ;; mret None
  | Some candidate =>
      let suitable :=
        match vw_selected v with
        | Some old => still_suitable stage viewport_width viewport_height layers old
        | None => false
        end in
      let v' := follow_candidate suitable candidate v in
      put v' ;; mret (vw_selected v')
  end.
