(* ===== verification/AdaptiveTheorems.v ===== *)
(** Quality changes are confirmed and settle: the stage of a call and the layer of a viewer
    follow the telemetry without jumping on a single optimistic sample. *)

From S2P Require Import Prelude Ids StoreForward Store Memory OpLogic Orchestrator Video Sfu SfuTheorems.
From S2P Require Import Adaptive.

(** * The ladder *)

Lemma stage_rank_inj s t : stage_rank s = stage_rank t → s = t.
Proof. by destruct s, t. Qed.

Lemma stage_rank_bounds s : (0 ≤ stage_rank s ≤ 6)%Z.
Proof. by destruct s. Qed.

Lemma one_step_better_rank s :
  stage_rank (one_step_better s) = Z.max 0 (stage_rank s - 1).
Proof. by destruct s. Qed.

(** The reference operating points satisfy the video contract. *)
Lemma reference_video_config_ok s :
  ∃ config, reference_video_config s = Ok config ∧ bool_decide (is_Some config) = is_video_stage s.
Proof. destruct s; eexists; split; reflexivity. Qed.

Lemma reference_stage_pressures t :
  match reference_stage_for_telemetry t with
  | Ok _ => is_ok (adaptive_media_pressures t) = true
  | Err e => adaptive_media_pressures t = Err e
  end.
Proof.
  unfold reference_stage_for_telemetry, adaptive_media_pressures.
  by destruct (canonical_adaptive_media_telemetry t).
Qed.

Lemma observe_eq t c :
  observe t c =
  match reference_stage_for_telemetry t with
  | Err e => (c, Err (AmProtocol e))
  | Ok rec =>
      let '(c', changed) := follow rec (is_critical t) c in
      (c', pressures ← map_err AmProtocol (adaptive_media_pressures t);
           adaptive_decision c' (ac_current_stage c) changed pressures)
  end.
Proof.
  pose proof (reference_stage_pressures t) as Hp.
  unfold observe, mbind, op_bind, lift, get, put.
  destruct (reference_stage_for_telemetry t) as [rec|e]; cbn; [|done].
  destruct (adaptive_media_pressures t) as [p|]; [|done]. cbn.
  by destruct (follow rec (is_critical t) c).
Qed.

(** * Histories of samples *)

Definition run_samples (s : AdaptiveMediaStage) (h : list AdaptiveMediaTelemetry) :
    AdaptiveMediaController :=
  foldl (λ c t, (observe t c).1) (controller_new s) h.

(** The recommendations of the samples that were accepted, oldest first. *)
Definition recommendations (h : list AdaptiveMediaTelemetry) : list AdaptiveMediaStage :=
  omap (λ t, match reference_stage_for_telemetry t with Ok s => Some s | Err _ => None end) h.

(** The confirmations a change to [s] needs. *)
Definition confirmations (current s : AdaptiveMediaStage) : Z :=
  if stage_gt s current then ADAPTIVE_DEGRADE_CONFIRM_SAMPLES else ADAPTIVE_RECOVERY_CONFIRM_SAMPLES.

(** What is pending was recommended by the last samples, too few to act on. *)
Definition controller_ok (c : AdaptiveMediaController) (recs : list AdaptiveMediaStage) : Prop :=
  match ac_pending_stage c with
  | None => ac_pending_samples c = 0%Z
  | Some s =>
      s ≠ ac_current_stage c
      ∧ (1 ≤ ac_pending_samples c < confirmations (ac_current_stage c) s)%Z
      ∧ ∃ l, recs = l ++ replicate (Z.to_nat (ac_pending_samples c)) s
  end.

Lemma settle_on_ok s recs : controller_ok (settle_on s) recs.
Proof. done. Qed.

Lemma replicate_snoc {A} n (x : A) : replicate n x ++ [x] = replicate (S n) x.
Proof. change [x] with (replicate 1 x). rewrite <- replicate_add. f_equal. lia. Qed.

(** Recording a sample counts the agreeing ones at the end of the log. *)
Lemma record_pending_spec c recs s :
  controller_ok c recs → s ≠ ac_current_stage c →
  let c' := record_pending s c in
  ac_current_stage c' = ac_current_stage c ∧ ac_pending_stage c' = Some s
  ∧ (1 ≤ ac_pending_samples c' ≤ confirmations (ac_current_stage c) s)%Z
  ∧ ac_pending_samples c'
    = (1 + if bool_decide (ac_pending_stage c = Some s) then ac_pending_samples c else 0)%Z
  ∧ ∃ l, recs ++ [s] = l ++ replicate (Z.to_nat (ac_pending_samples c')) s.
Proof.
  intros Hc Hs. unfold record_pending, controller_ok in *. case_bool_decide as Hp; cbn.
  - rewrite Hp in Hc. destruct Hc as (_ & Hn & l & ->).
    assert (confirmations (ac_current_stage c) s ≤ 4)%Z
      by (unfold confirmations; by destruct (stage_gt s _)).
    unfold saturating_add_u8. rewrite Z.min_r by lia. split_and!; [done|done|lia|lia|lia|].
    exists l. rewrite <- app_assoc, replicate_snoc. do 2 f_equal. lia.
  - split_and!; [done|done|lia| |done|by exists recs].
    unfold confirmations. by destruct (stage_gt s _).
Qed.

Lemma record_pending_ok c recs s :
  controller_ok c recs → s ≠ ac_current_stage c →
  (ac_pending_samples (record_pending s c) < confirmations (ac_current_stage c) s)%Z →
  controller_ok (record_pending s c) (recs ++ [s]).
Proof.
  intros Hc Hs Hlt. destruct (record_pending_spec c recs s Hc Hs) as (Hcur & Hp & Hb & _ & Hl).
  unfold controller_ok. rewrite Hp, Hcur. split_and!; [done|lia|lia|done].
Qed.

(** The samples before the last one that agree with it. *)
Lemma record_pending_agreed c recs s n :
  controller_ok c recs → s ≠ ac_current_stage c →
  (Z.of_nat (S n) ≤ ac_pending_samples (record_pending s c))%Z →
  ∃ l, recs = l ++ replicate n s.
Proof.
  intros Hc Hs Hn. destruct (record_pending_spec c recs s Hc Hs) as (_ & _ & _ & _ & l & Hl).
  set (k := Z.to_nat (ac_pending_samples (record_pending s c))) in *.
  assert (∃ m, k = S (m + n)) as [m Hk] by (exists (k - S n); lia). rewrite Hk in Hl.
  rewrite <- replicate_snoc, app_assoc in Hl. apply app_inj_tail in Hl as [-> _].
  exists (l ++ replicate m s). by rewrite <- app_assoc, <- replicate_add.
Qed.

(** A step of the controller, by what it does to the stage. *)
Definition confirmed_change (cur rec next : AdaptiveMediaStage) (critical : bool)
    (recs : list AdaptiveMediaStage) : Prop :=
  next = cur
  ∨ ((stage_rank cur < stage_rank rec)%Z ∧ next = rec
     ∧ (rec = EventualFallbackRequired ∨ critical = true ∨ last recs = Some rec))
  ∨ ((stage_rank rec < stage_rank cur)%Z ∧ stage_rank next = (stage_rank cur - 1)%Z
     ∧ ∃ l, recs = l ++ [rec; rec; rec]).

Lemma follow_worse c recs rec critical :
  controller_ok c recs → stage_gt rec (ac_current_stage c) = true →
  let '(c', changed) := follow rec critical c in
  controller_ok c' (recs ++ [rec])
  ∧ confirmed_change (ac_current_stage c) rec (ac_current_stage c') critical recs.
Proof.
  intros Hc Hgt. unfold follow. rewrite Hgt. apply Z.ltb_lt in Hgt as Hlt.
  assert (rec ≠ ac_current_stage c) as Hne by (intros ->; lia).
  rewrite bool_decide_eq_false_2 by done. cbv zeta.
  set (required := if _ || _ then 1%Z else _).
  assert (required ≤ 2)%Z as Hreq by (unfold required; by destruct (_ || _)).
  destruct (Z.leb_spec required (ac_pending_samples (record_pending rec c))) as [Hr|Hr]; cbn.
  - split; [done|]. right. left. split; [done|]. split; [done|]. unfold required in Hr.
    destruct (bool_decide_reflect (rec = EventualFallbackRequired)) as [?|_]; [by left|].
    destruct critical; [by right; left|]. right. right.
    destruct (record_pending_agreed c recs rec 1 Hc Hne) as [l ->]; [done|]. apply last_snoc.
  - destruct (record_pending_spec c recs rec Hc Hne) as (Hcur & _).
    split; [|left; congruence]. apply record_pending_ok; [done..|].
    unfold confirmations. rewrite Hgt. unfold ADAPTIVE_DEGRADE_CONFIRM_SAMPLES. lia.
Qed.

Lemma follow_better c recs rec critical :
  controller_ok c recs → (stage_rank rec < stage_rank (ac_current_stage c))%Z →
  let '(c', changed) := follow rec critical c in
  controller_ok c' (recs ++ [rec])
  ∧ confirmed_change (ac_current_stage c) rec (ac_current_stage c') critical recs.
Proof.
  intros Hc Hlt. unfold follow. assert (rec ≠ ac_current_stage c) as Hne by (intros ->; lia).
  rewrite bool_decide_eq_false_2 by done.
  assert (stage_gt rec (ac_current_stage c) = false) as Hgt by (apply Z.ltb_ge; lia).
  rewrite Hgt. cbv zeta.
  destruct (Z.leb_spec ADAPTIVE_RECOVERY_CONFIRM_SAMPLES
    (ac_pending_samples (record_pending rec c))) as [Hr|Hr]; cbn.
  - split; [done|]. right. right. split; [done|].
    split; [rewrite one_step_better_rank; pose proof (stage_rank_bounds rec); lia|].
    by apply (record_pending_agreed c recs rec 3).
  - destruct (record_pending_spec c recs rec Hc Hne) as (Hcur & _).
    split; [|left; congruence]. apply record_pending_ok; [done..|].
    unfold confirmations. by rewrite Hgt.
Qed.

Lemma follow_spec c recs rec critical :
  controller_ok c recs →
  let '(c', changed) := follow rec critical c in
  controller_ok c' (recs ++ [rec])
  ∧ confirmed_change (ac_current_stage c) rec (ac_current_stage c') critical recs.
Proof.
  intros Hc. destruct (Z.lt_trichotomy (stage_rank rec) (stage_rank (ac_current_stage c)))
    as [Hlt|[Heq|Hgt]].
  - by apply follow_better.
  - apply stage_rank_inj in Heq. unfold follow. rewrite bool_decide_eq_true_2 by done.
    split; [done|by left].
  - apply follow_worse; [done|]. by apply Z.ltb_lt.
Qed.

Lemma follow_changed c rec critical :
  (follow rec critical c).2
  = negb (bool_decide (ac_current_stage (follow rec critical c).1 = ac_current_stage c)).
Proof.
  unfold follow. case_bool_decide as He; cbn; [by rewrite bool_decide_eq_true_2|].
  destruct (stage_gt rec (ac_current_stage c)).
  - destruct (_ <=? _)%Z; cbn; [by rewrite bool_decide_eq_false_2|].
    rewrite bool_decide_eq_true_2; [done|]. unfold record_pending. by case_bool_decide.
  - destruct (_ <=? _)%Z; cbn; [done|].
    rewrite bool_decide_eq_true_2; [done|]. unfold record_pending. by case_bool_decide.
Qed.

Lemma run_samples_ok s h : controller_ok (run_samples s h) (recommendations h).
Proof.
  unfold run_samples, recommendations. induction h as [|t h IH] using rev_ind; [done|].
  rewrite foldl_app, omap_app. cbn. set (c := foldl _ _ h) in *. rewrite observe_eq.
  destruct (reference_stage_for_telemetry t) as [rec|e]; cbn; [|by rewrite app_nil_r].
  pose proof (follow_spec c _ rec (is_critical t) IH) as Hf.
  destruct (follow rec (is_critical t) c) as [c' changed]. apply Hf.
Qed.

(** * Convergence *)

(** The samples recommending [rec] that are still needed to reach it. *)
Definition distance (rec : AdaptiveMediaStage) (c : AdaptiveMediaController) : Z :=
  let agreed := if bool_decide (ac_pending_stage c = Some rec) then ac_pending_samples c else 0%Z in
  let gap := (stage_rank (ac_current_stage c) - stage_rank rec)%Z in
  if (0 <? gap)%Z then (ADAPTIVE_RECOVERY_CONFIRM_SAMPLES * gap - agreed)%Z
  else if (gap <? 0)%Z then (ADAPTIVE_DEGRADE_CONFIRM_SAMPLES - agreed)%Z
  else 0%Z.

Lemma agreed_bounds c recs rec :
  controller_ok c recs → rec ≠ ac_current_stage c →
  (0 ≤ (if bool_decide (ac_pending_stage c = Some rec) then ac_pending_samples c else 0)
     < confirmations (ac_current_stage c) rec)%Z.
Proof.
  intros Hc Hne. unfold controller_ok in Hc. case_bool_decide as Hp.
  - rewrite Hp in Hc. lia.
  - unfold confirmations. by destruct (stage_gt rec _).
Qed.

Lemma distance_settled rec : distance rec (settle_on rec) = 0%Z.
Proof. unfold distance. cbn. rewrite Z.sub_diag. done. Qed.

Lemma distance_zero c recs rec :
  controller_ok c recs → (distance rec c ≤ 0)%Z → ac_current_stage c = rec.
Proof.
  intros Hc Hd. destruct (decide (rec = ac_current_stage c)) as [|Hne]; [done|].
  pose proof (agreed_bounds c recs rec Hc Hne) as Hb.
  assert (stage_rank (ac_current_stage c) ≠ stage_rank rec) as Hr
    by (intros E%stage_rank_inj; congruence).
  revert Hd Hb. unfold distance, confirmations, stage_gt, ADAPTIVE_RECOVERY_CONFIRM_SAMPLES,
    ADAPTIVE_DEGRADE_CONFIRM_SAMPLES. cbv zeta. set (agreed := if bool_decide _ then _ else _).
  repeat case_match; bool_norm; lia.
Qed.

Lemma distance_bound c recs rec : controller_ok c recs → (distance rec c ≤ 24)%Z.
Proof.
  intros Hc. unfold distance, ADAPTIVE_RECOVERY_CONFIRM_SAMPLES, ADAPTIVE_DEGRADE_CONFIRM_SAMPLES.
  cbv zeta. pose proof (stage_rank_bounds (ac_current_stage c)).
  pose proof (stage_rank_bounds rec).
  destruct (decide (rec = ac_current_stage c)) as [->|Hne].
  - rewrite Z.sub_diag. done.
  - pose proof (agreed_bounds c recs rec Hc Hne). repeat case_match; bool_norm; lia.
Qed.

Lemma follow_distance c recs rec critical :
  controller_ok c recs →
  (distance rec (follow rec critical c).1 ≤ Z.max 0 (distance rec c - 1))%Z.
Proof.
  intros Hc. destruct (decide (rec = ac_current_stage c)) as [Heq|Hne].
  { unfold follow. rewrite bool_decide_eq_true_2 by done. cbn. rewrite <- Heq.
    rewrite distance_settled. lia. }
  pose proof (agreed_bounds c recs rec Hc Hne) as Hb.
  destruct (record_pending_spec c recs rec Hc Hne) as (Hcur & Hp & _ & Hn & _).
  unfold follow. rewrite bool_decide_eq_false_2 by done. cbv zeta.
  destruct (stage_gt rec (ac_current_stage c)) eqn:Hgt.
  - destruct (_ <=? ac_pending_samples _)%Z; cbn [fst]; [rewrite distance_settled; lia|].
    unfold distance. rewrite Hp, Hcur, Hn. unfold stage_gt in Hgt. cbv zeta. bool_norm.
    rewrite (bool_decide_eq_true_2 (Some rec = Some rec)) by done.
    destruct (Z.ltb_spec 0 (stage_rank (ac_current_stage c) - stage_rank rec)); [lia|].
    destruct (_ <? 0)%Z; lia.
  - assert (stage_rank (ac_current_stage c) ≠ stage_rank rec) as Hr
      by (intros E%stage_rank_inj; congruence).
    unfold confirmations in Hb. rewrite Hgt in Hb.
    unfold stage_gt in Hgt. apply Z.ltb_ge in Hgt.
    destruct (Z.leb_spec ADAPTIVE_RECOVERY_CONFIRM_SAMPLES
      (ac_pending_samples (record_pending rec c))) as [Hr'|Hr']; cbn [fst].
    + unfold distance. cbn [settle_on ac_current_stage ac_pending_stage]. cbv zeta.
      rewrite one_step_better_rank, (bool_decide_eq_false_2 (None = Some rec)) by done.
      pose proof (stage_rank_bounds rec). unfold ADAPTIVE_RECOVERY_CONFIRM_SAMPLES in *.
      repeat case_match; bool_norm; lia.
    + unfold distance. rewrite Hp, Hcur, Hn. cbv zeta.
      rewrite (bool_decide_eq_true_2 (Some rec = Some rec)) by done.
      destruct (Z.ltb_spec 0 (stage_rank (ac_current_stage c) - stage_rank rec)); [lia|].
      destruct (_ <? 0)%Z; lia.
Qed.

Lemma run_samples_snoc s h t : run_samples s (h ++ [t]) = (observe t (run_samples s h)).1.
Proof. unfold run_samples. by rewrite foldl_app. Qed.

Lemma repeated_distance s h t rec n :
  reference_stage_for_telemetry t = Ok rec →
  (distance rec (run_samples s (h ++ replicate n t))
   ≤ Z.max 0 (distance rec (run_samples s h) - Z.of_nat n))%Z.
Proof.
  intros Ht. induction n as [|n IH]; [rewrite app_nil_r; lia|].
  rewrite <- replicate_snoc, app_assoc, run_samples_snoc, observe_eq, Ht.
  pose proof (follow_distance _ _ rec (is_critical t) (run_samples_ok s (h ++ replicate n t))) as Hd.
  destruct (follow _ _ _) as [c' changed]. cbn in *. lia.
Qed.

(** * Claims about the stage *)

(** A change of stage is always confirmed.  From any history of samples, an invalid sample
    changes nothing; a valid one gives the decision of the stage it leaves.  The stage gets
    worse only to the stage the sample recommends, at once when that is the fallback or the
    device is critically hot, otherwise when the sample before recommended it too; it gets
    better only by one rung, when this sample and the three before it all recommended the same
    better stage. *)
Theorem adaptive_changes_are_confirmed s h t :
  let c := run_samples s h in
  match reference_stage_for_telemetry t with
  | Err e => observe t c = (c, Err (AmProtocol e))
  | Ok rec => ∃ c' d,
      observe t c = (c', Ok d)
      ∧ ad_stage d = ac_current_stage c'
      ∧ ad_changed d = negb (bool_decide (ac_current_stage c' = ac_current_stage c))
      ∧ bool_decide (is_Some (ad_video d)) = is_video_stage (ad_stage d)
      ∧ confirmed_change (ac_current_stage c) rec (ac_current_stage c') (is_critical t)
          (recommendations h)
  end.
Proof.
  cbv zeta. rewrite observe_eq. pose proof (reference_stage_pressures t) as Hp.
  destruct (reference_stage_for_telemetry t) as [rec|e]; [|done].
  pose proof (follow_spec _ _ rec (is_critical t) (run_samples_ok s h)) as Hf.
  pose proof (follow_changed (run_samples s h) rec (is_critical t)) as Hch.
  destruct (follow rec (is_critical t) (run_samples s h)) as [c' changed]. cbn in Hch.
  destruct (adaptive_media_pressures t) as [p|]; [|done]. cbn.
  unfold adaptive_decision.
  destruct (reference_video_config_ok (ac_current_stage c')) as (config & -> & Hv). cbn.
  eexists _, _. split_and!; [done..|apply Hf].
Qed.

(** C32: Quality settles: whatever happened before, 24 equal samples in a row bring the stage to
    the one they recommend, and it stays there while they last. *)
Theorem adaptive_quality_settles s h t rec n :
  reference_stage_for_telemetry t = Ok rec → 24 ≤ n →
  ac_current_stage (run_samples s (h ++ replicate n t)) = rec.
Proof.
  intros Ht Hn. eapply distance_zero; [apply run_samples_ok|].
  pose proof (repeated_distance s h t rec n Ht).
  pose proof (distance_bound _ _ rec (run_samples_ok s h)). lia.
Qed.

Definition good_sample : AdaptiveMediaTelemetry :=
  mk_media_telemetry 6000000 0 10 40 20 None 80 true MtNominal.
Definition bad_sample : AdaptiveMediaTelemetry :=
  mk_media_telemetry 10000 0 10 40 20 None 80 true MtNominal.

(** The bound is reached: after 23 samples the recovery from the fallback is not complete. *)
Lemma adaptive_quality_settles_witness :
  ac_current_stage (run_samples Video1080p ([bad_sample] ++ replicate 23 good_sample)) = Video720p
  ∧ ac_current_stage (run_samples Video1080p ([bad_sample] ++ replicate 24 good_sample))
    = Video1080p.
Proof.
  split; [by vm_compute|].
  apply (adaptive_quality_settles Video1080p [bad_sample] good_sample); [by vm_compute|lia].
Defined.

(** * The layer of one viewer *)

Record viewing := mk_viewing {
  vi_stage : AdaptiveMediaStage;
  vi_width : Z;
  vi_height : Z;
  vi_layers : list ViewerVideoLayer;
}.
Definition best_layer (o : viewing) : result ViewerLayerSelectionError (option ViewerVideoLayer) :=
  select_viewer_video_layer (vi_stage o) (vi_width o) (vi_height o) (vi_layers o).
Definition view (o : viewing) :
    op ViewerLayerController ViewerLayerSelectionError (option ViewerVideoLayer) :=
  viewer_observe (vi_stage o) (vi_width o) (vi_height o) (vi_layers o).
Definition run_views (h : list viewing) : ViewerLayerController :=
  foldl (λ v o, (view o v).1) viewer_new h.

(** A layer the viewer may be shown: offered, within the viewport and the stage's ceiling. *)
Definition suits (o : viewing) (l : ViewerVideoLayer) : Prop :=
  l ∈ vi_layers o ∧ (vl_width l ≤ vi_width o)%Z ∧ (vl_height l ≤ vi_height o)%Z
  ∧ ∃ cap, reference_video_config (vi_stage o) = Ok (Some cap)
      ∧ (vl_width l ≤ vc_width cap ∧ vl_height l ≤ vc_height cap
         ∧ vl_frame_rate l ≤ vc_frame_rate cap ∧ vl_bitrate_bps l ≤ vc_target_bitrate_bps cap)%Z.

Definition at_most (l m : ViewerVideoLayer) : Prop :=
  quality_cmp (layer_quality l) (layer_quality m) ≠ Gt.

Lemma still_suitable_spec o l :
  still_suitable (vi_stage o) (vi_width o) (vi_height o) (vi_layers o) l = true ↔ suits o l.
Proof.
  unfold still_suitable, suits. rewrite !andb_true_iff, existsb_exists, !Z.leb_le.
  assert ((∃ x, In x (vi_layers o) ∧ bool_decide (x = l) = true) ↔ l ∈ vi_layers o) as ->.
  { split.
    - intros (x & Hx & ->%bool_decide_eq_true). by rewrite list_elem_of_In.
    - intros Hl. exists l. rewrite <- list_elem_of_In. by rewrite bool_decide_eq_true. }
  destruct (reference_video_config (vi_stage o)) as [[cap|]|];
    rewrite ?andb_true_iff, ?Z.leb_le; naive_solver.
Qed.

Lemma quality_total : TotalCmp quality_cmp.
Proof. unfold quality_cmp. apply _. Qed.

Lemma max_by_key_max {A K} (cmp : K → K → comparison) (key : A → K) `{!TotalCmp cmp} l x y :
  max_by_key cmp key l = Some x → y ∈ l → cmp (key y) (key x) ≠ Gt.
Proof.
  intros (l1 & l2 & -> & H1 & H2)%max_split [Hy|[->|Hy]%elem_of_cons]%elem_of_app; [..|done].
  - by eapply Forall_forall in Hy; [|exact H1].
  - by rewrite cmp_refl.
  - eapply Forall_forall in Hy; [|exact H2]. cbn in Hy. by rewrite cmp_opp, Hy.
Qed.

Lemma fitting_layers o cap l :
  reference_video_config (vi_stage o) = Ok (Some cap) →
  l ∈ List.filter (layer_fits cap (Z.min (vi_width o) (vc_width cap))
                     (Z.min (vi_height o) (vc_height cap))) (vi_layers o) ↔ suits o l.
Proof.
  intros Hcap. rewrite list_elem_of_In, filter_In, <- list_elem_of_In. unfold layer_fits, suits.
  rewrite !andb_true_iff, !Z.leb_le, !Z.min_glb_iff, Hcap. naive_solver.
Qed.

Lemma best_layer_spec o best :
  best_layer o = Ok best →
  match best with
  | Some b => suits o b ∧ ∀ l, suits o l → at_most l b
  | None => ∀ l, ¬ suits o l
  end.
Proof.
  unfold best_layer, select_viewer_video_layer.
  destruct (reference_video_config_ok (vi_stage o)) as (config & Hcfg & _).
  rewrite Hcfg. destruct (_ || _ || _ || _); [done|]. destruct (8 <? _); [done|].
  destruct (check_layers _ _); [|done]. cbn. destruct config as [cap|].
  - intros [= <-]. destruct (max_by_key _ _ _) as [b|] eqn:E.
    + split; [by eapply fitting_layers, max_by_key_In|].
      intros l Hl. eapply max_by_key_max; [apply quality_total|exact E|].
      by apply fitting_layers.
    + apply max_by_key_None in E. intros l Hl. apply (fitting_layers o cap) in Hl; [|done].
      rewrite E in Hl. by apply elem_of_nil in Hl.
  - intros [= <-] l (_ & _ & _ & cap & Hcap & _). congruence.
Qed.

(** The preferences of the observations that were accepted, oldest first. *)
Definition preferences (h : list viewing) : list (option ViewerVideoLayer) :=
  omap (λ o, match best_layer o with Ok b => Some b | Err _ => None end) h.

(** A pending improvement was preferred by the last observation, once. *)
Definition viewer_ok (v : ViewerLayerController) (prefs : list (option ViewerVideoLayer)) : Prop :=
  match vw_pending_improvement v with
  | None => vw_improvement_samples v = 0%Z
  | Some c => vw_improvement_samples v = 1%Z ∧ last prefs = Some (Some c)
  end.

(** A step of the viewer, by what it does to the layer shown. *)
Definition confirmed_layer (o : viewing) (old new best : option ViewerVideoLayer)
    (prefs : list (option ViewerVideoLayer)) : Prop :=
  match best with
  | None => new = None
  | Some b =>
      (∃ l, new = Some l ∧ suits o l ∧ at_most l b)
      ∧ ∀ l, old = Some l → suits o l → new ≠ old →
          new = Some b
          ∧ (quality_cmp (layer_quality b) (layer_quality l) = Lt ∨ last prefs = Some (Some b))
  end.

Lemma follow_candidate_spec o v b prefs suitable :
  viewer_ok v prefs → best_layer o = Ok (Some b) →
  (∀ l, vw_selected v = Some l → suitable = true ↔ suits o l) →
  (vw_selected v = None → suitable = false) →
  let v' := follow_candidate suitable b v in
  viewer_ok v' (prefs ++ [Some b])
  ∧ confirmed_layer o (vw_selected v) (vw_selected v') (Some b) prefs.
Proof.
  intros Hv [Hb Hmax]%best_layer_spec Hsuit Hnone. cbv zeta.
  assert (∃ l, Some b = Some l ∧ suits o l ∧ at_most l b) as Hshow.
  { exists b. split_and!; [done..|]. unfold at_most. by rewrite (cmp_refl quality_cmp). }
  unfold follow_candidate. destruct suitable; cbn [negb].
  2:{ split; [done|]. split; [done|]. intros l Hl [=]%Hsuit; done. }
  case_bool_decide as Heq; [by split; [done|split; [rewrite Heq|]]|].
  destruct (vw_selected v) as [cur|] eqn:Hcur; [|by specialize (Hnone eq_refl)].
  assert (suits o cur) as Hcs by (by apply (Hsuit cur)).
  assert (∃ l, Some cur = Some l ∧ suits o l ∧ at_most l b) as Hstay by (exists cur; auto).
  destruct (quality_cmp (layer_quality b) (layer_quality cur)) eqn:Eq.
  2:{ split; [done|]. split; [done|]. intros l [= ->] _ _. auto. }
  all: case_bool_decide as Hp; unfold viewer_ok in Hv.
  all: try by (cbn; split; [split; [done|apply last_snoc]|split; [done|]]).
  all: rewrite Hp in Hv; destruct Hv as [-> Hlast]; cbn; split; [done|]; split; [done|];
    intros l [= ->] _ _; auto.
Qed.

Lemma view_spec o v prefs :
  viewer_ok v prefs →
  match best_layer o with
  | Err e => view o v = (v, Err e)
  | Ok best =>
      let '(v', r) := view o v in
      r = Ok (vw_selected v') ∧ viewer_ok v' (prefs ++ [best])
      ∧ confirmed_layer o (vw_selected v) (vw_selected v') best prefs
  end.
Proof.
  intros Hv. unfold view, viewer_observe, mbind, op_bind, lift, get, put.
  fold (best_layer o). destruct (best_layer o) as [[b|]|] eqn:Hb; [|done..]. cbn.
  split; [done|]. apply follow_candidate_spec; [done..| |].
  - intros l ->. apply still_suitable_spec.
  - by intros ->.
Qed.

Lemma run_views_ok h : viewer_ok (run_views h) (preferences h).
Proof.
  unfold run_views, preferences. induction h as [|o h IH] using rev_ind; [done|].
  rewrite foldl_app, omap_app. cbn. pose proof (view_spec o _ _ IH) as Hs.
  destruct (best_layer o) as [best|e]; cbn; [|by rewrite Hs, app_nil_r].
  destruct (view o _) as [v' r]. apply Hs.
Qed.

(** A viewer is shown the best layer it can use, without flicker.  The preferred layer is
    the best of the offered layers that fit the viewport and the stage, and there is none when
    none fits.  After any history an invalid observation changes nothing; a valid one shows
    nothing when nothing fits, otherwise a layer that fits and is no better than the preferred
    one.  While the layer shown before still fits, it is replaced by the preferred layer only,
    and only when that is of lower quality or was preferred by the observation before too. *)
Theorem viewer_layer_is_fitting_and_confirmed h o :
  let v := run_views h in
  match best_layer o with
  | Err e => view o v = (v, Err e)
  | Ok best =>
      match best with
      | Some b => suits o b ∧ ∀ l, suits o l → at_most l b
      | None => ∀ l, ¬ suits o l
      end
      ∧ let '(v', r) := view o v in
        r = Ok (vw_selected v')
        ∧ confirmed_layer o (vw_selected v) (vw_selected v') best (preferences h)
  end.
Proof.
  cbv zeta. pose proof (view_spec o _ _ (run_views_ok h)) as Hs.
  destruct (best_layer o) as [best|e] eqn:Hb; [|done]. split; [by apply best_layer_spec|].
  destruct (view o (run_views h)) as [v' r]. naive_solver.
Qed.
