(* ===== verification/JoinToken.v ===== *)
(** Join tokens of realtime sessions: the claims, their binary form, signing, verification,
    and the registry of grants with redemption and revocation
    (crates/ucr-realtime/src/lib.rs, [JoinTokenIssuer]).

    The base64 and HMAC-SHA-256 crates are the class [TokenCrypto].  The secret provider and
    the random source are outside the issuer; what they answer in a call is an argument. *)

From S2P Require Import Prelude Ids StoreForward Store.

(** * What the third-party crates promise *)

Class TokenCrypto := {
  (** [URL_SAFE_NO_PAD.encode] and [decode]. *)
  base64_encode : bytes → bytes;
  base64_decode : bytes → option bytes;
  (** [HmacSha256] of a key over a payload. *)
  hmac_sha256 : bytes → bytes → bytes;
  base64_roundtrip x : base64_decode (base64_encode x) = Some x;
  (** The alphabet is letters, digits, [-] and [_]; 46 is the dot. *)
  base64_no_dot x : 46%Z ∉ base64_encode x;
}.

(** * Data *)

Inductive JoinGrantUsePolicy := JgSingleUse | JgReusable.
#[global] Instance JoinGrantUsePolicy_eq_dec : EqDecision JoinGrantUsePolicy.
Proof. solve_decision. Defined.

Record RealtimeSessionClaims := mk_claims {
  rc_scope : TenantScope;
  rc_call_id : CallId;
  rc_participant : PrincipalRef;
  rc_device_id : option DeviceId;
  rc_session_id : SessionId;
  rc_issued_at_unix_ms : Z; (* i64 *)
  rc_not_before_unix_ms : Z; (* i64 *)
  rc_expires_at_unix_ms : Z; (* i64 *)
  rc_use_policy : JoinGrantUsePolicy;
}.
#[global] Instance RealtimeSessionClaims_eq_dec : EqDecision RealtimeSessionClaims.
Proof. solve_decision. Defined.

Record IssuedJoinGrant := mk_issued {
  ig_claims : RealtimeSessionClaims;
  ig_join_url : bytes;
}.

Inductive JoinTokenError :=
  JtInvalidBaseUrl | JtInvalidTtl | JtInvalidWindow | JtClockOverflow | JtRandomUnavailable
| JtMalformed | JtInvalidSignature | JtNotYetValid | JtExpired | JtUnknownGrant | JtRevoked
| JtAlreadyUsed | JtCapacityExceeded | JtStateUnavailable | JtKeyUnavailable | JtInternal.
#[global] Instance JoinTokenError_eq_dec : EqDecision JoinTokenError.
Proof. solve_decision. Defined.

(** A key is 32 bytes. *)
Abbreviation JoinTokenKey := bytes.
Inductive JoinTokenKeySource := JkStatic (key : JoinTokenKey) | JkProvider.

(** [active_secret_set]: the current and the previous key material, or a failure. *)
Abbreviation secret_answer := (option (bytes * option bytes)).

Record JoinGrantState := mk_grant {
  jg_claims : RealtimeSessionClaims;
  jg_revoked : bool;
  jg_redeemed : bool;
}.

Record JoinTokenIssuer := mk_issuer {
  ji_key_source : JoinTokenKeySource;
  ji_join_base_url : bytes;
  ji_grants : list JoinGrantState;
}.
Definition set_grants (g : list JoinGrantState) (i : JoinTokenIssuer) : JoinTokenIssuer :=
  mk_issuer (ji_key_source i) (ji_join_base_url i) g.

Definition MIN_JOIN_TTL_SECONDS : Z := 30.
Definition MAX_JOIN_TTL_SECONDS : Z := 900.
Definition MAX_JOIN_GRANTS : nat := 4096.

Abbreviation issuer_op := (op JoinTokenIssuer JoinTokenError).

(** * The binary form of claims *)

Definition push_id (id : OpaqueId) : result JoinTokenError bytes :=
  reject_if (u16_max <? Z.of_nat (length (as_wire_bytes id)))%Z JtMalformed ;;
  Ok (len_prefixed 2 (as_wire_bytes id)).

Definition push_optional (id : option OpaqueId) : result JoinTokenError bytes :=
  match id with
  | Some id => text ← push_id id; Ok (1%Z :: text)
  | None => Ok [0%Z]
  end.

Definition use_policy_code (p : JoinGrantUsePolicy) : Z :=
  match p with JgSingleUse => 1 | JgReusable => 2 end.

Definition encode_claims (claims : RealtimeSessionClaims) : result JoinTokenError bytes :=
  tenant ← push_id (tenant_id (rc_scope claims));
  namespace ← push_optional (namespace_id (rc_scope claims));
  call ← push_id (rc_call_id claims);
  principal ← push_id (principal_id (rc_participant claims));
  device ← push_optional (rc_device_id claims);
  session ← push_id (rc_session_id claims);
  Ok ([2%Z] ++ tenant ++ namespace ++ call
      ++ [principal_kind_code (principal_kind (rc_participant claims))] ++ principal
      ++ device ++ session
      ++ be_bytes 8 (rc_issued_at_unix_ms claims)
      ++ be_bytes 8 (rc_expires_at_unix_ms claims)
      ++ be_bytes 8 (rc_not_before_unix_ms claims)
      ++ [use_policy_code (rc_use_policy claims)]).

(** A reader returns what it read and the bytes behind the cursor. *)
Definition reader (A : Type) : Type := bytes → result JoinTokenError (A * bytes).
#[global] Instance reader_ret : MRet reader := λ A a rest, Ok (a, rest).
#[global] Instance reader_bind : MBind reader := λ A B k m rest,
  match m rest with Ok (a, rest) => k a rest | Err e => Err e end.
Definition malformed {A} : reader A := λ _, Err JtMalformed.

Definition take_bytes (n : nat) : reader bytes := λ rest,
  if length rest <? n then Err JtMalformed else Ok (take n rest, drop n rest).

Definition take_u8 : reader Z :=
  slice ← take_bytes 1;
  match slice with b :: _ => mret b | [] => malformed end.

(** [i64::from_be_bytes]. *)
Definition i64_from_be_bytes (l : bytes) : Z :=
  let v := be_value l in if (v <? 2 ^ 63)%Z then v else (v - 2 ^ 64)%Z.
Definition take_i64 : reader Z :=
  slice ← take_bytes 8;
  mret (i64_from_be_bytes slice).

Definition take_id : reader OpaqueId :=
  length_bytes ← take_bytes 2;
  value ← take_bytes (Z.to_nat (be_value length_bytes));
  match from_wire_bytes value with Ok id => mret id | Err _ => malformed end.

Definition take_optional : reader (option OpaqueId) :=
  tag ← take_u8;
  match tag with
  | 0%Z => mret None
  | 1%Z => id ← take_id; mret (Some id)
  | _ => malformed
  end.

Definition principal_kind_from_code (value : Z) : reader PrincipalKind :=
  match value with
  | 1%Z => mret PkPerson | 2%Z => mret PkDevice | 3%Z => mret PkServiceAccount
  | 4%Z => mret PkAiAgent | 5%Z => mret PkBot | 6%Z => mret PkOrganization
  | 7%Z => mret PkAutomation | 8%Z => mret PkExternalPlatform
  | _ => malformed
  end.

(** The fields version 2 added; version 1 means them to be these. *)
Definition take_window (version issued_at : Z) : reader (Z * JoinGrantUsePolicy) :=
  if (version =? 1)%Z then mret (issued_at, JgReusable)
  else
    not_before ← take_i64;
    code ← take_u8;
    match code with
    | 1%Z => mret (not_before, JgSingleUse)
    | 2%Z => mret (not_before, JgReusable)
    | _ => malformed
    end.

Definition take_claims : reader RealtimeSessionClaims :=
  version ← take_u8;
  if negb ((version =? 1)%Z || (version =? 2)%Z) then malformed else
  tenant ← take_id;
  namespace ← take_optional;
  call ← take_id;
  kind_code ← take_u8;
  kind ← principal_kind_from_code kind_code;
  principal ← take_id;
  device ← take_optional;
  session ← take_id;
  issued_at ← take_i64;
  expires_at ← take_i64;
  window ← take_window version issued_at;
  mret (mk_claims (mk_scope tenant namespace) call (mk_principal principal kind) device session
          issued_at window.1 expires_at window.2).

Definition decode_claims (payload : bytes) : result JoinTokenError RealtimeSessionClaims :=
  r ← take_claims payload;
  reject_if (negb (length r.2 =? 0)) JtMalformed ;;
  Ok r.1.

(** * Keys *)

Definition join_token_key_from_material (material : bytes) : result JoinTokenError JoinTokenKey :=
  reject_if (negb (length material =? 32)) JtKeyUnavailable ;;
  Ok material.

Definition current_signing_key (source : JoinTokenKeySource) (secrets : secret_answer) :
    result JoinTokenError JoinTokenKey :=
  match source with
  | JkStatic key => Ok key
  | JkProvider =>
      set ← ok_or secrets JtKeyUnavailable;
      join_token_key_from_material set.1
  end.

Definition verification_keys (source : JoinTokenKeySource) (secrets : secret_answer) :
    result JoinTokenError (list JoinTokenKey) :=
  match source with
  | JkStatic key => Ok [key]
  | JkProvider =>
      set ← ok_or secrets JtKeyUnavailable;
      current ← join_token_key_from_material set.1;
      match set.2 with
      | Some previous =>
          previous ← join_token_key_from_material previous;
          Ok [current; previous]
      | None => Ok [current]
      end
  end.

(** * Construction *)

(** [haystack.contains(needle)]. *)
Fixpoint contains (needle haystack : bytes) : bool :=
  bool_decide (take (length needle) haystack = needle)
  || match haystack with [] => false | _ :: rest => contains needle rest end.

(** The UTF-8 forms of the characters of [char::is_whitespace]. *)
Definition whitespace : list bytes :=
  [[9]; [10]; [11]; [12]; [13]; [32]; [194; 133]; [194; 160]; [225; 154; 128];
   [226; 128; 128]; [226; 128; 129]; [226; 128; 130]; [226; 128; 131]; [226; 128; 132];
   [226; 128; 133]; [226; 128; 134]; [226; 128; 135]; [226; 128; 136]; [226; 128; 137];
   [226; 128; 138]; [226; 128; 168]; [226; 128; 169]; [226; 128; 175]; [226; 129; 159];
   [227; 128; 128]]%Z.

Definition invalid_base_url (url : bytes) : bool :=
  negb (bool_decide (take 8 url = str "https://"))
  || contains (str "#") url
  || existsb (λ w, contains w url) whitespace.

Definition issuer_new (key : JoinTokenKey) (join_base_url : bytes) :
    result JoinTokenError JoinTokenIssuer :=
  reject_if (invalid_base_url join_base_url) JtInvalidBaseUrl ;;
  Ok (mk_issuer (JkStatic key) join_base_url []).

(** [join_purpose]: the handle names a join signing secret. *)
Definition issuer_with_secret_provider (join_purpose : bool) (secrets : secret_answer)
    (join_base_url : bytes) : result JoinTokenError JoinTokenIssuer :=
  reject_if (negb join_purpose) JtKeyUnavailable ;;
  reject_if (invalid_base_url join_base_url) JtInvalidBaseUrl ;;
  verification_keys JkProvider secrets ;;
  Ok (mk_issuer JkProvider join_base_url []).

(** * Tokens *)

Definition checked_mul_i64 (a b : Z) : option Z := i64_try_from (a * b)%Z.
Definition checked_sub_i64 (a b : Z) : option Z := i64_try_from (a - b)%Z.

(** [str::split_once('.')]. *)
Fixpoint split_once_dot (l : bytes) : option (bytes * bytes) :=
  match l with
  | [] => None
  | c :: l =>
      if (c =? 46)%Z then Some ([], l)
      else '(before, after) ← split_once_dot l; Some (c :: before, after)
  end.

(** The window an explicit or default pair of bounds gives, as both issuing functions check. *)
Definition grant_window (ttl_seconds : Z) (not_before not_after : option Z) (now : Z) :
    result JoinTokenError (Z * Z) :=
  reject_if (negb (in_range MIN_JOIN_TTL_SECONDS MAX_JOIN_TTL_SECONDS ttl_seconds)) JtInvalidTtl ;;
  ttl_ms ← ok_or (checked_mul_i64 ttl_seconds 1000) JtClockOverflow;
  maximum_expiry ← ok_or (checked_add_i64 now ttl_ms) JtClockOverflow;
  let not_before := default now not_before in
  let expires_at := default maximum_expiry not_after in
  minimum_expiry ← ok_or (checked_add_i64 now (MIN_JOIN_TTL_SECONDS * 1000)) JtClockOverflow;
  reject_if ((not_before <? now)%Z || (expires_at <=? not_before)%Z
             || (expires_at <? minimum_expiry)%Z || (maximum_expiry <? expires_at)%Z)
    JtInvalidWindow ;;
  Ok (not_before, expires_at).

(** Who may join what. *)
Record grant_subject := mk_subject {
  gs_scope : TenantScope;
  gs_call_id : CallId;
  gs_participant : PrincipalRef;
  gs_device_id : option DeviceId;
}.
Definition claims_of (s : grant_subject) (session_id : SessionId) (use_policy : JoinGrantUsePolicy)
    (window : Z * Z) (now : Z) : RealtimeSessionClaims :=
  mk_claims (gs_scope s) (gs_call_id s) (gs_participant s) (gs_device_id s) session_id now
    window.1 window.2 use_policy.

(** [entries.iter().find(|entry| entry.claims.session_id == ..)], with the position so that
    the entry can be written back. *)
Definition grant_of_session (session_id : SessionId) (grants : list JoinGrantState) :
    option (nat * JoinGrantState) :=
  i ← position (λ g, bool_decide (rc_session_id (jg_claims g) = session_id)) grants;
  g ← grants !! i;
  Some (i, g).
Definition grant_of_scoped_session (scope : TenantScope) (session_id : SessionId)
    (grants : list JoinGrantState) : option (nat * JoinGrantState) :=
  i ← position (λ g, bool_decide (rc_scope (jg_claims g) = scope)
                     && bool_decide (rc_session_id (jg_claims g) = session_id)) grants;
  g ← grants !! i;
  Some (i, g).

Section tokens.
Context `{!TokenCrypto}.

Definition sign (i : JoinTokenIssuer) (secrets : secret_answer) (claims : RealtimeSessionClaims) :
    result JoinTokenError bytes :=
  payload ← encode_claims claims;
  key ← current_signing_key (ji_key_source i) secrets;
  Ok (base64_encode payload ++ str "." ++ base64_encode (hmac_sha256 key payload)).

Definition signed_grant_for_claims (i : JoinTokenIssuer) (secrets : secret_answer)
    (claims : RealtimeSessionClaims) : result JoinTokenError IssuedJoinGrant :=
  token ← sign i secrets claims;
  Ok (mk_issued claims (ji_join_base_url i ++ str "#ucr_join=" ++ token)).

(** [random] is what [generate_opaque_id] returns. *)
Definition issue_with_policy (subject : grant_subject) (ttl_seconds : Z)
    (use_policy : JoinGrantUsePolicy) (not_before not_after : option Z) (now : Z)
    (random : option OpaqueId) (secrets : secret_answer) : issuer_op IssuedJoinGrant :=
  window ← lift (grant_window ttl_seconds not_before not_after now);
  session_id ← lift (ok_or random JtRandomUnavailable);
  let claims := claims_of subject session_id use_policy window now in
  i ← get;
  issued ← lift (signed_grant_for_claims i secrets claims);
  let grants := List.filter (λ g, (now <? rc_expires_at_unix_ms (jg_claims g))%Z) (ji_grants i) in
  put (set_grants grants i) ;;
  guard (MAX_JOIN_GRANTS <=? length grants) JtCapacityExceeded ;;
  put (set_grants (grants ++ [mk_grant claims false false]) i) ;;
  mret issued.

Definition issue (subject : grant_subject) (ttl_seconds now : Z) (random : option OpaqueId)
    (secrets : secret_answer) : issuer_op IssuedJoinGrant :=
  issue_with_policy subject ttl_seconds JgReusable None None now random secrets.

Definition issue_with_session_id (i : JoinTokenIssuer) (subject : grant_subject)
    (session_id : SessionId) (ttl_seconds : Z) (use_policy : JoinGrantUsePolicy)
    (not_before not_after : option Z) (now : Z) (secrets : secret_answer) :
    result JoinTokenError IssuedJoinGrant :=
  window ← grant_window ttl_seconds not_before not_after now;
  signed_grant_for_claims i secrets (claims_of subject session_id use_policy window now).

Definition verify_signed (i : JoinTokenIssuer) (secrets : secret_answer) (token : bytes)
    (now : Z) : result JoinTokenError RealtimeSessionClaims :=
  parts ← ok_or (split_once_dot token) JtMalformed;
  reject_if (contains (str ".") parts.2) JtMalformed ;;
  payload ← ok_or (base64_decode parts.1) JtMalformed;
  signature ← ok_or (base64_decode parts.2) JtMalformed;
  keys ← verification_keys (ji_key_source i) secrets;
  reject_if (negb (existsb (λ key, bool_decide (hmac_sha256 key payload = signature)) keys))
    JtInvalidSignature ;;
  claims ← decode_claims payload;
  reject_if ((rc_not_before_unix_ms claims <? rc_issued_at_unix_ms claims)%Z
             || (rc_expires_at_unix_ms claims <=? rc_not_before_unix_ms claims)%Z) JtMalformed ;;
  reject_if (now <? rc_not_before_unix_ms claims)%Z JtNotYetValid ;;
  reject_if (rc_expires_at_unix_ms claims <=? now)%Z JtExpired ;;
  lifetime ← ok_or (checked_sub_i64 (rc_expires_at_unix_ms claims) (rc_issued_at_unix_ms claims))
               JtMalformed;
  reject_if ((lifetime <? MIN_JOIN_TTL_SECONDS * 1000)%Z
             || (MAX_JOIN_TTL_SECONDS * 1000 <? lifetime)%Z) JtMalformed ;;
  Ok claims.

Definition require_live_grant (i : JoinTokenIssuer) (claims : RealtimeSessionClaims) :
    result JoinTokenError unit :=
  found ← ok_or (grant_of_session (rc_session_id claims) (ji_grants i)) JtUnknownGrant;
  reject_if (negb (bool_decide (jg_claims found.2 = claims))) JtMalformed ;;
  reject_if (jg_revoked found.2) JtRevoked.

Definition verify (i : JoinTokenIssuer) (secrets : secret_answer) (token : bytes) (now : Z) :
    result JoinTokenError RealtimeSessionClaims :=
  claims ← verify_signed i secrets token now;
  require_live_grant i claims ;;
  Ok claims.

Definition redeem (token : bytes) (now : Z) (secrets : secret_answer) :
    issuer_op RealtimeSessionClaims :=
  i ← get;
  claims ← lift (verify_signed i secrets token now);
  found ← lift (ok_or (grant_of_session (rc_session_id claims) (ji_grants i)) JtUnknownGrant);
  let entry := found.2 in
  guard (negb (bool_decide (jg_claims entry = claims))) JtMalformed ;;
  guard (jg_revoked entry) JtRevoked ;;
  guard (bool_decide (rc_use_policy (jg_claims entry) = JgSingleUse) && jg_redeemed entry)
    JtAlreadyUsed ;;
  put (set_grants (<[found.1 := mk_grant (jg_claims entry) (jg_revoked entry) true]>
                     (ji_grants i)) i) ;;
  mret claims.

Definition validate_live_claims (i : JoinTokenIssuer) (claims : RealtimeSessionClaims) (now : Z) :
    result JoinTokenError unit :=
  reject_if (now <? rc_not_before_unix_ms claims)%Z JtNotYetValid ;;
  reject_if (rc_expires_at_unix_ms claims <=? now)%Z JtExpired ;;
  require_live_grant i claims.

Definition grant_claims (i : JoinTokenIssuer) (scope : TenantScope) (session_id : SessionId) :
    option RealtimeSessionClaims :=
  jg_claims ∘ snd <$> grant_of_scoped_session scope session_id (ji_grants i).

Definition revoke (scope : TenantScope) (session_id : SessionId) :
    issuer_op RealtimeSessionClaims :=
  i ← get;
  found ← lift (ok_or (grant_of_scoped_session scope session_id (ji_grants i)) JtUnknownGrant);
  let entry := found.2 in
  put (set_grants (<[found.1 := mk_grant (jg_claims entry) true (jg_redeemed entry)]>
                     (ji_grants i)) i) ;;
  mret (jg_claims entry).
End tokens.
