(* ===== verification/JoinTokenTheorems.v ===== *)
(** Join tokens: the claims survive the wire, an issued token is accepted until it is revoked,
    used up or expired, and a grant is used and revoked as promised. *)

From S2P Require Import Prelude Ids StoreForward Store Memory OpLogic JoinToken.

(** * The codec *)

Lemma take_bytes_app x r : take_bytes (length x) (x ++ r) = Ok (x, r).
Proof.
  unfold take_bytes. rewrite length_app. destruct (Nat.ltb_spec (length x + length r) (length x)); [lia|].
  by rewrite take_app_length, drop_app_length.
Qed.

Lemma take_u8_cons b r : take_u8 (b :: r) = Ok (b, r).
Proof. done. Qed.

Lemma i64_from_be_bytes_be v : is_i64 v → i64_from_be_bytes (be_bytes 8 v) = v.
Proof.
  intros Hv. unfold i64_from_be_bytes. rewrite be_value_be_bytes.
  change (2 ^ (8 * Z.of_nat 8))%Z with (2 ^ 64)%Z. unfold is_i64 in Hv.
  destruct (Z.le_gt_cases 0 v) as [H0|H0].
  - rewrite Z.mod_small by lia. destruct (Z.ltb_spec v (2 ^ 63)); lia.
  - rewrite <- (Z.mod_unique v _ (-1) (v + 2 ^ 64)) by lia.
    destruct (Z.ltb_spec (v + 2 ^ 64) (2 ^ 63)); lia.
Qed.

Lemma take_i64_app v r : is_i64 v → take_i64 (be_bytes 8 v ++ r) = Ok (v, r).
Proof.
  intros Hv. unfold take_i64, mbind, reader_bind.
  rewrite <- (length_be_bytes 8 v) at 1. rewrite take_bytes_app. cbn.
  unfold mret, reader_ret. by rewrite i64_from_be_bytes_be.
Qed.

Lemma from_wire_bytes_id id : from_wire_bytes (as_wire_bytes id) = Ok id.
Proof. rewrite from_wire_bytes_new, opaque_id_new_Ok. done. Qed.

Lemma take_id_app id r : take_id (len_prefixed 2 (as_wire_bytes id) ++ r) = Ok (id, r).
Proof.
  unfold take_id, mbind, reader_bind, len_prefixed. rewrite <- app_assoc.
  rewrite <- (length_be_bytes 2 (Z.of_nat (length (as_wire_bytes id)))) at 1.
  rewrite take_bytes_app. cbn. rewrite be_value_be_bytes.
  pose proof (opaque_id_bounds id) as (_ & Hlen & _). unfold OPAQUE_ID_MAX_LEN in Hlen.
  rewrite Z.mod_small by (change (2 ^ (8 * Z.of_nat 2))%Z with 65536%Z; lia).
  rewrite Nat2Z.id, take_bytes_app. cbn. by rewrite from_wire_bytes_id.
Qed.

Lemma push_id_Ok id : push_id id = Ok (len_prefixed 2 (as_wire_bytes id)).
Proof.
  unfold push_id. pose proof (opaque_id_bounds id) as (_ & Hlen & _).
  unfold OPAQUE_ID_MAX_LEN in Hlen. unfold u16_max.
  destruct (Z.ltb_spec 65535 (Z.of_nat (length (as_wire_bytes id)))); [lia|done].
Qed.

Definition optional_bytes (id : option OpaqueId) : bytes :=
  match id with Some id => 1%Z :: len_prefixed 2 (as_wire_bytes id) | None => [0%Z] end.

Lemma push_optional_Ok id : push_optional id = Ok (optional_bytes id).
Proof. destruct id as [id|]; [|done]. cbn. by rewrite push_id_Ok. Qed.

Lemma take_optional_app id r : take_optional (optional_bytes id ++ r) = Ok (id, r).
Proof.
  destruct id as [id|]; [|done]. unfold take_optional, mbind, reader_bind. cbn.
  rewrite take_u8_cons. by rewrite take_id_app.
Qed.

Definition claims_typed (c : RealtimeSessionClaims) : Prop :=
  is_i64 (rc_issued_at_unix_ms c) ∧ is_i64 (rc_not_before_unix_ms c)
  ∧ is_i64 (rc_expires_at_unix_ms c).

Lemma principal_kind_from_code_ok k r : principal_kind_from_code (principal_kind_code k) r = Ok (k, r).
Proof. by destruct k. Qed.

Lemma take_window_app c r :
  claims_typed c →
  take_window 2 (rc_issued_at_unix_ms c)
    (be_bytes 8 (rc_not_before_unix_ms c) ++ [use_policy_code (rc_use_policy c)] ++ r)
  = Ok ((rc_not_before_unix_ms c, rc_use_policy c), r).
Proof.
  intros (_ & Hn & _). unfold take_window, mbind, reader_bind. cbn [Z.eqb Pos.eqb].
  rewrite take_i64_app by done. cbn [app]. rewrite take_u8_cons. by destruct (rc_use_policy c).
Qed.

Lemma reader_step {A B} (m : reader A) (k : A → reader B) l a r :
  m l = Ok (a, r) → (m ≫= k) l = k a r.
Proof. intros H. unfold mbind, reader_bind. by rewrite H. Qed.

(** Reading back what was written, one field at a time. *)
Ltac read_field lem := erewrite reader_step; [|apply lem; done]; cbn beta iota.

Lemma decode_encode_claims c :
  claims_typed c → ∃ payload, encode_claims c = Ok payload ∧ decode_claims payload = Ok c.
Proof.
  intros Hc. pose proof Hc as (Hi & Hn & He). unfold encode_claims.
  rewrite !push_id_Ok, !push_optional_Ok. cbn. eexists. split; [done|].
  unfold decode_claims. enough (take_claims (2%Z :: _) = Ok (c, [])) as -> by done.
  unfold take_claims. read_field take_u8_cons. cbn [negb orb Z.eqb Pos.eqb].
  read_field take_id_app. read_field take_optional_app. read_field take_id_app.
  read_field take_u8_cons. read_field principal_kind_from_code_ok. read_field take_id_app.
  read_field take_optional_app. read_field take_id_app. read_field take_i64_app.
  read_field take_i64_app. read_field (take_window_app c []).
  by destruct c as [[] ? [] ?????].
Qed.

(** * Tokens *)

Lemma split_once_dot_app x y : 46%Z ∉ x → split_once_dot (x ++ 46%Z :: y) = Some (x, y).
Proof.
  induction x as [|c x IH]; cbn; [done|]. intros [Hc Hx]%not_elem_of_cons.
  destruct (Z.eqb_spec c 46); [congruence|]. by rewrite IH.
Qed.

Lemma contains_dot_false x : 46%Z ∉ x → contains (str ".") x = false.
Proof.
  change (str ".") with [46%Z].
  induction x as [|c x IH]; [done|]. intros [Hc Hx]%not_elem_of_cons.
  cbn [contains]. rewrite IH by done. rewrite orb_false_r. apply bool_decide_eq_false.
  cbn. rewrite take_0. congruence.
Qed.

(** The window every issued grant has. *)
Definition window_ok (c : RealtimeSessionClaims) : Prop :=
  (rc_issued_at_unix_ms c ≤ rc_not_before_unix_ms c < rc_expires_at_unix_ms c
   ∧ MIN_JOIN_TTL_SECONDS * 1000 ≤ rc_expires_at_unix_ms c - rc_issued_at_unix_ms c
     ≤ MAX_JOIN_TTL_SECONDS * 1000)%Z.

Lemma grant_window_Ok ttl nb na now w s sid p :
  is_i64 now → grant_window ttl nb na now = Ok w →
  claims_typed (claims_of s sid p w now) ∧ window_ok (claims_of s sid p w now).
Proof.
  intros Hnow. unfold grant_window, checked_mul_i64. intros H. res_inv.
  rewrite i64_try_from_Some, checked_add_i64_Some in *. unfold in_range in *. bool_norm.
  unfold claims_typed, window_ok, is_i64, i64_min, i64_max, MIN_JOIN_TTL_SECONDS,
    MAX_JOIN_TTL_SECONDS in *. subst w. cbn. lia.
Qed.

Section accepted.
Context {crypto : TokenCrypto}.

Lemma verify_signed_signed i i' secrets secrets' c token key keys t :
  claims_typed c → window_ok c →
  sign i secrets c = Ok token → current_signing_key (ji_key_source i) secrets = Ok key →
  verification_keys (ji_key_source i') secrets' = Ok keys → key ∈ keys →
  (rc_not_before_unix_ms c ≤ t < rc_expires_at_unix_ms c)%Z →
  verify_signed i' secrets' token t = Ok c.
Proof.
  intros Hc Hw Hs Hk Hks Hin Ht. unfold sign in Hs. rewrite Hk in Hs.
  destruct (decode_encode_claims c Hc) as (payload & Hp & Hd). rewrite Hp in Hs.
  injection Hs as <-. unfold verify_signed. change (str "." ++ ?x) with (46%Z :: x).
  rewrite split_once_dot_app by apply base64_no_dot. cbn [mbind result_bind ok_or fst snd].
  rewrite contains_dot_false by apply base64_no_dot. cbn [mbind result_bind reject_if].
  rewrite !base64_roundtrip. cbn [mbind result_bind ok_or]. rewrite Hks.
  cbn [mbind result_bind]. rewrite (proj2 (existsb_exists _ keys)).
  2:{ exists key. rewrite <- list_elem_of_In. by rewrite bool_decide_eq_true. }
  cbn [negb mbind result_bind reject_if]. rewrite Hd. cbn [mbind result_bind].
  destruct Hc as (Hi & Hn & He), Hw as [Hw Hl].
  unfold is_i64, MIN_JOIN_TTL_SECONDS, MAX_JOIN_TTL_SECONDS, checked_sub_i64 in *.
  rewrite (proj2 (i64_try_from_Some _ _)) by (split; [done|unfold i64_min, i64_max; lia]).
  cbn [ok_or mbind result_bind].
  repeat match goal with |- context [(?a <? ?b)%Z] => destruct (Z.ltb_spec a b); [lia|] end.
  repeat match goal with |- context [(?a <=? ?b)%Z] => destruct (Z.leb_spec a b); [lia|] end.
  done.
Qed.
End accepted.

(** * Grants *)

Lemma grant_of_session_Some sid grants j g :
  grant_of_session sid grants = Some (j, g) →
  grants !! j = Some g ∧ g ∈ grants ∧ rc_session_id (jg_claims g) = sid.
Proof.
  unfold grant_of_session. intros (k & Hk & Hg)%bind_Some.
  apply position_Some in Hk as (x & Hx & Hs & Hin). rewrite Hx in Hg. cbn in Hg.
  injection Hg as <- <-. by apply bool_decide_eq_true in Hs.
Qed.

Lemma grant_of_session_unique sid grants g :
  g ∈ grants → rc_session_id (jg_claims g) = sid →
  (∀ g', g' ∈ grants → rc_session_id (jg_claims g') = sid → g' = g) →
  ∃ j, grant_of_session sid grants = Some (j, g).
Proof.
  intros Hg Hs Hu. unfold grant_of_session.
  destruct (position _ grants) as [j|] eqn:E.
  - apply position_Some in E as (x & Hx & Hsx & Hin). exists j. cbn. rewrite Hx. cbn.
    apply bool_decide_eq_true in Hsx. by rewrite (Hu x Hin Hsx).
  - apply position_None in E. rewrite Forall_forall in E. specialize (E g Hg).
    apply bool_decide_eq_false in E. done.
Qed.

Lemma grant_of_scoped_session_Some scope sid grants j g :
  grant_of_scoped_session scope sid grants = Some (j, g) →
  grants !! j = Some g ∧ g ∈ grants ∧ rc_session_id (jg_claims g) = sid
  ∧ rc_scope (jg_claims g) = scope.
Proof.
  unfold grant_of_scoped_session. intros (k & Hk & Hg)%bind_Some.
  apply position_Some in Hk as (x & Hx & Hs & Hin). rewrite Hx in Hg. cbn in Hg.
  injection Hg as <- <-. apply andb_true_iff in Hs as [??].
  by repeat match goal with H : bool_decide _ = true |- _ => apply bool_decide_eq_true in H end.
Qed.

Lemma filter_all {A} (l : list A) : List.filter (λ _, true) l = l.
Proof. induction l as [|x l IH]; cbn; [done|by rewrite IH]. Qed.

Section histories.
Context {crypto : TokenCrypto}.

Inductive grant_call :=
  | GcIssue (subject : grant_subject) (ttl : Z) (p : JoinGrantUsePolicy) (nb na : option Z)
      (now : Z) (random : option OpaqueId) (secrets : secret_answer)
  | GcRedeem (token : bytes) (now : Z) (secrets : secret_answer)
  | GcRevoke (scope : TenantScope) (session_id : SessionId).

(** What was granted, used and withdrawn, in order. *)
Inductive grant_event :=
  | GvIssued (c : RealtimeSessionClaims)
  | GvRedeemed (c : RealtimeSessionClaims)
  | GvRevoked (c : RealtimeSessionClaims).
#[global] Instance grant_event_eq_dec : EqDecision grant_event.
Proof. solve_decision. Defined.

Definition event_of (ev : RealtimeSessionClaims → grant_event)
    (r : result JoinTokenError RealtimeSessionClaims) : list grant_event :=
  match r with Ok c => [ev c] | Err _ => [] end.

Definition exec_grant (c : grant_call) (s : JoinTokenIssuer * list grant_event) :
    JoinTokenIssuer * list grant_event :=
  let '(i, log) := s in
  match c with
  | GcIssue subject ttl p nb na now random secrets =>
      let '(i', r) := issue_with_policy subject ttl p nb na now random secrets i in
      (i', log ++ event_of GvIssued (issued ← r; Ok (ig_claims issued)))
  | GcRedeem token now secrets =>
      let '(i', r) := redeem token now secrets i in (i', log ++ event_of GvRedeemed r)
  | GcRevoke scope session_id =>
      let '(i', r) := revoke scope session_id i in (i', log ++ event_of GvRevoked r)
  end.

Definition run_grants (i : JoinTokenIssuer) (h : list grant_call) :
    JoinTokenIssuer * list grant_event :=
  foldl (λ s c, exec_grant c s) (i, []) h.

Lemma issue_wp subject ttl p nb na now random secrets i :
  wp (issue_with_policy subject ttl p nb na now random secrets) i (λ i' r,
    ∃ f, (∀ g, (now < rc_expires_at_unix_ms (jg_claims g))%Z → f g = true)
      ∧ ji_key_source i' = ji_key_source i ∧ ji_join_base_url i' = ji_join_base_url i
      ∧ match r with
        | Ok issued => ∃ w sid,
            random = Some sid ∧ grant_window ttl nb na now = Ok w
            ∧ ig_claims issued = claims_of subject sid p w now
            ∧ signed_grant_for_claims i secrets (ig_claims issued) = Ok issued
            ∧ ji_grants i'
              = List.filter f (ji_grants i) ++ [mk_grant (ig_claims issued) false false]
        | Err _ => ji_grants i' = List.filter f (ji_grants i)
        end).
Proof.
  unfold issue_with_policy. wp_steps.
  1: { assert (ig_claims a1 = claims_of subject a0 p a now) as E
         by (unfold signed_grant_for_claims in *; res_inv; by subst).
       eexists _. split_and!; [by intros; apply Z.ltb_lt|done..|].
       eexists _, _. rewrite E. done. }
  2-4: exists (λ _, true); by rewrite filter_all.
  eexists _. split_and!; [by intros; apply Z.ltb_lt|done..].
Qed.
(** * Use and revocation *)

Definition issued_sessions (log : list grant_event) : list SessionId :=
  omap (λ e, match e with GvIssued c => Some (rc_session_id c) | _ => None end) log.
Definition redemptions (c : RealtimeSessionClaims) (log : list grant_event) : nat :=
  length (List.filter (λ e, match e with GvRedeemed c' => bool_decide (c' = c) | _ => false end) log).
Abbreviation session_of g := (rc_session_id (jg_claims g)).

Record grants_ok (grants : list JoinGrantState) (log : list grant_event) : Prop := {
  gok_distinct : NoDup ((λ g, session_of g) <$> grants);
  gok_issued : ∀ g, g ∈ grants → GvIssued (jg_claims g) ∈ log;
  gok_redeemed : ∀ g, g ∈ grants → GvRedeemed (jg_claims g) ∈ log → jg_redeemed g = true;
  gok_revoked : ∀ g, g ∈ grants → GvRevoked (jg_claims g) ∈ log → jg_revoked g = true;
  gok_known : ∀ c, GvRedeemed c ∈ log ∨ GvRevoked c ∈ log → GvIssued c ∈ log;
  gok_single : ∀ c, rc_use_policy c = JgSingleUse → redemptions c log ≤ 1;
}.

Lemma issued_sessions_elem c log : GvIssued c ∈ log → rc_session_id c ∈ issued_sessions log.
Proof. intros H. apply list_elem_of_omap. by exists (GvIssued c). Qed.

Lemma redemptions_app c l k : redemptions c (l ++ k) = redemptions c l + redemptions c k.
Proof. unfold redemptions. by rewrite List.filter_app, length_app. Qed.

Lemma redemptions_none c log : GvRedeemed c ∉ log → redemptions c log = 0.
Proof.
  intros H. unfold redemptions. apply length_zero_iff_nil.
  destruct (List.filter _ log) as [|e l] eqn:E; [done|]. exfalso. apply H.
  assert (In e (List.filter (λ e, match e with
    GvRedeemed c' => bool_decide (c' = c) | _ => false end) log)) as He by (rewrite E; by left).
  apply filter_In in He as [He Hc]. destruct e; try done.
  apply bool_decide_eq_true in Hc as ->. by rewrite list_elem_of_In.
Qed.

Lemma same_session_same_grant grants log g g' :
  grants_ok grants log → g ∈ grants → g' ∈ grants → session_of g = session_of g' → g = g'.
Proof.
  intros H [i Hi]%list_elem_of_lookup [j Hj]%list_elem_of_lookup Hs.
  assert (i = j) as ->; [|congruence].
  eapply NoDup_lookup; [apply (gok_distinct _ _ H)| |]; rewrite list_lookup_fmap;
    [by rewrite Hi|by rewrite Hj, Hs].
Qed.

Lemma filtered_ok f grants log : grants_ok grants log → grants_ok (List.filter f grants) log.
Proof.
  intros []. assert (∀ g, g ∈ List.filter f grants → g ∈ grants) as Hsub
    by (intros g; rewrite !list_elem_of_In, filter_In; tauto).
  split; [|eauto..]. clear -gok_distinct0.
  induction grants as [|g l IH]; cbn in *; [constructor|].
  apply NoDup_cons in gok_distinct0 as [Hg Hl]. destruct (f g); cbn; [|auto].
  apply NoDup_cons. split; [|auto]. intros (x & E & Hx)%list_elem_of_fmap. apply Hg.
  rewrite E. apply list_elem_of_fmap. exists x. split; [done|].
  rewrite list_elem_of_In, filter_In in *. by destruct Hx.
Qed.

Lemma issued_ok grants log c :
  NoDup (issued_sessions (log ++ [GvIssued c])) → grants_ok grants log →
  grants_ok (grants ++ [mk_grant c false false]) (log ++ [GvIssued c]).
Proof.
  unfold issued_sessions. rewrite omap_app. cbn. intros (_ & Hnew & _)%NoDup_app H.
  assert (GvIssued c ∉ log) as Hfresh.
  { intros Hin%issued_sessions_elem. eapply Hnew; [exact Hin|by left]. }
  assert (∀ e, e ∈ log ++ [GvIssued c] ↔ e ∈ log ∨ e = GvIssued c) as Hlog by (intros; set_solver).
  assert (∀ g, g ∈ grants ++ [mk_grant c false false] ↔ g ∈ grants ∨ g = mk_grant c false false)
    as Hgr by (intros; set_solver).
  destruct H as [Hd Hi Hr Hv Hk Hs]. split.
  - rewrite fmap_app. apply NoDup_app. split_and!; [done| |by apply NoDup_singleton].
    intros x (g & -> & Hg)%list_elem_of_fmap Hx. cbn in Hx. apply list_elem_of_singleton in Hx.
    eapply Hnew; [apply issued_sessions_elem; eauto|]. rewrite Hx. by left.
  - intros g. rewrite Hgr, Hlog. intros [Hg| ->]; auto.
  - intros g. rewrite Hgr, Hlog. intros [Hg| ->] [Hr'|[=]]; [auto|]. destruct Hfresh. eauto.
  - intros g. rewrite Hgr, Hlog. intros [Hg| ->] [Hr'|[=]]; [auto|]. destruct Hfresh. eauto.
  - intros c'. rewrite !Hlog. naive_solver.
  - intros c' Hc'. rewrite redemptions_app. cbn. specialize (Hs c' Hc'). lia.
Qed.

(** The grant at [j] is marked. *)
Lemma marked_ok grants log j g g' ev :
  grants_ok grants log → grants !! j = Some g → jg_claims g' = jg_claims g →
  (jg_redeemed g = true → jg_redeemed g' = true) → (jg_revoked g = true → jg_revoked g' = true) →
  (ev = GvRedeemed (jg_claims g) ∧ jg_redeemed g' = true
   ∧ (rc_use_policy (jg_claims g) = JgSingleUse → jg_redeemed g = false)
   ∨ ev = GvRevoked (jg_claims g) ∧ jg_revoked g' = true) →
  grants_ok (<[j := g']> grants) (log ++ [ev]).
Proof.
  intros H Hj Hc Hr Hv Hev. pose proof (list_elem_of_lookup_2 _ _ _ Hj) as Hg.
  assert (∀ x, x ∈ <[j := g']> grants → x = g' ∨ x ∈ grants ∧ x ≠ g ) as Hin.
  { intros x [k Hk]%list_elem_of_lookup. apply list_lookup_insert_Some in Hk as [(-> & -> & _)|[Hne Hk]];
      [by left|]. right. split; [by eapply list_elem_of_lookup_2|]. intros ->. apply Hne.
    eapply NoDup_lookup; [apply (gok_distinct _ _ H)| |]; rewrite list_lookup_fmap;
      [by rewrite Hj|by rewrite Hk]. }
  assert (∀ x, x ∈ grants → x ≠ g → jg_claims x ≠ jg_claims g) as Hother.
  { intros x Hx Hne E. apply Hne. eapply same_session_same_grant; [done..|]. by rewrite E. }
  destruct H as [Hd Hi Hre Hvo Hk Hs]. split.
  - rewrite list_fmap_insert. replace (session_of g') with (session_of g) by congruence.
    rewrite list_insert_id; [done|]. by rewrite list_lookup_fmap, Hj.
  - intros x [->|[Hx _]]%Hin; [rewrite Hc|]; set_solver.
  - intros x [->|[Hx Hne]]%Hin.
    + rewrite Hc, elem_of_app, list_elem_of_singleton. intros [?|E]; [auto|]. naive_solver.
    + specialize (Hother x Hx Hne). rewrite elem_of_app, list_elem_of_singleton. naive_solver.
  - intros x [->|[Hx Hne]]%Hin.
    + rewrite Hc, elem_of_app, list_elem_of_singleton. intros [?|E]; [auto|]. naive_solver.
    + specialize (Hother x Hx Hne). rewrite elem_of_app, list_elem_of_singleton. naive_solver.
  - intros c. specialize (Hk c). specialize (Hi g Hg). set_solver.
  - intros c Hsingle. rewrite redemptions_app. specialize (Hs c Hsingle).
    destruct Hev as [(-> & _ & Hun)|(-> & _)]; [|cbn; lia].
    unfold redemptions at 2. cbn. case_bool_decide as E; cbn; [|lia]. subst c.
    rewrite redemptions_none; [lia|]. intros Hlog. specialize (Hre g Hg Hlog).
    by rewrite (Hun Hsingle) in Hre.
Qed.

Lemma redeem_wp token now secrets i :
  wp (redeem token now secrets) i (λ i' r,
    match r with
    | Err _ => i' = i
    | Ok c => ∃ j g,
        grant_of_session (rc_session_id c) (ji_grants i) = Some (j, g) ∧ jg_claims g = c
        ∧ verify_signed i secrets token now = Ok c
        ∧ jg_revoked g = false ∧ (rc_use_policy c = JgSingleUse → jg_redeemed g = false)
        ∧ i' = set_grants (<[j := mk_grant c false true]> (ji_grants i)) i
    end).
Proof.
  unfold redeem. wp_steps; try done. destruct a0 as [j g]. cbn in *. bool_norm. subst a.
  exists j, g. split_and!; try done; [naive_solver|]. by destruct (jg_revoked g).
Qed.

Lemma revoke_wp scope sid i :
  wp (revoke scope sid) i (λ i' r,
    match r with
    | Err _ => i' = i
    | Ok c => ∃ j g,
        ji_grants i !! j = Some g ∧ jg_claims g = c
        ∧ i' = set_grants (<[j := mk_grant c true (jg_redeemed g)]> (ji_grants i)) i
    end).
Proof.
  unfold revoke. wp_steps; [|done]. destruct a as [j g]. exists j, g. split_and!; try done.
  eapply grant_of_scoped_session_Some. eassumption.
Qed.

Lemma issued_sessions_prefix log k :
  NoDup (issued_sessions (log ++ k)) → NoDup (issued_sessions log).
Proof. unfold issued_sessions. rewrite omap_app. by intros (? & _)%NoDup_app. Qed.

Lemma exec_grant_ok c i log :
  let s := exec_grant c (i, log) in
  NoDup (issued_sessions s.2) → (NoDup (issued_sessions log) → grants_ok (ji_grants i) log) →
  grants_ok (ji_grants s.1) s.2.
Proof.
  cbv zeta. intros Hnd Hok. assert (grants_ok (ji_grants i) log) as H.
  { apply Hok. destruct c; cbn in Hnd.
    1: destruct (issue_with_policy _ _ _ _ _ _ _ _ i) as [i' r].
    2: destruct (redeem _ _ _ i) as [i' r].
    3: destruct (revoke _ _ i) as [i' r].
    all: by eapply issued_sessions_prefix. }
  destruct c as [subject ttl p nb na now random secrets|token now secrets|scope sid]; cbn in *.
  - pose proof (issue_wp subject ttl p nb na now random secrets i) as Hw. unfold wp in Hw.
    destruct (issue_with_policy _ _ _ _ _ _ _ _ i) as [i' [issued|e]]; cbn in *;
      destruct Hw as (f & _ & _ & _ & Hw).
    + destruct Hw as (w & s & _ & _ & _ & _ & ->). by apply issued_ok, filtered_ok.
    + rewrite app_nil_r, Hw. by apply filtered_ok.
  - pose proof (redeem_wp token now secrets i) as Hw. unfold wp in Hw.
    destruct (redeem token now secrets i) as [i' [c|e]]; cbn in *; [|by subst; rewrite app_nil_r].
    destruct Hw as (j & g & (Hj & _)%grant_of_session_Some & <- & _ & Hv & Hr & ->).
    eapply marked_ok; [done..| |]; cbn; [by rewrite Hv|auto].
  - pose proof (revoke_wp scope sid i) as Hw. unfold wp in Hw.
    destruct (revoke scope sid i) as [i' [c|e]]; cbn in *; [|by subst; rewrite app_nil_r].
    destruct Hw as (j & g & Hj & <- & ->). eapply marked_ok; [done..|]; cbn. auto.
Qed.

Lemma run_grants_ok i h :
  ji_grants i = [] → let s := run_grants i h in
  NoDup (issued_sessions s.2) → grants_ok (ji_grants s.1) s.2.
Proof.
  intros Hi. cbv zeta. unfold run_grants. induction h as [|c h IH] using rev_ind.
  - intros _. cbn. rewrite Hi. split; [constructor|..]; cbn; [set_solver..|lia].
  - rewrite foldl_app. cbn. destruct (foldl _ _ h) as [i' log]. cbn in IH.
    intros Hnd. by apply exec_grant_ok.
Qed.

Lemma require_live_grant_Ok i c :
  require_live_grant i c = Ok tt →
  ∃ g, g ∈ ji_grants i ∧ jg_claims g = c ∧ jg_revoked g = false.
Proof.
  unfold require_live_grant. intros H. res_inv. destruct x as [j g]. cbn in *. bool_norm.
  exists g. split_and!; [|done..]. by eapply grant_of_session_Some.
Qed.

Lemma accepted_live i secrets token now c :
  verify i secrets token now = Ok c ∨ (redeem token now secrets i).2 = Ok c
  ∨ validate_live_claims i c now = Ok tt →
  ∃ g, g ∈ ji_grants i ∧ jg_claims g = c ∧ jg_revoked g = false.
Proof.
  intros [H|[H|H]].
  - unfold verify in H. res_inv. subst. by apply require_live_grant_Ok.
  - pose proof (redeem_wp token now secrets i) as Hw. unfold wp in Hw. rewrite H in Hw.
    destruct Hw as (j & g & (_ & Hg & _)%grant_of_session_Some & Hc & _ & Hv & _). by exists g.
  - unfold validate_live_claims in H. res_inv. by apply require_live_grant_Ok.
Qed.

(** C10: In every history of an issuer whose random source never repeats a session identifier,
    only claims that were issued are ever accepted, whoever could forge a signature; a grant
    for single use is redeemed at most once; and after a grant was revoked its claims are
    accepted no more: they neither verify, nor redeem, nor pass the check of live claims. *)
Theorem join_grants_are_single_use_and_revocable i h secrets token now c :
  ji_grants i = [] → let '(i', log) := run_grants i h in
  NoDup (issued_sessions log) →
  (rc_use_policy c = JgSingleUse → redemptions c log ≤ 1)
  ∧ (verify i' secrets token now = Ok c ∨ (redeem token now secrets i').2 = Ok c
     ∨ validate_live_claims i' c now = Ok tt →
     GvIssued c ∈ log ∧ GvRevoked c ∉ log).
Proof.
  intros Hi. pose proof (run_grants_ok i h Hi) as Hrun.
  destruct (run_grants i h) as [i' log]. cbn in Hrun. intros Hnd. specialize (Hrun Hnd).
  split; [apply (gok_single _ _ Hrun)|].
  intros (g & Hg & <- & Hv)%accepted_live. split; [by apply (gok_issued _ _ Hrun)|].
  intros Hr. by rewrite (gok_revoked _ _ Hrun g Hg Hr) in Hv.
Qed.

(** ** What a history leaves of an issued grant *)

(** The marks of a grant are those the log shows, and no others. *)
Definition marks_logged (grants : list JoinGrantState) (log : list grant_event) : Prop :=
  ∀ g, g ∈ grants → (jg_revoked g = true → GvRevoked (jg_claims g) ∈ log)
                    ∧ (jg_redeemed g = true → GvRedeemed (jg_claims g) ∈ log).

Lemma marks_logged_more grants grants' log k :
  marks_logged grants log → (∀ g, g ∈ grants' → g ∈ grants) → marks_logged grants' (log ++ k).
Proof. intros H Hsub g Hg. destruct (H g (Hsub g Hg)). set_solver. Qed.

(** One grant is added, or marked, as the log is extended to show. *)
Lemma marks_logged_insert grants grants' log k g' :
  marks_logged grants log → (∀ g, g ∈ grants' → g = g' ∨ g ∈ grants) →
  (jg_revoked g' = true → GvRevoked (jg_claims g') ∈ log ++ k) →
  (jg_redeemed g' = true → GvRedeemed (jg_claims g') ∈ log ++ k) →
  marks_logged grants' (log ++ k).
Proof.
  intros H Hsub Hv Hr g [->|Hg]%Hsub; [done|]. destruct (H g Hg). set_solver.
Qed.

Lemma insert_elem {A} (j : nat) (x y : A) (l : list A) : y ∈ <[j := x]> l → y = x ∨ y ∈ l.
Proof.
  intros [k Hk]%list_elem_of_lookup. apply list_lookup_insert_Some in Hk as [(_ & -> & _)|[_ Hk]];
    [by left|right]. by eapply list_elem_of_lookup_2.
Qed.

Definition grant_held (c : RealtimeSessionClaims) (i : JoinTokenIssuer) : Prop :=
  ∃ g, g ∈ ji_grants i ∧ jg_claims g = c.

(** The clock of a later issue has not passed the expiry of the grant. *)
Definition issues_before (expiry : Z) (c : grant_call) : Prop :=
  match c with GcIssue _ _ _ _ _ now _ _ => (now < expiry)%Z | _ => True end.

Lemma held_marked c i j g g' :
  ji_grants i !! j = Some g → jg_claims g' = jg_claims g → grant_held c i →
  grant_held c (set_grants (<[j := g']> (ji_grants i)) i).
Proof.
  intros Hj Hc (x & [k Hk]%list_elem_of_lookup & Hx). destruct (decide (k = j)) as [->|Hne].
  - exists g'. split; [|congruence]. cbn.
    eapply list_elem_of_lookup_2, list_lookup_insert_eq. by eapply lookup_lt_Some.
  - exists x. split; [|done]. cbn. eapply (list_elem_of_lookup_2 _ k). by rewrite list_lookup_insert_ne.
Qed.

(** From one state and log to a later one: the configuration stays, every mark is logged, and
    the grant of the claims is held as long as no later issue finds it expired. *)
Record grants_kept (c : RealtimeSessionClaims) (calls : list grant_call)
    (i : JoinTokenIssuer) (log : list grant_event) (s : JoinTokenIssuer * list grant_event) : Prop := {
  gk_source : ji_key_source s.1 = ji_key_source i;
  gk_url : ji_join_base_url s.1 = ji_join_base_url i;
  gk_marks : marks_logged (ji_grants i) log → marks_logged (ji_grants s.1) s.2;
  gk_held : Forall (issues_before (rc_expires_at_unix_ms c)) calls → grant_held c i →
            grant_held c s.1;
}.

Lemma issue_keeps c subject ttl p nb na now random secrets i log :
  let call := GcIssue subject ttl p nb na now random secrets in
  grants_kept c [call] i log (exec_grant call (i, log)).
Proof.
  cbn. pose proof (issue_wp subject ttl p nb na now random secrets i) as Hw. unfold wp in Hw.
  destruct (issue_with_policy _ _ _ _ _ _ _ _ i) as [i' r]; cbn in *.
  destruct Hw as (f & Hf & Hs & Hu & Hw).
  assert (∀ g, g ∈ List.filter f (ji_grants i) → g ∈ ji_grants i) as Hsub
    by (intros g; rewrite !list_elem_of_In, filter_In; tauto).
  assert (∀ g, g ∈ ji_grants i → (now < rc_expires_at_unix_ms (jg_claims g))%Z →
               g ∈ List.filter f (ji_grants i)) as Hkeep
    by (intros g; rewrite !list_elem_of_In, filter_In; auto).
  split; cbn; [done..| |].
  - intros Hm. destruct r as [issued|e]; [|rewrite Hw; by eapply marks_logged_more].
    destruct Hw as (w & s & _ & _ & _ & _ & ->).
    eapply (marks_logged_insert _ _ _ _ (mk_grant (ig_claims issued) false false)); [done| |done..].
    set_solver.
  - intros [Hnow _]%Forall_cons (g & Hg & <-). exists g. split; [|done]. specialize (Hkeep g Hg Hnow).
    destruct r as [issued|e]; [|by rewrite Hw].
    destruct Hw as (w & s & _ & _ & _ & _ & ->). set_solver.
Qed.

(** Redeeming and revoking mark a grant that is held. *)
Lemma mark_keeps c call i log j g g' ev :
  ji_grants i !! j = Some g → jg_claims g' = jg_claims g →
  (jg_revoked g' = true → jg_revoked g = true ∨ ev = GvRevoked (jg_claims g)) →
  (jg_redeemed g' = true → jg_redeemed g = true ∨ ev = GvRedeemed (jg_claims g)) →
  grants_kept c [call] i log (set_grants (<[j := g']> (ji_grants i)) i, log ++ [ev]).
Proof.
  intros Hj Hc Hv Hr. pose proof (list_elem_of_lookup_2 _ _ _ Hj) as Hg.
  split; cbn; [done..| |intros _; by eapply held_marked]. intros Hm. destruct (Hm g Hg) as [Hmv Hmr].
  eapply (marks_logged_insert _ _ _ _ g'); [done|intros x; apply insert_elem|rewrite Hc..].
  - intros [?| ->]%Hv; set_solver.
  - intros [?| ->]%Hr; set_solver.
Qed.

Lemma exec_grant_keeps c call i log : grants_kept c [call] i log (exec_grant call (i, log)).
Proof.
  destruct call as [subject ttl p nb na now random secrets|token now secrets|scope sid];
    [apply issue_keeps|cbn..].
  - pose proof (redeem_wp token now secrets i) as Hw. unfold wp in Hw.
    destruct (redeem token now secrets i) as [i' [d|e]]; cbn in *; [|subst; by rewrite app_nil_r].
    destruct Hw as (j & g & (Hj & _)%grant_of_session_Some & <- & _ & Hv & Hr & ->).
    eapply mark_keeps; cbn; [done..|auto].
  - pose proof (revoke_wp scope sid i) as Hw. unfold wp in Hw.
    destruct (revoke scope sid i) as [i' [d|e]]; cbn in *; [|subst; by rewrite app_nil_r].
    destruct Hw as (j & g & Hj & <- & ->). eapply mark_keeps; cbn; [done..|auto|auto].
Qed.

Lemma exec_grants_keep c calls i log :
  grants_kept c calls i log (foldl (λ s c, exec_grant c s) (i, log) calls).
Proof.
  revert i log. induction calls as [|call calls IH]; intros i log; cbn [foldl]; [by split|].
  destruct (exec_grant_keeps c call i log) as [Hs Hu Hm Hh].
  destruct (exec_grant call (i, log)) as [i1 log1]. destruct (IH i1 log1) as [Hs' Hu' Hm' Hh'].
  cbn in *. split; [congruence|congruence|auto|]. intros [Hc Hcs]%Forall_cons Hg.
  apply Hh'; [done|]. apply Hh; [by repeat constructor|done].
Qed.

(** What a token of held claims is answered, by the marks of their grant. *)
Lemma held_token i secrets token t c g log :
  grants_ok (ji_grants i) log → marks_logged (ji_grants i) log →
  verify_signed i secrets token t = Ok c → g ∈ ji_grants i → jg_claims g = c →
  verify i secrets token t = (if bool_decide (GvRevoked c ∈ log) then Err JtRevoked else Ok c)
  ∧ (redeem token t secrets i).2
    = if bool_decide (GvRevoked c ∈ log) then Err JtRevoked
      else if bool_decide (rc_use_policy c = JgSingleUse) && bool_decide (GvRedeemed c ∈ log)
           then Err JtAlreadyUsed else Ok c.
Proof.
  intros Hok Hm Hv Hg <-. destruct (Hm g Hg) as [Hmv Hmr].
  assert (jg_revoked g = bool_decide (GvRevoked (jg_claims g) ∈ log)) as Erev.
  { symmetry. destruct (jg_revoked g) eqn:E; [by apply bool_decide_eq_true_2; auto|].
    apply bool_decide_eq_false_2. intros Hl. apply (gok_revoked _ _ Hok g Hg) in Hl. congruence. }
  assert (jg_redeemed g = bool_decide (GvRedeemed (jg_claims g) ∈ log)) as Ered.
  { symmetry. destruct (jg_redeemed g) eqn:E; [by apply bool_decide_eq_true_2; auto|].
    apply bool_decide_eq_false_2. intros Hl. apply (gok_redeemed _ _ Hok g Hg) in Hl. congruence. }
  destruct (grant_of_session_unique (session_of g) (ji_grants i) g) as [j Hj]; [done|done| |].
  { intros g' Hg' Hs. by eapply same_session_same_grant. }
  rewrite <- Erev, <- Ered. split.
  - unfold verify, require_live_grant. rewrite Hv. cbn. rewrite Hj. cbn.
    rewrite bool_decide_eq_true_2 by done. cbn. by destruct (jg_revoked g).
  - unfold redeem, mbind, op_bind, get, lift. rewrite Hv. cbn. rewrite Hj. cbn.
    unfold guard, lift. rewrite bool_decide_eq_true_2 by done. cbn.
    destruct (jg_revoked g); [done|]. cbn. by destruct (bool_decide _ && _).
Qed.

(** C31: An issued token works until it is revoked, used up or expired.  Take any history of an
    issuer that starts without grants, in which no session identifier is issued twice and no
    issue after this one finds the clock at or past the expiry of the token.  In the state it
    leads to, at a time in the window of the token and with the key it was signed with among
    the current and previous ones, verifying the token gives exactly the claims it was issued
    for, unless they were revoked, which is what it then reports; and so does redeeming it,
    unless they were revoked, or are for a single use and were redeemed, which is reported. *)
Theorem issued_token_is_accepted i before after subject ttl p nb na now random secrets i1 issued
    secrets' key keys t :
  is_i64 now → ji_grants i = [] →
  issue_with_policy subject ttl p nb na now random secrets (run_grants i before).1
  = (i1, Ok issued) →
  let c := ig_claims issued in
  let s := run_grants i (before ++ GcIssue subject ttl p nb na now random secrets :: after) in
  let i' := s.1 in
  let log := s.2 in
  NoDup (issued_sessions log) → Forall (issues_before (rc_expires_at_unix_ms c)) after →
  current_signing_key (ji_key_source i) secrets = Ok key →
  verification_keys (ji_key_source i) secrets' = Ok keys → key ∈ keys →
  (rc_not_before_unix_ms c ≤ t < rc_expires_at_unix_ms c)%Z →
  ∃ token, ig_join_url issued = ji_join_base_url i ++ str "#ucr_join=" ++ token
    ∧ verify i' secrets' token t
      = (if bool_decide (GvRevoked c ∈ log) then Err JtRevoked else Ok c)
    ∧ (redeem token t secrets' i').2
      = if bool_decide (GvRevoked c ∈ log) then Err JtRevoked
        else if bool_decide (rc_use_policy c = JgSingleUse) && bool_decide (GvRedeemed c ∈ log)
             then Err JtAlreadyUsed else Ok c.
Proof.
  intros Hnow Hi Hissue c. set (call := GcIssue _ _ _ _ _ _ _ _).
  pose proof (run_grants_ok i (before ++ call :: after) Hi) as Hok.
  destruct (exec_grants_keep c (before ++ call :: after) i []) as [Hs' _ Hm' _].
  fold (run_grants i (before ++ call :: after)) in Hs', Hm'.
  destruct (exec_grants_keep c before i []) as [Hs Hu _ _].
  fold (run_grants i before) in Hs, Hu.
  assert (Forall (issues_before (rc_expires_at_unix_ms c)) after →
          grant_held c (run_grants i (before ++ call :: after)).1) as Hheld.
  { unfold run_grants in Hissue |- *. rewrite foldl_app. cbn [foldl].
    destruct (foldl _ _ before) as [i0 log0]. cbn in Hissue. unfold call. cbn [exec_grant].
    rewrite Hissue. intros Ha.
    apply (gk_held _ _ _ _ _ (exec_grants_keep c after i1 _)); [done|].
    pose proof (wp_run _ _ _ _ _ (issue_wp subject ttl p nb na now random secrets i0) Hissue)
      as (f & _ & _ & _ & w & sid & _ & _ & _ & _ & Hgr).
    eexists. rewrite Hgr. split; [apply elem_of_app; right; by left|done]. }
  cbv zeta. destruct (run_grants i (before ++ call :: after)) as [i' log]. cbn in *.
  intros Hnd Ha Hkey Hkeys Hin Ht. specialize (Hok Hnd).
  destruct (Hheld Ha) as (g & Hg & Hc).
  pose proof (wp_run _ _ _ _ _ (issue_wp subject ttl p nb na now random secrets _) Hissue)
    as (f & _ & Hsrc & _ & w & sid & -> & Hwin & Ec & Hsigned & _).
  destruct (grant_window_Ok ttl nb na now w subject sid p Hnow Hwin) as [Htyped Hcok].
  rewrite <- Ec in Htyped, Hcok. unfold signed_grant_for_claims in Hsigned.
  destruct (sign _ secrets (ig_claims issued)) as [token|] eqn:Hsg; [|done]. cbn in Hsigned.
  exists token. split; [injection Hsigned as <-; by rewrite Hu|].
  apply (held_token _ _ _ _ _ g); [done| |  |done|done].
  { apply Hm'. rewrite Hi. intros x Hx. by apply elem_of_nil in Hx. }
  eapply verify_signed_signed; [done|done|exact Hsg|by rewrite Hs|by rewrite Hs'|done|done].
Qed.
End histories.

(** * Witnesses *)

(** A code that moves the bytes from the dot on up by one, and a keyed tag. *)
#[local] Instance toy_crypto : TokenCrypto.
Proof.
  refine {| base64_encode := fmap (λ b, if (b <? 46)%Z then b else (b + 1)%Z);
            base64_decode := λ l, Some ((λ b, if (b <? 46)%Z then b else (b - 1)%Z) <$> l);
            hmac_sha256 := λ key payload, key ++ payload |}.
  - intros x. f_equal. rewrite <- list_fmap_compose. rewrite <- (list_fmap_id x) at 2.
    apply list_fmap_ext. intros k b _. cbn.
    destruct (Z.ltb_spec b 46) as [Hb|Hb]; [destruct (Z.ltb_spec b 46)|destruct (Z.ltb_spec (b + 1) 46)]; lia.
  - intros x (b & E & _)%list_elem_of_fmap. destruct (Z.ltb_spec b 46); lia.
Defined.

Definition meeting_issuer : JoinTokenIssuer := mk_issuer (JkStatic (str "key")) (str "https://meet") [].
Definition guest : grant_subject :=
  mk_subject (mk_scope (oid "acme") None) (oid "call") (mk_principal (oid "ada") PkPerson) None.
Definition guest_claims : RealtimeSessionClaims :=
  claims_of guest (oid "session") JgSingleUse (1000, 301000)%Z 1000.
Definition guest_call : grant_call :=
  GcIssue guest 300 JgSingleUse None None 1000 (Some (oid "session")) None.
Definition guest_token : bytes :=
  match sign meeting_issuer None guest_claims with Ok t => t | Err _ => [] end.
Definition guest_history : list grant_call :=
  [guest_call; GcRedeem guest_token 2000 None; GcRedeem guest_token 3000 None;
   GcRevoke (gs_scope guest) (oid "session"); GcRedeem guest_token 4000 None].

Lemma join_grants_are_single_use_and_revocable_witness :
  (run_grants meeting_issuer guest_history).2
  = [GvIssued guest_claims; GvRedeemed guest_claims; GvRevoked guest_claims]
  ∧ verify (run_grants meeting_issuer guest_history).1 None guest_token 5000 ≠ Ok guest_claims.
Proof.
  assert ((run_grants meeting_issuer guest_history).2
    = [GvIssued guest_claims; GvRedeemed guest_claims; GvRevoked guest_claims]) as Hlog
    by (vm_compute; reflexivity).
  split; [exact Hlog|]. intros Hv.
  pose proof (join_grants_are_single_use_and_revocable meeting_issuer guest_history None
    guest_token 5000 guest_claims eq_refl) as H.
  destruct (run_grants meeting_issuer guest_history) as [i' log]. cbn in *. subst log.
  destruct H as [_ H]; [apply NoDup_singleton|].
  destruct (H (or_introl Hv)) as [_ Hr]. apply Hr. right. right. left.
Defined.

(** A second guest is invited and removed, and the first one then comes in. *)
Definition other_call : grant_call :=
  GcIssue guest 300 JgReusable None None 1500 (Some (oid "other")) None.
Definition other_history : list grant_call :=
  [other_call; GcRevoke (gs_scope guest) (oid "other")].

Lemma issued_token_is_accepted_witness :
  ∃ token,
    str "https://meet#ucr_join=" ++ guest_token = str "https://meet" ++ str "#ucr_join=" ++ token
    ∧ verify (run_grants meeting_issuer (guest_call :: other_history)).1 None token 2000
      = Ok guest_claims
    ∧ (redeem token 2000 None (run_grants meeting_issuer (guest_call :: other_history)).1).2
      = Ok guest_claims.
Proof.
  assert (issue_with_policy guest 300 JgSingleUse None None 1000 (Some (oid "session")) None
    (run_grants meeting_issuer []).1 = ((run_grants meeting_issuer [guest_call]).1,
      Ok (mk_issued guest_claims (str "https://meet#ucr_join=" ++ guest_token)))) as Hissue
    by (vm_compute; reflexivity).
  assert (bool_decide (GvRevoked guest_claims
    ∈ (run_grants meeting_issuer (guest_call :: other_history)).2) = false) as Erev
    by (vm_compute; reflexivity).
  assert (bool_decide (rc_use_policy guest_claims = JgSingleUse) && bool_decide (GvRedeemed guest_claims
    ∈ (run_grants meeting_issuer (guest_call :: other_history)).2) = false) as Ered
    by (vm_compute; reflexivity).
  pose proof (issued_token_is_accepted meeting_issuer [] other_history guest 300 JgSingleUse None
    None 1000%Z (Some (oid "session")) None _ _ None (str "key") [str "key"] 2000%Z
    ltac:(split; lia) eq_refl Hissue) as H.
  cbv zeta in H. cbn [ig_claims ig_join_url] in H.
  change ([] ++ GcIssue guest 300 JgSingleUse None None 1000 (Some (oid "session")) None
          :: other_history) with (guest_call :: other_history) in H.
  rewrite Erev, Ered in H. apply H.
  - refine (bool_decide_unpack _ _). vm_compute. exact I.
  - repeat constructor.
  - reflexivity.
  - reflexivity.
  - left.
  - vm_compute. split; [discriminate|reflexivity].
Defined.
