(* ===== verification/Realtime.v ===== *)
(** The registry of live realtime sessions: joins fenced by generations, downlinks, publisher
    slots, the bandwidth ceiling, and the cleanup queues of calls and peers
    (crates/ucr-realtime/src/lib.rs, [RealtimeSessionRegistry]).

    The registry keeps its tables behind mutexes that one call holds while it works, so a call
    is one step.  A downlink is the bounded channel of its sender: the queued envelopes and
    whether the receiver is gone; receiving and dropping the receiver are steps of its owner,
    taken between the calls or between the sends of a call that forwards.  A poisoned mutex is not modelled. *)

From S2P Require Import Prelude Ids Extension Message StoreForward Store Capability.
From S2P Require Import Video Sfu Adaptive JoinToken.

(** * Frames *)

Record GroupMediaFrameHeader := mk_frame_header {
  fh_scope : TenantScope;
  fh_call_id : CallId;
  fh_group_id : GroupId;
  fh_stream_id : OpaqueId;
  fh_source : PrincipalRef;
  fh_source_device_id : DeviceId;
  fh_negotiation_ref : OpaqueId;
  fh_negotiation_generation : Z; (* u64 *)
  fh_crypto_epoch : Z; (* u64 *)
  fh_crypto_state_ref : OpaqueId;
  fh_crypto_suite : CryptoSuite;
  fh_header_version : Z; (* u8 *)
  fh_media_kind : MediaKind;
  fh_video_source_kind : option VideoSourceKind;
  fh_sequence : Z; (* u64 *)
  fh_media_timestamp : Z; (* u64 *)
  fh_keyframe : bool;
}.

Record GroupMediaSourceSignature := mk_source_signature {
  ss_key_id : OpaqueId;
  ss_algorithm_id : bytes;
  ss_algorithm_version : Z; (* u32 *)
  ss_signature : bytes;
}.

Record EncryptedGroupMediaFrame := mk_encrypted_frame {
  ef_header : GroupMediaFrameHeader;
  ef_nonce : bytes; (* [u8; 24] *)
  ef_ciphertext : bytes;
  ef_source_signature : GroupMediaSourceSignature;
}.

Record SfuForwardEnvelope := mk_envelope { fe_frame : EncryptedGroupMediaFrame }.
Record SfuForwardTarget := mk_target { ft_recipient : PrincipalRef }.
Inductive SfuForwardSinkError := FsUnavailable | FsBackpressure | FsRejected.

(** * State *)

Inductive AttendanceTransitionKind := AtJoined | AtLeft | AtReconnected | AtMediaReady.

Record AttendanceTransition := mk_attendance {
  at_kind : AttendanceTransitionKind;
  at_claims : RealtimeSessionClaims;
  at_session_sequence : Z; (* u64 *)
  at_occurred_at_unix_ms : Z; (* i64 *)
}.

Inductive RealtimeRegistryError :=
  ReExpired | ReCapacityExceeded | ReClaimMismatch | ReClockRollback | ReSessionUnavailable
| ReSequenceOverflow.
#[global] Instance RealtimeRegistryError_eq_dec : EqDecision RealtimeRegistryError.
Proof. solve_decision. Defined.

Record BandwidthWindow := mk_window {
  bw_owner : ScopedPrincipal;
  bw_window_start_unix_ms : Z; (* i64 *)
  bw_used_bits : Z; (* u64 *)
}.

(** The two ends of a bounded [mpsc] channel. *)
Record Downlink := mk_downlink {
  dl_queue : list SfuForwardEnvelope;
  dl_closed : bool; (* the receiver was dropped *)
}.
Definition channel : Downlink := mk_downlink [] false.

Record SessionEntry := mk_session {
  se_claims : RealtimeSessionClaims;
  se_sender : Downlink;
  se_receiver : bool; (* the receiver has not been taken yet *)
  se_sequence : Z; (* u64 *)
  se_join_generation : Z; (* u64 *)
  se_media_ready : bool;
  se_adaptive_stage : option AdaptiveMediaStage;
  se_publisher_owner : option ScopedPrincipal;
  se_last_seen_unix_ms : Z; (* i64 *)
}.

Record RealtimeSessionRegistry := mk_registry {
  rr_entries : list SessionEntry;
  rr_expired_call_cleanup : list (TenantScope * CallId);
  rr_pending_webrtc_closes : list (TenantScope * CallId * SessionId);
  rr_track_expired_call_cleanup : bool;
  rr_bandwidth_usage : list BandwidthWindow;
  rr_last_join_generation : Z; (* u64 *)
  rr_max_sessions : nat;
  rr_queue_capacity : nat;
}.

Definition registry_new (max_sessions queue_capacity : nat) : RealtimeSessionRegistry :=
  mk_registry [] [] [] false [] 0 max_sessions queue_capacity.
Definition with_expired_call_cleanup (max_sessions queue_capacity : nat) :
    RealtimeSessionRegistry :=
  mk_registry [] [] [] true [] 0 max_sessions queue_capacity.

Definition set_entries (v : list SessionEntry) (r : RealtimeSessionRegistry) :=
  mk_registry v (rr_expired_call_cleanup r) (rr_pending_webrtc_closes r)
    (rr_track_expired_call_cleanup r) (rr_bandwidth_usage r) (rr_last_join_generation r)
    (rr_max_sessions r) (rr_queue_capacity r).
Definition set_cleanup (v : list (TenantScope * CallId)) (r : RealtimeSessionRegistry) :=
  mk_registry (rr_entries r) v (rr_pending_webrtc_closes r)
    (rr_track_expired_call_cleanup r) (rr_bandwidth_usage r) (rr_last_join_generation r)
    (rr_max_sessions r) (rr_queue_capacity r).
Definition set_closes (v : list (TenantScope * CallId * SessionId)) (r : RealtimeSessionRegistry) :=
  mk_registry (rr_entries r) (rr_expired_call_cleanup r) v
    (rr_track_expired_call_cleanup r) (rr_bandwidth_usage r) (rr_last_join_generation r)
    (rr_max_sessions r) (rr_queue_capacity r).
Definition set_bandwidth (v : list BandwidthWindow) (r : RealtimeSessionRegistry) :=
  mk_registry (rr_entries r) (rr_expired_call_cleanup r) (rr_pending_webrtc_closes r)
    (rr_track_expired_call_cleanup r) v (rr_last_join_generation r)
    (rr_max_sessions r) (rr_queue_capacity r).
Definition set_generation (v : Z) (r : RealtimeSessionRegistry) :=
  mk_registry (rr_entries r) (rr_expired_call_cleanup r) (rr_pending_webrtc_closes r)
    (rr_track_expired_call_cleanup r) (rr_bandwidth_usage r) v
    (rr_max_sessions r) (rr_queue_capacity r).

Abbreviation registry_op := (op RealtimeSessionRegistry RealtimeRegistryError).

Definition MAX_JOIN_GENERATION : Z := 2 ^ 53 - 1.
Definition INITIAL_JOIN_GENERATION_MASK : Z := 2 ^ 52 - 1.
Definition CONNECTED_HEARTBEAT_GRACE_MS : Z := 120000.
Definition BANDWIDTH_WINDOW_MS : Z := 1000.

Abbreviation call_of c := (rc_scope c, rc_call_id c).

(** * Cleanup queues *)

Definition queue_webrtc_close (claims : RealtimeSessionClaims) : registry_op unit :=
  r ← get;
  let item := (rc_scope claims, rc_call_id claims, rc_session_id claims) in
  if existsb (λ x, bool_decide (x = item)) (rr_pending_webrtc_closes r) then mret tt
  else put (set_closes (rr_pending_webrtc_closes r ++ [item]) r).

Definition acknowledge_webrtc_close (scope : TenantScope) (call_id : CallId)
    (session_id : SessionId) : registry_op unit :=
  r ← get;
  put (set_closes (List.filter (λ item, negb (bool_decide (item.1.1 = scope))
                                        || negb (bool_decide (item.1.2 = call_id))
                                        || negb (bool_decide (item.2 = session_id)))
                     (rr_pending_webrtc_closes r)) r).

Definition acknowledge_expired_call_cleanup (scope : TenantScope) (call_id : CallId) :
    registry_op unit :=
  r ← get;
  put (set_cleanup (List.filter (λ item, negb (bool_decide (item.1 = scope))
                                         || negb (bool_decide (item.2 = call_id)))
                      (rr_expired_call_cleanup r)) r).

(** [iter().any(..)] on a list of calls. *)
Definition has_call (calls : list (TenantScope * CallId)) (call : TenantScope * CallId) : bool :=
  existsb (λ c, bool_decide (c.1 = call.1) && bool_decide (c.2 = call.2)) calls.

Definition queue_call_cleanup_candidate (scope : TenantScope) (call_id : CallId) :
    registry_op unit :=
  r ← get;
  if negb (rr_track_expired_call_cleanup r) then mret tt
  else if has_call (rr_expired_call_cleanup r) (scope, call_id) then mret tt
  else
    guard (rr_max_sessions r <=? length (rr_expired_call_cleanup r)) ReCapacityExceeded ;;
    put (set_cleanup (rr_expired_call_cleanup r ++ [(scope, call_id)]) r).

(** * Expiry *)

Definition session_live (now : Z) (entry : SessionEntry) : bool :=
  (now <? rc_expires_at_unix_ms (se_claims entry))%Z.

Definition has_live_session (entries : list SessionEntry) (now : Z)
    (call : TenantScope * CallId) : bool :=
  existsb (λ entry, session_live now entry
                    && bool_decide (rc_scope (se_claims entry) = call.1)
                    && bool_decide (rc_call_id (se_claims entry) = call.2)) entries.

(** The loop that collects the calls whose last session expired. *)
Definition final_expired_calls (entries : list SessionEntry) (now : Z) :
    list (TenantScope * CallId) :=
  foldl (λ found entry,
    let call := call_of (se_claims entry) in
    if has_call found call then found
    else if has_live_session entries now call then found
    else found ++ [call])
    [] (List.filter (λ entry, negb (session_live now entry)) entries).

Definition push_new_calls (pending candidates : list (TenantScope * CallId)) :
    list (TenantScope * CallId) :=
  foldl (λ pending candidate,
    if existsb (λ c, bool_decide (c = candidate)) pending then pending
    else pending ++ [candidate]) pending candidates.

Definition prune_expired (now : Z) : registry_op unit :=
  r ← get;
  let kept := List.filter (session_live now) (rr_entries r) in
  if negb (rr_track_expired_call_cleanup r) then put (set_entries kept r)
  else
    let final := final_expired_calls (rr_entries r) now in
    let pending := rr_expired_call_cleanup r in
    let new_candidates := length (List.filter (λ c, negb (has_call pending c)) final) in
    guard (rr_max_sessions r <? length pending + new_candidates) ReCapacityExceeded ;;
    put (set_cleanup (push_new_calls pending final) (set_entries kept r)).

Definition expired_call_cleanup_candidates_at (now : Z) :
    registry_op (list (TenantScope * CallId)) :=
  prune_expired now ;;
  r ← get;
  mret (rr_expired_call_cleanup r).

(** Queries of the entries that are live. *)
Definition query_at {A} (now : Z) (f : list SessionEntry → A) : registry_op A :=
  prune_expired now ;;
  r ← get;
  mret (f (rr_entries r)).

Definition active_session_count_at (now : Z) : registry_op nat := query_at now length.

Definition active_claims_at (now : Z) : registry_op (list RealtimeSessionClaims) :=
  query_at now (fmap se_claims).

Definition in_call (scope : TenantScope) (call_id : CallId) (entry : SessionEntry) : bool :=
  bool_decide (rc_scope (se_claims entry) = scope)
  && bool_decide (rc_call_id (se_claims entry) = call_id).

Definition active_call_session_count_at (scope : TenantScope) (call_id : CallId) (now : Z) :
    registry_op nat :=
  query_at now (λ entries, length (List.filter (in_call scope call_id) entries)).

(** [i64::saturating_sub]. *)
Definition saturating_sub_i64 (a b : Z) : Z := Z.max i64_min (Z.min i64_max (a - b)).

(** The [BTreeSet] of participants. *)
Definition connected_call_participants_at (scope : TenantScope) (call_id : CallId) (now : Z) :
    registry_op (gset PrincipalId) :=
  query_at now (λ entries,
    list_to_set ((λ entry, principal_id (rc_participant (se_claims entry))) <$>
      List.filter (λ entry,
        in_call scope call_id entry && negb (dl_closed (se_sender entry))
        && (saturating_sub_i64 now (se_last_seen_unix_ms entry)
              <=? CONNECTED_HEARTBEAT_GRACE_MS)%Z) entries)).

Definition connected_call_participant_count_at (scope : TenantScope) (call_id : CallId)
    (now : Z) : registry_op nat :=
  participants ← connected_call_participants_at scope call_id now;
  mret (size participants).

Definition same_session (claims : RealtimeSessionClaims) (entry : SessionEntry) : bool :=
  bool_decide (rc_scope (se_claims entry) = rc_scope claims)
  && bool_decide (rc_call_id (se_claims entry) = rc_call_id claims)
  && bool_decide (rc_session_id (se_claims entry) = rc_session_id claims).

Definition contains_active_session (claims : RealtimeSessionClaims) (now : Z) :
    registry_op bool :=
  query_at now (existsb (λ entry, same_session claims entry
                                  && bool_decide (se_claims entry = claims))).

Definition active_claims_for_ingress (session_id : SessionId) (scope : TenantScope)
    (call_id : CallId) (now : Z) : registry_op RealtimeSessionClaims :=
  prune_expired now ;;
  r ← get;
  match List.filter (λ entry, bool_decide (rc_session_id (se_claims entry) = session_id)
                              && in_call scope call_id entry) (rr_entries r) with
  | [] => lift (Err ReSessionUnavailable)
  | entry :: others =>
      let claims := se_claims entry in
      guard (negb (length others =? 0) || (rc_expires_at_unix_ms claims <=? now)%Z)
        ReSessionUnavailable ;;
      mret claims
  end.

Definition active_session_ids_for_recipient (scope : TenantScope) (call_id : CallId)
    (participant : PrincipalRef) (now : Z) : registry_op (list SessionId) :=
  query_at now (λ entries,
    (λ entry, rc_session_id (se_claims entry)) <$>
      List.filter (λ entry, in_call scope call_id entry
                            && bool_decide (rc_participant (se_claims entry) = participant))
        entries).

(** * Joining *)

(** What a join gives the entry: a new generation, downlink and sequence. *)
Definition rejoined (generation now : Z) (entry : SessionEntry) : SessionEntry :=
  mk_session (se_claims entry) channel true (se_sequence entry) generation false
    (se_adaptive_stage entry) None now.
Definition joined (claims : RealtimeSessionClaims) (generation now : Z) : SessionEntry :=
  mk_session claims channel true 1 generation false None None now.
Definition with_sequence (v : Z) (e : SessionEntry) : SessionEntry :=
  mk_session (se_claims e) (se_sender e) (se_receiver e) v (se_join_generation e)
    (se_media_ready e) (se_adaptive_stage e) (se_publisher_owner e) (se_last_seen_unix_ms e).

Record RealtimeJoinOutcome := mk_join_outcome {
  jo_claims : RealtimeSessionClaims;
  jo_transition : AttendanceTransition;
  jo_join_generation : Z; (* u64 *)
}.

(** Writes an entry back under its lock. *)
Definition update_entry (index : nat) (entry : SessionEntry) : registry_op unit :=
  r ← get;
  put (set_entries (<[index := entry]> (rr_entries r)) r).

(** [iter().position(..)] and [iter_mut().find(..)] by session. *)
Definition session_entry (claims : RealtimeSessionClaims) (entries : list SessionEntry) :
    option (nat * SessionEntry) :=
  i ← position (same_session claims) entries;
  entry ← entries !! i;
  Some (i, entry).

Section join.
Context `{!Sha256}.

(** [nonce] is what [generate_opaque_id] returns. *)
Definition next_join_generation (nonce : option OpaqueId) : registry_op Z :=
  r ← get;
  (if (rr_last_join_generation r =? 0)%Z then
     nonce ← lift (ok_or nonce ReSessionUnavailable);
     let digest := sha256 (as_wire_bytes nonce) in
     let initial := Z.land (be_value (take 8 digest)) INITIAL_JOIN_GENERATION_MASK in
     put (set_generation (Z.max initial 1) r)
   else mret tt) ;;
  r ← get;
  let next := (rr_last_join_generation r + 1)%Z in
  guard (negb ((next <=? u64_max)%Z && (next <=? MAX_JOIN_GENERATION)%Z)) ReSequenceOverflow ;;
  put (set_generation next r) ;;
  mret next.

Definition join (claims : RealtimeSessionClaims) (now : Z) (nonce : option OpaqueId) :
    registry_op RealtimeJoinOutcome :=
  guard (rc_expires_at_unix_ms claims <=? now)%Z ReExpired ;;
  r ← get;
  guard ((rr_max_sessions r =? 0) || (rr_queue_capacity r =? 0)) ReCapacityExceeded ;;
  prune_expired now ;;
  r ← get;
  match session_entry claims (rr_entries r) with
  | Some (index, entry) =>
      guard (negb (bool_decide (se_claims entry = claims))) ReClaimMismatch ;;
      sequence ← lift (ok_or (checked_add_u64 (se_sequence entry) 1) ReSequenceOverflow);
      update_entry index (with_sequence sequence entry) ;;
      generation ← next_join_generation nonce;
      update_entry index (rejoined generation now (with_sequence sequence entry)) ;;
      mret (mk_join_outcome claims (mk_attendance AtReconnected claims sequence now) generation)
  | None =>
      guard (rr_max_sessions r <=? length (rr_entries r)) ReCapacityExceeded ;;
      generation ← next_join_generation nonce;
      r ← get;
      put (set_entries (rr_entries r ++ [joined claims generation now]) r) ;;
      mret (mk_join_outcome claims (mk_attendance AtJoined claims 1 now) generation)
  end.
End join.

(** * The session of a call *)

(** The prologue of the operations on one live session: expiry, pruning, the exact claims. *)
Definition locate (claims : RealtimeSessionClaims) (now : Z) : registry_op (nat * SessionEntry) :=
  guard (rc_expires_at_unix_ms claims <=? now)%Z ReExpired ;;
  prune_expired now ;;
  r ← get;
  found ← lift (ok_or (session_entry claims (rr_entries r)) ReSessionUnavailable);
  guard (negb (bool_decide (se_claims found.2 = claims))) ReClaimMismatch ;;
  mret found.

Definition without_receiver (e : SessionEntry) : SessionEntry :=
  mk_session (se_claims e) (se_sender e) false (se_sequence e) (se_join_generation e)
    (se_media_ready e) (se_adaptive_stage e) (se_publisher_owner e) (se_last_seen_unix_ms e).
Definition reattached (sequence : Z) (e : SessionEntry) : SessionEntry :=
  mk_session (se_claims e) channel false sequence (se_join_generation e) false
    (se_adaptive_stage e) (se_publisher_owner e) (se_last_seen_unix_ms e).

(** The receiver is handed to the caller; the transition of a reattachment is returned. *)
Definition attach_downlink (claims : RealtimeSessionClaims) (now : Z) :
    registry_op (option AttendanceTransition) :=
  found ← locate claims now;
  let '(index, entry) := found in
  if se_receiver entry then update_entry index (without_receiver entry) ;; mret None
  else
    guard (negb (dl_closed (se_sender entry))) ReSessionUnavailable ;;
    sequence ← lift (ok_or (checked_add_u64 (se_sequence entry) 1) ReSequenceOverflow);
    update_entry index (reattached sequence entry) ;;
    mret (Some (mk_attendance AtReconnected claims sequence now)).

Definition take_downlink (claims : RealtimeSessionClaims) (now : Z) : registry_op unit :=
  _ ← attach_downlink claims now;
  mret tt.

Definition seen_at (now : Z) (e : SessionEntry) : SessionEntry :=
  mk_session (se_claims e) (se_sender e) (se_receiver e) (se_sequence e) (se_join_generation e)
    (se_media_ready e) (se_adaptive_stage e) (se_publisher_owner e) now.

Definition heartbeat_with_generation (claims : RealtimeSessionClaims) (expected : option Z)
    (now : Z) : registry_op (Z * bool) :=
  found ← locate claims now;
  let '(index, entry) := found in
  if match expected with
     | Some expected => negb (expected =? se_join_generation entry)%Z
     | None => false
     end
  then mret (se_sequence entry, false)
  else update_entry index (seen_at now entry) ;; mret (se_sequence entry, true).

Definition heartbeat (claims : RealtimeSessionClaims) (now : Z) : registry_op Z :=
  answer ← heartbeat_with_generation claims None now;
  mret answer.1.

Definition heartbeat_if_join_generation (claims : RealtimeSessionClaims) (expected now : Z) :
    registry_op (option Z) :=
  if (expected =? 0)%Z then mret None
  else
    answer ← heartbeat_with_generation claims (Some expected) now;
    let '(sequence, matched) := answer in
    mret (if matched : bool then Some sequence else None).

Definition current_join_generation (claims : RealtimeSessionClaims) (now : Z) : registry_op Z :=
  found ← locate claims now;
  mret (se_join_generation found.2).

Definition require_active_session (claims : RealtimeSessionClaims) (now : Z) : registry_op unit :=
  _ ← current_join_generation claims now;
  mret tt.

Definition with_stage (stage : AdaptiveMediaStage) (e : SessionEntry) : SessionEntry :=
  mk_session (se_claims e) (se_sender e) (se_receiver e) (se_sequence e) (se_join_generation e)
    (se_media_ready e) (Some stage) (se_publisher_owner e) (se_last_seen_unix_ms e).

Definition set_adaptive_media_stage (claims : RealtimeSessionClaims) (stage : AdaptiveMediaStage)
    (now : Z) : registry_op unit :=
  found ← locate claims now;
  update_entry found.1 (with_stage stage found.2).

Definition with_publisher (owner : ScopedPrincipal) (e : SessionEntry) : SessionEntry :=
  mk_session (se_claims e) (se_sender e) (se_receiver e) (se_sequence e) (se_join_generation e)
    (se_media_ready e) (se_adaptive_stage e) (Some owner) (se_last_seen_unix_ms e).

Definition publishes_for (owner : ScopedPrincipal) (e : SessionEntry) : bool :=
  bool_decide (se_publisher_owner e = Some owner).

Definition claim_publisher_slot (claims : RealtimeSessionClaims) (owner : ScopedPrincipal)
    (max_concurrent_publishers now : Z) : registry_op unit :=
  guard (rc_expires_at_unix_ms claims <=? now)%Z ReExpired ;;
  guard (negb (bool_decide (sp_scope owner = rc_scope claims))
         || negb (bool_decide (principal_kind (sp_principal owner) = PkServiceAccount)))
    ReClaimMismatch ;;
  guard (max_concurrent_publishers =? 0)%Z ReCapacityExceeded ;;
  found ← locate claims now;
  let '(index, entry) := found in
  match se_publisher_owner entry with
  | Some existing_owner => guard (negb (bool_decide (existing_owner = owner))) ReClaimMismatch
  | None =>
      r ← get;
      let active := Z.of_nat (length (List.filter (publishes_for owner) (rr_entries r))) in
      guard (max_concurrent_publishers <=? active)%Z ReCapacityExceeded ;;
      update_entry index (with_publisher owner entry)
  end.

Definition ready_with (sequence : Z) (e : SessionEntry) : SessionEntry :=
  mk_session (se_claims e) (se_sender e) (se_receiver e) sequence (se_join_generation e)
    true (se_adaptive_stage e) (se_publisher_owner e) (se_last_seen_unix_ms e).

Definition mark_media_ready (claims : RealtimeSessionClaims) (now : Z) :
    registry_op (option AttendanceTransition) :=
  found ← locate claims now;
  let '(index, entry) := found in
  if se_media_ready entry then mret None
  else
    update_entry index (ready_with (se_sequence entry) entry) ;;
    sequence ← lift (ok_or (checked_add_u64 (se_sequence entry) 1) ReSequenceOverflow);
    update_entry index (ready_with sequence entry) ;;
    mret (Some (mk_attendance AtMediaReady claims sequence now)).

(** * Leaving *)

Definition leave_matching_sequence (claims : RealtimeSessionClaims) (expected : option Z)
    (now : Z) : registry_op AttendanceTransition :=
  r ← get;
  found ← lift (ok_or (session_entry claims (rr_entries r)) ReSessionUnavailable);
  let '(index, entry) := found in
  guard (negb (bool_decide (se_claims entry = claims))
         || match expected with
            | Some generation => negb (se_join_generation entry =? generation)%Z
            | None => false
            end) ReClaimMismatch ;;
  next_sequence ← lift (ok_or (checked_add_u64 (se_sequence entry) 1) ReSequenceOverflow);
  put (set_entries (delete index (rr_entries r)) r) ;;
  mret (mk_attendance AtLeft claims next_sequence now).

Definition leave (claims : RealtimeSessionClaims) (now : Z) : registry_op AttendanceTransition :=
  leave_matching_sequence claims None now.

Definition leave_if_sequence (claims : RealtimeSessionClaims) (expected now : Z) :
    registry_op AttendanceTransition :=
  guard (expected =? 0)%Z ReClaimMismatch ;;
  leave_matching_sequence claims (Some expected) now.

(** * Bandwidth *)

Definition checked_mul_u64 (a b : Z) : option Z :=
  if (a * b <=? u64_max)%Z then Some (a * b)%Z else None.

Definition charge_aggregate_bandwidth (owner : ScopedPrincipal) (limit wire_bytes now : Z) :
    registry_op unit :=
  guard (negb (bool_decide (principal_kind (sp_principal owner) = PkServiceAccount)))
    ReClaimMismatch ;;
  guard (limit =? 0)%Z ReCapacityExceeded ;;
  guard (now <? 0)%Z ReClockRollback ;;
  wire_bits ← lift (ok_or (checked_mul_u64 wire_bytes 8) ReCapacityExceeded);
  guard (limit <? wire_bits)%Z ReCapacityExceeded ;;
  let window_start := (now - now mod BANDWIDTH_WINDOW_MS)%Z in
  r ← get;
  let usage := rr_bandwidth_usage r in
  match position (λ w, bool_decide (bw_owner w = owner)) usage with
  | Some index =>
      entry ← lift (ok_or (usage !! index) ReSessionUnavailable);
      guard (window_start <? bw_window_start_unix_ms entry)%Z ReClockRollback ;;
      if (bw_window_start_unix_ms entry <? window_start)%Z then
        put (set_bandwidth (<[index := mk_window (bw_owner entry) window_start wire_bits]> usage) r)
      else
        next ← lift (ok_or (checked_add_u64 (bw_used_bits entry) wire_bits) ReCapacityExceeded);
        guard (limit <? next)%Z ReCapacityExceeded ;;
        put (set_bandwidth
               (<[index := mk_window (bw_owner entry) (bw_window_start_unix_ms entry) next]> usage) r)
  | None =>
      let oldest := Z.max i64_min (window_start - BANDWIDTH_WINDOW_MS) in
      let usage := List.filter (λ w, (oldest <=? bw_window_start_unix_ms w)%Z) usage in
      put (set_bandwidth usage r) ;;
      guard (rr_max_sessions r * 2 <=? length usage) ReCapacityExceeded ;;
      put (set_bandwidth (usage ++ [mk_window owner window_start wire_bits]) r)
  end.

(** * Forwarding *)

Definition with_downlink (d : Downlink) (e : SessionEntry) : SessionEntry :=
  mk_session (se_claims e) d (se_receiver e) (se_sequence e) (se_join_generation e)
    (se_media_ready e) (se_adaptive_stage e) (se_publisher_owner e) (se_last_seen_unix_ms e).

Definition is_recipient (target : SfuForwardTarget) (envelope : SfuForwardEnvelope)
    (entry : SessionEntry) : bool :=
  let header := ef_header (fe_frame envelope) in
  bool_decide (rc_scope (se_claims entry) = fh_scope header)
  && bool_decide (rc_call_id (se_claims entry) = fh_call_id header)
  && bool_decide (rc_participant (se_claims entry) = ft_recipient target)
  && negb (dl_closed (se_sender entry)).

(** [adaptive_stage.is_none_or(..)]. *)
Definition wants_media (envelope : SfuForwardEnvelope) (entry : SessionEntry) : bool :=
  match se_adaptive_stage entry with
  | None => true
  | Some stage => adaptive_stage_allows_media stage (fh_media_kind (ef_header (fe_frame envelope)))
  end.

Definition enqueue (envelope : SfuForwardEnvelope) (entry : SessionEntry) : SessionEntry :=
  with_downlink (mk_downlink (dl_queue (se_sender entry) ++ [envelope])
                   (dl_closed (se_sender entry))) entry.

(** The owner of a taken receiver receives one envelope, or drops the receiver. *)
Definition consume_downlink (claims : RealtimeSessionClaims) (r : RealtimeSessionRegistry) :
    RealtimeSessionRegistry :=
  match session_entry claims (rr_entries r) with
  | Some (index, entry) =>
      set_entries (<[index := with_downlink (mk_downlink (tail (dl_queue (se_sender entry)))
                                (dl_closed (se_sender entry))) entry]> (rr_entries r)) r
  | None => r
  end.
Definition drop_downlink (claims : RealtimeSessionClaims) (r : RealtimeSessionRegistry) :
    RealtimeSessionRegistry :=
  match session_entry claims (rr_entries r) with
  | Some (index, entry) =>
      if se_receiver entry then r
      else set_entries (<[index := with_downlink (mk_downlink (dl_queue (se_sender entry)) true)
                            entry]> (rr_entries r)) r
  | None => r
  end.

(** What the owners of receivers do without the lock of the registry. *)
Inductive receiver_step :=
| Received (claims : RealtimeSessionClaims)
| Dropped (claims : RealtimeSessionClaims).

Definition receiver_act (step : receiver_step) (r : RealtimeSessionRegistry) :
    RealtimeSessionRegistry :=
  match step with
  | Received claims => consume_downlink claims r
  | Dropped claims => drop_downlink claims r
  end.

(** [try_send] of a bounded channel. *)
Definition try_send (capacity : nat) (envelope : SfuForwardEnvelope) (entry : SessionEntry) :
    result SfuForwardSinkError SessionEntry :=
  reject_if (dl_closed (se_sender entry)) FsUnavailable ;;
  reject_if (capacity <=? length (dl_queue (se_sender entry))) FsBackpressure ;;
  Ok (enqueue envelope entry).

(** The sends to the matching sessions, the first refusal ending them; [meanwhile index] is what
    receivers did since the previous send.  No entry is removed meanwhile, so the indexing does
    not panic. *)
Fixpoint send_all (meanwhile : nat → list receiver_step) (envelope : SfuForwardEnvelope)
    (matching : list nat) : op RealtimeSessionRegistry SfuForwardSinkError unit :=
  match matching with
  | [] => mret tt
  | index :: matching =>
      r ← get;
      let r := foldl (λ r step, receiver_act step r) r (meanwhile index) in
      put r ;;
      entry ← lift (ok_or (rr_entries r !! index) FsUnavailable);
      entry ← lift (try_send (rr_queue_capacity r) envelope entry);
      put (set_entries (<[index := entry]> (rr_entries r)) r) ;;
      send_all meanwhile envelope matching
  end.

Definition entry_at (entries : list SessionEntry) (P : SessionEntry → bool) (index : nat) : bool :=
  match entries !! index with Some entry => P entry | None => false end.

(** [now] is the system clock; [meanwhile] is what receivers do between the sends. *)
Definition forward_encrypted (target : SfuForwardTarget) (envelope : SfuForwardEnvelope)
    (now : option Z) (meanwhile : nat → list receiver_step) :
    op RealtimeSessionRegistry SfuForwardSinkError unit :=
  now ← lift (ok_or now FsUnavailable);
  (λ r, match prune_expired now r with
        | (r', Ok _) => (r', Ok tt)
        | (r', Err _) => (r', Err FsUnavailable)
        end) ;;
  r ← get;
  let recipient_sessions := List.filter (entry_at (rr_entries r) (is_recipient target envelope))
                              (seq 0 (length (rr_entries r))) in
  guard (length recipient_sessions =? 0) FsUnavailable ;;
  let matching := List.filter (entry_at (rr_entries r) (wants_media envelope)) recipient_sessions in
  if length matching =? 0 then mret tt
  else
    guard (existsb (entry_at (rr_entries r) (λ entry,
             rr_queue_capacity r <=? length (dl_queue (se_sender entry)))) matching)
      FsBackpressure ;;
    send_all meanwhile envelope matching.
