(* ===== verification/RealtimeSpec.v ===== *)
(** What the calls of the realtime registry may do: every call is a sequence of a few effects,
    each of which says exactly which table changes and how. *)

From S2P Require Import Prelude Ids Message StoreForward Store Memory OpLogic.
From S2P Require Import Video Sfu Adaptive JoinToken Realtime.

(** * Calls *)

Inductive registry_call :=
  | RcJoin (claims : RealtimeSessionClaims) (now : Z) (nonce : option OpaqueId)
  | RcAttach (claims : RealtimeSessionClaims) (now : Z)
  | RcHeartbeat (claims : RealtimeSessionClaims) (expected : option Z) (now : Z)
  | RcGeneration (claims : RealtimeSessionClaims) (now : Z)
  | RcStage (claims : RealtimeSessionClaims) (stage : AdaptiveMediaStage) (now : Z)
  | RcPublish (claims : RealtimeSessionClaims) (owner : ScopedPrincipal) (limit now : Z)
  | RcReady (claims : RealtimeSessionClaims) (now : Z)
  | RcLeave (claims : RealtimeSessionClaims) (expected : option Z) (now : Z)
  | RcCharge (owner : ScopedPrincipal) (limit wire_bytes now : Z)
  | RcForward (target : SfuForwardTarget) (envelope : SfuForwardEnvelope) (now : option Z)
      (meanwhile : nat → list receiver_step)
  | RcQuery (now : Z) (* every query only prunes *)
  | RcQueueClose (claims : RealtimeSessionClaims)
  | RcAckClose (scope : TenantScope) (call_id : CallId) (session_id : SessionId)
  | RcQueueCleanup (scope : TenantScope) (call_id : CallId)
  | RcAckCleanup (scope : TenantScope) (call_id : CallId)
  | RcConsume (claims : RealtimeSessionClaims)
  | RcDrop (claims : RealtimeSessionClaims).

(** The events a history records: joins with their generation, publisher slots with the
    ceiling they were claimed under, charges and refused charges with their window. *)
Inductive registry_event :=
  | EvJoined (claims : RealtimeSessionClaims) (generation : Z)
  | EvPublished (owner : ScopedPrincipal) (limit : Z)
  | EvCharged (owner : ScopedPrincipal) (window bits limit : Z)
  | EvRefused (owner : ScopedPrincipal) (window : Z).

Definition window_of (now : Z) : Z := (now - now mod BANDWIDTH_WINDOW_MS)%Z.

Section exec.
Context {digest : Sha256}.

Definition exec_registry (c : registry_call) (r : RealtimeSessionRegistry) :
    RealtimeSessionRegistry * list registry_event :=
  match c with
  | RcJoin claims now nonce =>
      let '(r', o) := join claims now nonce r in
      (r', match o with Ok o => [EvJoined (jo_claims o) (jo_join_generation o)] | Err _ => [] end)
  | RcAttach claims now => ((attach_downlink claims now r).1, [])
  | RcHeartbeat claims expected now => ((heartbeat_with_generation claims expected now r).1, [])
  | RcGeneration claims now => ((current_join_generation claims now r).1, [])
  | RcStage claims stage now => ((set_adaptive_media_stage claims stage now r).1, [])
  | RcPublish claims owner limit now =>
      let '(r', o) := claim_publisher_slot claims owner limit now r in
      (r', match o with Ok _ => [EvPublished owner limit] | Err _ => [] end)
  | RcReady claims now => ((mark_media_ready claims now r).1, [])
  | RcLeave claims expected now => ((leave_matching_sequence claims expected now r).1, [])
  | RcCharge owner limit wire_bytes now =>
      let '(r', o) := charge_aggregate_bandwidth owner limit wire_bytes now r in
      (r', match o with
           | Ok _ => [EvCharged owner (window_of now) (wire_bytes * 8) limit]
           | Err _ => [EvRefused owner (window_of now)]
           end)
  | RcForward target envelope now meanwhile =>
      ((forward_encrypted target envelope now meanwhile r).1, [])
  | RcQuery now => ((prune_expired now r).1, [])
  | RcQueueClose claims => ((queue_webrtc_close claims r).1, [])
  | RcAckClose scope call_id session_id =>
      ((acknowledge_webrtc_close scope call_id session_id r).1, [])
  | RcQueueCleanup scope call_id => ((queue_call_cleanup_candidate scope call_id r).1, [])
  | RcAckCleanup scope call_id => ((acknowledge_expired_call_cleanup scope call_id r).1, [])
  | RcConsume claims => (consume_downlink claims r, [])
  | RcDrop claims => (drop_downlink claims r, [])
  end.

Definition run_registry (r : RealtimeSessionRegistry) (h : list registry_call) :
    RealtimeSessionRegistry * list registry_event :=
  foldl (λ '(r, log) c, let '(r', events) := exec_registry c r in (r', log ++ events)) (r, []) h.
End exec.

(** * Effects *)

(** A change of an entry that leaves its lease and its publisher alone. *)
Definition same_lease (e e' : SessionEntry) : Prop :=
  se_claims e' = se_claims e ∧ se_join_generation e' = se_join_generation e
  ∧ se_publisher_owner e' = se_publisher_owner e
  ∧ length (dl_queue (se_sender e')) ≤ length (dl_queue (se_sender e)).

(** What a refused charge leaves of the bandwidth windows: all of them, or those that are not
    more than one window old. *)
Definition kept_windows (r : RealtimeSessionRegistry) (now : Z) (usage : list BandwidthWindow) :
    Prop :=
  usage = rr_bandwidth_usage r
  ∨ (0 ≤ now)%Z
    ∧ usage = List.filter (λ w,
        (Z.max i64_min (window_of now - BANDWIDTH_WINDOW_MS) <=? bw_window_start_unix_ms w)%Z)
        (rr_bandwidth_usage r).

Inductive effect (r : RealtimeSessionRegistry) :
    list registry_event → RealtimeSessionRegistry → Prop :=
  | effect_prune now r' : prune_expired now r = (r', Ok tt) → effect r [] r'
  | effect_entry i e e' :
      rr_entries r !! i = Some e → same_lease e e' →
      effect r [] (set_entries (<[i := e']> (rr_entries r)) r)
  | effect_publish i e owner limit :
      rr_entries r !! i = Some e → se_publisher_owner e = None →
      (Z.of_nat (length (List.filter (publishes_for owner) (rr_entries r))) < limit)%Z →
      effect r [EvPublished owner limit]
        (set_entries (<[i := with_publisher owner e]> (rr_entries r)) r)
  | effect_publish_again owner limit : effect r [EvPublished owner limit] r
  | effect_seed v :
      rr_last_join_generation r = 0%Z → (1 ≤ v)%Z → effect r [] (set_generation v r)
  | effect_rejoin i e sequence now :
      rr_entries r !! i = Some e →
      let g := (rr_last_join_generation r + 1)%Z in
      (g ≤ MAX_JOIN_GENERATION)%Z →
      effect r [EvJoined (se_claims e) g]
        (set_entries (<[i := rejoined g now (with_sequence sequence e)]> (rr_entries r))
           (set_generation g r))
  | effect_join claims now :
      session_entry claims (rr_entries r) = None → length (rr_entries r) < rr_max_sessions r →
      let g := (rr_last_join_generation r + 1)%Z in
      (g ≤ MAX_JOIN_GENERATION)%Z →
      effect r [EvJoined claims g]
        (set_entries (rr_entries r ++ [joined claims g now]) (set_generation g r))
  | effect_send i e envelope :
      rr_entries r !! i = Some e → length (dl_queue (se_sender e)) < rr_queue_capacity r →
      effect r [] (set_entries (<[i := enqueue envelope e]> (rr_entries r)) r)
  | effect_closes v : effect r [] (set_closes v r)
  | effect_queue_cleanup scope call_id :
      effect r [] (queue_call_cleanup_candidate scope call_id r).1
  | effect_charge owner limit wire_bytes now r' :
      charge_aggregate_bandwidth owner limit wire_bytes now r = (r', Ok tt) →
      effect r [EvCharged owner (window_of now) (wire_bytes * 8) limit] r'
  | effect_refused owner now usage :
      kept_windows r now usage → effect r [EvRefused owner (window_of now)] (set_bandwidth usage r).

(** What only leaving and acknowledging do: they take a session or a pending call away. *)
Inductive retire (r : RealtimeSessionRegistry) : RealtimeSessionRegistry → Prop :=
  | retire_leave i e :
      rr_entries r !! i = Some e → retire r (set_entries (delete i (rr_entries r)) r)
  | retire_ack scope call_id : retire r (acknowledge_expired_call_cleanup scope call_id r).1.

Inductive effects (r : RealtimeSessionRegistry) :
    list registry_event → RealtimeSessionRegistry → Prop :=
  | effects_refl : effects r [] r
  | effects_step ev r' evs r'' : effect r ev r' → effects r' evs r'' → effects r (ev ++ evs) r''.

Lemma effects_one r ev r' : effect r ev r' → effects r ev r'.
Proof. intros H. rewrite <- (app_nil_r ev). by econstructor; [|constructor]. Qed.

Lemma effects_trans r evs r' evs' r'' :
  effects r evs r' → effects r' evs' r'' → effects r (evs ++ evs') r''.
Proof.
  induction 1 as [|r ev r1 evs r2 H1 _ IH]; intros H'; [done|].
  rewrite <- app_assoc. econstructor; eauto.
Qed.

Lemma effects_more r r' evs r'' : effects r [] r' → effects r' evs r'' → effects r evs r''.
Proof. apply (effects_trans r []). Qed.

Lemma effects_then r evs r' r'' : effects r evs r' → effects r' [] r'' → effects r evs r''.
Proof. intros H1 H2. rewrite <- (app_nil_r evs). by eapply effects_trans. Qed.

(** * Every call is a sequence of effects *)

Lemma session_entry_Some claims entries i e :
  session_entry claims entries = Some (i, e) →
  entries !! i = Some e ∧ same_session claims e = true.
Proof.
  unfold session_entry. intros (k & Hk & He)%bind_Some.
  apply position_Some in Hk as (x & Hx & Hs & _). rewrite Hx in He. cbn in He.
  by injection He as <- <-.
Qed.

Lemma prune_wp now r :
  wp (prune_expired now) r (λ r' o,
    match o with Ok _ => effect r [] r' | Err e => r' = r end).
Proof.
  apply wp_intro. intros r' o Hp. destruct o as [[]|e]; [by eapply effect_prune|].
  revert Hp. unfold prune_expired, mbind, op_bind, get, put, guard, lift. cbn.
  unfold reject_if. repeat case_match; congruence.
Qed.

Lemma locate_wp claims now r :
  wp (locate claims now) r (λ r' o,
    effects r [] r' ∧ match o with
      | Ok (i, e) => rr_entries r' !! i = Some e ∧ se_claims e = claims
          ∧ session_entry claims (rr_entries r') = Some (i, e)
      | Err _ => True
      end).
Proof.
  unfold locate. apply wp_guard; [intros _|by split; [constructor|]]. apply wp_bind.
  eapply wp_mono, prune_wp. intros r1 [[]|e] H; [|subst; by split; [constructor|]].
  apply effects_one in H. wp_steps; try done. destruct a as [i e]. cbn in *. bool_norm.
  split; [done|]. split_and!; [|done..]. by eapply session_entry_Some.
Qed.

Lemma update_entry_eq i e r :
  update_entry i e r = (set_entries (<[i := e]> (rr_entries r)) r, Ok tt).
Proof. done. Qed.

(** The update of a located entry. *)
Lemma located_update r r1 i e e' :
  effects r [] r1 → rr_entries r1 !! i = Some e → same_lease e e' →
  effects r [] (set_entries (<[i := e']> (rr_entries r1)) r1).
Proof. intros H Hi Hl. eapply effects_then; [done|]. by eapply effects_one, effect_entry. Qed.

Abbreviation stays r := (λ r' _, effects r [] r').

(** Runs an operation from its located entry. *)
Ltac located :=
  apply wp_bind; eapply wp_mono, locate_wp;
  let r1 := fresh "r1" in let i := fresh "i" in let e := fresh "e" in
  let H := fresh "H" in let Hi := fresh "Hi" in
  intros r1 [[i e]|?] [H Hi]; [destruct Hi as (Hi & _ & _)|exact H].
Ltac lease := by (split_and!; cbn; auto with lia).

Lemma attach_wp claims now r : wp (attach_downlink claims now) r (stays r).
Proof.
  unfold attach_downlink. located. destruct (se_receiver e).
  - apply wp_bind. unfold wp. rewrite update_entry_eq. eapply located_update; [done..|lease].
  - wp_steps; try done. apply wp_bind. unfold wp. rewrite update_entry_eq.
    eapply located_update; [done..|lease].
Qed.

Lemma heartbeat_wp claims expected now r :
  wp (heartbeat_with_generation claims expected now) r (stays r).
Proof.
  unfold heartbeat_with_generation. located.
  destruct (match expected with Some _ => _ | None => _ end); [done|].
  apply wp_bind. unfold wp. rewrite update_entry_eq. eapply located_update; [done..|lease].
Qed.

Lemma generation_wp claims now r : wp (current_join_generation claims now) r (stays r).
Proof. unfold current_join_generation. by located. Qed.

Lemma stage_wp claims stage now r : wp (set_adaptive_media_stage claims stage now) r (stays r).
Proof.
  unfold set_adaptive_media_stage. located. unfold wp. rewrite update_entry_eq.
  eapply located_update; [done..|lease].
Qed.

Lemma ready_wp claims now r : wp (mark_media_ready claims now) r (stays r).
Proof.
  unfold mark_media_ready. located. destruct (se_media_ready e); [done|].
  apply wp_bind. unfold wp at 1. rewrite update_entry_eq. cbv beta iota.
  assert (effects r [] (set_entries (<[i:=ready_with (se_sequence e) e]> (rr_entries r1)) r1)) as H1
    by (eapply located_update; [done..|lease]).
  apply wp_ok_or; [intros sequence _|done]. apply wp_bind. unfold wp. rewrite update_entry_eq.
  cbn [rr_entries set_entries fst snd]. rewrite list_insert_insert_eq.
  apply (located_update r r1 i e (ready_with sequence e)); [done..|lease].
Qed.

Lemma publish_wp claims owner limit now r :
  wp (claim_publisher_slot claims owner limit now) r (λ r' o,
    effects r (match o with Ok _ => [EvPublished owner limit] | Err _ => [] end) r').
Proof.
  unfold claim_publisher_slot. do 3 (apply wp_guard; [intros _|by constructor]). located.
  destruct (se_publisher_owner e) eqn:He.
  - apply wp_guard_end; [intros _|done]. eapply effects_more; [done|].
    apply effects_one, effect_publish_again.
  - apply wp_get, wp_guard; [|done]. rewrite Z.leb_gt. intros Hlt.
    unfold wp. rewrite update_entry_eq. eapply effects_more; [done|].
    by eapply effects_one, effect_publish.
Qed.

Lemma consume_effects claims r : effects r [] (consume_downlink claims r).
Proof.
  unfold consume_downlink. destruct (session_entry _ _) as [[i e]|] eqn:E; [|constructor].
  apply session_entry_Some in E as [Hi _]. eapply effects_one, effect_entry; [done|].
  split_and!; [done..|]. cbn. destruct (dl_queue (se_sender e)); cbn; lia.
Qed.

Lemma drop_effects claims r : effects r [] (drop_downlink claims r).
Proof.
  unfold drop_downlink. destruct (session_entry _ _) as [[i e]|] eqn:E; [|constructor].
  apply session_entry_Some in E as [Hi _]. destruct (se_receiver e); [constructor|].
  eapply effects_one, effect_entry; [done|lease].
Qed.

Lemma receiver_effects steps r : effects r [] (foldl (λ r step, receiver_act step r) r steps).
Proof.
  revert r. induction steps as [|[claims|claims] steps IH]; intros r; cbn; [constructor|..].
  - eapply effects_more; [apply consume_effects|apply IH].
  - eapply effects_more; [apply drop_effects|apply IH].
Qed.

Lemma send_all_wp meanwhile envelope matching r :
  wp (send_all meanwhile envelope matching) r (stays r).
Proof.
  revert r. induction matching as [|index matching IH]; intros r; [constructor|].
  cbn [send_all]. apply wp_get, wp_put.
  pose proof (receiver_effects (meanwhile index) r) as Hr.
  set (r1 := foldl _ r _) in *. apply wp_ok_or; [intros e He|done].
  apply wp_lift; [intros e' Hs|done]. unfold try_send in Hs. res_inv. bool_norm.
  apply wp_put. eapply wp_mono; [|apply IH]. intros r2 ? H2.
  eapply effects_more; [exact Hr|]. eapply effects_more; [|exact H2].
  subst. by apply effects_one, effect_send.
Qed.

Lemma forward_wp target envelope now meanwhile r :
  wp (forward_encrypted target envelope now meanwhile) r (stays r).
Proof.
  unfold forward_encrypted. apply wp_ok_or; [intros t _|by constructor]. apply wp_bind.
  pose proof (prune_wp t r) as Hp. unfold wp in Hp |- * at 1.
  destruct (prune_expired t r) as [r1 [[]|e]]; cbn in Hp; [|by subst; constructor].
  apply effects_one in Hp. apply wp_get, wp_guard; [intros _|done].
  destruct (length _ =? 0); [done|]. apply wp_guard; [intros _|done].
  eapply wp_mono; [|apply send_all_wp]. intros r2 ? H2. by eapply effects_then.
Qed.

Section calls.
Context {digest : Sha256}.

Lemma next_join_generation_wp nonce r :
  wp (next_join_generation nonce) r (λ r' o,
    ∃ r1, effects r [] r1 ∧ (r1 = r ∨ ∃ v, r1 = set_generation v r) ∧
      match o with
      | Ok g => g = (rr_last_join_generation r1 + 1)%Z ∧ (g ≤ MAX_JOIN_GENERATION)%Z
                ∧ r' = set_generation g r1
      | Err _ => r' = r1
      end).
Proof.
  unfold next_join_generation. apply wp_get, wp_bind.
  apply (wp_mono _ _ (λ r1 (o : result RealtimeRegistryError unit),
    effects r [] r1 ∧ (r1 = r ∨ ∃ v, r1 = set_generation v r))).
  - intros r1 [[]|e] [H Hr]; [|by exists r1]. apply wp_get, wp_guard; [|by intros _; exists r1].
    rewrite negb_false_iff, andb_true_iff, !Z.leb_le. intros [_ Hg].
    apply wp_put, wp_ret. by exists r1.
  - destruct (Z.eqb_spec (rr_last_join_generation r) 0) as [H0|_];
      [|split; [constructor|by left]].
    apply wp_ok_or; [intros id _|by split; [constructor|left]]. apply wp_put_end.
    split; [|by eauto]. apply effects_one, effect_seed; [done|lia].
Qed.

Lemma rejoin_wp i e claims sequence now nonce r :
  rr_entries r !! i = Some e → se_claims e = claims →
  wp (update_entry i (with_sequence sequence e) ;;
      generation ← next_join_generation nonce;
      update_entry i (rejoined generation now (with_sequence sequence e)) ;;
      mret (mk_join_outcome claims (mk_attendance AtReconnected claims sequence now) generation)) r
    (λ r' o, effects r (match o with
       | Ok o => [EvJoined (jo_claims o) (jo_join_generation o)] | Err _ => [] end) r').
Proof.
  intros Hi Hc. apply wp_bind. unfold wp at 1. rewrite update_entry_eq. cbv beta iota.
  set (r1 := set_entries _ r). assert (effects r [] r1) as H1
    by (apply effects_one, (effect_entry r i e); [done|lease]).
  assert (rr_entries r1 !! i = Some (with_sequence sequence e)) as Hi1
    by (cbn; rewrite list_lookup_insert_eq; [done|by eapply lookup_lt_Some]).
  apply wp_bind. eapply wp_mono, next_join_generation_wp.
  intros r' [g|err] (r2 & H2 & Hr & Hg); [|subst r'; by eapply effects_more].
  destruct Hg as (-> & Hmax & ->). apply wp_bind. unfold wp. rewrite update_entry_eq.
  cbn [fst snd mret op_ret jo_claims jo_join_generation].
  eapply effects_more; [exact H1|]. eapply effects_more; [exact H2|]. apply effects_one.
  rewrite <- Hc. change (se_claims e) with (se_claims (with_sequence sequence e)).
  apply (effect_rejoin r2 i (with_sequence sequence e) sequence now); [|done].
  by destruct Hr as [-> |[v ->]].
Qed.

Lemma join_wp claims now nonce r :
  wp (join claims now nonce) r (λ r' o, effects r (match o with
    | Ok o => [EvJoined (jo_claims o) (jo_join_generation o)] | Err _ => [] end) r').
Proof.
  unfold join. apply wp_guard; [intros _|by constructor].
  apply wp_get, wp_guard; [intros _|by constructor]. apply wp_bind.
  eapply wp_mono, prune_wp. intros r1 [[]|e] H; [|by subst; constructor].
  apply effects_one in H. apply wp_get.
  destruct (session_entry claims (rr_entries r1)) as [[i e]|] eqn:He.
  - apply session_entry_Some in He as [Hi _]. apply wp_guard; [|by intros _].
    rewrite negb_false_iff, bool_decide_eq_true. intros Hc.
    apply wp_ok_or; [intros sequence _|done].
    eapply wp_mono, rejoin_wp; [|done..]. intros r' o H'. by eapply effects_more.
  - apply wp_guard; [|by intros _]. rewrite Nat.leb_gt. intros Hroom. apply wp_bind.
    eapply wp_mono, next_join_generation_wp.
    intros r' [g|err] (r2 & H2 & Hr & Hg); [|subst r'; by eapply effects_more].
    destruct Hg as (-> & Hmax & ->). apply wp_get, wp_put, wp_ret. cbn.
    eapply effects_more; [exact H|]. eapply effects_more; [exact H2|]. apply effects_one.
    apply (effect_join r2 claims now); [| |done]; by destruct Hr as [-> |[v ->]].
Qed.

Lemma charge_refused owner limit wire_bytes now r :
  wp (charge_aggregate_bandwidth owner limit wire_bytes now) r (λ r' o,
    match o with
    | Ok _ => True
    | Err _ => ∃ usage, kept_windows r now usage ∧ r' = set_bandwidth usage r
    end).
Proof.
  assert (∃ usage, kept_windows r now usage ∧ r = set_bandwidth usage r)
    by (exists (rr_bandwidth_usage r); split; [by left|by destruct r]).
  unfold charge_aggregate_bandwidth. wp_steps; try done.
  eexists. split; [|done]. right. split; [by bool_norm|done].
Qed.

Lemma charge_wp owner limit wire_bytes now r :
  wp (charge_aggregate_bandwidth owner limit wire_bytes now) r (λ r' o,
    effects r [match o with
      | Ok _ => EvCharged owner (window_of now) (wire_bytes * 8) limit
      | Err _ => EvRefused owner (window_of now) end] r').
Proof.
  apply wp_intro. intros r' o Hc.
  pose proof (wp_run _ _ _ _ _ (charge_refused owner limit wire_bytes now r) Hc) as Hr.
  destruct o as [[]|e]; [by eapply effects_one, effect_charge|].
  destruct Hr as (usage & Hu & ->). by apply effects_one, effect_refused.
Qed.

Lemma leave_wp claims expected now r :
  wp (leave_matching_sequence claims expected now) r (λ r' o,
    match o with
    | Err _ => r' = r
    | Ok _ => ∃ i e, session_entry claims (rr_entries r) = Some (i, e) ∧ se_claims e = claims
        ∧ (∀ g, expected = Some g → se_join_generation e = g)
        ∧ r' = set_entries (delete i (rr_entries r)) r
    end).
Proof.
  unfold leave_matching_sequence. wp_steps; try done.
  match goal with H : _ || _ = false |- _ => apply orb_false_iff in H as [Hc Hg] end.
  bool_norm. eexists _, _. split_and!; try done. intros g ->. by bool_norm.
Qed.

Definition retires (c : registry_call) : bool :=
  match c with RcLeave _ _ _ | RcAckCleanup _ _ => true | _ => false end.

(** Every call that does not retire anything is a sequence of effects. *)
Lemma exec_effects c r :
  retires c = false → effects r (exec_registry c r).2 (exec_registry c r).1.
Proof.
  destruct c; cbn; try done; intros _.
  - pose proof (join_wp claims now nonce r) as H. unfold wp in H.
    by destruct (join claims now nonce r) as [r' [o|e]].
  - apply (attach_wp claims now r).
  - apply (heartbeat_wp claims expected now r).
  - apply (generation_wp claims now r).
  - apply (stage_wp claims stage now r).
  - pose proof (publish_wp claims owner limit now r) as H. unfold wp in H.
    by destruct (claim_publisher_slot claims owner limit now r) as [r' [[]|e]].
  - apply (ready_wp claims now r).
  - pose proof (charge_wp owner limit wire_bytes now r) as H. unfold wp in H.
    by destruct (charge_aggregate_bandwidth owner limit wire_bytes now r) as [r' [[]|e]].
  - apply (forward_wp target envelope now meanwhile r).
  - pose proof (prune_wp now r) as H. unfold wp in H.
    destruct (prune_expired now r) as [r' [[]|e]]; cbn in *; [by apply effects_one|].
    subst. constructor.
  - unfold queue_webrtc_close, mbind, op_bind, get. cbn. case_match; [constructor|].
    apply effects_one, effect_closes.
  - apply effects_one, effect_closes.
  - apply effects_one, effect_queue_cleanup.
  - apply consume_effects.
  - apply drop_effects.
Qed.

Lemma exec_retires c r :
  retires c = true →
  (exec_registry c r).2 = [] ∧ ((exec_registry c r).1 = r ∨ retire r (exec_registry c r).1).
Proof.
  destruct c; cbn; try done; intros _; (split; [done|]).
  - pose proof (leave_wp claims expected now r) as H. unfold wp in H.
    destruct (leave_matching_sequence claims expected now r) as [r' [o|e]]; cbn in *; [|by left].
    right. destruct H as (i & e & [Hi _]%session_entry_Some & _ & _ & ->).
    by apply (retire_leave r i e).
  - right. constructor.
Qed.
End calls.
