(* ===== verification/RealtimeTheorems.v ===== *)
(** The realtime registry keeps its promises: generations fence connections, and the tables
    stay within their bounds. *)

From S2P Require Import Prelude Ids Message StoreForward Store Memory OpLogic.
From S2P Require Import Video Sfu Adaptive JoinToken Realtime RealtimeSpec.

Lemma sublist_filter_b {A} (f : A → bool) (l : list A) : List.filter f l `sublist_of` l.
Proof.
  induction l as [|x l IH]; cbn; [done|]. destruct (f x); [by apply sublist_skip|by apply sublist_cons].
Qed.

Lemma fmap_sublist_of {A B} (f : A → B) (l k : list A) :
  l `sublist_of` k → f <$> l `sublist_of` f <$> k.
Proof. induction 1; cbn; by constructor. Qed.

Lemma filter_b_elem {A} (f : A → bool) (l : list A) x :
  x ∈ List.filter f l ↔ x ∈ l ∧ f x = true.
Proof. by rewrite !list_elem_of_In, filter_In. Qed.

(** What pruning does to every table. *)
Lemma prune_Ok now r r' :
  prune_expired now r = (r', Ok tt) →
  rr_track_expired_call_cleanup r = false
    ∧ r' = set_entries (List.filter (session_live now) (rr_entries r)) r
  ∨ rr_track_expired_call_cleanup r = true
    ∧ (let final := final_expired_calls (rr_entries r) now in
       let pending := rr_expired_call_cleanup r in
       length pending + length (List.filter (λ c, negb (has_call pending c)) final)
         ≤ rr_max_sessions r
       ∧ r' = set_cleanup (push_new_calls pending final)
                (set_entries (List.filter (session_live now) (rr_entries r)) r)).
Proof.
  unfold prune_expired, mbind, op_bind, get, put, guard, lift, reject_if. cbv zeta.
  destruct (rr_track_expired_call_cleanup r); cbn [negb].
  - destruct (Nat.ltb_spec (rr_max_sessions r) (length (rr_expired_call_cleanup r)
      + length (List.filter (λ c, negb (has_call (rr_expired_call_cleanup r) c))
                  (final_expired_calls (rr_entries r) now)))); [done|].
    intros [= <-]. by right.
  - intros [= <-]. by left.
Qed.

(** * Leases *)

Definition session_key (c : RealtimeSessionClaims) : TenantScope * CallId * SessionId :=
  (rc_scope c, rc_call_id c, rc_session_id c).
Definition lease := (RealtimeSessionClaims * Z)%type.
Definition lease_of (e : SessionEntry) : lease := (se_claims e, se_join_generation e).

Definition joins (log : list registry_event) : list lease :=
  omap (λ ev, match ev with EvJoined c g => Some (c, g) | _ => None end) log.
(** The last join of a session. *)
Definition latest (key : TenantScope * CallId * SessionId) (log : list registry_event) :
    option lease :=
  last (List.filter (λ l, bool_decide (session_key l.1 = key)) (joins log)).

Record leases_ok (ls : list lease) (generation : Z) (log : list registry_event) : Prop := {
  lo_distinct : NoDup ((λ l, session_key l.1) <$> ls);
  lo_latest : ∀ l, l ∈ ls → latest (session_key l.1) log = Some l;
  lo_sorted : StronglySorted (λ a b, a.2 < b.2)%Z (joins log);
  lo_bound : ∀ l, l ∈ joins log → (0 < l.2 ≤ generation)%Z;
  lo_generation : (0 ≤ generation)%Z;
}.

Lemma same_session_key claims e :
  same_session claims e = true ↔ session_key (se_claims e) = session_key claims.
Proof.
  unfold same_session, session_key. rewrite !andb_true_iff, !bool_decide_eq_true.
  split; [by intros [[-> ->] ->]|by intros [= -> -> ->]].
Qed.

Lemma joins_app l k : joins (l ++ k) = joins l ++ joins k.
Proof. unfold joins. by rewrite omap_app. Qed.

Lemma latest_join log c g key :
  latest key (log ++ [EvJoined c g])
  = if bool_decide (session_key c = key) then Some (c, g) else latest key log.
Proof.
  unfold latest. rewrite joins_app, List.filter_app. cbn.
  destruct (bool_decide (session_key c = key)); [by rewrite last_snoc|by rewrite app_nil_r].
Qed.

Lemma leases_sublist ls ls' g log :
  ls' `sublist_of` ls → leases_ok ls g log → leases_ok ls' g log.
Proof.
  intros Hs []. split; try done.
  - eapply sublist_NoDup; [exact lo_distinct0|]. by apply fmap_sublist_of.
  - intros l Hl. apply lo_latest0. by eapply elem_of_submseteq, sublist_submseteq.
Qed.

Lemma leases_seed ls g v log :
  leases_ok ls g log → g = 0%Z → (1 ≤ v)%Z → leases_ok ls v log.
Proof.
  intros [] -> Hv. split; try done; [|lia]. intros l Hl. specialize (lo_bound0 l Hl). lia.
Qed.

(** Events other than joins. *)
Lemma leases_silent ls g log evs :
  leases_ok ls g log → joins evs = [] → leases_ok ls g (log ++ evs).
Proof.
  intros [Hd Hl Hs Hb Hg] Hj. unfold latest in Hl.
  split; unfold latest; rewrite ?joins_app, ?Hj, ?app_nil_r; done.
Qed.

(** A join takes the next generation, on a session that has no other lease. *)
Lemma leases_join ls ls' c g log :
  leases_ok ls g log →
  NoDup ((λ l, session_key l.1) <$> ls') →
  (∀ l, l ∈ ls' → l = (c, g + 1)%Z ∨ l ∈ ls ∧ session_key l.1 ≠ session_key c) →
  leases_ok ls' (g + 1) (log ++ [EvJoined c (g + 1)]).
Proof.
  intros [] Hnd Hls. split; [done| | | |lia].
  - intros l [->|[Hl Hne]]%Hls; rewrite latest_join.
    + by rewrite bool_decide_eq_true_2.
    + rewrite bool_decide_eq_false_2 by congruence. auto.
  - rewrite joins_app. cbn. apply StronglySorted_snoc; [done|].
    apply Forall_forall. intros l Hl. specialize (lo_bound0 l Hl). cbn. lia.
  - intros l. rewrite joins_app. cbn. rewrite elem_of_app, list_elem_of_singleton.
    intros [Hl| ->]; [specialize (lo_bound0 l Hl)|cbn]; lia.
Qed.

Lemma same_lease_insert (entries : list SessionEntry) (i : nat) e e' :
  entries !! i = Some e → lease_of e' = lease_of e →
  lease_of <$> <[i := e']> entries = lease_of <$> entries.
Proof.
  intros Hi He. rewrite list_fmap_insert, He. apply list_insert_id.
  by rewrite list_lookup_fmap, Hi.
Qed.

Lemma leases_rejoin (entries : list SessionEntry) (i : nat) e e' g log :
  leases_ok (lease_of <$> entries) g log → entries !! i = Some e →
  se_claims e' = se_claims e → se_join_generation e' = (g + 1)%Z →
  leases_ok (lease_of <$> <[i := e']> entries) (g + 1) (log ++ [EvJoined (se_claims e) (g + 1)]).
Proof.
  intros H Hi Hc Hg. eapply leases_join; [exact H| |].
  - rewrite <- list_fmap_compose, list_fmap_insert.
    destruct H as [Hd _ _ _ _]. rewrite <- list_fmap_compose in Hd.
    rewrite list_insert_id; [done|]. rewrite list_lookup_fmap, Hi. cbn. by rewrite Hc.
  - intros l (x & -> & [k Hk]%list_elem_of_lookup)%list_elem_of_fmap.
    apply list_lookup_insert_Some in Hk as [(<- & <- & _)|[Hne Hk]].
    + left. unfold lease_of. by rewrite Hc, Hg.
    + right. split; [apply list_elem_of_fmap; eexists; split; [done|by eapply list_elem_of_lookup_2]|].
      intros E. apply Hne. eapply NoDup_lookup; [apply H| |];
        rewrite !list_lookup_fmap; [by rewrite Hi|rewrite Hk; cbn; by f_equal].
Qed.

Lemma session_entry_None claims entries e :
  session_entry claims entries = None → e ∈ entries →
  session_key (se_claims e) ≠ session_key claims.
Proof.
  unfold session_entry. intros Hn He E. destruct (position (same_session claims) entries) as [k|] eqn:Ek.
  - apply position_Some in Ek as (x & Hx & _). cbn in Hn. by rewrite Hx in Hn.
  - apply position_None in Ek. eapply Forall_forall in Ek; [|exact He].
    apply same_session_key in E. congruence.
Qed.

Lemma leases_new (entries : list SessionEntry) claims g now log :
  leases_ok (lease_of <$> entries) g log → session_entry claims entries = None →
  leases_ok (lease_of <$> entries ++ [joined claims (g + 1) now]) (g + 1)
    (log ++ [EvJoined claims (g + 1)]).
Proof.
  intros H Hnone. assert (∀ l, l ∈ lease_of <$> entries → session_key l.1 ≠ session_key claims) as Hfresh.
  { intros l (e & -> & He)%list_elem_of_fmap. by eapply session_entry_None. }
  rewrite fmap_app. cbn. eapply leases_join; [exact H| |].
  - rewrite fmap_app. apply NoDup_app. split_and!; [apply H| |apply NoDup_singleton].
    intros x (l & -> & Hl)%list_elem_of_fmap Hx. cbn in Hx. apply list_elem_of_singleton in Hx.
    by apply (Hfresh l).
  - intros l [Hl|Hl%list_elem_of_singleton]%elem_of_app; [right|left]; auto.
Qed.

Lemma charge_keeps owner limit wire_bytes now r :
  wp (charge_aggregate_bandwidth owner limit wire_bytes now) r (λ r' _,
    r' = set_bandwidth (rr_bandwidth_usage r') r).
Proof. unfold charge_aggregate_bandwidth. destruct r. wp_steps; done. Qed.

Lemma queue_cleanup_state scope call_id r :
  (queue_call_cleanup_candidate scope call_id r).1 = r
  ∨ (length (rr_expired_call_cleanup r) < rr_max_sessions r)
    ∧ ((scope, call_id) ∉ rr_expired_call_cleanup r)
    ∧ (queue_call_cleanup_candidate scope call_id r).1
      = set_cleanup (rr_expired_call_cleanup r ++ [(scope, call_id)]) r.
Proof.
  unfold queue_call_cleanup_candidate, mbind, op_bind, get, put, guard, lift, reject_if. cbn.
  destruct (negb _); [by left|]. destruct (has_call _ _) eqn:Eh; [by left|].
  destruct (Nat.leb_spec (rr_max_sessions r) (length (rr_expired_call_cleanup r))); [by left|].
  right. split_and!; [done| |done]. intros Hin. apply not_true_iff_false in Eh. apply Eh.
  apply existsb_exists. exists (scope, call_id). rewrite <- list_elem_of_In.
  by rewrite !bool_decide_eq_true_2.
Qed.

Abbreviation leases r := (lease_of <$> rr_entries r).
Abbreviation registry_leases r log := (leases_ok (leases r) (rr_last_join_generation r) log).

Lemma effect_leases r evs r' log :
  effect r evs r' → registry_leases r log → registry_leases r' (log ++ evs).
Proof.
  destruct 1 as [now r' Hp|i e e' Hi (Hc & Hg & _)|i e owner limit Hi Hpub _|owner limit|v H0 Hv
    |i e sequence now Hi g Hg|claims now Hn _ g Hg|i e envelope Hi Hroom|v|scope call_id
    |owner limit wire_bytes now r' Hc|owner now usage Hu]; intros H; rewrite ?app_nil_r; cbn [set_entries
      set_closes set_bandwidth set_generation rr_entries rr_last_join_generation]; try done.
  - apply prune_Ok in Hp as [[_ ->]|(_ & _ & ->)]; cbn;
      (eapply leases_sublist; [apply fmap_sublist_of, sublist_filter_b|done]).
  - rewrite (same_lease_insert _ _ e); [done..|]. unfold lease_of. by rewrite Hc, Hg.
  - rewrite (same_lease_insert _ _ e) by done. by apply leases_silent.
  - by apply leases_silent.
  - by eapply leases_seed.
  - by apply leases_rejoin.
  - by apply leases_new.
  - by rewrite (same_lease_insert _ _ e).
  - destruct (queue_cleanup_state scope call_id r) as [->|(_ & _ & ->)]; done.
  - pose proof (wp_run _ _ _ _ _ (charge_keeps owner limit wire_bytes now r) Hc) as ->.
    by apply leases_silent.
  - by apply leases_silent.
Qed.

Lemma effects_leases r evs r' log :
  effects r evs r' → registry_leases r log → registry_leases r' (log ++ evs).
Proof.
  intros H. revert log. induction H as [|r ev r1 evs r2 H1 _ IH]; intros log Hl;
    [by rewrite app_nil_r|]. rewrite app_assoc. apply IH. by eapply effect_leases.
Qed.

Lemma retire_leases r r' log : retire r r' → registry_leases r log → registry_leases r' log.
Proof.
  intros [i e _|scope call_id] H; [|done]. cbn. eapply leases_sublist; [|exact H].
  apply fmap_sublist_of. apply sublist_delete.
Qed.

Section run.
Context {digest : Sha256}.

Lemma run_registry_snoc r h c :
  run_registry r (h ++ [c]) =
  let '(r1, log) := run_registry r h in
  ((exec_registry c r1).1, log ++ (exec_registry c r1).2).
Proof.
  unfold run_registry. rewrite foldl_app. cbn. destruct (foldl _ _ h) as [r1 log].
  by destruct (exec_registry c r1).
Qed.

(** An invariant of the registry and its log, step by step. *)
Lemma run_registry_ind (P : RealtimeSessionRegistry → list registry_event → Prop) r h :
  P r [] →
  (∀ r1 log c, P r1 log → P (exec_registry c r1).1 (log ++ (exec_registry c r1).2)) →
  P (run_registry r h).1 (run_registry r h).2.
Proof.
  intros H0 Hs. induction h as [|c h IH] using rev_ind; [done|]. rewrite run_registry_snoc.
  destruct (run_registry r h) as [r1 log]. by apply Hs.
Qed.

(** The same for invariants that every effect keeps. *)
Lemma run_registry_effects (P : RealtimeSessionRegistry → list registry_event → Prop) r h :
  P r [] →
  (∀ r1 log evs r2, P r1 log → effect r1 evs r2 → P r2 (log ++ evs)) →
  (∀ r1 log r2, P r1 log → retire r1 r2 → P r2 log) →
  P (run_registry r h).1 (run_registry r h).2.
Proof.
  intros H0 He Hr. apply run_registry_ind; [done|]. intros r1 log c H1.
  destruct (retires c) eqn:Hc.
  - destruct (exec_retires c r1 Hc) as [-> [-> |Hret]]; rewrite app_nil_r; [done|eauto].
  - pose proof (exec_effects c r1 Hc) as Heff. revert log H1.
    induction Heff as [|r1 ev r2 evs r3 H1 _ IH]; intros log Hl; [by rewrite app_nil_r|].
    rewrite app_assoc. eauto.
Qed.

Definition fresh_registry (r : RealtimeSessionRegistry) : Prop :=
  ∃ max_sessions queue_capacity,
    r = registry_new max_sessions queue_capacity
    ∨ r = with_expired_call_cleanup max_sessions queue_capacity.

Lemma run_leases r h :
  fresh_registry r → registry_leases (run_registry r h).1 (run_registry r h).2.
Proof.
  intros (m & q & Hr). apply (run_registry_effects (λ r log, registry_leases r log)).
  - destruct Hr as [-> | ->]; (split; cbn; [constructor|set_solver|constructor|set_solver|lia]).
  - intros r1 log evs r2 H He. by eapply effect_leases.
  - intros r1 log r2 H Hret. by eapply retire_leases.
Qed.
(** * Fencing *)

(** A located session has the latest lease of the session. *)
Lemma session_entry_latest ls_ok claims i e r log :
  registry_leases r log → ls_ok = rr_entries r →
  session_entry claims ls_ok = Some (i, e) →
  latest (session_key claims) log = Some (lease_of e).
Proof.
  intros H -> [Hi Hs]%session_entry_Some. apply same_session_key in Hs. rewrite <- Hs.
  apply (lo_latest _ _ _ H (lease_of e)). apply list_elem_of_fmap.
  exists e. split; [done|]. by eapply list_elem_of_lookup_2.
Qed.

Lemma locate_leases claims now r log :
  registry_leases r log →
  wp (locate claims now) r (λ r' o,
    (rr_entries r' = rr_entries r ∨ rr_entries r' = List.filter (session_live now) (rr_entries r))
    ∧ match o with
      | Ok (i, e) => latest (session_key claims) log = Some (claims, se_join_generation e)
      | Err _ => True
      end).
Proof.
  intros H. unfold locate. apply wp_guard; [intros _|by auto]. apply wp_bind.
  apply wp_intro. intros r1 [[]|e] Hp.
  - assert (rr_entries r1 = List.filter (session_live now) (rr_entries r)) as Hr
      by (by apply prune_Ok in Hp as [[_ ->]|(_ & _ & ->)]).
    pose proof (effect_leases _ _ _ log (effect_prune r now r1 Hp) H) as H1.
    rewrite app_nil_r in H1. wp_steps; auto. destruct a as [i e]. cbn in *. bool_norm.
    split; [by right|]. rewrite (session_entry_latest _ _ _ _ _ _ H1 eq_refl ltac:(eassumption)).
    unfold lease_of. by repeat f_equal.
  - pose proof (wp_run _ _ _ _ _ (prune_wp now r) Hp) as Hr. cbn in Hr. subst r1. auto.
Qed.

Lemma stale_leave claims g now r log :
  registry_leases r log → latest (session_key claims) log ≠ Some (claims, g) →
  wp (leave_if_sequence claims g now) r (λ r' o, r' = r ∧ is_ok o = false).
Proof.
  intros H Hstale. unfold leave_if_sequence. apply wp_guard; [intros _|done].
  eapply wp_mono, leave_wp. intros r' [o|e]; [|by intros ->].
  intros (i & e & He & Hc & Hg & _). destruct Hstale.
  rewrite (session_entry_latest _ _ _ _ _ _ H eq_refl He). unfold lease_of.
  rewrite Hc. by rewrite (Hg g).
Qed.

Lemma stale_heartbeat claims g now r log :
  registry_leases r log → latest (session_key claims) log ≠ Some (claims, g) →
  wp (heartbeat_if_join_generation claims g now) r (λ r' o,
    (∀ sequence, o ≠ Ok (Some sequence)) ∧ ∀ e, e ∈ rr_entries r' → e ∈ rr_entries r).
Proof.
  intros H Hstale. unfold heartbeat_if_join_generation.
  destruct (g =? 0)%Z; [by apply wp_ret|]. apply wp_bind. unfold heartbeat_with_generation.
  apply wp_bind. eapply wp_mono, locate_leases; [|done]. intros r1 o [Hr Hl].
  assert (∀ e, e ∈ rr_entries r1 → e ∈ rr_entries r) as Hsub.
  { destruct Hr as [-> | ->]; [done|]. intros e. rewrite filter_b_elem. tauto. }
  destruct o as [[i e]|err]; [|done]. cbn.
  destruct (Z.eqb_spec g (se_join_generation e)) as [->|_]; [congruence|]. cbn. by apply wp_ret.
Qed.

(** C9: Generations fence connections.  In every history of a registry the generations that
    joins hand out are strictly increasing, so no two joins share one.  Leaving with a
    generation succeeds only for the latest join of that session; a connection that a newer
    join has replaced can neither remove the session, which stays as it is, nor renew its
    presence: its heartbeat is not acknowledged and changes no entry. *)
Theorem realtime_generations_fence_connections r h claims g now :
  fresh_registry r → let '(r', log) := run_registry r h in
  StronglySorted (λ a b, a.2 < b.2)%Z (joins log)
  ∧ (latest (session_key claims) log ≠ Some (claims, g) →
     (leave_if_sequence claims g now r').1 = r'
     ∧ is_ok (leave_if_sequence claims g now r').2 = false
     ∧ (∀ sequence, (heartbeat_if_join_generation claims g now r').2 ≠ Ok (Some sequence))
     ∧ ∀ e, e ∈ rr_entries (heartbeat_if_join_generation claims g now r').1 → e ∈ rr_entries r').
Proof.
  intros Hf. pose proof (run_leases r h Hf) as H. destruct (run_registry r h) as [r' log].
  cbn [fst snd] in H. split; [apply H|]. intros Hstale.
  pose proof (stale_leave claims g now r' log H Hstale) as [Hl1 Hl2].
  pose proof (stale_heartbeat claims g now r' log H Hstale) as [Hb1 Hb2]. done.
Qed.
End run.

(** * Bounds *)

Lemma has_call_elem calls call : has_call calls call = true ↔ call ∈ calls.
Proof.
  unfold has_call. rewrite existsb_exists. split.
  - intros ([s c] & Hin & [Hs Hc]%andb_true_iff). apply bool_decide_eq_true in Hs, Hc.
    destruct call. cbn in *. subst. by rewrite list_elem_of_In.
  - intros Hin. exists call. rewrite <- list_elem_of_In. by rewrite !bool_decide_eq_true_2.
Qed.

Lemma existsb_elem_eq {A} `{EqDecision A} (l : list A) (x : A) :
  existsb (λ y, bool_decide (y = x)) l = true ↔ x ∈ l.
Proof.
  rewrite existsb_exists. split.
  - intros (y & Hy & ->%bool_decide_eq_true). by rewrite list_elem_of_In.
  - intros Hx. exists x. rewrite <- list_elem_of_In. by rewrite bool_decide_eq_true_2.
Qed.

Abbreviation unseen p cs := (length (List.filter (λ c, negb (has_call p c)) cs)).

Lemma unseen_mono p q cs : (∀ x, x ∈ p → x ∈ q) → unseen q cs ≤ unseen p cs.
Proof.
  intros Hpq. induction cs as [|c cs IH]; cbn; [done|]. destruct (has_call p c) eqn:Ep.
  - apply has_call_elem, Hpq, has_call_elem in Ep. by rewrite Ep.
  - destruct (has_call q c); cbn; lia.
Qed.

Lemma push_new_calls_spec pending cs :
  (∀ x, x ∈ push_new_calls pending cs ↔ x ∈ pending ∨ x ∈ cs)
  ∧ (NoDup pending → NoDup (push_new_calls pending cs))
  ∧ length (push_new_calls pending cs) ≤ length pending + unseen pending cs.
Proof.
  unfold push_new_calls. revert pending. induction cs as [|c cs IH]; intros pending; cbn.
  { split_and!; [set_solver|done|lia]. }
  destruct (existsb _ pending) eqn:E.
  - apply existsb_elem_eq in E. destruct (IH pending) as (He & Hn & Hl).
    split_and!; [set_solver|done|]. apply has_call_elem in E. rewrite E. cbn. lia.
  - assert (c ∉ pending) as Hc by (intros Hin%existsb_elem_eq; congruence).
    destruct (IH (pending ++ [c])) as (He & Hn & Hl). split_and!.
    + set_solver.
    + intros Hp. apply Hn, NoDup_app. split_and!; [done|set_solver|apply NoDup_singleton].
    + destruct (has_call pending c) eqn:Eh; [by apply has_call_elem in Eh|]. cbn.
      rewrite length_app in Hl. cbn in Hl.
      pose proof (unseen_mono pending (pending ++ [c]) cs ltac:(set_solver)). lia.
Qed.

Record bounded (r : RealtimeSessionRegistry) : Prop := {
  bd_entries : length (rr_entries r) ≤ rr_max_sessions r;
  bd_queues : ∀ e, e ∈ rr_entries r → length (dl_queue (se_sender e)) ≤ rr_queue_capacity r;
  bd_cleanup : length (rr_expired_call_cleanup r) ≤ rr_max_sessions r;
  bd_cleanup_distinct : NoDup (rr_expired_call_cleanup r);
  bd_windows : length (rr_bandwidth_usage r) ≤ rr_max_sessions r * 2;
  bd_owners : NoDup (bw_owner <$> rr_bandwidth_usage r);
}.

(** Only the entries changed: there are no more of them, and their queues are bounded. *)
Lemma bounded_entries r es :
  bounded r → length es ≤ rr_max_sessions r →
  (∀ e, e ∈ es → length (dl_queue (se_sender e)) ≤ rr_queue_capacity r) →
  bounded (set_entries es r).
Proof. intros []. by split. Qed.

Lemma bounded_set_entry r i e' :
  bounded r → length (dl_queue (se_sender e')) ≤ rr_queue_capacity r →
  bounded (set_entries (<[i := e']> (rr_entries r)) r).
Proof.
  intros H Hq. apply bounded_entries; [done|rewrite length_insert; apply H|].
  intros x [k Hk]%list_elem_of_lookup.
  apply list_lookup_insert_Some in Hk as [(-> & -> & _)|[_ Hk]]; [done|].
  apply (bd_queues _ H). by eapply list_elem_of_lookup_2.
Qed.

Lemma bounded_update r i e e' :
  bounded r → rr_entries r !! i = Some e →
  length (dl_queue (se_sender e')) ≤ length (dl_queue (se_sender e)) →
  bounded (set_entries (<[i := e']> (rr_entries r)) r).
Proof.
  intros H Hi Hq. apply bounded_set_entry; [done|]. etrans; [exact Hq|]. apply (bd_queues _ H).
  by eapply list_elem_of_lookup_2.
Qed.

Lemma charge_windows owner limit wire_bytes now r :
  bounded r → wp (charge_aggregate_bandwidth owner limit wire_bytes now) r (λ r' _,
    length (rr_bandwidth_usage r') ≤ rr_max_sessions r * 2
    ∧ NoDup (bw_owner <$> rr_bandwidth_usage r')).
Proof.
  intros []. unfold charge_aggregate_bandwidth. wp_steps; cbn; try done.
  1,2: rewrite length_insert, list_fmap_insert; split; [done|];
    rewrite list_insert_id; [done|]; rewrite list_lookup_fmap;
    match goal with E : _ !! _ = Some _ |- _ => by rewrite E end.
  all: match goal with |- context [List.filter ?f ?u] =>
    pose proof (sublist_filter_b f u) as Hsub; set (kept := List.filter f u) in * end.
  all: assert (NoDup (bw_owner <$> kept)) as Hnd
    by (eapply sublist_NoDup; [eassumption|by apply fmap_sublist_of]).
  - bool_norm. rewrite length_app. cbn. split; [lia|]. rewrite fmap_app.
    apply NoDup_app. split_and!; [done| |apply NoDup_singleton].
    intros x (w & -> & Hw)%list_elem_of_fmap Hx%list_elem_of_singleton. cbn in Hx.
    match goal with E : position _ _ = None |- _ => apply position_None in E;
      eapply Forall_forall in E; [|eapply elem_of_submseteq; [exact Hw|by apply sublist_submseteq]];
      cbn in E; by apply bool_decide_eq_false in E end.
  - split; [|done]. apply sublist_length in Hsub. lia.
Qed.

Lemma kept_windows_sublist r now usage :
  kept_windows r now usage → usage `sublist_of` rr_bandwidth_usage r.
Proof. intros [->|[_ ->]]; [done|apply sublist_filter_b]. Qed.

Lemma effect_bounded r evs r' : effect r evs r' → bounded r → bounded r'.
Proof.
  destruct 1 as [now r' Hp|i e e' Hi (_ & _ & _ & Hq)|i e owner limit Hi Hpub _|owner limit|v H0 Hv
    |i e sequence now Hi g Hg|claims now Hn Hroom g Hg|i e envelope Hi Hsend|v|scope call_id
    |owner limit wire_bytes now r' Hc|owner now usage Hu]; intros H.
  - assert (bounded (set_entries (List.filter (session_live now) (rr_entries r)) r)) as Hk.
    { apply bounded_entries; [done| |].
      - etrans; [apply sublist_length, sublist_filter_b|apply H].
      - intros e [He _]%filter_b_elem. by apply H. }
    apply prune_Ok in Hp as [[_ ->]|(_ & Hlen & ->)]; [done|].
    destruct (push_new_calls_spec (rr_expired_call_cleanup r) (final_expired_calls (rr_entries r) now))
      as (_ & Hn & Hl).
    destruct Hk. split; cbn in *; [done|done|lia|by apply Hn|done|done].
  - by eapply bounded_update.
  - by eapply bounded_update.
  - done.
  - by destruct H.
  - assert (bounded (set_generation g r)) as Hg' by (by destruct H).
    by eapply (bounded_update (set_generation g r)); cbn; [|exact Hi|lia].
  - assert (bounded (set_generation g r)) as Hg' by (by destruct H).
    apply bounded_entries; [done|rewrite length_app; cbn; lia|].
    intros e [He|He%list_elem_of_singleton]%elem_of_app; [by apply H|subst; cbn; lia].
  - apply bounded_set_entry; [done|]. cbn. rewrite length_app. cbn. lia.
  - by destruct H.
  - destruct (queue_cleanup_state scope call_id r) as [->|(Hlt & Hnew & ->)]; [done|].
    destruct H. split; cbn; [done|done| | |done|done].
    + rewrite length_app. cbn. lia.
    + apply NoDup_app. split_and!; [done|set_solver|apply NoDup_singleton].
  - pose proof (wp_run _ _ _ _ _ (charge_windows owner limit wire_bytes now r H) Hc) as [Hw Ho].
    pose proof (wp_run _ _ _ _ _ (charge_keeps owner limit wire_bytes now r) Hc) as E.
    rewrite E. destruct H. by split.
  - apply kept_windows_sublist in Hu. destruct H. split; cbn; [done..| |].
    + apply sublist_length in Hu. lia.
    + eapply sublist_NoDup; [exact bd_owners0|]. by apply fmap_sublist_of.
Qed.

Lemma retire_bounded r r' : retire r r' → bounded r → bounded r'.
Proof.
  intros [i e Hi|scope call_id] H.
  - apply bounded_entries; [done| |].
    + etrans; [apply sublist_length, sublist_delete|apply H].
    + intros x Hx. apply H. eapply elem_of_submseteq; [exact Hx|].
      apply sublist_submseteq, sublist_delete.
  - destruct H. split; cbn; [done|done| | |done|done].
    + etrans; [apply sublist_length, sublist_filter_b|done].
    + eapply sublist_NoDup; [exact bd_cleanup_distinct0|apply sublist_filter_b].
Qed.

(** * Publisher slots *)

Definition publishers (owner : ScopedPrincipal) (r : RealtimeSessionRegistry) : nat :=
  length (List.filter (publishes_for owner) (rr_entries r)).
Definition slots_within (owner : ScopedPrincipal) (limit : Z) (log : list registry_event) : Prop :=
  ∀ l, EvPublished owner l ∈ log → (l ≤ limit)%Z.

Lemma count_insert {A} (f : A → bool) (l : list A) i x y :
  l !! i = Some x →
  length (List.filter f (<[i := y]> l)) + (if f x then 1 else 0)
  = length (List.filter f l) + (if f y then 1 else 0).
Proof.
  revert i. induction l as [|z l IH]; intros [|i] Hi; [done..| |].
  - injection Hi as ->. cbn. destruct (f x), (f y); cbn; lia.
  - specialize (IH i Hi). change (<[S i := y]> (z :: l)) with (z :: <[i := y]> l).
    cbn [List.filter]. destruct (f z); cbn [length]; lia.
Qed.

Lemma count_sublist {A} (f : A → bool) l k :
  l `sublist_of` k → length (List.filter f l) ≤ length (List.filter f k).
Proof. induction 1; cbn; [done|destruct (f x); cbn; lia|destruct (f x); cbn; lia]. Qed.

Lemma effect_publishers owner r evs r' :
  effect r evs r' →
  publishers owner r' ≤ publishers owner r
  ∨ ∃ limit, EvPublished owner limit ∈ evs ∧ (Z.of_nat (publishers owner r') ≤ limit)%Z.
Proof.
  unfold publishers. destruct 1 as [now r' Hp|i e e' Hi (_ & _ & Hpub & _)|i e o limit Hi Hpub Hlt
    |o limit|v H0 Hv|i e sequence now Hi g Hg|claims now Hn _ g Hg|i e envelope Hi Hsend|v
    |scope call_id|o limit wire_bytes now r' Hc|o now usage Hu];
    cbn [rr_entries set_entries set_closes set_bandwidth set_generation]; try by left.
  - left. apply prune_Ok in Hp as [[_ ->]|(_ & _ & ->)]; cbn; apply count_sublist, sublist_filter_b.
  - left. pose proof (count_insert (publishes_for owner) _ _ _ e' Hi) as Hc.
    assert (publishes_for owner e' = publishes_for owner e) as E
      by (unfold publishes_for; by rewrite Hpub). rewrite E in Hc. lia.
  - pose proof (count_insert (publishes_for owner) _ _ _ (with_publisher o e) Hi) as Hc.
    destruct (decide (o = owner)) as [->|Hne].
    + right. exists limit. split; [by left|]. revert Hc. destruct (publishes_for owner _), (publishes_for owner _); lia.
    + left. assert (publishes_for owner (with_publisher o e) = false) as E
        by (apply bool_decide_eq_false; cbn; congruence). rewrite E in Hc. lia.
  - left. pose proof (count_insert (publishes_for owner) _ _ _
      (rejoined g now (with_sequence sequence e)) Hi) as Hc.
    change (if publishes_for owner (rejoined _ _ _) then 1 else 0) with 0 in Hc. lia.
  - left. rewrite List.filter_app. cbn. by rewrite app_nil_r.
  - left. pose proof (count_insert (publishes_for owner) _ _ _ (enqueue envelope e) Hi) as Hc.
    change (publishes_for owner (enqueue envelope e)) with (publishes_for owner e) in Hc. lia.
  - left. destruct (queue_cleanup_state scope call_id r) as [->|(_ & _ & ->)]; done.
  - left. pose proof (wp_run _ _ _ _ _ (charge_keeps o limit wire_bytes now r) Hc) as ->. done.
Qed.

Section bounds.
Context {digest : Sha256}.

Lemma run_publishers r h owner limit :
  fresh_registry r → (0 ≤ limit)%Z → slots_within owner limit (run_registry r h).2 →
  (Z.of_nat (publishers owner (run_registry r h).1) ≤ limit)%Z.
Proof.
  intros (m & q & Hr) H0. apply (run_registry_effects (λ r log,
    slots_within owner limit log → (Z.of_nat (publishers owner r) ≤ limit)%Z)).
  - intros _. by destruct Hr as [-> | ->].
  - intros r1 log evs r2 IH He Hs.
    assert (slots_within owner limit log) as Hlog by (intros l Hl; apply Hs; set_solver).
    specialize (IH Hlog). destruct (effect_publishers owner _ _ _ He) as [|(l & Hl & Hle)]; [lia|].
    assert (l ≤ limit)%Z by (apply Hs; set_solver). lia.
  - intros r1 log r2 IH Hret Hs. specialize (IH Hs). unfold publishers in *.
    destruct Hret as [i e _|scope call_id]; cbn; [|done].
    pose proof (count_sublist (publishes_for owner) _ _ (sublist_delete (rr_entries r1) i)). lia.
Qed.

(** C30: The registry stays within its bounds, whatever is called: at most [max_sessions]
    sessions, no two of one session; at most [max_sessions] calls waiting for cleanup, each
    once; at most twice as many bandwidth windows, one per owner; no downlink queues more than
    its capacity; and an owner never has more publishers than the largest ceiling under which
    it claimed a slot. *)
Theorem realtime_state_is_bounded r h owner limit :
  fresh_registry r → (0 ≤ limit)%Z → let '(r', log) := run_registry r h in
  bounded r'
  ∧ NoDup ((λ e, session_key (se_claims e)) <$> rr_entries r')
  ∧ (slots_within owner limit log → (Z.of_nat (publishers owner r') ≤ limit)%Z).
Proof.
  intros Hf H0. pose proof (run_leases r h Hf) as Hl. pose proof (run_publishers r h owner limit Hf H0).
  assert (bounded (run_registry r h).1) as Hb.
  { apply (run_registry_effects (λ r _, bounded r)).
    - destruct Hf as (m & q & [-> | ->]); (split; cbn; [lia|set_solver|lia|constructor|lia|constructor]).
    - intros. by eapply effect_bounded.
    - intros. by eapply retire_bounded. }
  destruct (run_registry r h) as [r' log]. cbn in *. split_and!; [done| |done].
  pose proof (lo_distinct _ _ _ Hl) as Hd. by rewrite <- list_fmap_compose in Hd.
Qed.
End bounds.

(** * A concrete call *)

#[local] Existing Instance toy_digest.

Definition meeting_scope : TenantScope := mk_scope (oid "acme") None.
Definition caller : RealtimeSessionClaims :=
  mk_claims meeting_scope (oid "call") (mk_principal (oid "ada") PkPerson) None (oid "session")
    1000 1000 301000 JgReusable.
Definition desk : ScopedPrincipal :=
  mk_scoped_principal meeting_scope (mk_principal (oid "desk") PkServiceAccount).

(** The caller joins, publishes, and joins again over a new connection. *)
Definition meeting_history : list registry_call :=
  [RcJoin caller 1000 (Some (oid "nonce")); RcPublish caller desk 1 1500; RcJoin caller 2000 None].
Definition meeting_registry : RealtimeSessionRegistry := with_expired_call_cleanup 4 2.
Definition first_generation : Z :=
  match (run_registry meeting_registry meeting_history).2 with
  | EvJoined _ g :: _ => g
  | _ => 0
  end.

Lemma meeting_log :
  (run_registry meeting_registry meeting_history).2
  = [EvJoined caller first_generation; EvPublished desk 1; EvJoined caller (first_generation + 1)].
Proof. vm_compute. reflexivity. Qed.

Lemma realtime_generations_fence_connections_witness :
  (run_registry meeting_registry meeting_history).2
  = [EvJoined caller first_generation; EvPublished desk 1; EvJoined caller (first_generation + 1)]
  ∧ (leave_if_sequence caller first_generation 3000 (run_registry meeting_registry meeting_history).1).1
    = (run_registry meeting_registry meeting_history).1.
Proof.
  split; [exact meeting_log|]. pose proof meeting_log as Hlog.
  pose proof (realtime_generations_fence_connections meeting_registry meeting_history caller
    first_generation 3000) as H.
  destruct (run_registry meeting_registry meeting_history) as [r' log]. cbn [fst snd] in *. subst log.
  destruct H as [_ H]; [exists 4, 2; by right|]. apply H. vm_compute. discriminate.
Defined.

Lemma realtime_state_is_bounded_witness :
  let r' := (run_registry meeting_registry meeting_history).1 in
  length (rr_entries r') = 1 ∧ length (rr_entries r') ≤ rr_max_sessions r'
  ∧ (Z.of_nat (publishers desk r') ≤ 1)%Z.
Proof.
  split; [vm_compute; reflexivity|].
  pose proof (realtime_state_is_bounded meeting_registry meeting_history desk 1) as H.
  assert (slots_within desk 1 (run_registry meeting_registry meeting_history).2) as Hs.
  { intros l. rewrite meeting_log, !elem_of_cons, elem_of_nil.
    intros [?|[[= ->]|[?|[]]]]; [discriminate|reflexivity|discriminate]. }
  destruct (run_registry meeting_registry meeting_history) as [r' log]. cbn [fst snd] in *.
  destruct H as (Hb & _ & Hp); [exists 4, 2; by right|lia|]. split; [apply Hb|by apply Hp].
Defined.
