(* ===== verification/RealtimeHistory.v ===== *)
(** The realtime registry over whole histories: no call is forgotten before its cleanup, and
    the accepted charges of a principal stay within its bandwidth ceiling. *)

From S2P Require Import Prelude Ids Message StoreForward Store Memory OpLogic.
From S2P Require Import Video Sfu Adaptive JoinToken Realtime RealtimeSpec RealtimeTheorems.

(** * Calls waiting for cleanup *)

(** A call the registry still answers for: a session of it is registered, or it waits for its
    cleanup. *)
Definition known (r : RealtimeSessionRegistry) (call : TenantScope * CallId) : Prop :=
  (∃ e, e ∈ rr_entries r ∧ call_of (se_claims e) = call) ∨ call ∈ rr_expired_call_cleanup r.

Lemma final_expired_calls_complete entries now e :
  e ∈ entries → session_live now e = false →
  has_live_session entries now (call_of (se_claims e)) = false →
  call_of (se_claims e) ∈ final_expired_calls entries now.
Proof.
  intros He Hexp Hlive. unfold final_expired_calls.
  assert (e ∈ List.filter (λ e, negb (session_live now e)) entries) as Hin
    by (rewrite filter_b_elem, Hexp; done).
  set (step := λ found entry, _). generalize (@nil (TenantScope * CallId)).
  assert (∀ l found x, x ∈ found → x ∈ foldl step found l) as Hmono.
  { induction l as [|y l IH]; intros found x Hx; cbn; [done|]. apply IH. unfold step.
    repeat case_match; set_solver. }
  revert Hin. generalize (List.filter (λ e, negb (session_live now e)) entries).
  induction l as [|y l IH]; [by intros ?%elem_of_nil|]. intros [<-|Hl]%elem_of_cons found; cbn; [|auto].
  apply Hmono. unfold step. destruct (has_call found (call_of (se_claims e))) eqn:Eh;
    [by apply has_call_elem|]. rewrite Hlive. set_solver.
Qed.

Lemma prune_known now r r' call :
  prune_expired now r = (r', Ok tt) → rr_track_expired_call_cleanup r = true →
  known r call → known r' call.
Proof.
  intros [[Ht _]|(_ & _ & ->)]%prune_Ok Htrack; [congruence|].
  destruct (push_new_calls_spec (rr_expired_call_cleanup r) (final_expired_calls (rr_entries r) now))
    as (Hpush & _). unfold known. cbn.
  intros [(e & He & Hc)|Hp]; [|right; apply Hpush; by left].
  destruct (session_live now e) eqn:El.
  { left. exists e. rewrite filter_b_elem. done. }
  destruct (has_live_session (rr_entries r) now call) eqn:Eh.
  - left. apply existsb_exists in Eh as (e' & He' & [[Hl Hs]%andb_true_iff Hci]%andb_true_iff).
    apply bool_decide_eq_true in Hs, Hci. exists e'. rewrite filter_b_elem, list_elem_of_In.
    split; [done|]. destruct call. cbn in *. congruence.
  - right. apply Hpush. right. rewrite <- Hc in *. by apply final_expired_calls_complete.
Qed.

(** Entries that keep their claims. *)
Lemma known_update r i e e' call :
  rr_entries r !! i = Some e → se_claims e' = se_claims e →
  known r call → known (set_entries (<[i := e']> (rr_entries r)) r) call.
Proof.
  intros Hi Hc [(x & [k Hk]%list_elem_of_lookup & Hx)|Hp]; [left|by right]. cbn.
  destruct (decide (k = i)) as [->|Hne].
  - exists e'. split; [|congruence].
    eapply list_elem_of_lookup_2, list_lookup_insert_eq. by eapply lookup_lt_Some.
  - exists x. split; [|done]. eapply (list_elem_of_lookup_2 _ k).
    by rewrite list_lookup_insert_ne.
Qed.

Lemma effect_known r evs r' call :
  effect r evs r' → rr_track_expired_call_cleanup r = true → known r call →
  known r' call ∧ rr_track_expired_call_cleanup r' = true.
Proof.
  destruct 1 as [now r' Hp|i e e' Hi (Hc & _)|i e o limit Hi Hpub Hlt
    |o limit|v H0 Hv|i e sequence now Hi g Hg|claims now Hn _ g Hg|i e envelope Hi Hsend|v
    |scope call_id|o limit wire_bytes now r' Hc|o now usage Hu]; intros Ht Hk; try done.
  - split; [by eapply prune_known|]. by apply prune_Ok in Hp as [[_ ->]|(_ & _ & ->)].
  - split; [by eapply known_update|done].
  - split; [by eapply known_update|done].
  - split; [|done]. by apply (known_update (set_generation g r) i e).
  - split; [|done]. destruct Hk as [(e & He & Hc)|Hp]; [left|by right]. exists e. cbn. set_solver.
  - split; [by eapply known_update|done].
  - destruct (queue_cleanup_state scope call_id r) as [->|(_ & _ & ->)]; [done|].
    split; [|done]. destruct Hk as [?|Hp]; [by left|right]. cbn. set_solver.
  - pose proof (wp_run _ _ _ _ _ (charge_keeps o limit wire_bytes now r) Hc) as ->. done.
Qed.

(** A call of the registry that does not end a session of the given call, and does not
    acknowledge its cleanup. *)
Definition spares (call : TenantScope * CallId) (c : registry_call) : Prop :=
  match c with
  | RcLeave claims _ _ => call_of claims ≠ call
  | RcAckCleanup scope call_id => (scope, call_id) ≠ call
  | _ => True
  end.

Section cleanup.
Context {digest : Sha256}.

Lemma leave_known claims expected now r call :
  call_of claims ≠ call → known r call →
  wp (leave_matching_sequence claims expected now) r (λ r' _,
    known r' call ∧ rr_track_expired_call_cleanup r' = rr_track_expired_call_cleanup r).
Proof.
  intros Hne Hk. eapply wp_mono, leave_wp. intros r' [o|err]; [|by intros ->].
  intros (i & e & [Hi _]%session_entry_Some & Hc & _ & ->). split; [|done].
  destruct Hk as [(x & Hx & Hcall)|Hp]; [left|by right]. exists x. split; [|done]. cbn.
  rewrite (delete_Permutation _ _ _ Hi), elem_of_cons in Hx.
  destruct Hx as [->|Hx]; [|done]. congruence.
Qed.

(** C28: No call is forgotten.  In a registry that tracks cleanup, a call that has a session or
    waits for its cleanup keeps doing one or the other, through any calls that neither leave a
    session of it nor acknowledge its cleanup: the call whose last session expires is queued in
    the same step in which the session disappears. *)
Theorem expired_call_is_never_forgotten r h call :
  rr_track_expired_call_cleanup r = true → known r call → Forall (spares call) h →
  known (run_registry r h).1 call.
Proof.
  intros Ht Hk Hh. enough (known (run_registry r h).1 call
    ∧ rr_track_expired_call_cleanup (run_registry r h).1 = true) by tauto.
  induction h as [|c h IH] using rev_ind; [done|].
  apply Forall_app in Hh as [Hh Hc]. rewrite Forall_singleton in Hc.
  rewrite run_registry_snoc. specialize (IH Hh). destruct (run_registry r h) as [r1 log].
  cbn [fst] in *. destruct IH as [Hk1 Ht1]. destruct (retires c) eqn:Hret.
  - destruct c; try done; cbn in *.
    + destruct (leave_known claims expected now r1 call Hc Hk1) as [Hk2 Ht2].
      split; [done|by rewrite Ht2].
    + split; [|done]. destruct Hk1 as [|Hp]; [by left|right].
      unfold acknowledge_expired_call_cleanup, mbind, op_bind, get, put. cbn. rewrite filter_b_elem.
      split; [done|]. destruct call as [s k]. cbn. rewrite orb_true_iff, !negb_true_iff,
        !bool_decide_eq_false. destruct (decide (s = scope)); [right|left]; congruence.
  - pose proof (exec_effects c r1 Hret) as Heff. clear -Heff Hk1 Ht1.
    induction Heff as [|r1 ev r2 evs r3 H1 _ IH]; [done|].
    destruct (effect_known _ _ _ _ H1 Ht1 Hk1) as [Hk2 Ht2]. auto.
Qed.
End cleanup.

(** * The bandwidth ceiling *)

(** The bits charged to an owner in a window, by the accepted charges of a history. *)
Fixpoint charged (owner : ScopedPrincipal) (window : Z) (log : list registry_event) : Z :=
  match log with
  | [] => 0
  | EvCharged o w bits _ :: log =>
      (if bool_decide (o = owner) && (w =? window)%Z then bits else 0) + charged owner window log
  | _ :: log => charged owner window log
  end.

(** Every accepted charge kept its owner within the limit it was charged under. *)
Definition charges_within (log : list registry_event) : Prop :=
  ∀ log1 log2 owner window bits limit,
    log = log1 ++ EvCharged owner window bits limit :: log2 →
    (charged owner window (log1 ++ [EvCharged owner window bits limit]) ≤ limit)%Z.

(** The clock of the charges does not run backwards. *)
Fixpoint clocked (t : Z) (h : list registry_call) : Prop :=
  match h with
  | [] => True
  | RcCharge _ _ _ now :: h => (t ≤ now)%Z ∧ clocked now h
  | _ :: h => clocked t h
  end.

Lemma charged_app owner window log1 log2 :
  charged owner window (log1 ++ log2) = (charged owner window log1 + charged owner window log2)%Z.
Proof. induction log1 as [|[] log1 IH]; cbn; rewrite ?IH; lia. Qed.

Lemma charges_within_snoc log ev :
  charges_within log →
  (∀ owner window bits limit, ev = EvCharged owner window bits limit →
     (charged owner window (log ++ [ev]) ≤ limit)%Z) →
  charges_within (log ++ [ev]).
Proof.
  intros Hlog Hev log1 log2 owner window bits limit E.
  destruct log2 as [|x log2 _] using rev_ind.
  - apply app_inj_tail in E as [-> ->]. by eapply Hev.
  - rewrite app_comm_cons, app_assoc in E. apply app_inj_tail in E as [E _].
    by apply (Hlog log1 log2).
Qed.

(** What the windows say about the log, when the latest window is [last]. *)
Record accounts (usage : list BandwidthWindow) (log : list registry_event) (last : Z) : Prop := {
  ac_owners : NoDup (bw_owner <$> usage);
  ac_used : ∀ w, w ∈ usage → (bw_window_start_unix_ms w ≤ last)%Z
    ∧ bw_used_bits w = charged (bw_owner w) (bw_window_start_unix_ms w) log;
  ac_past : ∀ owner window, (last < window)%Z → charged owner window log = 0%Z;
  ac_current : ∀ owner, charged owner last log ≠ 0%Z →
    ∃ w, w ∈ usage ∧ bw_owner w = owner ∧ bw_window_start_unix_ms w = last;
  ac_within : charges_within log;
}.

Lemma accounts_kept usage log last oldest now :
  accounts usage log last → (last ≤ now)%Z → (oldest ≤ now)%Z →
  accounts (List.filter (λ w, (oldest <=? bw_window_start_unix_ms w)%Z) usage) log now.
Proof.
  intros [Hn Hu Hp Hc Hw] Hlast Hold. split; [| | | |done].
  - eapply sublist_NoDup; [exact Hn|]. apply fmap_sublist_of, sublist_filter_b.
  - intros w [Hin _]%filter_b_elem. specialize (Hu w Hin) as [? ?]. split; [lia|done].
  - intros owner window Hlt. apply Hp. lia.
  - intros owner Hne. destruct (decide (last = now)) as [<-|]; [|by rewrite Hp in Hne by lia].
    destruct (Hc owner Hne) as (w & Hin & Ho & Hwin). exists w. split; [|done].
    rewrite filter_b_elem. split; [done|]. apply Z.leb_le. lia.
Qed.

Lemma accounts_later usage log last now :
  accounts usage log last → (last ≤ now)%Z → accounts usage log now.
Proof.
  intros [Hn Hu Hp Hc Hw] Hlast. split; [done| | | |done].
  - intros w Hin. specialize (Hu w Hin) as [? ?]. split; [lia|done].
  - intros owner window Hlt. apply Hp. lia.
  - intros owner Hne. destruct (decide (last = now)) as [<-|]; [auto|by rewrite Hp in Hne by lia].
Qed.

Lemma accounts_event usage log last ev :
  accounts usage log last → (∀ owner window, charged owner window [ev] = 0%Z) →
  (∀ owner window bits limit, ev ≠ EvCharged owner window bits limit) →
  accounts usage (log ++ [ev]) last.
Proof.
  intros [Hn Hu Hp Hc Hw] H0 Hev.
  assert (∀ owner window, charged owner window (log ++ [ev]) = charged owner window log) as E
    by (intros; rewrite charged_app, H0; lia).
  split; [done| | | |]; try setoid_rewrite E; try done.
  apply charges_within_snoc; [done|]. intros ???? ->. by edestruct Hev.
Qed.

(** The owner's window is brought up to date, and the others stay. *)
Lemma accounts_charge usage usage' log last owner bits limit :
  let ev := EvCharged owner last bits limit in
  let v := charged owner last (log ++ [ev]) in
  accounts usage log last → NoDup (bw_owner <$> usage') →
  (∀ w, w ∈ usage' ↔ w = mk_window owner last v ∨ w ∈ usage ∧ bw_owner w ≠ owner) →
  (v ≤ limit)%Z → accounts usage' (log ++ [ev]) last.
Proof.
  intros ev v [Hn Hu Hp Hc Hw] Hn' Hin Hv.
  assert (∀ o window, o ≠ owner ∨ window ≠ last →
    charged o window (log ++ [ev]) = charged o window log) as E.
  { intros o window Ho. rewrite charged_app. cbn.
    destruct (bool_decide_reflect (owner = o)), (Z.eqb_spec last window); cbn; try lia.
    subst. by destruct Ho. }
  split; [done| | | |].
  - intros w [->|[Hwin Ho]]%Hin; cbn; [split; [lia|done]|].
    rewrite E by tauto. by apply Hu.
  - intros o window Hlt. rewrite E by (right; lia). by apply Hp.
  - intros o Hne. destruct (decide (o = owner)) as [->|Ho].
    + exists (mk_window owner last v). rewrite Hin. by split_and!; [left| |].
    + rewrite E in Hne by tauto. destruct (Hc o Hne) as (w & Hwin & <- & Hlast).
      exists w. rewrite Hin. split; [by right|done].
  - apply charges_within_snoc; [done|]. intros ???? [= <- <- <- <-]. exact Hv.
Qed.

(** An owner whose window is not the current one has been charged nothing in it. *)
Lemma accounts_fresh usage log last owner :
  accounts usage log last →
  (∀ w, w ∈ usage → bw_owner w = owner → bw_window_start_unix_ms w ≠ last) →
  charged owner last log = 0%Z.
Proof.
  intros Ha Hw. destruct (decide (charged owner last log = 0%Z)) as [|Hne]; [done|].
  destruct (ac_current _ _ _ Ha owner Hne) as (w & ? & ? & ?). by edestruct Hw.
Qed.

Lemma window_of_mono a b : (a ≤ b)%Z → (window_of a ≤ window_of b)%Z.
Proof.
  intros H. unfold window_of, BANDWIDTH_WINDOW_MS.
  pose proof (Z.div_mod a 1000). pose proof (Z.div_mod b 1000).
  pose proof (Z.div_le_mono a b 1000). lia.
Qed.

Lemma window_of_nonneg now : (0 ≤ now)%Z → (0 ≤ window_of now)%Z.
Proof. apply (window_of_mono 0). Qed.

(** The entry at an index is the only one of its owner. *)
Lemma only_window usage i e w :
  NoDup (bw_owner <$> usage) → usage !! i = Some e → w ∈ usage → bw_owner w = bw_owner e → w = e.
Proof.
  intros Hn Hi [j Hj]%list_elem_of_lookup Ho.
  assert (i = j) as ->; [|congruence].
  eapply NoDup_lookup; [exact Hn|rewrite list_lookup_fmap, Hi; done|].
  rewrite list_lookup_fmap, Hj. cbn. by rewrite Ho.
Qed.

Lemma accounts_replace usage log last owner bits limit i e v :
  accounts usage log last → usage !! i = Some e → bw_owner e = owner →
  v = charged owner last (log ++ [EvCharged owner last bits limit]) → (v ≤ limit)%Z →
  accounts (<[i := mk_window owner last v]> usage) (log ++ [EvCharged owner last bits limit]) last.
Proof.
  intros Ha Hi Ho -> Hv. pose proof (ac_owners _ _ _ Ha) as Hn.
  eapply accounts_charge; [exact Ha| | |exact Hv].
  - rewrite list_fmap_insert, list_insert_id; [done|]. cbn. by rewrite list_lookup_fmap, Hi, <- Ho.
  - intros w. split.
    + intros [k Hk]%list_elem_of_lookup.
      apply list_lookup_insert_Some in Hk as [(_ & -> & _)|[Hne Hk]]; [by left|right].
      split; [by eapply list_elem_of_lookup_2|]. intros Hw.
      apply Hne. eapply NoDup_lookup; [exact Hn|rewrite list_lookup_fmap, Hi; done|].
      rewrite list_lookup_fmap, Hk. cbn. congruence.
    + intros [->|[[k Hk]%list_elem_of_lookup Hne]].
      * eapply list_elem_of_lookup_2, list_lookup_insert_eq. by eapply lookup_lt_Some.
      * eapply (list_elem_of_lookup_2 _ k). rewrite list_lookup_insert_ne; [done|]. congruence.
Qed.

Lemma accounts_push usage log last owner bits limit :
  accounts usage log last → Forall (λ w, bw_owner w ≠ owner) usage → (bits ≤ limit)%Z →
  accounts (usage ++ [mk_window owner last bits]) (log ++ [EvCharged owner last bits limit]) last.
Proof.
  intros Ha Hno Hv. rewrite Forall_forall in Hno.
  assert (charged owner last (log ++ [EvCharged owner last bits limit]) = bits) as E.
  { rewrite charged_app, (accounts_fresh usage log last owner Ha); [|by intros w Hw ?%Hno].
    cbn. rewrite bool_decide_eq_true_2, Z.eqb_refl by done. cbn. lia. }
  eapply accounts_charge; [exact Ha| | |by rewrite E].
  - rewrite fmap_app. apply NoDup_app. split_and!; [apply Ha| |apply NoDup_singleton].
    intros x (w & -> & Hw)%list_elem_of_fmap Hx%list_elem_of_singleton. by apply (Hno w Hw).
  - intros w. rewrite E, elem_of_app, list_elem_of_singleton. split.
    + intros [Hw| ->]; [right; auto|by left].
    + intros [->|[Hw _]]; auto.
Qed.

Lemma charge_accounts owner limit wire_bytes now r log last :
  accounts (rr_bandwidth_usage r) log last → (last ≤ window_of now)%Z →
  wp (charge_aggregate_bandwidth owner limit wire_bytes now) r (λ r' o,
    match o with
    | Ok _ => accounts (rr_bandwidth_usage r')
        (log ++ [EvCharged owner (window_of now) (wire_bytes * 8) limit]) (window_of now)
    | Err _ => True
    end).
Proof.
  intros Ha Hlast. unfold charge_aggregate_bandwidth, checked_mul_u64, checked_add_u64.
  fold (window_of now). wp_steps; try done; cbn [set_bandwidth rr_bandwidth_usage];
    repeat match goal with H : (if _ then _ else _) = Some _ |- _ =>
      destruct (_ <=? _)%Z; [injection H as <-|discriminate] end; bool_norm.
  all: pose proof (accounts_later _ _ _ _ Ha Hlast) as Ha'.
  - match goal with E : position _ _ = Some _ |- _ =>
      apply position_Some in E as (x & Hx & Ho%bool_decide_eq_true & _) end.
    simplify_eq. eapply accounts_replace; [done..| |done]. rewrite charged_app.
    rewrite (accounts_fresh _ _ _ (bw_owner x) Ha').
    { cbn. rewrite bool_decide_eq_true_2, Z.eqb_refl by done. cbn. lia. }
    intros w Hw Hown. rewrite (only_window _ _ _ _ (ac_owners _ _ _ Ha') Hx Hw Hown). lia.
  - match goal with E : position _ _ = Some _ |- _ =>
      apply position_Some in E as (x & Hx & Ho%bool_decide_eq_true & _) end.
    simplify_eq. assert (bw_window_start_unix_ms x = window_of now) as Ew by lia. rewrite Ew.
    eapply accounts_replace; [done..| |done]. rewrite charged_app. cbn.
    rewrite bool_decide_eq_true_2, Z.eqb_refl by done. cbn.
    destruct (ac_used _ _ _ Ha' x) as [_ E]; [by eapply list_elem_of_lookup_2|].
    rewrite E, Ew. lia.
  - pose proof (window_of_nonneg now). apply accounts_push; [|apply Forall_forall|done].
    + apply (accounts_kept _ _ _ _ _ Ha'); [done|]. unfold i64_min, BANDWIDTH_WINDOW_MS. lia.
    + intros w [Hw _]%filter_b_elem. match goal with E : position _ _ = None |- _ =>
        apply position_None in E; eapply Forall_forall in E; [|exact Hw] end.
      by bool_norm.
Qed.

(** The window a charge, accepted or refused, was made in. *)
Definition event_window (ev : registry_event) : option Z :=
  match ev with EvCharged _ w _ _ | EvRefused _ w => Some w | _ => None end.

(** The latest window after an event. *)
Definition later_window (last : Z) (ev : registry_event) : Z :=
  default last (event_window ev).

Lemma effect_accounts r evs r' log last :
  effect r evs r' → accounts (rr_bandwidth_usage r) log last →
  (∀ ev w, ev ∈ evs → event_window ev = Some w → (last ≤ w)%Z) →
  accounts (rr_bandwidth_usage r') (log ++ evs) (foldl later_window last evs).
Proof.
  destruct 1 as [now r' Hp|i e e' Hi (_ & _ & Hpub & _)|i e o limit Hi Hpub Hlt
    |o limit|v H0 Hv|i e sequence now Hi g Hg|claims now Hn _ g Hg|i e envelope Hi Hsend|v
    |scope call_id|o limit wire_bytes now r' Hc|o now usage Hu]; intros Ha Hlast;
    cbn [rr_bandwidth_usage set_entries set_closes set_bandwidth set_generation foldl
      later_window event_window from_option id]; rewrite ?app_nil_r; try done;
    try (apply accounts_event; done).
  - by apply prune_Ok in Hp as [[_ ->]|(_ & _ & ->)].
  - destruct (queue_cleanup_state scope call_id r) as [->|(_ & _ & ->)]; done.
  - assert (last ≤ window_of now)%Z as Hl by (eapply Hlast; [by left|done]).
    exact (wp_run _ _ _ _ _ (charge_accounts o limit wire_bytes now r log last Ha Hl) Hc).
  - assert (last ≤ window_of now)%Z as Hl by (eapply Hlast; [by left|done]).
    apply accounts_event; [|done..]. destruct Hu as [->|[H0 ->]]; [by eapply accounts_later|].
    eapply accounts_kept; [done..|]. pose proof (window_of_nonneg now H0).
    unfold i64_min, BANDWIDTH_WINDOW_MS. lia.
Qed.

Lemma effects_accounts r evs r' log last :
  effects r evs r' → accounts (rr_bandwidth_usage r) log last →
  (∀ ev, ev ∈ evs → event_window ev = None) →
  accounts (rr_bandwidth_usage r') (log ++ evs) last.
Proof.
  intros H. revert log. induction H as [|r ev r1 evs r2 H1 _ IH]; intros log Ha Hev;
    [by rewrite app_nil_r|]. rewrite app_assoc. apply IH; [|set_solver].
  assert (foldl later_window last ev = last) as <-.
  { assert (∀ e, e ∈ ev → event_window e = None) as He by set_solver. clear -He.
    induction ev as [|e ev IH]; cbn; [done|]. unfold later_window at 2.
    rewrite He by set_solver. apply IH. set_solver. }
  eapply effect_accounts; [done..|]. intros e w He Hw. rewrite Hev in Hw by set_solver. done.
Qed.

Section bandwidth.
Context {digest : Sha256}.

Lemma exec_accounts c r log t :
  accounts (rr_bandwidth_usage r) log (window_of t) →
  match c with
  | RcCharge _ _ _ now => (t ≤ now)%Z → accounts (rr_bandwidth_usage (exec_registry c r).1)
      (log ++ (exec_registry c r).2) (window_of now)
  | _ => accounts (rr_bandwidth_usage (exec_registry c r).1)
      (log ++ (exec_registry c r).2) (window_of t)
  end.
Proof.
  intros Ha. destruct (retires c) eqn:Hret.
  { destruct (exec_retires c r Hret) as [-> Hr]. rewrite app_nil_r.
    assert (rr_bandwidth_usage (exec_registry c r).1 = rr_bandwidth_usage r) as ->
      by (destruct Hr as [->|[]]; done). by destruct c. }
  pose proof (exec_effects c r Hret) as Heff.
  destruct c; try done; try (apply (effects_accounts r); [done..|cbn; intros ev Hev];
    repeat case_match; set_solver).
  intros Hle%window_of_mono. cbn.
  destruct (charge_aggregate_bandwidth _ _ _ _ _) as [r' [[]|e]] eqn:Hc; cbn.
  - exact (wp_run _ _ _ _ _ (charge_accounts _ _ _ _ _ _ _ Ha Hle) Hc).
  - destruct (wp_run _ _ _ _ _ (charge_refused owner limit wire_bytes now r) Hc)
      as (usage & Hu & ->).
    eapply (effect_accounts r [EvRefused owner _]); [by constructor|done|].
    intros ev w ->%list_elem_of_singleton [= <-]. done.
Qed.

Lemma run_accounts h r log t :
  clocked t h → accounts (rr_bandwidth_usage r) log (window_of t) →
  ∃ last, let '(r', log') := foldl (λ '(r, log) c,
      let '(r', events) := exec_registry c r in (r', log ++ events)) (r, log) h in
    accounts (rr_bandwidth_usage r') log' last.
Proof.
  revert r log t. induction h as [|c h IH]; intros r log t Hh Ha; [by exists (window_of t)|].
  cbn [foldl]. pose proof (exec_accounts c r log t Ha) as Hc.
  destruct (exec_registry c r) as [r1 evs]. destruct c; try (by eapply (IH _ _ t)).
  destruct Hh as [Hle Hh]. eapply IH; [exact Hh|]. by apply Hc.
Qed.

(** C18: The bandwidth ceiling holds.  In a history that starts without charges and in which the
    clock of the charges does not run backwards, every accepted charge leaves its principal
    within the limit it was charged under: the bits of all accepted charges of that principal in
    that one-second window, this one included, are at most the limit, although windows are
    replaced, and old ones dropped, on the way. *)
Theorem bandwidth_ceiling_holds r h t :
  rr_bandwidth_usage r = [] → clocked t h → charges_within (run_registry r h).2.
Proof.
  intros Hr Hh.
  assert (accounts (rr_bandwidth_usage r) [] (window_of t)) as Ha.
  { rewrite Hr. split; [constructor|by intros w ?%elem_of_nil|done|done|].
    intros [|??] **; discriminate. }
  destruct (run_accounts h r [] t Hh Ha) as [last Hl]. unfold run_registry.
  destruct (foldl _ _ _) as [r' log]. apply Hl.
Qed.
End bandwidth.

(** * Concrete histories *)

#[local] Existing Instance toy_digest.

(** The caller's session runs out, and the next query finds it gone. *)
Definition expired_history : list registry_call := [RcQuery 302000; RcQuery 303000].
Definition meeting_call : TenantScope * CallId := (meeting_scope, oid "call").

Lemma expired_call_is_never_forgotten_witness :
  let r := (run_registry meeting_registry meeting_history).1 in
  let r' := (run_registry r expired_history).1 in
  rr_entries r' = [] ∧ meeting_call ∈ rr_expired_call_cleanup r'.
Proof.
  intros r r'. assert (rr_entries r' = []) as Hnone by (vm_compute; reflexivity).
  split; [exact Hnone|].
  destruct (expired_call_is_never_forgotten r expired_history meeting_call) as [(e & He & _)|Hp].
  - vm_compute. reflexivity.
  - left. destruct (rr_entries r) as [|e es] eqn:E; [vm_compute in E; discriminate|].
    exists e. split; [left|]. vm_compute in E. injection E as <- _. vm_compute. reflexivity.
  - repeat constructor.
  - fold r' in He. rewrite Hnone in He. destruct (not_elem_of_nil _ He).
  - exact Hp.
Defined.

(** Two charges fill the window of the desk, a third is refused, and the next window is free. *)
Definition charge_history : list registry_call :=
  [RcCharge desk 1000 60 5000; RcCharge desk 1000 60 5400; RcCharge desk 1000 60 5800;
   RcCharge desk 1000 125 6000].

Lemma bandwidth_ceiling_holds_witness :
  let log := (run_registry meeting_registry charge_history).2 in
  log = [EvCharged desk 5000 480 1000; EvCharged desk 5000 480 1000; EvRefused desk 5000;
         EvCharged desk 6000 1000 1000]
  ∧ (charged desk 5000 (take 2 log) ≤ 1000)%Z.
Proof.
  intros log. assert (log = [EvCharged desk 5000 480 1000; EvCharged desk 5000 480 1000;
    EvRefused desk 5000; EvCharged desk 6000 1000 1000]) as Hlog by (vm_compute; reflexivity).
  split; [exact Hlog|]. rewrite Hlog.
  apply (bandwidth_ceiling_holds meeting_registry charge_history 0) with
    (log1 := [EvCharged desk 5000 480 1000]) (bits := 480%Z)
    (log2 := [EvRefused desk 5000; EvCharged desk 6000 1000 1000]); [reflexivity| |exact Hlog].
  cbn. lia.
Defined.
