(* ===== verification/GroupMedia.v ===== *)
(** Encrypted group media on the wire: the authenticated header, the frame an SFU may route
    without decrypting it, and its binary form (crates/ucr-model/src/group_media_e2ee.rs,
    crates/ucr-protocol/src/group_media_e2ee.rs, crates/ucr-protocol/src/sfu.rs). *)

From S2P Require Import Prelude Ids Extension Message StoreForward Store Capability.
From S2P Require Import Video Sfu Adaptive JoinToken Realtime.

(** * Contexts and errors *)

Record GroupMediaE2eeContext := mk_media_context {
  mc_scope : TenantScope;
  mc_call_id : CallId;
  mc_group_id : GroupId;
  mc_negotiation_ref : OpaqueId;
  mc_negotiation_generation : Z; (* u64 *)
  mc_crypto_epoch : Z; (* u64 *)
  mc_crypto_state_ref : OpaqueId;
  mc_crypto_suite : CryptoSuite;
}.

#[global] Instance MediaKind_eq_dec : EqDecision MediaKind.
Proof. solve_decision. Defined.
#[global] Instance VideoSourceKind_eq_dec : EqDecision VideoSourceKind.
Proof. solve_decision. Defined.
#[global] Instance GroupMediaFrameHeader_eq_dec : EqDecision GroupMediaFrameHeader.
Proof. solve_decision. Defined.
#[global] Instance GroupMediaSourceSignature_eq_dec : EqDecision GroupMediaSourceSignature.
Proof. solve_decision. Defined.
#[global] Instance EncryptedGroupMediaFrame_eq_dec : EqDecision EncryptedGroupMediaFrame.
Proof. solve_decision. Defined.
#[global] Instance SfuForwardEnvelope_eq_dec : EqDecision SfuForwardEnvelope.
Proof. solve_decision. Defined.
#[global] Instance SfuForwardTarget_eq_dec : EqDecision SfuForwardTarget.
Proof. solve_decision. Defined.

Inductive GroupMediaE2eeProtocolError :=
| GmInvalidNegotiation | GmInvalidEpoch | GmUnsupportedCryptoSuite | GmContextMismatch
| GmDeviceParticipantMismatch | GmEmptyCiphertext | GmCiphertextTooLarge | GmInvalidAudioHeader
| GmUnsupportedFrameHeaderVersion | GmInvalidMediaSourceKind
| GmScreenShareCapabilityNotNegotiated | GmInvalidSourceSignature.
Abbreviation media_check := (result GroupMediaE2eeProtocolError).

Definition GROUP_MEDIA_CONTEXT_V1_DOMAIN : bytes := str "UCR-GROUP-MEDIA-CONTEXT-V1" ++ [0%Z].
Definition GROUP_MEDIA_FRAME_AAD_V1_DOMAIN : bytes := str "UCR-GROUP-MEDIA-FRAME-AAD-V1" ++ [0%Z].
Definition GROUP_MEDIA_FRAME_AAD_V2_DOMAIN : bytes := str "UCR-GROUP-MEDIA-FRAME-AAD-V2" ++ [0%Z].
Definition GROUP_MEDIA_KEY_CONTEXT_V1_DOMAIN : bytes :=
  str "UCR-GROUP-MEDIA-KEY-CONTEXT-V1" ++ [0%Z].
Definition GROUP_MEDIA_SOURCE_SIGNATURE_V1_DOMAIN : bytes :=
  str "UCR-GROUP-MEDIA-SOURCE-SIGNATURE-V1" ++ [0%Z].
Definition GROUP_MEDIA_FRAME_HEADER_V1 : Z := 1.
Definition GROUP_MEDIA_FRAME_HEADER_V2 : Z := 2.
Definition MAX_ENCRYPTED_GROUP_MEDIA_PAYLOAD_BYTES : Z := 2 * 1024 * 1024 + 16.

(** * Canonical bytes *)

(** [push_bytes]; identifiers are far below the [u32] the code expects them to fit. *)
Definition media_push_id (id : OpaqueId) : bytes := len_prefixed 4 (as_wire_bytes id).

Definition media_push_scope (scope : TenantScope) : bytes :=
  media_push_id (tenant_id scope)
  ++ match namespace_id scope with
     | Some namespace => 1%Z :: media_push_id namespace
     | None => [0%Z]
     end.

Definition media_push_principal (principal : PrincipalRef) : bytes :=
  principal_kind_code (principal_kind principal) :: media_push_id (principal_id principal).

(** The discriminants the code casts to. *)
Definition crypto_suite_value (suite : CryptoSuite) : Z := match suite with UcrV1 => 1 end.
Definition media_kind_value (kind : MediaKind) : Z := match kind with MkAudio => 1 | MkVideo => 2 end.

Definition validate_media_source_kind (header : GroupMediaFrameHeader) : media_check unit :=
  let v1 := (fh_header_version header =? GROUP_MEDIA_FRAME_HEADER_V1)%Z in
  let v2 := (fh_header_version header =? GROUP_MEDIA_FRAME_HEADER_V2)%Z in
  match fh_media_kind header, fh_video_source_kind header with
  | MkAudio, None | MkVideo, Some VsCamera =>
      reject_if (negb (v1 || v2)) GmUnsupportedFrameHeaderVersion
  | MkVideo, Some VsScreenShare =>
      if v2 then Ok tt
      else Err (if v1 then GmInvalidMediaSourceKind else GmUnsupportedFrameHeaderVersion)
  | _, _ =>
      Err (if v1 || v2 then GmInvalidMediaSourceKind else GmUnsupportedFrameHeaderVersion)
  end.

Definition media_source_kind_code (header : GroupMediaFrameHeader) : Z :=
  match fh_media_kind header, fh_video_source_kind header with
  | MkAudio, None => 0
  | MkVideo, Some VsCamera => 1
  | MkVideo, Some VsScreenShare => 2
  | _, _ => 255
  end.

Definition group_media_frame_aad (header : GroupMediaFrameHeader) : media_check bytes :=
  reject_if (fh_negotiation_generation header =? 0)%Z GmInvalidNegotiation ;;
  reject_if (negb (bool_decide (fh_crypto_suite header = UcrV1))) GmUnsupportedCryptoSuite ;;
  reject_if (bool_decide (fh_media_kind header = MkAudio) && fh_keyframe header)
    GmInvalidAudioHeader ;;
  validate_media_source_kind header ;;
  domain ← (if (fh_header_version header =? GROUP_MEDIA_FRAME_HEADER_V1)%Z
            then Ok GROUP_MEDIA_FRAME_AAD_V1_DOMAIN
            else if (fh_header_version header =? GROUP_MEDIA_FRAME_HEADER_V2)%Z
            then Ok GROUP_MEDIA_FRAME_AAD_V2_DOMAIN
            else Err GmUnsupportedFrameHeaderVersion);
  Ok (domain ++ media_push_scope (fh_scope header) ++ media_push_id (fh_call_id header)
      ++ media_push_id (fh_group_id header) ++ media_push_id (fh_stream_id header)
      ++ media_push_principal (fh_source header) ++ media_push_id (fh_source_device_id header)
      ++ media_push_id (fh_negotiation_ref header)
      ++ be_bytes 8 (fh_negotiation_generation header) ++ be_bytes 8 (fh_crypto_epoch header)
      ++ media_push_id (fh_crypto_state_ref header)
      ++ be_bytes 4 (crypto_suite_value (fh_crypto_suite header))
      ++ [media_kind_value (fh_media_kind header)]
      ++ (if (fh_header_version header =? GROUP_MEDIA_FRAME_HEADER_V2)%Z
          then [media_source_kind_code header] else [])
      ++ be_bytes 8 (fh_sequence header) ++ be_bytes 8 (fh_media_timestamp header)
      ++ [if fh_keyframe header then 1%Z else 0%Z]).

(** The bytes the source signature covers, before hashing. *)
Definition group_media_source_signing_bytes (header : GroupMediaFrameHeader)
    (nonce ciphertext : bytes) : media_check bytes :=
  aad ← group_media_frame_aad header;
  reject_if (bool_decide (ciphertext = [])) GmEmptyCiphertext ;;
  reject_if (MAX_ENCRYPTED_GROUP_MEDIA_PAYLOAD_BYTES <? Z.of_nat (length ciphertext))%Z
    GmCiphertextTooLarge ;;
  Ok (GROUP_MEDIA_SOURCE_SIGNATURE_V1_DOMAIN ++ len_prefixed 8 aad ++ nonce
      ++ len_prefixed 8 ciphertext).

Definition canonical_group_media_e2ee_context (context : GroupMediaE2eeContext) :
    media_check GroupMediaE2eeContext :=
  reject_if (mc_negotiation_generation context =? 0)%Z GmInvalidNegotiation ;;
  reject_if (negb (bool_decide (mc_crypto_suite context = UcrV1))) GmUnsupportedCryptoSuite ;;
  Ok context.

(** The bytes [group_media_context_binding] hashes. *)
Definition group_media_context_bytes (context : GroupMediaE2eeContext) : media_check bytes :=
  context ← canonical_group_media_e2ee_context context;
  Ok (GROUP_MEDIA_CONTEXT_V1_DOMAIN ++ media_push_scope (mc_scope context)
      ++ media_push_id (mc_call_id context) ++ media_push_id (mc_group_id context)
      ++ media_push_id (mc_negotiation_ref context)
      ++ be_bytes 8 (mc_negotiation_generation context) ++ be_bytes 8 (mc_crypto_epoch context)
      ++ media_push_id (mc_crypto_state_ref context)
      ++ be_bytes 4 (crypto_suite_value (mc_crypto_suite context))).

Section digests.
Context {digest : Sha256}.

Definition group_media_source_signing_binding (header : GroupMediaFrameHeader)
    (nonce ciphertext : bytes) : media_check bytes :=
  content ← group_media_source_signing_bytes header nonce ciphertext;
  Ok (sha256 content).

Definition group_media_context_binding (context : GroupMediaE2eeContext) : media_check bytes :=
  content ← group_media_context_bytes context;
  Ok (sha256 content).

Definition group_media_key_context (context : GroupMediaE2eeContext) (source : PrincipalRef)
    (source_device_id : DeviceId) (stream_id : OpaqueId) (media_kind : MediaKind) :
    media_check bytes :=
  canonical_group_media_e2ee_context context ;;
  binding ← group_media_context_binding context;
  Ok (GROUP_MEDIA_KEY_CONTEXT_V1_DOMAIN ++ binding ++ media_push_principal source
      ++ media_push_id source_device_id ++ media_push_id stream_id
      ++ [media_kind_value media_kind]).

(** * Frames *)

Definition group_media_context_from_frame (frame : EncryptedGroupMediaFrame) :
    media_check GroupMediaE2eeContext :=
  let header := ef_header frame in
  canonical_group_media_e2ee_context
    (mk_media_context (fh_scope header) (fh_call_id header) (fh_group_id header)
       (fh_negotiation_ref header) (fh_negotiation_generation header) (fh_crypto_epoch header)
       (fh_crypto_state_ref header) (fh_crypto_suite header)).

Definition validate_encrypted_group_media_frame (context : GroupMediaE2eeContext)
    (frame : EncryptedGroupMediaFrame) : media_check unit :=
  context ← canonical_group_media_e2ee_context context;
  let header := ef_header frame in
  let signature := ef_source_signature frame in
  group_media_frame_aad header ;;
  reject_if (bool_decide (ef_ciphertext frame = [])) GmEmptyCiphertext ;;
  reject_if (MAX_ENCRYPTED_GROUP_MEDIA_PAYLOAD_BYTES <? Z.of_nat (length (ef_ciphertext frame)))%Z
    GmCiphertextTooLarge ;;
  reject_if (negb (bool_decide (ss_algorithm_id signature = SIGNATURE_ALGORITHM_ID))
             || negb (ss_algorithm_version signature =? ALGORITHM_VERSION)%Z
             || negb (length (ss_signature signature) =? 64)) GmInvalidSourceSignature ;;
  group_media_source_signing_binding header (ef_nonce frame) (ef_ciphertext frame) ;;
  reject_if (negb (bool_decide (fh_scope header = mc_scope context))
             || negb (bool_decide (fh_call_id header = mc_call_id context))
             || negb (bool_decide (fh_group_id header = mc_group_id context))
             || negb (bool_decide (fh_negotiation_ref header = mc_negotiation_ref context))
             || negb (fh_negotiation_generation header =? mc_negotiation_generation context)%Z
             || negb (fh_crypto_epoch header =? mc_crypto_epoch context)%Z
             || negb (bool_decide (fh_crypto_state_ref header = mc_crypto_state_ref context))
             || negb (bool_decide (fh_crypto_suite header = mc_crypto_suite context)))
    GmContextMismatch.

(** [SfuProtocolError] has the one variant [GroupMedia]. *)
Definition canonical_sfu_forward_envelope (envelope : SfuForwardEnvelope) :
    media_check (GroupMediaE2eeContext * SfuForwardEnvelope) :=
  context ← group_media_context_from_frame (fe_frame envelope);
  validate_encrypted_group_media_frame context (fe_frame envelope) ;;
  Ok (context, envelope).
End digests.

(** * The binary form *)

Definition SFU_FORWARD_WIRE_MAGIC : bytes := str "UCRE2EE1".
Definition SFU_FORWARD_WIRE_V1 : Z := 1.
Definition SFU_FORWARD_WIRE_VERSION : Z := 2.
Definition MAX_SFU_FORWARD_WIRE_BYTES : Z := MAX_ENCRYPTED_GROUP_MEDIA_PAYLOAD_BYTES + 8192.
Definition MAX_SFU_FORWARD_WIRE_STRING_BYTES : Z := 256.

Inductive SfuForwardWireError :=
| WeTooLarge | WeMalformed | WeUnsupportedVersion
| WeInvalidEnvelope (e : GroupMediaE2eeProtocolError).

Definition push_bytes_u16 (value : bytes) : result SfuForwardWireError bytes :=
  reject_if (u16_max <? Z.of_nat (length value))%Z WeTooLarge ;;
  Ok (len_prefixed 2 value).
Definition push_bytes_u32 (value : bytes) : result SfuForwardWireError bytes :=
  reject_if (u32_max <? Z.of_nat (length value))%Z WeTooLarge ;;
  Ok (len_prefixed 4 value).
Definition wire_push_id (id : OpaqueId) : result SfuForwardWireError bytes :=
  push_bytes_u16 (as_wire_bytes id).
Definition push_string (value : bytes) : result SfuForwardWireError bytes :=
  reject_if (MAX_SFU_FORWARD_WIRE_STRING_BYTES <? Z.of_nat (length value))%Z WeTooLarge ;;
  push_bytes_u16 value.
Definition wire_push_scope (scope : TenantScope) : result SfuForwardWireError bytes :=
  tenant ← wire_push_id (tenant_id scope);
  namespace ← match namespace_id scope with
              | Some namespace => text ← wire_push_id namespace; Ok (1%Z :: text)
              | None => Ok [0%Z]
              end;
  Ok (tenant ++ namespace).

Definition video_source_kind_code (media_kind : MediaKind) (kind : option VideoSourceKind) :
    result SfuForwardWireError Z :=
  match media_kind, kind with
  | MkAudio, None => Ok 0%Z
  | MkVideo, Some VsCamera => Ok 1%Z
  | MkVideo, Some VsScreenShare => Ok 2%Z
  | _, _ => Err WeMalformed
  end.

Definition legacy_video_source_kind (media_kind : MediaKind) : option VideoSourceKind :=
  match media_kind with MkAudio => None | MkVideo => Some VsCamera end.

(** The code checks the envelope first; [encode_frame] is what it then writes. *)
Definition encode_frame (frame : EncryptedGroupMediaFrame) : result SfuForwardWireError bytes :=
  let header := ef_header frame in
  let signature := ef_source_signature frame in
  scope ← wire_push_scope (fh_scope header);
  call ← wire_push_id (fh_call_id header);
  group ← wire_push_id (fh_group_id header);
  stream ← wire_push_id (fh_stream_id header);
  source ← wire_push_id (principal_id (fh_source header));
  device ← wire_push_id (fh_source_device_id header);
  negotiation ← wire_push_id (fh_negotiation_ref header);
  state ← wire_push_id (fh_crypto_state_ref header);
  source_kind ← (if (fh_header_version header =? SFU_FORWARD_WIRE_VERSION)%Z
                 then code ← video_source_kind_code (fh_media_kind header)
                               (fh_video_source_kind header); Ok [code]
                 else Ok []);
  ciphertext ← push_bytes_u32 (ef_ciphertext frame);
  key ← wire_push_id (ss_key_id signature);
  algorithm ← push_string (ss_algorithm_id signature);
  signature_bytes ← push_bytes_u16 (ss_signature signature);
  Ok (SFU_FORWARD_WIRE_MAGIC ++ [fh_header_version header] ++ scope ++ call ++ group ++ stream
      ++ [principal_kind_code (principal_kind (fh_source header))] ++ source ++ device
      ++ negotiation ++ be_bytes 8 (fh_negotiation_generation header)
      ++ be_bytes 8 (fh_crypto_epoch header) ++ state
      ++ [crypto_suite_value (fh_crypto_suite header)] ++ [media_kind_value (fh_media_kind header)]
      ++ source_kind ++ be_bytes 8 (fh_sequence header) ++ be_bytes 8 (fh_media_timestamp header)
      ++ [if fh_keyframe header then 1%Z else 0%Z] ++ ef_nonce frame ++ ciphertext ++ key
      ++ algorithm ++ be_bytes 4 (ss_algorithm_version signature) ++ signature_bytes).

(** [WireReader]: what was read, and the bytes behind the cursor. *)
Definition wire_reader (A : Type) : Type := bytes → result SfuForwardWireError (A * bytes).
#[global] Instance wire_reader_ret : MRet wire_reader := λ A a rest, Ok (a, rest).
#[global] Instance wire_reader_bind : MBind wire_reader := λ A B k m rest,
  match m rest with Ok (a, rest) => k a rest | Err e => Err e end.
Definition wire_fail {A} (e : SfuForwardWireError) : wire_reader A := λ _, Err e.
Definition wire_lift {A} (r : result SfuForwardWireError A) : wire_reader A := λ rest,
  a ← r; Ok (a, rest).

Definition wire_take (n : nat) : wire_reader bytes := λ rest,
  if length rest <? n then Err WeMalformed else Ok (take n rest, drop n rest).
(** [u8], [u16], [u32] and [u64]. *)
Definition wire_uint (n : nat) : wire_reader Z :=
  slice ← wire_take n; mret (be_value slice).
Definition wire_id : wire_reader OpaqueId :=
  length ← wire_uint 2;
  value ← wire_take (Z.to_nat length);
  match from_wire_bytes value with Ok id => mret id | Err _ => wire_fail WeMalformed end.
Definition wire_scope : wire_reader TenantScope :=
  tenant ← wire_id;
  tag ← wire_uint 1;
  match tag with
  | 0%Z => mret (mk_scope tenant None)
  | 1%Z => namespace ← wire_id; mret (mk_scope tenant (Some namespace))
  | _ => wire_fail WeMalformed
  end.
(** [bytes_u16] and [bytes_u32]. *)
Definition wire_bytes (n : nat) (maximum : Z) : wire_reader bytes :=
  length ← wire_uint n;
  if (maximum <? length)%Z then wire_fail WeTooLarge else wire_take (Z.to_nat length).
Definition wire_string (maximum : Z) : wire_reader bytes :=
  value ← wire_bytes 2 maximum;
  if utf8_valid value then mret value else wire_fail WeMalformed.

Definition wire_principal_kind (code : Z) : result SfuForwardWireError PrincipalKind :=
  match code with
  | 1%Z => Ok PkPerson | 2%Z => Ok PkDevice | 3%Z => Ok PkServiceAccount
  | 4%Z => Ok PkAiAgent | 5%Z => Ok PkBot | 6%Z => Ok PkOrganization
  | 7%Z => Ok PkAutomation | 8%Z => Ok PkExternalPlatform
  | _ => Err WeMalformed
  end.
Definition crypto_suite_from_code (code : Z) : result SfuForwardWireError CryptoSuite :=
  match code with 1%Z => Ok UcrV1 | _ => Err WeMalformed end.
Definition media_kind_from_code (code : Z) : result SfuForwardWireError MediaKind :=
  match code with 1%Z => Ok MkAudio | 2%Z => Ok MkVideo | _ => Err WeMalformed end.
Definition video_source_kind_from_code (code : Z) (media_kind : MediaKind) :
    result SfuForwardWireError (option VideoSourceKind) :=
  match media_kind, code with
  | MkAudio, 0%Z => Ok None
  | MkVideo, 1%Z => Ok (Some VsCamera)
  | MkVideo, 2%Z => Ok (Some VsScreenShare)
  | _, _ => Err WeMalformed
  end.
Definition keyframe_from_code (code : Z) : result SfuForwardWireError bool :=
  match code with 0%Z => Ok false | 1%Z => Ok true | _ => Err WeMalformed end.

(** A byte decoded by one of the tables above. *)
Definition wire_code {A} (decode : Z → result SfuForwardWireError A) : wire_reader A :=
  code ← wire_uint 1; wire_lift (decode code).

Definition wire_header : wire_reader GroupMediaFrameHeader :=
  version ← wire_uint 1;
  if negb ((version =? SFU_FORWARD_WIRE_V1)%Z || (version =? SFU_FORWARD_WIRE_VERSION)%Z)
  then wire_fail WeUnsupportedVersion else
  scope ← wire_scope;
  call ← wire_id;
  group ← wire_id;
  stream ← wire_id;
  kind ← wire_code wire_principal_kind;
  source ← wire_id;
  device ← wire_id;
  negotiation ← wire_id;
  generation ← wire_uint 8;
  epoch ← wire_uint 8;
  state ← wire_id;
  suite ← wire_code crypto_suite_from_code;
  media_kind ← wire_code media_kind_from_code;
  source_kind ← (if (version =? SFU_FORWARD_WIRE_V1)%Z
                 then mret (legacy_video_source_kind media_kind)
                 else wire_code (λ code, video_source_kind_from_code code media_kind));
  sequence ← wire_uint 8;
  timestamp ← wire_uint 8;
  keyframe ← wire_code keyframe_from_code;
  mret (mk_frame_header scope call group stream (mk_principal source kind) device negotiation
          generation epoch state suite version media_kind source_kind sequence timestamp keyframe).

Definition wire_frame : wire_reader EncryptedGroupMediaFrame :=
  magic ← wire_take (length SFU_FORWARD_WIRE_MAGIC);
  if negb (bool_decide (magic = SFU_FORWARD_WIRE_MAGIC)) then wire_fail WeMalformed else
  header ← wire_header;
  nonce ← wire_take 24;
  ciphertext ← wire_bytes 4 MAX_ENCRYPTED_GROUP_MEDIA_PAYLOAD_BYTES;
  key ← wire_id;
  algorithm ← wire_string MAX_SFU_FORWARD_WIRE_STRING_BYTES;
  algorithm_version ← wire_uint 4;
  signature ← wire_bytes 2 MAX_SFU_FORWARD_WIRE_STRING_BYTES;
  mret (mk_encrypted_frame header nonce ciphertext
          (mk_source_signature key algorithm algorithm_version signature)).

Section codec.
Context {digest : Sha256}.

Definition encode_sfu_forward_envelope (envelope : SfuForwardEnvelope) :
    result SfuForwardWireError bytes :=
  canonical ← map_err WeInvalidEnvelope (canonical_sfu_forward_envelope envelope);
  output ← encode_frame (fe_frame canonical.2);
  reject_if (MAX_SFU_FORWARD_WIRE_BYTES <? Z.of_nat (length output))%Z WeTooLarge ;;
  Ok output.

Definition decode_sfu_forward_envelope (input : bytes) :
    result SfuForwardWireError SfuForwardEnvelope :=
  reject_if (MAX_SFU_FORWARD_WIRE_BYTES <? Z.of_nat (length input))%Z WeTooLarge ;;
  read ← wire_frame input;
  reject_if (negb (length read.2 =? 0)) WeMalformed ;;
  canonical ← map_err WeInvalidEnvelope (canonical_sfu_forward_envelope (mk_envelope read.1));
  Ok canonical.2.
End codec.
