(* ===== verification/GroupMediaTheorems.v ===== *)
(** Encrypted group media: the authenticated bytes determine the header, and the wire form is
    canonical: encoding and decoding are inverse to each other. *)

From S2P Require Import Prelude Ids Extension Message StoreForward Store Capability.
From S2P Require Import Video Sfu Adaptive JoinToken JoinTokenTheorems Realtime GroupMedia.

(** * Readers and what they read *)

(** [reads m enc]: the reader accepts exactly the encodings [enc] of the values it returns, and
    leaves what follows them. *)
Record reads {A} (m : wire_reader A) (enc : A → bytes → Prop) : Prop := {
  reads_back x text rest : enc x text → m (text ++ rest) = Ok (x, rest);
  reads_only input x rest : Forall is_u8 input → m input = Ok (x, rest) →
    ∃ text, enc x text ∧ input = text ++ rest;
}.

Lemma reads_ret {A} (a : A) : reads (mret a) (λ x text, x = a ∧ text = []).
Proof.
  split.
  - by intros x text rest [-> ->].
  - intros input x rest _ [= <- <-]. by exists [].
Qed.

Lemma reads_bind {A B} (m : wire_reader A) (k : A → wire_reader B) enc enc' :
  reads m enc → (∀ a, reads (k a) (enc' a)) →
  reads (m ≫= k) (λ y text, ∃ a text1 text2, enc a text1 ∧ enc' a y text2 ∧ text = text1 ++ text2).
Proof.
  intros [Hb Ho] Hk. split.
  - intros y text rest (a & t1 & t2 & H1 & H2 & ->). unfold mbind, wire_reader_bind.
    rewrite <- app_assoc, (Hb a) by done. by apply (Hk a).
  - intros input y rest Hu. unfold mbind, wire_reader_bind.
    destruct (m input) as [[a rest1]|] eqn:E; [|done]. intros Ek.
    destruct (Ho _ _ _ Hu E) as (t1 & H1 & ->). apply Forall_app in Hu as [_ Hu].
    destruct (reads_only _ _ (Hk a) _ _ _ Hu Ek) as (t2 & H2 & ->).
    exists (t1 ++ t2). rewrite app_assoc. split; [|done]. by exists a, t1, t2.
Qed.

(** The same reader, with its encodings described another way. *)
Lemma reads_iff {A} (m : wire_reader A) (enc enc' : A → bytes → Prop) :
  reads m enc → (∀ x text, enc x text ↔ enc' x text) → reads m enc'.
Proof.
  intros [Hb Ho] E. split.
  - intros x text rest H%E. by apply Hb.
  - intros input x rest Hu Hm. destruct (Ho _ _ _ Hu Hm) as (t & Ht & ->). exists t.
    by rewrite <- E.
Qed.

Lemma reads_fail {A} (e : SfuForwardWireError) : reads (@wire_fail A e) (λ _ _, False).
Proof. by split. Qed.

Lemma reads_if {A} (b : bool) (m : wire_reader A) e enc :
  reads m enc → reads (if b then wire_fail e else m) (λ x text, b = false ∧ enc x text).
Proof.
  intros H. destruct b; [eapply reads_iff; [apply reads_fail|naive_solver]|].
  eapply reads_iff; [exact H|naive_solver].
Qed.

Lemma reads_lift {A} (r : result SfuForwardWireError A) :
  reads (wire_lift r) (λ x text, r = Ok x ∧ text = []).
Proof.
  split.
  - by intros x text rest [-> ->].
  - intros input x rest _. unfold wire_lift. destruct r; [|done]. intros [= -> ->]. by exists [].
Qed.

Lemma wire_take_Ok n input x rest :
  wire_take n input = Ok (x, rest) ↔ input = x ++ rest ∧ length x = n.
Proof.
  unfold wire_take. destruct (Nat.ltb_spec (length input) n) as [Hlt|Hle]; split.
  - done.
  - intros [-> <-]. rewrite length_app in Hlt. lia.
  - intros [= <- <-]. split; [by rewrite take_drop|]. by apply length_take_le.
  - intros [-> <-]. by rewrite take_app_length, drop_app_length.
Qed.

Lemma reads_take n : reads (wire_take n) (λ x text, text = x ∧ length x = n).
Proof.
  split.
  - intros x text rest [-> Hn]. by apply wire_take_Ok.
  - intros input x rest _ [-> Hn]%wire_take_Ok. by exists x.
Qed.

Lemma reads_uint n :
  reads (wire_uint n) (λ v text, text = be_bytes n v ∧ (0 ≤ v < 2 ^ (8 * Z.of_nat n))%Z).
Proof.
  split.
  - intros v text rest [-> Hv]. unfold wire_uint, mbind, wire_reader_bind.
    rewrite (proj2 (wire_take_Ok n (be_bytes n v ++ rest) (be_bytes n v) rest));
      [|by rewrite length_be_bytes]. cbn.
    unfold mret, wire_reader_ret. by rewrite be_value_be_bytes, Z.mod_small.
  - intros input v rest Hu. unfold wire_uint, mbind, wire_reader_bind.
    destruct (wire_take n input) as [[x r]|] eqn:E; [|done]. intros [= <- <-].
    apply wire_take_Ok in E as [-> <-]. apply Forall_app in Hu as [Hu _].
    exists x. by rewrite be_bytes_be_value; [|done..|]; pose proof (be_value_bound _ Hu).
Qed.

Lemma reads_bytes n maximum :
  reads (wire_bytes n maximum) (λ v text, text = len_prefixed n v
    ∧ (Z.of_nat (length v) < 2 ^ (8 * Z.of_nat n))%Z ∧ (Z.of_nat (length v) ≤ maximum)%Z).
Proof.
  eapply reads_iff.
  { apply reads_bind; [apply reads_uint|]. intros len. apply reads_if, reads_take. }
  intros v text. cbn. split.
  - intros (len & t1 & t2 & [-> Hlen] & [Hmax [-> Hn]] & ->). apply Z.ltb_ge in Hmax.
    unfold len_prefixed. assert (Z.of_nat (length v) = len) as -> by lia.
    split_and!; [done|lia|lia].
  - intros (-> & Hlen & Hmax). exists (Z.of_nat (length v)), (be_bytes n (Z.of_nat (length v))), v.
    split_and!; [done|lia|done|by apply Z.ltb_ge|done|lia|done].
Qed.

Lemma reads_id : reads wire_id (λ id text, text = len_prefixed 2 (as_wire_bytes id)).
Proof.
  eapply reads_iff.
  { apply reads_bind; [apply reads_uint|]. intros len. apply reads_bind; [apply reads_take|].
    intros value. instantiate (1 := λ value id text, from_wire_bytes value = Ok id ∧ text = []).
    cbn beta. destruct (from_wire_bytes value) as [id|].
    - eapply reads_iff; [apply reads_ret|]. naive_solver.
    - eapply reads_iff; [apply reads_fail|]. naive_solver. }
  intros id text. cbn. split.
  - intros (len & t1 & t2 & [-> Hlen] & (v & t3 & t4 & [-> Hn] & [Hid ->] & ->) & ->).
    rewrite from_wire_bytes_new, opaque_id_new_Ok in Hid. subst v. rewrite app_nil_r. unfold len_prefixed.
    by rewrite Hn, Z2Nat.id by lia.
  - intros ->. pose proof (opaque_id_bounds id) as (_ & Hlen & _). unfold OPAQUE_ID_MAX_LEN in Hlen.
    exists (Z.of_nat (length (as_wire_bytes id))), (be_bytes 2 (Z.of_nat (length (as_wire_bytes id)))),
      (as_wire_bytes id). split_and!; [done|lia| | |done].
    + change (2 ^ (8 * Z.of_nat 2))%Z with 65536%Z. lia.
    + exists (as_wire_bytes id), (as_wire_bytes id), []. rewrite app_nil_r, Nat2Z.id.
      by rewrite from_wire_bytes_id.
Qed.

Definition scope_bytes (scope : TenantScope) : bytes :=
  len_prefixed 2 (as_wire_bytes (tenant_id scope)) ++ optional_bytes (namespace_id scope).

Lemma be_bytes_1 v : (0 ≤ v < 256)%Z → be_bytes 1 v = [v].
Proof.
  intros Hv. unfold be_bytes. change (2 ^ (8 * Z.of_nat 0))%Z with 1%Z.
  by rewrite Z.div_1_r, Z.mod_small.
Qed.

(** One byte that a table decodes. *)
Lemma reads_code {A} (decode : Z → result SfuForwardWireError A) (encode : A → Z) (P : A → Prop) :
  (∀ code x, decode code = Ok x ↔ code = encode x ∧ P x) → (∀ x, P x → 0 ≤ encode x < 256)%Z →
  reads (wire_code decode) (λ x text, text = [encode x] ∧ P x).
Proof.
  intros Hd Hr. eapply reads_iff.
  { apply reads_bind; [apply reads_uint|]. intros code. apply reads_lift. }
  intros x text. cbn. split.
  - intros (code & t1 & t2 & [-> Hc] & [[-> HP]%Hd ->] & ->). split; [|done].
    rewrite be_bytes_1 by done. done.
  - intros [-> HP]. exists (encode x), [encode x], []. specialize (Hr x HP).
    rewrite be_bytes_1 by done. split_and!; [done|lia|change (2 ^ (8 * Z.of_nat 1))%Z with 256%Z; lia|by apply Hd|done|done].
Qed.

(** Supplies the next value of a chain of readers, and the text it was read from. *)
Ltac reads_field v := exists v; do 2 eexists; split; [try done|split; [|reflexivity]].
Ltac reads_inv :=
  repeat match goal with
  | H : ∃ _, _ |- _ => destruct H
  | H : _ ∧ _ |- _ => destruct H
  end; subst.

Lemma reads_scope : reads wire_scope (λ scope text, text = scope_bytes scope).
Proof.
  eapply reads_iff.
  { apply reads_bind; [apply reads_id|]. intros tenant.
    apply reads_bind; [apply reads_uint|]. intros tag.
    instantiate (1 := λ tag scope text, tenant_id scope = tenant
      ∧ match namespace_id scope with
        | None => tag = 0%Z ∧ text = []
        | Some namespace => tag = 1%Z ∧ text = len_prefixed 2 (as_wire_bytes namespace)
        end). cbn beta.
    destruct tag as [|[p|p|]|p]; try (eapply reads_iff; [apply reads_fail|];
      intros [t [n|]] text; cbn; naive_solver).
    - eapply reads_iff; [apply reads_ret|]. intros [t [n|]] text; cbn; naive_solver.
    - eapply reads_iff; [apply reads_bind; [apply reads_id|intros namespace; apply reads_ret]|].
      intros [t [n|]] text; cbn; split; intros; reads_inv; simplify_eq; rewrite ?app_nil_r; try done.
      exists n, (len_prefixed 2 (as_wire_bytes n)), []. by rewrite app_nil_r. }
  intros [tenant namespace] text. unfold scope_bytes. cbn. split.
  - intros (t & t1 & t2 & -> & (tag & t3 & t4 & [-> Ht] & [<- Hn] & ->) & ->).
    destruct namespace as [n|]; destruct Hn as [-> ->]; cbn; by rewrite be_bytes_1.
  - intros ->. reads_field tenant. destruct namespace as [n|].
    + exists 1%Z, [1%Z], (len_prefixed 2 (as_wire_bytes n)). rewrite be_bytes_1 by done. done.
    + exists 0%Z, [0%Z], []. rewrite be_bytes_1 by done. done.
Qed.

Lemma reads_string maximum :
  reads (wire_string maximum) (λ v text, text = len_prefixed 2 v
    ∧ (Z.of_nat (length v) < 2 ^ 16)%Z ∧ (Z.of_nat (length v) ≤ maximum)%Z ∧ utf8_valid v = true).
Proof.
  eapply reads_iff.
  { apply reads_bind; [apply reads_bytes|]. intros v.
    instantiate (1 := λ v x text, x = v ∧ text = [] ∧ utf8_valid v = true). cbn beta.
    destruct (utf8_valid v) eqn:E;
      (eapply reads_iff; [first [apply reads_ret|apply reads_fail]|]; naive_solver). }
  intros v text. cbn. split.
  - intros; reads_inv. by rewrite app_nil_r.
  - intros (-> & Hl & Hm & Hu). exists v, (len_prefixed 2 v), []. by rewrite app_nil_r.
Qed.

(** * Headers *)

Lemma wire_principal_kind_Ok code kind :
  wire_principal_kind code = Ok kind ↔ code = principal_kind_code kind ∧ True.
Proof.
  split; [|by intros [-> _]; destruct kind]. intros H. split; [|done].
  unfold wire_principal_kind in H. repeat case_match; simplify_eq; done.
Qed.
Lemma crypto_suite_from_code_Ok code suite :
  crypto_suite_from_code code = Ok suite ↔ code = crypto_suite_value suite ∧ True.
Proof.
  split; [|by intros [-> _]; destruct suite]. intros H. split; [|done].
  unfold crypto_suite_from_code in H. repeat case_match; simplify_eq; done.
Qed.
Lemma media_kind_from_code_Ok code kind :
  media_kind_from_code code = Ok kind ↔ code = media_kind_value kind ∧ True.
Proof.
  split; [|by intros [-> _]; destruct kind]. intros H. split; [|done].
  unfold media_kind_from_code in H. repeat case_match; simplify_eq; done.
Qed.
Lemma keyframe_from_code_Ok code keyframe :
  keyframe_from_code code = Ok keyframe ↔ code = (if keyframe then 1 else 0)%Z ∧ True.
Proof.
  split; [|by intros [-> _]; destruct keyframe]. intros H. split; [|done].
  unfold keyframe_from_code in H. repeat case_match; simplify_eq; done.
Qed.

Definition source_code (media_kind : MediaKind) (kind : option VideoSourceKind) : Z :=
  match media_kind, kind with MkAudio, None => 0 | MkVideo, Some VsCamera => 1 | _, _ => 2 end.
Definition source_kind_fits (media_kind : MediaKind) (kind : option VideoSourceKind) : Prop :=
  is_Some kind ↔ media_kind = MkVideo.

Lemma video_source_kind_from_code_Ok media_kind code kind :
  video_source_kind_from_code code media_kind = Ok kind
  ↔ code = source_code media_kind kind ∧ source_kind_fits media_kind kind.
Proof.
  unfold source_kind_fits. split.
  - unfold video_source_kind_from_code. intros H. repeat case_match; simplify_eq; cbn;
      (split; [done|]); split; try done; by intros [].
  - destruct media_kind, kind as [[]|]; cbn; intros [-> H]; try done; destruct H as [H1 H2].
    + by specialize (H1 (mk_is_Some _ _ eq_refl)).
    + by specialize (H1 (mk_is_Some _ _ eq_refl)).
    + by destruct (H2 eq_refl).
Qed.


(** The bytes of the video source: version 1 has none, and means the camera. *)
Definition source_kind_bytes (h : GroupMediaFrameHeader) : bytes :=
  if (fh_header_version h =? 1)%Z then []
  else [source_code (fh_media_kind h) (fh_video_source_kind h)].

Definition header_bytes (h : GroupMediaFrameHeader) : bytes :=
  be_bytes 1 (fh_header_version h) ++ scope_bytes (fh_scope h)
  ++ len_prefixed 2 (as_wire_bytes (fh_call_id h))
  ++ len_prefixed 2 (as_wire_bytes (fh_group_id h))
  ++ len_prefixed 2 (as_wire_bytes (fh_stream_id h))
  ++ [principal_kind_code (principal_kind (fh_source h))]
  ++ len_prefixed 2 (as_wire_bytes (principal_id (fh_source h)))
  ++ len_prefixed 2 (as_wire_bytes (fh_source_device_id h))
  ++ len_prefixed 2 (as_wire_bytes (fh_negotiation_ref h))
  ++ be_bytes 8 (fh_negotiation_generation h) ++ be_bytes 8 (fh_crypto_epoch h)
  ++ len_prefixed 2 (as_wire_bytes (fh_crypto_state_ref h))
  ++ [crypto_suite_value (fh_crypto_suite h)] ++ [media_kind_value (fh_media_kind h)]
  ++ source_kind_bytes h ++ be_bytes 8 (fh_sequence h) ++ be_bytes 8 (fh_media_timestamp h)
  ++ [if fh_keyframe h then 1%Z else 0%Z].

(** The headers that have a wire form. *)
Record header_fits (h : GroupMediaFrameHeader) : Prop := {
  hf_version : fh_header_version h = 1%Z ∨ fh_header_version h = 2%Z;
  hf_source : if (fh_header_version h =? 1)%Z
    then fh_video_source_kind h = legacy_video_source_kind (fh_media_kind h)
    else source_kind_fits (fh_media_kind h) (fh_video_source_kind h);
  hf_generation : is_u64 (fh_negotiation_generation h);
  hf_epoch : is_u64 (fh_crypto_epoch h);
  hf_sequence : is_u64 (fh_sequence h);
  hf_timestamp : is_u64 (fh_media_timestamp h);
}.

Lemma reads_header : reads wire_header (λ h text, text = header_bytes h ∧ header_fits h).
Proof.
  eapply reads_iff.
  { unfold wire_header. apply reads_bind; [apply reads_uint|]. intros version. apply reads_if.
    apply reads_bind; [apply reads_scope|]. intros scope.
    do 3 (apply reads_bind; [apply reads_id|]; intros ?).
    apply reads_bind; [apply (reads_code _ _ _ wire_principal_kind_Ok); by intros []|]. intros ?.
    do 3 (apply reads_bind; [apply reads_id|]; intros ?).
    do 2 (apply reads_bind; [apply reads_uint|]; intros ?).
    apply reads_bind; [apply reads_id|]. intros ?.
    apply reads_bind; [apply (reads_code _ _ _ crypto_suite_from_code_Ok); by intros []|]. intros ?.
    apply reads_bind; [apply (reads_code _ _ _ media_kind_from_code_Ok); by intros []|].
    intros media_kind.
    apply reads_bind.
    { instantiate (1 := λ kind text,
        if (version =? SFU_FORWARD_WIRE_V1)%Z
        then kind = legacy_video_source_kind media_kind ∧ text = []
        else text = [source_code media_kind kind] ∧ source_kind_fits media_kind kind).
      destruct (version =? _)%Z; [apply reads_ret|].
      apply (reads_code _ _ _ (video_source_kind_from_code_Ok media_kind)).
      intros kind _. by destruct media_kind, kind as [[]|]. }
    intros ?. do 2 (apply reads_bind; [apply reads_uint|]; intros ?).
    apply reads_bind; [apply (reads_code _ _ _ keyframe_from_code_Ok); by intros []|]. intros ?.
    apply reads_ret. }
  intros h text. cbn beta. split.
  - intros H. reads_inv. unfold header_bytes, source_kind_bytes. cbn [fh_header_version
      fh_scope fh_call_id fh_group_id fh_stream_id fh_source fh_source_device_id fh_negotiation_ref
      fh_negotiation_generation fh_crypto_epoch fh_crypto_state_ref fh_crypto_suite fh_media_kind
      fh_video_source_kind fh_sequence fh_media_timestamp fh_keyframe principal_kind principal_id].
    match goal with H : negb _ = false |- _ => apply negb_false_iff, orb_true_iff in H;
      rewrite !Z.eqb_eq in H; rename H into Hv end.
    unfold SFU_FORWARD_WIRE_V1, SFU_FORWARD_WIRE_VERSION in *.
    split; [|split; cbn; try done].
    + destruct Hv as [-> | ->]; cbn [Z.eqb Pos.eqb] in *; reads_inv; by rewrite ?app_nil_r.
    + destruct Hv as [-> | ->]; cbn [Z.eqb Pos.eqb] in *; by reads_inv.
  - intros [-> []]. unfold header_bytes.
    reads_field (fh_header_version h). { split; [done|]. cbn. destruct hf_version0; lia. }
    split. { destruct hf_version0 as [-> | ->]; done. }
    reads_field (fh_scope h). reads_field (fh_call_id h). reads_field (fh_group_id h).
    reads_field (fh_stream_id h). reads_field (principal_kind (fh_source h)).
    reads_field (principal_id (fh_source h)). reads_field (fh_source_device_id h).
    reads_field (fh_negotiation_ref h). reads_field (fh_negotiation_generation h).
    reads_field (fh_crypto_epoch h). reads_field (fh_crypto_state_ref h).
    reads_field (fh_crypto_suite h). reads_field (fh_media_kind h).
    reads_field (fh_video_source_kind h).
    { unfold source_kind_bytes, SFU_FORWARD_WIRE_V1.
      destruct (fh_header_version h =? 1)%Z; done. }
    reads_field (fh_sequence h). reads_field (fh_media_timestamp h).
    exists (fh_keyframe h), [if fh_keyframe h then 1%Z else 0%Z], [].
    split_and!; [by destruct (fh_keyframe h)|done| | |done]; [|done].
    by destruct h as [???? []].
Qed.

(** * Frames *)

Definition frame_bytes (f : EncryptedGroupMediaFrame) : bytes :=
  let signature := ef_source_signature f in
  SFU_FORWARD_WIRE_MAGIC ++ header_bytes (ef_header f) ++ ef_nonce f
  ++ len_prefixed 4 (ef_ciphertext f) ++ len_prefixed 2 (as_wire_bytes (ss_key_id signature))
  ++ len_prefixed 2 (ss_algorithm_id signature) ++ be_bytes 4 (ss_algorithm_version signature)
  ++ len_prefixed 2 (ss_signature signature).

Record frame_fits (f : EncryptedGroupMediaFrame) : Prop := {
  ff_header : header_fits (ef_header f);
  ff_nonce : length (ef_nonce f) = 24;
  ff_ciphertext :
    (Z.of_nat (length (ef_ciphertext f)) ≤ MAX_ENCRYPTED_GROUP_MEDIA_PAYLOAD_BYTES)%Z;
  ff_algorithm : (Z.of_nat (length (ss_algorithm_id (ef_source_signature f))) ≤ 256)%Z
    ∧ utf8_valid (ss_algorithm_id (ef_source_signature f)) = true;
  ff_algorithm_version : (0 ≤ ss_algorithm_version (ef_source_signature f) < 2 ^ 32)%Z;
  ff_signature : (Z.of_nat (length (ss_signature (ef_source_signature f))) ≤ 256)%Z;
}.

Lemma reads_frame : reads wire_frame (λ f text, text = frame_bytes f ∧ frame_fits f).
Proof.
  eapply reads_iff.
  { unfold wire_frame. apply reads_bind; [apply reads_take|]. intros magic. apply reads_if.
    apply reads_bind; [apply reads_header|]. intros ?.
    apply reads_bind; [apply reads_take|]. intros ?.
    apply reads_bind; [apply reads_bytes|]. intros ?.
    apply reads_bind; [apply reads_id|]. intros ?.
    apply reads_bind; [apply reads_string|]. intros ?.
    apply reads_bind; [apply reads_uint|]. intros ?.
    apply reads_bind; [apply reads_bytes|]. intros ?. apply reads_ret. }
  intros f text. cbn beta. split.
  - intros H. reads_inv. match goal with H : negb _ = false |- _ =>
      apply negb_false_iff, bool_decide_eq_true in H; subst end.
    unfold frame_bytes. cbn [ef_header ef_nonce ef_ciphertext ef_source_signature ss_key_id
      ss_algorithm_id ss_algorithm_version ss_signature]. rewrite app_nil_r. done.
  - intros [-> []]. unfold frame_bytes. destruct ff_algorithm0 as [Hl Hutf].
    reads_field SFU_FORWARD_WIRE_MAGIC. split; [by rewrite bool_decide_eq_true_2|].
    reads_field (ef_header f). reads_field (ef_nonce f). reads_field (ef_ciphertext f).
    { split_and!; [done| |done]. change (2 ^ (8 * Z.of_nat 4))%Z with 4294967296%Z.
      unfold MAX_ENCRYPTED_GROUP_MEDIA_PAYLOAD_BYTES in *. lia. }
    reads_field (ss_key_id (ef_source_signature f)).
    reads_field (ss_algorithm_id (ef_source_signature f)). { split_and!; [done|lia|done|done]. }
    reads_field (ss_algorithm_version (ef_source_signature f)).
    eexists (ss_signature (ef_source_signature f)), _, []. rewrite app_nil_r. split_and!; [done| |done| |done..].
    + change (2 ^ (8 * Z.of_nat 2))%Z with 65536%Z. lia.
    + by destruct f as [??? []].
Qed.

(** * Authenticated bytes *)

Definition aad_domain (h : GroupMediaFrameHeader) : bytes :=
  if (fh_header_version h =? GROUP_MEDIA_FRAME_HEADER_V1)%Z then GROUP_MEDIA_FRAME_AAD_V1_DOMAIN
  else GROUP_MEDIA_FRAME_AAD_V2_DOMAIN.

Definition aad_source (h : GroupMediaFrameHeader) : bytes :=
  if (fh_header_version h =? GROUP_MEDIA_FRAME_HEADER_V2)%Z then [media_source_kind_code h] else [].

Definition aad_bytes (h : GroupMediaFrameHeader) : bytes :=
  aad_domain h ++ media_push_scope (fh_scope h) ++ media_push_id (fh_call_id h)
  ++ media_push_id (fh_group_id h) ++ media_push_id (fh_stream_id h)
  ++ media_push_principal (fh_source h) ++ media_push_id (fh_source_device_id h)
  ++ media_push_id (fh_negotiation_ref h)
  ++ be_bytes 8 (fh_negotiation_generation h) ++ be_bytes 8 (fh_crypto_epoch h)
  ++ media_push_id (fh_crypto_state_ref h)
  ++ be_bytes 4 (crypto_suite_value (fh_crypto_suite h)) ++ [media_kind_value (fh_media_kind h)]
  ++ aad_source h ++ be_bytes 8 (fh_sequence h) ++ be_bytes 8 (fh_media_timestamp h)
  ++ [if fh_keyframe h then 1%Z else 0%Z].

(** The headers an endpoint may authenticate. *)
Record header_ok (h : GroupMediaFrameHeader) : Prop := {
  ho_generation : fh_negotiation_generation h ≠ 0%Z;
  ho_keyframe : fh_media_kind h = MkAudio → fh_keyframe h = false;
  ho_version : fh_header_version h = 1%Z ∨ fh_header_version h = 2%Z;
  ho_source : source_kind_fits (fh_media_kind h) (fh_video_source_kind h);
  ho_legacy : fh_header_version h = 1%Z →
    fh_video_source_kind h = legacy_video_source_kind (fh_media_kind h);
}.

Lemma validate_media_source_kind_Ok h :
  validate_media_source_kind h = Ok tt ↔
  (fh_header_version h = 1%Z ∨ fh_header_version h = 2%Z)
  ∧ source_kind_fits (fh_media_kind h) (fh_video_source_kind h)
  ∧ (fh_header_version h = 1%Z → fh_video_source_kind h = legacy_video_source_kind (fh_media_kind h)).
Proof.
  unfold validate_media_source_kind, source_kind_fits, GROUP_MEDIA_FRAME_HEADER_V1,
    GROUP_MEDIA_FRAME_HEADER_V2.
  destruct (Z.eqb_spec (fh_header_version h) 1) as [->|H1];
    [|destruct (Z.eqb_spec (fh_header_version h) 2) as [->|H2]];
    destruct (fh_media_kind h), (fh_video_source_kind h) as [[]|]; cbn;
    (split; [intros ?; simplify_eq; split_and!; try done; try tauto
            |intros (? & [Hs1 Hs2] & Hl)]);
    try done; try (by destruct Hs1); try (by destruct (Hs2 eq_refl)); try (by specialize (Hl eq_refl));
    try (exfalso; tauto); try (by discriminate (Hs1 (mk_is_Some _ _ eq_refl))).
Qed.

Lemma frame_aad_Ok h text :
  group_media_frame_aad h = Ok text ↔ header_ok h ∧ text = aad_bytes h.
Proof.
  unfold group_media_frame_aad.
  destruct (Z.eqb_spec (fh_negotiation_generation h) 0) as [Hg|Hg];
    [by split; [|intros [[] _]]|].
  destruct (fh_crypto_suite h) eqn:Hs. rewrite (bool_decide_eq_true_2 (UcrV1 = UcrV1)) by done.
  destruct (bool_decide (fh_media_kind h = MkAudio) && fh_keyframe h) eqn:Ha.
  { split; [done|]. intros [[_ Hk] _]. apply andb_true_iff in Ha as [Ha%bool_decide_eq_true Ek].
    rewrite Hk in Ek by done. done. }
  destruct (validate_media_source_kind h) as [[]|] eqn:Ev; cycle 1.
  { split; [done|]. intros [[] _].
    assert (validate_media_source_kind h = Ok tt) by (by apply validate_media_source_kind_Ok).
    congruence. }
  apply validate_media_source_kind_Ok in Ev as (Hv & Hk & Hl).
  assert (header_ok h) as Hok.
  { split; [done| |done..]. intros E. rewrite bool_decide_eq_true_2 in Ha by done. exact Ha. }
  unfold aad_bytes, aad_domain, aad_source. rewrite Hs.
  destruct Hv as [Ev|Ev]; rewrite Ev in *; cbn [negb reject_if mbind result_bind Z.eqb Pos.eqb
    GROUP_MEDIA_FRAME_HEADER_V1 GROUP_MEDIA_FRAME_HEADER_V2].
  - split; [intros [= <-]; done|intros [_ ->]; done].
  - split; [intros [= <-]; done|intros [_ ->]; done].
Qed.

Definition header_typed_media (h : GroupMediaFrameHeader) : Prop :=
  is_u64 (fh_negotiation_generation h) ∧ is_u64 (fh_crypto_epoch h)
  ∧ is_u64 (fh_sequence h) ∧ is_u64 (fh_media_timestamp h).

Lemma media_push_id_inj i j r r' :
  media_push_id i ++ r = media_push_id j ++ r' → i = j ∧ r = r'.
Proof.
  assert (∀ id, Z.of_nat (length (as_wire_bytes id)) < 2 ^ (8 * Z.of_nat 4))%Z as Hlen.
  { intros id. pose proof (opaque_id_bounds id) as (_ & Hl & _). unfold OPAQUE_ID_MAX_LEN in Hl.
    change (2 ^ (8 * Z.of_nat 4))%Z with 4294967296%Z. lia. }
  intros [E ->]%(prefix_free_len 4); [|apply Hlen..]. split; [|done]. by apply opaque_eq.
Qed.

Lemma media_push_scope_inj s s' r r' :
  media_push_scope s ++ r = media_push_scope s' ++ r' → s = s' ∧ r = r'.
Proof.
  unfold media_push_scope. rewrite <- !app_assoc. intros [E1 E]%media_push_id_inj.
  destruct s as [t [n|]], s' as [t' [n'|]]; cbn [namespace_id tenant_id app] in *; subst;
    apply cons_eq_inj in E as [Et E]; try done.
  by apply media_push_id_inj in E as [-> ->].
Qed.

Lemma media_push_principal_inj p p' r r' :
  media_push_principal p ++ r = media_push_principal p' ++ r' → p = p' ∧ r = r'.
Proof.
  unfold media_push_principal. cbn [app].
  intros [Ek%principal_kind_code_inj [Ei ->]%media_push_id_inj]%cons_eq_inj.
  split; [|done]. destruct p, p'; cbn in *; congruence.
Qed.

Lemma aad_domain_inj h h' r r' :
  header_ok h → header_ok h' → aad_domain h ++ r = aad_domain h' ++ r' →
  fh_header_version h = fh_header_version h' ∧ r = r'.
Proof.
  intros [_ _ Hv _ _] [_ _ Hv' _ _]. unfold aad_domain, GROUP_MEDIA_FRAME_HEADER_V1.
  destruct Hv as [-> | ->], Hv' as [-> | ->]; cbn [Z.eqb Pos.eqb]; intros E.
  - by apply app_inv_head in E.
  - exfalso. vm_compute in E. discriminate.
  - exfalso. vm_compute in E. discriminate.
  - by apply app_inv_head in E.
Qed.

Lemma be_u64_inj v w r r' :
  is_u64 v → is_u64 w → be_bytes 8 v ++ r = be_bytes 8 w ++ r' → v = w ∧ r = r'.
Proof. intros Hv Hw E. by apply (prefix_free_be 8) in E. Qed.

(** The video source is in the bytes, or the version and the kind of media give it. *)
Lemma aad_source_inj h h' r r' :
  header_ok h → header_ok h' → fh_header_version h = fh_header_version h' →
  fh_media_kind h = fh_media_kind h' → aad_source h ++ r = aad_source h' ++ r' →
  fh_video_source_kind h = fh_video_source_kind h' ∧ r = r'.
Proof.
  intros [_ _ Hv [Hs1 Hs2] Hl] [_ _ _ [Hs1' Hs2'] Hl'] Ev Ek. unfold aad_source, media_source_kind_code,
    GROUP_MEDIA_FRAME_HEADER_V2. rewrite <- Ev, <- Ek in *.
  destruct Hv as [E1|E1]; rewrite E1 in *; cbn [Z.eqb Pos.eqb].
  - intros E. split; [by rewrite Hl, Hl'|exact E].
  - destruct (fh_media_kind h), (fh_video_source_kind h) as [[]|],
      (fh_video_source_kind h') as [[]|]; cbn; intros [=]; subst; try done;
      try (by discriminate (Hs1 (mk_is_Some _ _ eq_refl)));
      try (by discriminate (Hs1' (mk_is_Some _ _ eq_refl)));
      try (by destruct (Hs2 eq_refl)); try (by destruct (Hs2' eq_refl)).
Qed.

(** The associated data of a frame determines its header. *)
Lemma aad_bytes_inj h h' r r' :
  header_ok h → header_ok h' → header_typed_media h → header_typed_media h' →
  aad_bytes h ++ r = aad_bytes h' ++ r' → h = h' ∧ r = r'.
Proof.
  intros Ho Ho' (Hg & He & Hq & Ht) (Hg' & He' & Hq' & Ht') E. unfold aad_bytes in E.
  rewrite <- !app_assoc in E.
  apply aad_domain_inj in E as [Ev E]; [|done..]. apply media_push_scope_inj in E as [E1 E].
  apply media_push_id_inj in E as [E2 E]. apply media_push_id_inj in E as [E3 E].
  apply media_push_id_inj in E as [E4 E]. apply media_push_principal_inj in E as [E5 E].
  apply media_push_id_inj in E as [E6 E]. apply media_push_id_inj in E as [E7 E].
  apply be_u64_inj in E as [E8 E]; [|done..]. apply be_u64_inj in E as [E9 E]; [|done..].
  apply media_push_id_inj in E as [E10 E].
  assert (fh_crypto_suite h = fh_crypto_suite h') as E11
    by (by destruct (fh_crypto_suite h), (fh_crypto_suite h')).
  rewrite E11 in E. apply app_inv_head in E.
  assert (fh_media_kind h = fh_media_kind h') as E12.
  { cbn in E. injection E as E _. by destruct (fh_media_kind h), (fh_media_kind h'). }
  rewrite E12 in E. apply app_inv_head in E.
  apply aad_source_inj in E as [E13 E]; [|done..].
  apply be_u64_inj in E as [E14 E]; [|done..]. apply be_u64_inj in E as [E15 E]; [|done..].
  cbn in E. injection E as E16 E. split; [|done].
  assert (fh_keyframe h = fh_keyframe h') as E17 by (by destruct (fh_keyframe h), (fh_keyframe h')).
  clear -Ev E1 E2 E3 E4 E5 E6 E7 E8 E9 E10 E11 E12 E13 E14 E15 E17.
  destruct h, h'; cbn in *; by subst.
Qed.

Lemma length_media_push_id id : length (media_push_id id) ≤ 132.
Proof.
  pose proof (opaque_id_bounds id) as (_ & Hl & _). unfold OPAQUE_ID_MAX_LEN in Hl.
  unfold media_push_id, len_prefixed. rewrite length_app, length_be_bytes. lia.
Qed.

Lemma length_aad_bytes h : length (aad_bytes h) ≤ 2048.
Proof.
  unfold aad_bytes. rewrite !length_app, !length_be_bytes.
  assert (length (aad_domain h) ≤ 64) by (unfold aad_domain; case_match; vm_compute; lia).
  assert (length (media_push_scope (fh_scope h)) ≤ 265).
  { unfold media_push_scope. rewrite length_app. pose proof (length_media_push_id (tenant_id (fh_scope h))).
    destruct (namespace_id (fh_scope h)) as [n|]; cbn [length]; [|lia].
    pose proof (length_media_push_id n). lia. }
  assert (length (media_push_principal (fh_source h)) ≤ 133).
  { unfold media_push_principal. cbn [length].
    pose proof (length_media_push_id (principal_id (fh_source h))). lia. }
  assert (length (aad_source h) ≤ 1) by (unfold aad_source; case_match; cbn; lia).
  pose proof (length_media_push_id (fh_call_id h)). pose proof (length_media_push_id (fh_group_id h)).
  pose proof (length_media_push_id (fh_stream_id h)).
  pose proof (length_media_push_id (fh_source_device_id h)).
  pose proof (length_media_push_id (fh_negotiation_ref h)).
  pose proof (length_media_push_id (fh_crypto_state_ref h)). cbn [length]. lia.
Qed.

Lemma signing_bytes_Ok h nonce ciphertext content :
  group_media_source_signing_bytes h nonce ciphertext = Ok content →
  header_ok h ∧ (Z.of_nat (length ciphertext) ≤ MAX_ENCRYPTED_GROUP_MEDIA_PAYLOAD_BYTES)%Z
  ∧ content = GROUP_MEDIA_SOURCE_SIGNATURE_V1_DOMAIN ++ len_prefixed 8 (aad_bytes h) ++ nonce
              ++ len_prefixed 8 ciphertext.
Proof.
  unfold group_media_source_signing_bytes.
  destruct (group_media_frame_aad h) as [aad|] eqn:E; [|done].
  apply frame_aad_Ok in E as [Ho ->]. unfold mbind, result_bind, reject_if. cbn.
  destruct (bool_decide (ciphertext = [])); [done|].
  destruct (Z.ltb_spec MAX_ENCRYPTED_GROUP_MEDIA_PAYLOAD_BYTES (Z.of_nat (length ciphertext))); [done|].
  intros [= <-]. done.
Qed.

(** The bytes a source signs the digest of determine the frame, also across the two header
    versions. *)
Lemma signing_bytes_inj h h' nonce nonce' ciphertext ciphertext' content :
  header_typed_media h → header_typed_media h' → length nonce = 24 → length nonce' = 24 →
  group_media_source_signing_bytes h nonce ciphertext = Ok content →
  group_media_source_signing_bytes h' nonce' ciphertext' = Ok content →
  h = h' ∧ nonce = nonce' ∧ ciphertext = ciphertext'.
Proof.
  intros Ht Ht' Hn Hn' (Ho & Hc & ->)%signing_bytes_Ok (Ho' & Hc' & E)%signing_bytes_Ok.
  apply app_inv_head in E. unfold MAX_ENCRYPTED_GROUP_MEDIA_PAYLOAD_BYTES in *.
  apply (prefix_free_len 8) in E as [Ea E];
    [|change (2 ^ (8 * Z.of_nat 8))%Z with (2 ^ 64)%Z; pose proof (length_aad_bytes h);
      pose proof (length_aad_bytes h'); lia..].
  apply app_inj_1 in E as [-> E]; [|by rewrite Hn, Hn'].
  apply (prefix_free_end (λ v, Z.of_nat (length v) < 2 ^ (8 * Z.of_nat 8))%Z (len_prefixed 8)) in E;
    [|apply prefix_free_len|change (2 ^ (8 * Z.of_nat 8))%Z with (2 ^ 64)%Z; lia..].
  split; [|done]. apply (aad_bytes_inj h h' [] []); try done. by rewrite !app_nil_r.
Qed.

(** C29: The source signature covers the whole frame.  What a device signs for a frame is the
    fixed domain followed by the SHA-256 binding of the frame.  Two frames for which the signed
    messages are the same are the same frame, in every field of the header, the nonce and the
    ciphertext, also across the two header versions; or else the bytes hashed for the two are
    different and have the same SHA-256 digest, an explicit collision. *)
Theorem source_signature_covers_frame `{Sha256} h h' nonce nonce' ciphertext ciphertext'
    binding binding' :
  header_typed_media h → header_typed_media h' → length nonce = 24 → length nonce' = 24 →
  group_media_source_signing_binding h nonce ciphertext = Ok binding →
  group_media_source_signing_binding h' nonce' ciphertext' = Ok binding' →
  GROUP_MEDIA_SOURCE_SIGNATURE_V1_DOMAIN ++ binding
  = GROUP_MEDIA_SOURCE_SIGNATURE_V1_DOMAIN ++ binding' →
  h = h' ∧ nonce = nonce' ∧ ciphertext = ciphertext'
  ∨ ∃ content content',
      group_media_source_signing_bytes h nonce ciphertext = Ok content
      ∧ group_media_source_signing_bytes h' nonce' ciphertext' = Ok content'
      ∧ content ≠ content' ∧ sha256 content = sha256 content'.
Proof.
  unfold group_media_source_signing_binding. intros Ht Ht' Hn Hn' Hb Hb' E%app_inv_head.
  destruct (group_media_source_signing_bytes h nonce ciphertext) as [content|] eqn:Ec; [|done].
  destruct (group_media_source_signing_bytes h' nonce' ciphertext') as [content'|] eqn:Ec'; [|done].
  injection Hb as <-. injection Hb' as <-.
  destruct (decide (content = content')) as [<-|Hne]; [left|right; by exists content, content'].
  by apply (signing_bytes_inj h h' nonce nonce' ciphertext ciphertext' content).
Qed.

(** * The wire form *)

Section canonical.
Context {digest : Sha256}.

(** What the routing check of an envelope ensures. *)
Lemma canonical_envelope_Ok e c e' :
  canonical_sfu_forward_envelope e = Ok (c, e') →
  e' = e ∧ header_ok (ef_header (fe_frame e))
  ∧ (Z.of_nat (length (ef_ciphertext (fe_frame e))) ≤ MAX_ENCRYPTED_GROUP_MEDIA_PAYLOAD_BYTES)%Z
  ∧ ss_algorithm_id (ef_source_signature (fe_frame e)) = SIGNATURE_ALGORITHM_ID
  ∧ ss_algorithm_version (ef_source_signature (fe_frame e)) = ALGORITHM_VERSION
  ∧ length (ss_signature (ef_source_signature (fe_frame e))) = 64.
Proof.
  unfold canonical_sfu_forward_envelope, validate_encrypted_group_media_frame.
  destruct (group_media_context_from_frame (fe_frame e)) as [c1|]; [|done]. cbn.
  destruct (canonical_group_media_e2ee_context c1) as [c2|]; [|done]. cbn.
  destruct (group_media_frame_aad (ef_header (fe_frame e))) as [aad|] eqn:Ea; [|done].
  apply frame_aad_Ok in Ea as [Ho _]. cbn.
  intros H. res_inv. bool_norm. subst. tauto.
Qed.

Definition envelope_typed (e : SfuForwardEnvelope) : Prop :=
  header_typed_media (ef_header (fe_frame e)) ∧ length (ef_nonce (fe_frame e)) = 24.

Lemma canonical_fits e c e' :
  envelope_typed e → canonical_sfu_forward_envelope e = Ok (c, e') → frame_fits (fe_frame e).
Proof.
  intros [(Hg & He & Hq & Ht) Hn] (-> & [] & Hc & Ha & Hv & Hs)%canonical_envelope_Ok.
  split; [|done|done| | |].
  - split; try done. unfold source_kind_fits in *. destruct ho_version0 as [E|E]; rewrite E in *; cbn; auto.
  - rewrite Ha. split; [vm_compute; discriminate|reflexivity].
  - rewrite Hv. unfold ALGORITHM_VERSION. lia.
  - rewrite Hs. lia.
Qed.

Lemma wire_push_id_Ok id : wire_push_id id = Ok (len_prefixed 2 (as_wire_bytes id)).
Proof.
  unfold wire_push_id, push_bytes_u16. pose proof (opaque_id_bounds id) as (_ & Hlen & _).
  unfold OPAQUE_ID_MAX_LEN in Hlen. unfold u16_max.
  destruct (Z.ltb_spec 65535 (Z.of_nat (length (as_wire_bytes id)))); [lia|done].
Qed.

Lemma wire_push_scope_Ok scope : wire_push_scope scope = Ok (scope_bytes scope).
Proof.
  unfold wire_push_scope, scope_bytes. rewrite wire_push_id_Ok. cbn.
  destruct (namespace_id scope) as [n|]; [by rewrite wire_push_id_Ok|done].
Qed.

Lemma encode_frame_fits f : frame_fits f → encode_frame f = Ok (frame_bytes f).
Proof.
  intros [[] Hn Hc [Ha _] Hv Hs]. unfold encode_frame, push_string, push_bytes_u32, push_bytes_u16.
  rewrite wire_push_scope_Ok, !wire_push_id_Ok. unfold u16_max, u32_max, MAX_SFU_FORWARD_WIRE_STRING_BYTES.
  unfold MAX_ENCRYPTED_GROUP_MEDIA_PAYLOAD_BYTES in Hc.
  assert ((if (fh_header_version (ef_header f) =? SFU_FORWARD_WIRE_VERSION)%Z
    then code ← video_source_kind_code (fh_media_kind (ef_header f)) (fh_video_source_kind (ef_header f));
         Ok [code] else Ok []) = Ok (source_kind_bytes (ef_header f))) as Hsrc.
  { unfold source_kind_bytes, source_kind_fits, SFU_FORWARD_WIRE_VERSION in *.
    destruct hf_version0 as [E|E]; rewrite E in *; cbn [Z.eqb Pos.eqb] in *; [done|].
    destruct (fh_media_kind _), (fh_video_source_kind _) as [[]|]; try done; destruct hf_source0 as [H1 H2];
      [by discriminate (H1 (mk_is_Some _ _ eq_refl))..|by destruct (H2 eq_refl)]. }
  rewrite Hsrc. unfold mbind, result_bind, reject_if.
  repeat match goal with |- context [(?a <? ?b)%Z] => destruct (Z.ltb_spec a b); [lia|] end.
  unfold frame_bytes, header_bytes. rewrite <- !app_assoc.
  rewrite be_bytes_1 by (destruct hf_version0; lia). done.
Qed.

Lemma length_wire_id id : length (len_prefixed 2 (as_wire_bytes id)) ≤ 130.
Proof.
  pose proof (opaque_id_bounds id) as (_ & Hl & _). unfold OPAQUE_ID_MAX_LEN in Hl.
  unfold len_prefixed. rewrite length_app, length_be_bytes. lia.
Qed.

Lemma length_header_bytes h : length (header_bytes h) ≤ 2048.
Proof.
  unfold header_bytes. rewrite !length_app, !length_be_bytes.
  assert (length (scope_bytes (fh_scope h)) ≤ 261).
  { unfold scope_bytes, optional_bytes. rewrite length_app.
    pose proof (length_wire_id (tenant_id (fh_scope h))).
    destruct (namespace_id (fh_scope h)) as [n|]; cbn [length]; [|lia].
    pose proof (length_wire_id n). lia. }
  assert (length (source_kind_bytes h) ≤ 1) by (unfold source_kind_bytes; case_match; cbn; lia).
  pose proof (length_wire_id (fh_call_id h)). pose proof (length_wire_id (fh_group_id h)).
  pose proof (length_wire_id (fh_stream_id h)). pose proof (length_wire_id (fh_source_device_id h)).
  pose proof (length_wire_id (principal_id (fh_source h))).
  pose proof (length_wire_id (fh_negotiation_ref h)).
  pose proof (length_wire_id (fh_crypto_state_ref h)). cbn [length]. lia.
Qed.

Lemma length_frame_bytes f :
  frame_fits f → (Z.of_nat (length (frame_bytes f)) ≤ MAX_SFU_FORWARD_WIRE_BYTES)%Z.
Proof.
  intros [_ Hn Hc [Ha _] _ Hs]. unfold frame_bytes, MAX_SFU_FORWARD_WIRE_BYTES.
  rewrite !length_app, !length_be_bytes, Hn. change (length SFU_FORWARD_WIRE_MAGIC) with 8.
  pose proof (length_header_bytes (ef_header f)).
  pose proof (length_wire_id (ss_key_id (ef_source_signature f))).
  unfold len_prefixed in *. rewrite !length_app, !length_be_bytes in *. lia.
Qed.

Lemma encode_envelope_Ok e input :
  envelope_typed e →
  encode_sfu_forward_envelope e = Ok input ↔
  (∃ c, canonical_sfu_forward_envelope e = Ok (c, e)) ∧ input = frame_bytes (fe_frame e).
Proof.
  intros Ht. unfold encode_sfu_forward_envelope.
  destruct (canonical_sfu_forward_envelope e) as [[c e']|err] eqn:Ec;
    [|by split; [|intros [[c Hc] _]]].
  pose proof (canonical_envelope_Ok _ _ _ Ec) as (-> & _).
  pose proof (canonical_fits e c e Ht Ec) as Hf. pose proof (length_frame_bytes _ Hf) as Hl.
  cbn [map_err mbind result_bind snd]. rewrite (encode_frame_fits _ Hf).
  unfold mbind, result_bind, reject_if. destruct (Z.ltb_spec MAX_SFU_FORWARD_WIRE_BYTES
    (Z.of_nat (length (frame_bytes (fe_frame e))))); [lia|].
  split; [intros [= <-]; eauto|by intros [_ ->]].
Qed.

Lemma decode_frame_bytes e c :
  canonical_sfu_forward_envelope e = Ok (c, e) → frame_fits (fe_frame e) →
  decode_sfu_forward_envelope (frame_bytes (fe_frame e)) = Ok e.
Proof.
  intros Hc Hf. pose proof (length_frame_bytes _ Hf) as Hl. unfold decode_sfu_forward_envelope.
  unfold reject_if at 1. destruct (Z.ltb_spec MAX_SFU_FORWARD_WIRE_BYTES
    (Z.of_nat (length (frame_bytes (fe_frame e))))); [lia|]. cbn [mbind result_bind].
  pose proof (reads_back _ _ reads_frame (fe_frame e) (frame_bytes (fe_frame e)) []) as Hr.
  rewrite app_nil_r in Hr. rewrite Hr by done. cbn. destruct e as [f]. cbn in *. by rewrite Hc.
Qed.

Lemma decode_envelope_Ok e input :
  Forall is_u8 input →
  decode_sfu_forward_envelope input = Ok e ↔
  (∃ c, canonical_sfu_forward_envelope e = Ok (c, e)) ∧ frame_fits (fe_frame e)
  ∧ input = frame_bytes (fe_frame e).
Proof.
  intros Hu. split.
  - unfold decode_sfu_forward_envelope. intros H. res_inv. match goal with H : wire_frame input = Ok ?x |- _ =>
      destruct x as [f rest]; apply (reads_only _ _ reads_frame) in H as (t & [-> Hf] & ->) end;
      [|done].
    cbn in *. bool_norm. destruct rest; [|done]. match goal with
      H : canonical_sfu_forward_envelope _ = Ok ?x |- _ => destruct x as [c e'];
      pose proof (canonical_envelope_Ok _ _ _ H) as (-> & _) end.
    cbn in *. rewrite app_nil_r. subst e. split_and!; [by exists c|done|done].
  - intros ([c Hc] & Hf & ->). by apply (decode_frame_bytes e c).
Qed.

(** C19: The wire form of routed media is canonical.  For every envelope of the types of its
    fields and every byte string, encoding the envelope gives the bytes exactly when decoding
    the bytes gives the envelope: what is sent is read back unchanged, nothing else is read as
    it, and accepted bytes have no second spelling.  Every envelope that passes the routing
    check can be encoded: the size limit never rejects one. *)
Theorem sfu_wire_is_canonical e input :
  envelope_typed e → Forall is_u8 input →
  (encode_sfu_forward_envelope e = Ok input ↔ decode_sfu_forward_envelope input = Ok e)
  ∧ (is_ok (canonical_sfu_forward_envelope e) = true →
     is_ok (encode_sfu_forward_envelope e) = true).
Proof.
  intros Ht Hu. split.
  - rewrite encode_envelope_Ok, decode_envelope_Ok by done. split; [|tauto].
    intros [[c Hc] ->]. split_and!; [by exists c|by eapply canonical_fits|done].
  - destruct (canonical_sfu_forward_envelope e) as [[c e']|] eqn:Ec; [|done]. intros _.
    pose proof (canonical_envelope_Ok _ _ _ Ec) as (-> & _).
    by rewrite (proj2 (encode_envelope_Ok e (frame_bytes (fe_frame e)) Ht)) by (split; [by exists c|done]).
Qed.
End canonical.

(** * A concrete frame *)

#[local] Existing Instance toy_digest.

Definition screen_header (sequence : Z) : GroupMediaFrameHeader :=
  mk_frame_header (mk_scope (oid "tenant") (Some (oid "namespace"))) (oid "call") (oid "group")
    (oid "video-main") (mk_principal (oid "alice") PkPerson) (oid "alice-device")
    (oid "negotiation") 2 9 (oid "crypto-state") UcrV1 2 MkVideo (Some VsScreenShare) sequence
    90000 true.
Definition screen_nonce : bytes := replicate 24 3%Z.
Definition screen_envelope : SfuForwardEnvelope :=
  mk_envelope (mk_encrypted_frame (screen_header 44) screen_nonce [7; 8; 9]%Z
    (mk_source_signature (oid "signing-key") SIGNATURE_ALGORITHM_ID 1 (replicate 64 5%Z))).
Definition screen_wire : bytes :=
  match encode_sfu_forward_envelope screen_envelope with Ok b => b | Err _ => [] end.

Lemma screen_header_typed sequence : is_u64 sequence → header_typed_media (screen_header sequence).
Proof. intros H. unfold header_typed_media, is_u in *. cbn. lia. Qed.

(** A digest that sends everything to the same value. *)
Definition flat_digest : Sha256.
Proof.
  refine {| sha256 := λ _, replicate 32 0%Z |}; [done|].
  intros _. apply Forall_replicate. unfold is_u. lia.
Defined.

(** Under it two frames in a row are signed alike, and the collision is the one of the bytes
    hashed for them. *)
Lemma source_signature_covers_frame_witness :
  ∃ content content',
    group_media_source_signing_bytes (screen_header 44) screen_nonce [7; 8; 9]%Z = Ok content
    ∧ group_media_source_signing_bytes (screen_header 45) screen_nonce [7; 8; 9]%Z = Ok content'
    ∧ content ≠ content'.
Proof.
  destruct (@source_signature_covers_frame flat_digest (screen_header 44) (screen_header 45)
    screen_nonce screen_nonce [7; 8; 9]%Z [7; 8; 9]%Z (replicate 32 0%Z) (replicate 32 0%Z))
    as [[Hh _]|(x & x' & Hx & Hx' & Hne & _)].
  - apply screen_header_typed. unfold is_u. lia.
  - apply screen_header_typed. unfold is_u. lia.
  - reflexivity.
  - reflexivity.
  - vm_compute. reflexivity.
  - vm_compute. reflexivity.
  - reflexivity.
  - apply (f_equal fh_sequence) in Hh. discriminate Hh.
  - exists x, x'. split; [exact Hx|]. split; [exact Hx'|exact Hne].
Defined.

Lemma sfu_wire_is_canonical_witness :
  encode_sfu_forward_envelope screen_envelope = Ok screen_wire
  ∧ decode_sfu_forward_envelope screen_wire = Ok screen_envelope.
Proof.
  assert (encode_sfu_forward_envelope screen_envelope = Ok screen_wire) as E
    by (vm_compute; reflexivity).
  split; [exact E|]. apply (sfu_wire_is_canonical screen_envelope screen_wire).
  - split; [apply screen_header_typed; unfold is_u; lia|reflexivity].
  - apply Forall_forall. intros x Hx. unfold is_u. vm_compute in Hx.
    repeat (apply elem_of_cons in Hx as [->|Hx]; [vm_compute; split; [discriminate|reflexivity]|]).
    by apply elem_of_nil in Hx.
  - exact E.
Defined.

(** The test vector of the repository. *)
Definition WIRE_V2_SCREEN_SHARE_VECTOR : bytes :=
  [85; 67; 82; 69; 50; 69; 69; 49; 2; 0; 6; 116; 101; 110; 97; 110; 116; 1; 0; 9; 110; 97; 109;
   101; 115; 112; 97; 99; 101; 0; 4; 99; 97; 108; 108; 0; 5; 103; 114; 111; 117; 112; 0; 10; 118;
   105; 100; 101; 111; 45; 109; 97; 105; 110; 1; 0; 5; 97; 108; 105; 99; 101; 0; 12; 97; 108;
   105; 99; 101; 45; 100; 101; 118; 105; 99; 101; 0; 11; 110; 101; 103; 111; 116; 105; 97; 116;
   105; 111; 110; 0; 0; 0; 0; 0; 0; 0; 2; 0; 0; 0; 0; 0; 0; 0; 9; 0; 12; 99; 114; 121; 112; 116;
   111; 45; 115; 116; 97; 116; 101; 1; 2; 2; 0; 0; 0; 0; 0; 0; 0; 44; 0; 0; 0; 0; 0; 1; 95; 144;
   1; 3; 3; 3; 3; 3; 3; 3; 3; 3; 3; 3; 3; 3; 3; 3; 3; 3; 3; 3; 3; 3; 3; 3; 3; 0; 0; 0; 3; 7; 8;
   9; 0; 11; 115; 105; 103; 110; 105; 110; 103; 45; 107; 101; 121; 0; 7; 101; 100; 50; 53; 53;
   49; 57; 0; 0; 0; 1; 0; 64; 5; 5; 5; 5; 5; 5; 5; 5; 5; 5; 5; 5; 5; 5; 5; 5; 5; 5; 5; 5; 5; 5;
   5; 5; 5; 5; 5; 5; 5; 5; 5; 5; 5; 5; 5; 5; 5; 5; 5; 5; 5; 5; 5; 5; 5; 5; 5; 5; 5; 5; 5; 5; 5;
   5; 5; 5; 5; 5; 5; 5; 5; 5; 5; 5]%Z.

Lemma screen_wire_vector : screen_wire = WIRE_V2_SCREEN_SHARE_VECTOR.
Proof. vm_compute. reflexivity. Qed.
