(* ===== verification/MediaCrypto.v ===== *)
(** Endpoint encryption of group media (crates/ucr-crypto/src/aead.rs, signing.rs and
    group_media.rs): the traffic key of a stream, the authenticated cipher, the source
    signature, and their composition with the wire form.  The primitives of the [hkdf],
    [chacha20poly1305] and [ed25519-dalek] crates are a class; the answer of the operating
    system's random source is an argument of the operations that draw from it. *)

From S2P Require Import Prelude Ids Framing Extension Message StoreForward Store Capability.
From S2P Require Import Video Sfu Adaptive JoinToken Realtime GroupMedia.

(** * Primitives *)

Definition AEAD_TAG_LEN : Z := 16.
Definition MAX_AAD_LEN : Z := 64 * 1024.
Definition MAX_CIPHERTEXT_LEN : Z := DEFAULT_MAX_PAYLOAD_LEN.
Definition MAX_PLAINTEXT_LEN : Z := MAX_CIPHERTEXT_LEN - AEAD_TAG_LEN.

Class MediaCipher := {
  (** [Hkdf::<Sha256>::new(Some(salt), secret)] expanded to 32 bytes under [info]. *)
  hkdf_sha256 : bytes → bytes → bytes → option bytes;
  (** [XChaCha20Poly1305] under a key and a nonce, of a message with associated data. *)
  xchacha_encrypt : bytes → bytes → bytes → bytes → option bytes;
  xchacha_decrypt : bytes → bytes → bytes → bytes → option bytes;
  (** Ed25519: the public key of a seed, signing, decoding a public key, verifying. *)
  ed25519_public : bytes → bytes;
  ed25519_sign : bytes → bytes → bytes;
  ed25519_decodes : bytes → bool;
  ed25519_verify : bytes → bytes → bytes → bool;
  (** HKDF-SHA256 expands up to 255 blocks of 32 bytes. *)
  hkdf_expands salt secret info : is_Some (hkdf_sha256 salt secret info);
  (** The cipher takes messages far longer than the limit checked here, and appends its tag. *)
  xchacha_total key nonce message aad :
    (Z.of_nat (length message) ≤ MAX_PLAINTEXT_LEN)%Z →
    ∃ text, xchacha_encrypt key nonce message aad = Some text
            ∧ Z.of_nat (length text) = (Z.of_nat (length message) + AEAD_TAG_LEN)%Z;
  xchacha_roundtrip key nonce message aad text :
    xchacha_encrypt key nonce message aad = Some text →
    xchacha_decrypt key nonce text aad = Some message;
  ed25519_sign_length seed message : length (ed25519_sign seed message) = 64;
  ed25519_public_decodes seed : ed25519_decodes (ed25519_public seed) = true;
  ed25519_sign_verifies seed message :
    ed25519_verify (ed25519_public seed) message (ed25519_sign seed message) = true;
}.

(** * The authenticated cipher *)

Inductive AeadError :=
| AeOsRandomUnavailable | AeEmptyAssociatedData | AePayloadTooLarge | AeAssociatedDataTooLarge
| AeEncryptionFailed | AeDecryptionFailed.

Record Ciphertext := mk_ciphertext { ct_nonce : bytes; (* [u8; 24] *) ct_bytes : bytes }.

Definition validate_aead_inputs (plaintext_len : Z) (aad : bytes) : result AeadError unit :=
  reject_if (bool_decide (aad = [])) AeEmptyAssociatedData ;;
  reject_if (MAX_AAD_LEN <? len aad)%Z AeAssociatedDataTooLarge ;;
  reject_if (MAX_PLAINTEXT_LEN <? plaintext_len)%Z AePayloadTooLarge.

Section crypto.
Context {digest : Sha256} {cipher : MediaCipher}.

(** [random] is what [getrandom::fill] wrote into the nonce, if it succeeded. *)
Definition aead_encrypt (key plaintext aad : bytes) (random : option bytes) :
    result AeadError Ciphertext :=
  validate_aead_inputs (len plaintext) aad ;;
  nonce ← ok_or random AeOsRandomUnavailable;
  text ← ok_or (xchacha_encrypt key nonce plaintext aad) AeEncryptionFailed;
  Ok (mk_ciphertext nonce text).

Definition aead_decrypt (key : bytes) (ciphertext : Ciphertext) (aad : bytes) :
    result AeadError bytes :=
  reject_if (bool_decide (aad = [])) AeEmptyAssociatedData ;;
  reject_if (MAX_AAD_LEN <? len aad)%Z AeAssociatedDataTooLarge ;;
  reject_if (MAX_CIPHERTEXT_LEN <? len (ct_bytes ciphertext))%Z AePayloadTooLarge ;;
  ok_or (xchacha_decrypt key (ct_nonce ciphertext) (ct_bytes ciphertext) aad) AeDecryptionFailed.

(** * The source signature *)

Inductive SignatureError := SgOsRandomUnavailable | SgInvalidPublicKey | SgInvalidSignature.

(** [dyn GroupMediaSigningKeyHandle]. *)
Record GroupMediaSigningKeyHandle := mk_signing_handle {
  sh_verifying_key : bytes; (* [u8; 32] *)
  sh_sign_group_media_binding : bytes → result SignatureError bytes; (* [u8; 64] *)
}.

Definition sign_group_media_binding (seed binding : bytes) : bytes :=
  ed25519_sign seed (GROUP_MEDIA_SOURCE_SIGNATURE_V1_DOMAIN ++ binding).

(** [SigningKeyMaterial] as a handle. *)
Definition signing_key_material (seed : bytes) : GroupMediaSigningKeyHandle :=
  mk_signing_handle (ed25519_public seed) (λ binding, Ok (sign_group_media_binding seed binding)).

Definition verify_group_media_binding_signature (public_key binding signature : bytes) :
    result SignatureError unit :=
  reject_if (negb (ed25519_decodes public_key)) SgInvalidPublicKey ;;
  reject_if (negb (ed25519_verify public_key (GROUP_MEDIA_SOURCE_SIGNATURE_V1_DOMAIN ++ binding)
                     signature)) SgInvalidSignature.

(** * Keys of a stream *)

Definition GROUP_MEDIA_TRAFFIC_KDF_V1_DOMAIN : bytes :=
  str "UCR-GROUP-MEDIA-TRAFFIC-KDF-V1" ++ [0%Z].

Inductive GroupMediaKeyError := GkProtocol (e : GroupMediaE2eeProtocolError) | GkExpandFailed.

Definition derive_group_media_traffic_key (epoch_secret : bytes) (context : GroupMediaE2eeContext)
    (source : PrincipalRef) (source_device_id : DeviceId) (stream_id : OpaqueId)
    (media_kind : MediaKind) : result GroupMediaKeyError bytes :=
  binding ← map_err GkProtocol (group_media_context_binding context);
  key_context ← map_err GkProtocol
    (group_media_key_context context source source_device_id stream_id media_kind);
  ok_or (hkdf_sha256 binding epoch_secret (GROUP_MEDIA_TRAFFIC_KDF_V1_DOMAIN ++ key_context))
    GkExpandFailed.

(** * Sealing and opening *)

Inductive EndpointGroupMediaCryptoError :=
| EcProtocol (e : GroupMediaE2eeProtocolError)
| EcKey (e : GroupMediaKeyError)
| EcAead (e : AeadError)
| EcSignature (e : SignatureError)
| EcInvalidSignatureBytes.

Inductive EndpointGroupMediaWireError :=
| EwCrypto (e : EndpointGroupMediaCryptoError)
| EwWire (e : SfuForwardWireError).

Definition header_traffic_key (epoch_secret : bytes) (context : GroupMediaE2eeContext)
    (header : GroupMediaFrameHeader) : result EndpointGroupMediaCryptoError bytes :=
  map_err EcKey (derive_group_media_traffic_key epoch_secret context (fh_source header)
                   (fh_source_device_id header) (fh_stream_id header) (fh_media_kind header)).

Definition seal_endpoint_group_media_payload (epoch_secret : bytes)
    (context : GroupMediaE2eeContext) (header : GroupMediaFrameHeader) (plaintext : bytes)
    (signing_key_id : OpaqueId) (signer : GroupMediaSigningKeyHandle) (random : option bytes) :
    result EndpointGroupMediaCryptoError EncryptedGroupMediaFrame :=
  traffic_key ← header_traffic_key epoch_secret context header;
  aad ← map_err EcProtocol (group_media_frame_aad header);
  encrypted ← map_err EcAead (aead_encrypt traffic_key plaintext aad random);
  signing_binding ← map_err EcProtocol
    (group_media_source_signing_binding header (ct_nonce encrypted) (ct_bytes encrypted));
  signature ← map_err EcSignature (sh_sign_group_media_binding signer signing_binding);
  let frame := mk_encrypted_frame header (ct_nonce encrypted) (ct_bytes encrypted)
    (mk_source_signature signing_key_id SIGNATURE_ALGORITHM_ID ALGORITHM_VERSION signature) in
  map_err EcProtocol (validate_encrypted_group_media_frame context frame) ;;
  Ok frame.

Definition open_endpoint_group_media_payload (epoch_secret : bytes)
    (context : GroupMediaE2eeContext) (frame : EncryptedGroupMediaFrame)
    (source_verifying_key : bytes) : result EndpointGroupMediaCryptoError bytes :=
  let header := ef_header frame in
  map_err EcProtocol (validate_encrypted_group_media_frame context frame) ;;
  let signature := ss_signature (ef_source_signature frame) in
  reject_if (negb (length signature =? 64)) EcInvalidSignatureBytes ;;
  signing_binding ← map_err EcProtocol
    (group_media_source_signing_binding header (ef_nonce frame) (ef_ciphertext frame));
  map_err EcSignature
    (verify_group_media_binding_signature source_verifying_key signing_binding signature) ;;
  traffic_key ← header_traffic_key epoch_secret context header;
  aad ← map_err EcProtocol (group_media_frame_aad header);
  map_err EcAead (aead_decrypt traffic_key (mk_ciphertext (ef_nonce frame) (ef_ciphertext frame)) aad).

(** [header.header_version = SFU_FORWARD_WIRE_VERSION]. *)
Definition with_wire_version (h : GroupMediaFrameHeader) : GroupMediaFrameHeader :=
  mk_frame_header (fh_scope h) (fh_call_id h) (fh_group_id h) (fh_stream_id h) (fh_source h)
    (fh_source_device_id h) (fh_negotiation_ref h) (fh_negotiation_generation h)
    (fh_crypto_epoch h) (fh_crypto_state_ref h) (fh_crypto_suite h) SFU_FORWARD_WIRE_VERSION
    (fh_media_kind h) (fh_video_source_kind h) (fh_sequence h) (fh_media_timestamp h)
    (fh_keyframe h).

Definition seal_endpoint_group_media_wire (epoch_secret : bytes) (context : GroupMediaE2eeContext)
    (header : GroupMediaFrameHeader) (plaintext : bytes) (signing_key_id : OpaqueId)
    (signer : GroupMediaSigningKeyHandle) (random : option bytes) :
    result EndpointGroupMediaWireError bytes :=
  frame ← map_err EwCrypto
    (seal_endpoint_group_media_payload epoch_secret context (with_wire_version header) plaintext
       signing_key_id signer random);
  map_err EwWire (encode_sfu_forward_envelope (mk_envelope frame)).

Definition open_endpoint_group_media_wire (epoch_secret : bytes) (context : GroupMediaE2eeContext)
    (wire source_verifying_key : bytes) : result EndpointGroupMediaWireError bytes :=
  envelope ← map_err EwWire (decode_sfu_forward_envelope wire);
  map_err EwCrypto
    (open_endpoint_group_media_payload epoch_secret context (fe_frame envelope)
       source_verifying_key).
End crypto.
