(* ===== verification/MediaCryptoTheorems.v ===== *)
(** Endpoint encryption of group media: what one endpoint seals the others open, and only in
    the context it was sealed for. *)

From S2P Require Import Prelude Ids Framing Extension Message StoreForward Store Capability.
From S2P Require Import Video Sfu Adaptive JoinToken JoinTokenTheorems Realtime GroupMedia.
From S2P Require Import GroupMediaTheorems MediaCrypto.

(** The context a header names. *)
Definition header_context (h : GroupMediaFrameHeader) : GroupMediaE2eeContext :=
  mk_media_context (fh_scope h) (fh_call_id h) (fh_group_id h) (fh_negotiation_ref h)
    (fh_negotiation_generation h) (fh_crypto_epoch h) (fh_crypto_state_ref h) (fh_crypto_suite h).

Section frames.
Context {digest : Sha256}.

Lemma signing_bytes_total h nonce ciphertext :
  header_ok h → ciphertext ≠ [] →
  (Z.of_nat (length ciphertext) ≤ MAX_ENCRYPTED_GROUP_MEDIA_PAYLOAD_BYTES)%Z →
  ∃ binding, group_media_source_signing_binding h nonce ciphertext = Ok binding.
Proof.
  intros Ho Hc Hl. unfold group_media_source_signing_binding, group_media_source_signing_bytes.
  rewrite (proj2 (frame_aad_Ok h (aad_bytes h))) by done. cbn [mbind result_bind].
  rewrite (bool_decide_eq_false_2 (ciphertext = [])) by done. cbn [reject_if mbind result_bind].
  destruct (Z.ltb_spec MAX_ENCRYPTED_GROUP_MEDIA_PAYLOAD_BYTES (Z.of_nat (length ciphertext)));
    [lia|]. cbn. by eexists.
Qed.

Lemma canonical_context_Ok c :
  mc_negotiation_generation c ≠ 0%Z → canonical_group_media_e2ee_context c = Ok c.
Proof.
  intros Hg. unfold canonical_group_media_e2ee_context. rewrite (proj2 (Z.eqb_neq _ 0)) by done.
  by destruct (mc_crypto_suite c).
Qed.

(** The frames an endpoint of a context may handle. *)
Record frame_in_context (c : GroupMediaE2eeContext) (f : EncryptedGroupMediaFrame) : Prop := {
  fc_header : header_ok (ef_header f);
  fc_context : header_context (ef_header f) = c;
  fc_nonempty : ef_ciphertext f ≠ [];
  fc_length : (Z.of_nat (length (ef_ciphertext f)) ≤ MAX_ENCRYPTED_GROUP_MEDIA_PAYLOAD_BYTES)%Z;
  fc_algorithm : ss_algorithm_id (ef_source_signature f) = SIGNATURE_ALGORITHM_ID;
  fc_version : ss_algorithm_version (ef_source_signature f) = ALGORITHM_VERSION;
  fc_signature : length (ss_signature (ef_source_signature f)) = 64;
}.

Lemma validate_frame_Ok c f :
  validate_encrypted_group_media_frame c f = Ok tt ↔ frame_in_context c f.
Proof.
  unfold validate_encrypted_group_media_frame. split.
  - destruct (canonical_group_media_e2ee_context c) as [c'|] eqn:Ec; [|done].
    unfold canonical_group_media_e2ee_context in Ec. res_inv. subst c'.
    destruct (group_media_frame_aad (ef_header f)) as [aad|] eqn:Ea; [|done].
    apply frame_aad_Ok in Ea as [Ho _]. intros Hval. res_inv. bool_norm. split; try tauto.
    destruct c. unfold header_context. cbn in *. f_equal; tauto.
  - intros [Ho <- Hc Hl Ha Hv Hs].
    rewrite canonical_context_Ok by apply (ho_generation _ Ho). cbn [mbind result_bind].
    rewrite (proj2 (frame_aad_Ok _ (aad_bytes (ef_header f)))) by done. cbn [mbind result_bind].
    destruct (signing_bytes_total (ef_header f) (ef_nonce f) (ef_ciphertext f) Ho Hc Hl) as [b Hb].
    rewrite (bool_decide_eq_false_2 (ef_ciphertext f = [])) by done.
    rewrite (proj2 (Z.ltb_ge MAX_ENCRYPTED_GROUP_MEDIA_PAYLOAD_BYTES _)) by done.
    rewrite Ha, Hv, Hs, Hb. cbn [header_context mc_scope mc_call_id mc_group_id mc_negotiation_ref
      mc_negotiation_generation mc_crypto_epoch mc_crypto_state_ref mc_crypto_suite].
    by rewrite !bool_decide_eq_true_2, !Z.eqb_refl by done.
Qed.

Lemma canonical_frame_in_context c f :
  frame_in_context c f → canonical_sfu_forward_envelope (mk_envelope f) = Ok (c, mk_envelope f).
Proof.
  intros Hf. unfold canonical_sfu_forward_envelope, group_media_context_from_frame. cbn [fe_frame].
  fold (header_context (ef_header f)). rewrite (fc_context _ _ Hf), canonical_context_Ok.
  - cbn [mbind result_bind]. by rewrite (proj2 (validate_frame_Ok c f)).
  - rewrite <- (fc_context _ _ Hf). apply (ho_generation _ (fc_header _ _ Hf)).
Qed.
End frames.

Section sealing.
Context {digest : Sha256} {cipher : MediaCipher}.

Lemma traffic_key_total secret c source device stream kind :
  mc_negotiation_generation c ≠ 0%Z →
  ∃ key, derive_group_media_traffic_key secret c source device stream kind = Ok key.
Proof.
  intros Hg. unfold derive_group_media_traffic_key, group_media_key_context,
    group_media_context_binding, group_media_context_bytes.
  rewrite !canonical_context_Ok by done. cbn [mbind result_bind map_err].
  match goal with |- context [hkdf_sha256 ?s ?k ?i] => destruct (hkdf_expands s k i) as [key ->] end.
  by exists key.
Qed.

Lemma aad_bounds h : aad_bytes h ≠ [] ∧ (len (aad_bytes h) ≤ MAX_AAD_LEN)%Z.
Proof.
  pose proof (length_aad_bytes h). unfold len, MAX_AAD_LEN. split; [|lia].
  unfold aad_bytes, aad_domain. by case_match.
Qed.

Lemma aead_roundtrip key plaintext h nonce :
  (len plaintext ≤ MAX_PLAINTEXT_LEN)%Z →
  ∃ text, aead_encrypt key plaintext (aad_bytes h) (Some nonce) = Ok (mk_ciphertext nonce text)
  ∧ len text = (len plaintext + AEAD_TAG_LEN)%Z
  ∧ aead_decrypt key (mk_ciphertext nonce text) (aad_bytes h) = Ok plaintext.
Proof.
  intros Hl. destruct (aad_bounds h) as [Hn Ha]. unfold aead_encrypt, aead_decrypt, validate_aead_inputs.
  destruct (xchacha_total key nonce plaintext (aad_bytes h) Hl) as (text & Et & Hlen).
  exists text. rewrite (bool_decide_eq_false_2 (aad_bytes h = [])) by done.
  rewrite !(proj2 (Z.ltb_ge MAX_AAD_LEN _)), !(proj2 (Z.ltb_ge MAX_PLAINTEXT_LEN _)) by lia.
  cbn. rewrite Et, (xchacha_roundtrip _ _ _ _ _ Et). unfold len in *. cbn.
  rewrite (proj2 (Z.ltb_ge MAX_CIPHERTEXT_LEN _)); [done|].
  unfold MAX_PLAINTEXT_LEN, AEAD_TAG_LEN in *. lia.
Qed.

Lemma seal_then_open secret h plaintext key_id seed nonce :
  header_ok h →
  (len plaintext + AEAD_TAG_LEN ≤ MAX_ENCRYPTED_GROUP_MEDIA_PAYLOAD_BYTES)%Z →
  ∃ frame,
    seal_endpoint_group_media_payload secret (header_context h) h plaintext key_id
      (signing_key_material seed) (Some nonce) = Ok frame
    ∧ ef_header frame = h ∧ ef_nonce frame = nonce ∧ frame_in_context (header_context h) frame
    ∧ open_endpoint_group_media_payload secret (header_context h) frame (ed25519_public seed)
      = Ok plaintext.
Proof.
  intros Ho Hl. unfold seal_endpoint_group_media_payload, header_traffic_key.
  destruct (traffic_key_total secret (header_context h) (fh_source h) (fh_source_device_id h)
    (fh_stream_id h) (fh_media_kind h) (ho_generation _ Ho)) as [key Ek].
  pose proof (proj2 (frame_aad_Ok h (aad_bytes h)) (conj Ho eq_refl)) as Ea.
  destruct (aead_roundtrip key plaintext h nonce) as (text & Ee & Hlen & Ed).
  { unfold MAX_ENCRYPTED_GROUP_MEDIA_PAYLOAD_BYTES, AEAD_TAG_LEN, len in *.
    unfold MAX_PLAINTEXT_LEN, MAX_CIPHERTEXT_LEN, DEFAULT_MAX_PAYLOAD_LEN, AEAD_TAG_LEN. lia. }
  unfold len, AEAD_TAG_LEN in *.
  assert (text ≠ []) as Hne by (intros ->; cbn in Hlen; lia).
  destruct (signing_bytes_total h nonce text Ho Hne) as [binding Eb]; [lia|].
  pose (frame := mk_encrypted_frame h nonce text (mk_source_signature key_id SIGNATURE_ALGORITHM_ID
    ALGORITHM_VERSION (sign_group_media_binding seed binding))).
  assert (frame_in_context (header_context h) frame) as Hf.
  { split; try done; [cbn; lia|]. apply ed25519_sign_length. }
  exists frame. pose proof (proj2 (validate_frame_Ok _ _) Hf) as Ev. split_and!; try done.
  - rewrite Ek. cbn. rewrite Ea. cbn. rewrite Ee. cbn. rewrite Eb. cbn. fold frame. by rewrite Ev.
  - unfold open_endpoint_group_media_payload, verify_group_media_binding_signature, header_traffic_key.
    rewrite Ev. cbn [ef_header ef_nonce ef_ciphertext ef_source_signature ss_signature frame
      map_err mbind result_bind]. rewrite Eb. unfold sign_group_media_binding.
    rewrite ed25519_sign_length, ed25519_public_decodes. cbn.
    rewrite ed25519_sign_verifies. cbn. rewrite Ek. cbn. rewrite Ea. cbn. by rewrite Ed.
Qed.

Lemma open_in_context secret c f key plaintext :
  open_endpoint_group_media_payload secret c f key = Ok plaintext →
  frame_in_context c f.
Proof.
  unfold open_endpoint_group_media_payload.
  destruct (validate_encrypted_group_media_frame c f) as [[]|] eqn:E; [|done].
  intros _. by apply validate_frame_Ok.
Qed.

(** C16: What an endpoint seals, the endpoints of the same epoch open.  For a header of the
    context with at most the largest payload, sealing succeeds, and the wire it emits opens
    under the epoch secret and the source's verification key to the payload itself.  Under any
    other context, an earlier epoch or another call of the same group, it does not open
    whatever secret and key are used. *)
Theorem sealed_media_opens_in_its_context secret h plaintext key_id seed nonce :
  header_ok (with_wire_version h) → header_typed_media h → length nonce = 24 →
  (len plaintext + AEAD_TAG_LEN ≤ MAX_ENCRYPTED_GROUP_MEDIA_PAYLOAD_BYTES)%Z →
  ∃ wire,
    seal_endpoint_group_media_wire secret (header_context h) h plaintext key_id
      (signing_key_material seed) (Some nonce) = Ok wire
    ∧ open_endpoint_group_media_wire secret (header_context h) wire (ed25519_public seed)
      = Ok plaintext
    ∧ ∀ secret' context' key' plaintext',
        open_endpoint_group_media_wire secret' context' wire key' = Ok plaintext' →
        context' = header_context h.
Proof.
  intros Ho Ht Hn Hl. destruct (seal_then_open secret (with_wire_version h) plaintext key_id seed
    nonce Ho Hl) as (frame & Es & Eh & En & Hf & Eo).
  change (header_context (with_wire_version h)) with (header_context h) in *.
  pose proof (canonical_frame_in_context _ _ Hf) as Ec.
  assert (envelope_typed (mk_envelope frame)) as Hte.
  { split; cbn; [by rewrite Eh|by rewrite En]. }
  pose proof (decode_frame_bytes _ _ Ec (canonical_fits _ _ _ Hte Ec)) as Ed.
  exists (frame_bytes frame).
  unfold seal_endpoint_group_media_wire, open_endpoint_group_media_wire. cbn [fe_frame] in Ed.
  rewrite Es, Ed. cbn. rewrite Eo. split_and!; [|done|].
  - rewrite (proj2 (encode_envelope_Ok _ (frame_bytes frame) Hte)); [done|]. split; [by eexists|done].
  - intros secret' context' key' plaintext'.
    destruct (open_endpoint_group_media_payload secret' context' frame key') eqn:E; [|done].
    intros _. rewrite <- (fc_context _ _ Hf). symmetry. apply (fc_context _ _ (open_in_context _ _ _ _ _ E)).
Qed.
End sealing.

(** * A concrete frame *)

#[local] Existing Instance toy_digest.

(** Concrete primitives with the laws of the class: the cipher appends sixteen zero bytes, the
    signature is constant and every key verifies it. *)
Definition toy_decrypt (text : bytes) : bytes := take (length text - 16) text.
#[local] Instance toy_cipher : MediaCipher.
Proof.
  refine {| hkdf_sha256 _ _ _ := Some (replicate 32 1%Z);
            xchacha_encrypt _ _ message _ := Some (message ++ replicate 16 0%Z);
            xchacha_decrypt _ _ text _ := Some (toy_decrypt text);
            ed25519_public _ := replicate 32 2%Z;
            ed25519_sign _ _ := replicate 64 5%Z;
            ed25519_decodes _ := true;
            ed25519_verify _ _ _ := true |}; try done.
  - intros _ _ message _ _. eexists. split; [done|]. rewrite length_app. unfold AEAD_TAG_LEN.
    change (length (replicate 16 0%Z)) with 16. lia.
  - intros _ _ message _ text [= <-]. unfold toy_decrypt. f_equal.
    rewrite length_app. change (length (replicate 16 0%Z)) with 16.
    by rewrite Nat.add_sub, take_app_length.
Defined.

Lemma sealed_media_opens_in_its_context_witness :
  ∃ wire,
    seal_endpoint_group_media_wire [9]%Z (header_context (screen_header 44)) (screen_header 44)
      [7; 8; 9]%Z (oid "signing-key") (signing_key_material [4]%Z) (Some screen_nonce) = Ok wire
    ∧ open_endpoint_group_media_wire [9]%Z (header_context (screen_header 44)) wire
        (ed25519_public [4]%Z) = Ok [7; 8; 9]%Z.
Proof.
  destruct (sealed_media_opens_in_its_context [9]%Z (screen_header 44) [7; 8; 9]%Z
    (oid "signing-key") [4]%Z screen_nonce) as (wire & Hs & Ho & _).
  - assert (group_media_frame_aad (with_wire_version (screen_header 44))
      = Ok (aad_bytes (with_wire_version (screen_header 44)))) as E by (vm_compute; reflexivity).
    apply frame_aad_Ok in E. exact (proj1 E).
  - apply screen_header_typed. unfold is_u. lia.
  - reflexivity.
  - vm_compute. discriminate.
  - exists wire. split; [exact Hs|exact Ho].
Defined.
