(* ===== verification/MediaRuntime.v ===== *)
(** The runtimes of encrypted group media: the endpoint session that seals and opens frames
    (crates/ucr-media-e2ee/src/group_media.rs) and the selective forwarding unit that fans a
    frame out without decrypting it (crates/ucr-sfu/src/lib.rs, from [SfuForwardSink] on).

    Both are programs over the interface [media_call]: the stores, the trusted key resolver,
    the authorization evaluator, the capability providers and the forwarding sink are trait
    objects and answer as they like, so that authority can change between any two calls. *)

From S2P Require Import Prelude Ids Framing Extension Message StoreForward Store Capability.
From S2P Require Import Call Group Program Orchestrator Interaction BridgeRuntime.
From S2P Require Import Video Sfu Adaptive JoinToken Realtime GroupMedia MediaCrypto.

(** * The interface of the runtimes *)

Inductive KeyPurpose := KpSigning | KpKeyAgreement.
#[global] Instance KeyPurpose_eq_dec : EqDecision KeyPurpose.
Proof. solve_decision. Defined.

Record PublicKeyDescriptor := mk_public_key {
  pk_key_id : OpaqueId;
  pk_device_id : DeviceId;
  pk_purpose : KeyPurpose;
  pk_algorithm_id : bytes; (* String *)
  pk_algorithm_version : Z; (* u32 *)
  pk_key_format_version : Z; (* u32 *)
  pk_public_key : bytes; (* Vec<u8> *)
}.

Record PrincipalIdentityBinding := mk_identity_binding {
  ib_scope : TenantScope;
  ib_principal : PrincipalRef;
  ib_identity_id : IdentityId;
}.

Inductive TrustedKeyResolutionError :=
| TkNotTrusted | TkUnavailable | TkCorrupt | TkPermissionDenied | TkInternal.

Inductive media_call : Type → Type :=
| McCall (subject : ScopedPrincipal) (scope : TenantScope) (call : CallId) :
    media_call (result DurableStoreError (option CallSession))
| McGroup (scope : TenantScope) (conversation : ConversationId) :
    media_call (result DurableStoreError (option GroupRecord))
| McMembership (subject : ScopedPrincipal) (scope : TenantScope) (group : GroupId)
    (member : PrincipalRef) : media_call (result DurableStoreError (option GroupMembership))
| McDevice (scope : TenantScope) (device : DeviceId) :
    media_call (result DurableStoreError (option DeviceDescriptor))
| McIdentityBinding (scope : TenantScope) (principal : PrincipalRef) :
    media_call (result DurableStoreError (option PrincipalIdentityBinding))
| McSigningKey (scope : TenantScope) (device : DeviceId) (identity : option IdentityId)
    (key : OpaqueId) : media_call (result TrustedKeyResolutionError PublicKeyDescriptor)
| McAuthorize (request : AuthorizationRequest) (call : CallId) :
    media_call (result CanonicalError unit)
| McSfuCapabilities : media_call (list CapabilityDescriptor)
| McGroupCapabilities : media_call (list CapabilityDescriptor)
| McForward (target : SfuForwardTarget) (envelope : SfuForwardEnvelope) :
    media_call (result SfuForwardSinkError unit).

Definition media_prog : Type → Type → Type := etree media_call.

Definition answer {E B} (c : media_call B) : media_prog E B := Call c (λ b, Ret (Ok b)).
(** [call()?] with an error conversion. *)
Definition answer_err {E F B} (f : F → E) (c : media_call (result F B)) : media_prog E B :=
  Call c (λ r, Ret (map_err f r)).

(** * Contracts on keys *)

Definition AGREEMENT_ALGORITHM_ID : bytes := str "x25519".
Definition KEY_FORMAT_VERSION : Z := 1.
Definition ED25519_PUBLIC_KEY_LEN : Z := 32.
Definition X25519_PUBLIC_KEY_LEN : Z := 32.

Inductive CryptoContractError :=
| CkWrongAlgorithm | CkWrongAlgorithmVersion | CkWrongKeyFormatVersion | CkWrongPublicKeyLength.

Definition validate_public_key_descriptor (suite : CryptoSuite) (descriptor : PublicKeyDescriptor) :
    result CryptoContractError unit :=
  let '(algorithm, key_len) := match suite, pk_purpose descriptor with
    | UcrV1, KpSigning => (SIGNATURE_ALGORITHM_ID, ED25519_PUBLIC_KEY_LEN)
    | UcrV1, KpKeyAgreement => (AGREEMENT_ALGORITHM_ID, X25519_PUBLIC_KEY_LEN)
    end in
  reject_if (negb (bool_decide (pk_algorithm_id descriptor = algorithm))) CkWrongAlgorithm ;;
  reject_if (negb (pk_algorithm_version descriptor =? ALGORITHM_VERSION)%Z) CkWrongAlgorithmVersion ;;
  reject_if (negb (pk_key_format_version descriptor =? KEY_FORMAT_VERSION)%Z)
    CkWrongKeyFormatVersion ;;
  reject_if (negb (len (pk_public_key descriptor) =? key_len)%Z) CkWrongPublicKeyLength.

(** * Permissions and capabilities *)

Definition AUDIO_SEND_PERMISSION : bytes := str "ucr.call.audio.send".
Definition AUDIO_RECEIVE_PERMISSION : bytes := str "ucr.call.audio.receive".
Definition VIDEO_SEND_PERMISSION : bytes := str "ucr.call.video.send".
Definition SCREEN_SHARE_SEND_PERMISSION : bytes := str "ucr.call.screen_share.send".
Definition VIDEO_RECEIVE_PERMISSION : bytes := str "ucr.call.video.receive".
Definition GROUP_MEDIA_E2EE_CAPABILITY : bytes := str "ucr.media.e2ee.group.mls".
Definition SFU_MEDIA_CAPABILITY : bytes := str "ucr.media.sfu".
Definition MAX_MEDIA_STREAMS_PER_EPOCH : nat := 64.

(** The test both runtimes make of an advertised capability. *)
Definition media_capability_usable (required : bytes) (capability : CapabilityDescriptor) : bool :=
  bool_decide (cap_id capability = required)
  && match cap_maturity capability with CmPrepared | CmBeta | CmProduction => true | _ => false end
  && forallb (λ extension, negb (ext_critical extension)) (cap_extensions capability).

Definition accepted_participant (call : CallSession) (principal : PrincipalRef) : bool :=
  existsb (λ participant, bool_decide (cp_principal participant = principal)
                          && accepted_in participant) (cs_participants call).

(** * The endpoint session *)

Inductive GroupMediaE2eeError :=
| MeAuthorization (e : CanonicalError)
| MeStore (e : DurableStoreError)
| MeProtocol (e : GroupMediaE2eeProtocolError)
| MeCrypto (e : AeadError)
| MeKey (e : GroupMediaKeyError)
| MeCapabilityUnavailable | MeScopeMismatch | MeDeviceParticipantMismatch
| MePrincipalIdentityBindingUnavailable | MePrincipalIdentityBindingMismatch
| MeDeviceUnavailable | MeDeviceInactive
| MeTrust (e : TrustedKeyResolutionError)
| MeInvalidTrustedKey (e : CryptoContractError)
| MeSigning (e : SignatureError)
| MeSigningKeyMismatch | MeSourceSignatureInvalid | MeCallUnavailable | MeCallNotActive
| MeGroupCallRequired | MeNegotiationGenerationMismatch | MeNegotiationBindingMismatch
| MeGroupUnavailable | MeGroupMismatch | MeGroupCryptoUnavailable | MeGroupCryptoStateMismatch
| MeMembershipUnavailable | MeSourceNotAccepted | MeSourceNotMember | MeMediaKindMismatch
| MeScreenShareNegotiationRequired | MeReplay | MeOutboundSequenceRegression
| MeStreamCapacityExceeded.

Abbreviation e2ee_prog := (media_prog GroupMediaE2eeError).

Record GroupStreamCursorKey := mk_cursor_key {
  ck_source : PrincipalRef;
  ck_source_device_id : DeviceId;
  ck_media_kind : MediaKind;
  ck_stream_id : OpaqueId;
}.
#[global] Instance GroupStreamCursorKey_eq_dec : EqDecision GroupStreamCursorKey.
Proof. solve_decision. Defined.
#[global] Instance MediaKind_countable : Countable MediaKind.
Proof.
  refine (inj_countable' (λ k, match k with MkAudio => true | MkVideo => false end)
    (λ b : bool, if b then MkAudio else MkVideo) _). by intros [].
Defined.
#[global] Instance GroupStreamCursorKey_countable : Countable GroupStreamCursorKey.
Proof.
  refine (inj_countable'
    (λ k, (ck_source k, ck_source_device_id k, ck_media_kind k, ck_stream_id k))
    (λ x, mk_cursor_key x.1.1.1 x.1.1.2 x.1.2 x.2) _). by intros [].
Defined.

Record GroupMediaE2eeSession := mk_media_session {
  ms_local : ScopedPrincipal;
  ms_local_device_id : DeviceId;
  ms_context : GroupMediaE2eeContext;
  ms_epoch_secret : bytes; (* [u8; 32] *)
  ms_outbound_sequences : gmap GroupStreamCursorKey Z;
  ms_inbound_sequences : gmap GroupStreamCursorKey Z;
}.

Definition send_permission (kind : MediaKind) : bytes :=
  match kind with MkAudio => AUDIO_SEND_PERMISSION | MkVideo => VIDEO_SEND_PERMISSION end.
Definition receive_permission (kind : MediaKind) : bytes :=
  match kind with MkAudio => AUDIO_RECEIVE_PERMISSION | MkVideo => VIDEO_RECEIVE_PERMISSION end.

Definition require_group_media_capability : e2ee_prog unit :=
  capabilities ← answer McGroupCapabilities;
  pure (reject_if (negb (existsb (media_capability_usable GROUP_MEDIA_E2EE_CAPABILITY) capabilities))
          MeCapabilityUnavailable).

Definition authorize_media (subject : ScopedPrincipal) (permission : bytes) (call_id : CallId) :
    e2ee_prog unit :=
  answer_err MeAuthorization
    (McAuthorize (mk_authorization_request subject permission (sp_scope subject)) call_id).

Definition require_next_outbound_sequence (sequences : gmap GroupStreamCursorKey Z)
    (key : GroupStreamCursorKey) (sequence : Z) : result GroupMediaE2eeError unit :=
  reject_if (match sequences !! key with Some last => (sequence <=? last)%Z | None => false end)
    MeOutboundSequenceRegression.

Definition require_stream_capacity (sequences : gmap GroupStreamCursorKey Z)
    (key : GroupStreamCursorKey) : result GroupMediaE2eeError unit :=
  reject_if (bool_decide (sequences !! key = None)
             && (MAX_MEDIA_STREAMS_PER_EPOCH <=? size sequences)) MeStreamCapacityExceeded.

Definition require_active_bound_participant_device (scope : TenantScope)
    (participant : PrincipalRef) (device_id : DeviceId) : e2ee_prog DeviceDescriptor :=
  found ← answer_err MeStore (McDevice scope device_id);
  device ← pure (ok_or found MeDeviceUnavailable);
  pure (reject_if (negb (device_allows_protected_access device)) MeDeviceInactive) ;;
  if bool_decide (principal_kind participant = PkDevice)
  then pure (reject_if (negb (bool_decide (as_wire_bytes (principal_id participant)
                                           = as_wire_bytes device_id)))
               MeDeviceParticipantMismatch) ;;
       mret device
  else found ← answer_err MeStore (McIdentityBinding scope participant);
       binding ← pure (ok_or found MePrincipalIdentityBindingUnavailable);
       pure (reject_if (negb (bool_decide (ib_identity_id binding = dev_identity_id device)))
               MePrincipalIdentityBindingMismatch) ;;
       mret device.

Definition validate_group_media_e2ee_authority (local : ScopedPrincipal) (local_device_id : DeviceId)
    (context : GroupMediaE2eeContext) : e2ee_prog CallSession :=
  context ← pure (map_err MeProtocol (canonical_group_media_e2ee_context context));
  pure (reject_if (negb (bool_decide (sp_scope local = mc_scope context))) MeScopeMismatch) ;;
  require_active_bound_participant_device (mc_scope context) (sp_principal local) local_device_id ;;
  found ← answer_err MeStore (McCall local (mc_scope context) (mc_call_id context));
  call ← pure (ok_or found MeCallUnavailable);
  pure (reject_if (negb match conversation_kind (cs_conversation call) with
                        | CkPrivateGroup | CkPublicGroup => true | _ => false end)
          MeGroupCallRequired) ;;
  pure (reject_if (negb (bool_decide (cs_signalling_state call = CsActive))) MeCallNotActive) ;;
  pure (reject_if (negb (cs_media_negotiation_generation call
                         =? mc_negotiation_generation context)%Z)
          MeNegotiationGenerationMismatch) ;;
  pure (reject_if (negb (bool_decide (cs_media_negotiation_ref call
                                      = Some (mc_negotiation_ref context))))
          MeNegotiationBindingMismatch) ;;
  pure (reject_if (negb (accepted_participant call (sp_principal local))) MeSourceNotAccepted) ;;
  found ← answer_err MeStore (McGroup (mc_scope context) (conversation_id (cs_conversation call)));
  group ← pure (ok_or found MeGroupUnavailable);
  pure (reject_if (negb (bool_decide (gr_group_id group = mc_group_id context))
                   || negb (bool_decide (gr_conversation group = cs_conversation call)))
          MeGroupMismatch) ;;
  pure (reject_if (negb (bool_decide (gc_capability_id (gr_crypto_state group)
                                      = Some GROUP_MLS_CAPABILITY)))
          MeGroupCryptoUnavailable) ;;
  pure (reject_if (negb (gc_epoch (gr_crypto_state group) =? mc_crypto_epoch context)%Z
                   || negb (bool_decide (gc_state_ref (gr_crypto_state group)
                                         = Some (mc_crypto_state_ref context))))
          MeGroupCryptoStateMismatch) ;;
  found ← answer_err MeStore
    (McMembership local (mc_scope context) (mc_group_id context) (sp_principal local));
  membership ← pure (ok_or found MeMembershipUnavailable);
  pure (reject_if (negb (bool_decide (gm_state membership = GmActive))) MeMembershipUnavailable) ;;
  mret call.

Definition resolve_source_verifying_key (source_device : DeviceDescriptor)
    (frame : EncryptedGroupMediaFrame) : e2ee_prog bytes :=
  let header := ef_header frame in
  let signature := ef_source_signature frame in
  trusted ← answer_err MeTrust
    (McSigningKey (fh_scope header) (fh_source_device_id header)
       (Some (dev_identity_id source_device)) (ss_key_id signature));
  pure (map_err MeInvalidTrustedKey
          (validate_public_key_descriptor (fh_crypto_suite header) trusted)) ;;
  pure (reject_if (negb (bool_decide (pk_purpose trusted = KpSigning))
                   || negb (bool_decide (ss_algorithm_id signature = pk_algorithm_id trusted))
                   || negb (ss_algorithm_version signature =? pk_algorithm_version trusted)%Z)
          MeSourceSignatureInvalid) ;;
  pure (reject_if (negb (length (pk_public_key trusted) =? 32)) MeSourceSignatureInvalid) ;;
  mret (pk_public_key trusted).

Definition map_endpoint_seal_error (error : EndpointGroupMediaCryptoError) : GroupMediaE2eeError :=
  match error with
  | EcProtocol e => MeProtocol e
  | EcKey e => MeKey e
  | EcAead e => MeCrypto e
  | EcSignature e => MeSigning e
  | EcInvalidSignatureBytes => MeSourceSignatureInvalid
  end.

Definition map_endpoint_open_error (error : EndpointGroupMediaCryptoError) : GroupMediaE2eeError :=
  match error with
  | EcProtocol e => MeProtocol e
  | EcKey e => MeKey e
  | EcAead e => MeCrypto e
  | EcSignature _ | EcInvalidSignatureBytes => MeSourceSignatureInvalid
  end.

Section runtimes.
Context {digest : Sha256} {cipher : MediaCipher}.

Definition verify_source_signature (source_device : DeviceDescriptor)
    (frame : EncryptedGroupMediaFrame) : e2ee_prog unit :=
  public_key ← resolve_source_verifying_key source_device frame;
  let signature := ss_signature (ef_source_signature frame) in
  pure (reject_if (negb (length signature =? 64)) MeSourceSignatureInvalid) ;;
  binding ← pure (map_err MeProtocol
    (group_media_source_signing_binding (ef_header frame) (ef_nonce frame) (ef_ciphertext frame)));
  pure (map_err (λ _, MeSourceSignatureInvalid)
          (verify_group_media_binding_signature public_key binding signature)).

Definition validate_group_media_source_frame (context : GroupMediaE2eeContext)
    (frame : EncryptedGroupMediaFrame) : e2ee_prog CallSession :=
  context ← pure (map_err MeProtocol (canonical_group_media_e2ee_context context));
  pure (map_err MeProtocol (validate_encrypted_group_media_frame context frame)) ;;
  let header := ef_header frame in
  let source := mk_scoped_principal (mc_scope context) (fh_source header) in
  call ← validate_group_media_e2ee_authority source (fh_source_device_id header) context;
  source_device ← require_active_bound_participant_device (mc_scope context) (fh_source header)
    (fh_source_device_id header);
  verify_source_signature source_device frame ;;
  mret call.

Definition open_session (local : ScopedPrincipal) (local_device_id : DeviceId)
    (context : GroupMediaE2eeContext) (epoch_secret : bytes) : e2ee_prog GroupMediaE2eeSession :=
  require_group_media_capability ;;
  context ← pure (map_err MeProtocol (canonical_group_media_e2ee_context context));
  validate_group_media_e2ee_authority local local_device_id context ;;
  mret (mk_media_session local local_device_id context epoch_secret ∅ ∅).

(** A [&mut self] operation returns the session it leaves; one that fails leaves it unchanged,
    because each inserts into a map as its last step.  [random] is the answer of the operating
    system when the cipher draws its nonce. *)
Definition seal_payload_versioned (s : GroupMediaE2eeSession) (header_version : Z)
    (media_kind : MediaKind) (video_source_kind : option VideoSourceKind) (stream_id : OpaqueId)
    (sequence media_timestamp : Z) (keyframe : bool) (plaintext : bytes)
    (signing_key_id : OpaqueId) (signer : GroupMediaSigningKeyHandle) (random : option bytes) :
    e2ee_prog (EncryptedGroupMediaFrame * GroupMediaE2eeSession) :=
  let context := ms_context s in
  let source := sp_principal (ms_local s) in
  require_group_media_capability ;;
  validate_group_media_e2ee_authority (ms_local s) (ms_local_device_id s) context ;;
  local_device ← require_active_bound_participant_device (mc_scope context) source
    (ms_local_device_id s);
  authorize_media (ms_local s) (send_permission media_kind) (mc_call_id context) ;;
  let key_id := mk_cursor_key source (ms_local_device_id s) media_kind stream_id in
  pure (require_next_outbound_sequence (ms_outbound_sequences s) key_id sequence) ;;
  pure (require_stream_capacity (ms_outbound_sequences s) key_id) ;;
  let header := mk_frame_header (mc_scope context) (mc_call_id context) (mc_group_id context)
    stream_id source (ms_local_device_id s) (mc_negotiation_ref context)
    (mc_negotiation_generation context) (mc_crypto_epoch context) (mc_crypto_state_ref context)
    (mc_crypto_suite context) header_version media_kind video_source_kind sequence
    media_timestamp keyframe in
  trusted ← answer_err MeTrust
    (McSigningKey (mc_scope context) (ms_local_device_id s)
       (Some (dev_identity_id local_device)) signing_key_id);
  pure (map_err MeInvalidTrustedKey
          (validate_public_key_descriptor (mc_crypto_suite context) trusted)) ;;
  pure (reject_if (negb (bool_decide (pk_purpose trusted = KpSigning))
                   || negb (bool_decide (pk_public_key trusted = sh_verifying_key signer)))
          MeSigningKeyMismatch) ;;
  frame ← pure (map_err map_endpoint_seal_error
    (seal_endpoint_group_media_payload (ms_epoch_secret s) context header plaintext signing_key_id
       signer random));
  mret (frame, mk_media_session (ms_local s) (ms_local_device_id s) context (ms_epoch_secret s)
                 (<[key_id := sequence]> (ms_outbound_sequences s)) (ms_inbound_sequences s)).

Definition seal_payload (s : GroupMediaE2eeSession) (media_kind : MediaKind) (stream_id : OpaqueId)
    (sequence media_timestamp : Z) (keyframe : bool) (plaintext : bytes)
    (signing_key_id : OpaqueId) (signer : GroupMediaSigningKeyHandle) (random : option bytes) :
    e2ee_prog (EncryptedGroupMediaFrame * GroupMediaE2eeSession) :=
  let video_source_kind := match media_kind with MkAudio => None | MkVideo => Some VsCamera end in
  seal_payload_versioned s GROUP_MEDIA_FRAME_HEADER_V1 media_kind video_source_kind stream_id
    sequence media_timestamp keyframe plaintext signing_key_id signer random.

Definition seal_payload_with_source (s : GroupMediaE2eeSession) (media_kind : MediaKind)
    (video_source_kind : option VideoSourceKind) (stream_id : OpaqueId)
    (sequence media_timestamp : Z) (keyframe : bool) (plaintext : bytes)
    (signing_key_id : OpaqueId) (signer : GroupMediaSigningKeyHandle) (random : option bytes) :
    e2ee_prog (EncryptedGroupMediaFrame * GroupMediaE2eeSession) :=
  pure (reject_if (bool_decide (video_source_kind = Some VsScreenShare))
          MeScreenShareNegotiationRequired) ;;
  seal_payload_versioned s GROUP_MEDIA_FRAME_HEADER_V1 media_kind video_source_kind stream_id
    sequence media_timestamp keyframe plaintext signing_key_id signer random.

(** The negotiation proof the code takes as well carries no data. *)
Definition seal_negotiated_screen_share (s : GroupMediaE2eeSession) (stream_id : OpaqueId)
    (sequence media_timestamp : Z) (keyframe : bool) (plaintext : bytes)
    (signing_key_id : OpaqueId) (signer : GroupMediaSigningKeyHandle) (random : option bytes) :
    e2ee_prog (EncryptedGroupMediaFrame * GroupMediaE2eeSession) :=
  seal_payload_versioned s GROUP_MEDIA_FRAME_HEADER_V2 MkVideo (Some VsScreenShare) stream_id
    sequence media_timestamp keyframe plaintext signing_key_id signer random.

Definition frame_cursor_key (header : GroupMediaFrameHeader) : GroupStreamCursorKey :=
  mk_cursor_key (fh_source header) (fh_source_device_id header) (fh_media_kind header)
    (fh_stream_id header).

Definition open_payload (s : GroupMediaE2eeSession) (frame : EncryptedGroupMediaFrame) :
    e2ee_prog (bytes * GroupMediaE2eeSession) :=
  let context := ms_context s in
  let header := ef_header frame in
  require_group_media_capability ;;
  call ← validate_group_media_e2ee_authority (ms_local s) (ms_local_device_id s) context;
  pure (map_err MeProtocol (validate_encrypted_group_media_frame context frame)) ;;
  authorize_media (ms_local s) (receive_permission (fh_media_kind header)) (mc_call_id context) ;;
  pure (reject_if (negb (accepted_participant call (fh_source header))) MeSourceNotAccepted) ;;
  found ← answer_err MeStore
    (McMembership (ms_local s) (mc_scope context) (mc_group_id context) (fh_source header));
  source_membership ← pure (ok_or found MeSourceNotMember);
  pure (reject_if (negb (bool_decide (gm_state source_membership = GmActive))) MeSourceNotMember) ;;
  source_device ← require_active_bound_participant_device (mc_scope context) (fh_source header)
    (fh_source_device_id header);
  source_verifying_key ← resolve_source_verifying_key source_device frame;
  let key_id := frame_cursor_key header in
  pure (require_stream_capacity (ms_inbound_sequences s) key_id) ;;
  pure (reject_if (match ms_inbound_sequences s !! key_id with
                   | Some last => (fh_sequence header <=? last)%Z
                   | None => false
                   end) MeReplay) ;;
  plaintext ← pure (map_err map_endpoint_open_error
    (open_endpoint_group_media_payload (ms_epoch_secret s) context frame source_verifying_key));
  mret (plaintext, mk_media_session (ms_local s) (ms_local_device_id s) context
                     (ms_epoch_secret s) (ms_outbound_sequences s)
                     (<[key_id := fh_sequence header]> (ms_inbound_sequences s))).

(** * The forwarding unit *)

Inductive SfuError :=
| SeProtocol (e : GroupMediaE2eeProtocolError)
| SeMediaE2ee (e : GroupMediaE2eeError)
| SeAuthorization (e : CanonicalError)
| SeStore (e : DurableStoreError)
| SeCapabilityUnavailable | SeSourceMismatch | SeRecipientMembershipUnavailable
| SeNoRecipients | SeTooManyRecipients | SeInvalidRecipientSet
| SeSink (accepted_before_failure : Z) (error : SfuForwardSinkError).

Abbreviation sfu_prog := (media_prog SfuError).

Record SfuValidatedForwardBatch := mk_forward_batch {
  fb_envelope : SfuForwardEnvelope;
  fb_targets : list SfuForwardTarget;
}.
Record SfuValidatedSourceFrame := mk_source_frame {
  sf_envelope : SfuForwardEnvelope;
  sf_call : CallSession;
}.
Record SfuForwardOutcome := mk_forward_outcome { fo_accepted_recipients : Z (* usize *) }.

Definition media_permissions (media_kind : MediaKind) (video_source_kind : option VideoSourceKind) :
    bytes * bytes :=
  match media_kind, video_source_kind with
  | MkVideo, Some VsScreenShare => (SCREEN_SHARE_SEND_PERMISSION, VIDEO_RECEIVE_PERMISSION)
  | MkVideo, _ => (VIDEO_SEND_PERMISSION, VIDEO_RECEIVE_PERMISSION)
  | MkAudio, _ => (AUDIO_SEND_PERMISSION, AUDIO_RECEIVE_PERMISSION)
  end.

Definition require_sfu_media_capability (capabilities : list CapabilityDescriptor) (required : bytes) :
    result SfuError unit :=
  capabilities ← map_err (λ _, SeCapabilityUnavailable) (canonical_capabilities capabilities);
  reject_if (negb (existsb (media_capability_usable required) capabilities))
    SeCapabilityUnavailable.

Definition require_sfu_capability : sfu_prog unit :=
  capabilities ← answer McSfuCapabilities;
  pure (require_sfu_media_capability capabilities SFU_MEDIA_CAPABILITY).
Definition require_group_e2ee_capability : sfu_prog unit :=
  capabilities ← answer McGroupCapabilities;
  pure (require_sfu_media_capability capabilities GROUP_MEDIA_E2EE_CAPABILITY).

Definition sfu_authorize (subject : ScopedPrincipal) (permission : bytes) (scope : TenantScope)
    (call_id : CallId) : sfu_prog unit :=
  answer_err SeAuthorization
    (McAuthorize (mk_authorization_request subject permission scope) call_id).

Definition validate_source_frame (authenticated_source : ScopedPrincipal)
    (authenticated_source_device_id : DeviceId) (envelope : SfuForwardEnvelope) :
    sfu_prog SfuValidatedSourceFrame :=
  validated ← pure (map_err SeProtocol (canonical_sfu_forward_envelope envelope));
  let context := validated.1 in
  let canonical := validated.2 in
  let header := ef_header (fe_frame canonical) in
  pure (reject_if (negb (bool_decide (sp_scope authenticated_source = mc_scope context))
                   || negb (bool_decide (sp_principal authenticated_source = fh_source header))
                   || negb (bool_decide (authenticated_source_device_id
                                         = fh_source_device_id header)))
          SeSourceMismatch) ;;
  require_sfu_capability ;;
  require_group_e2ee_capability ;;
  call ← eprog_map_err SeMediaE2ee
    (validate_group_media_source_frame context (fe_frame canonical));
  sfu_authorize authenticated_source
    (media_permissions (fh_media_kind header) (fh_video_source_kind header)).1
    (mc_scope context) (cs_call_id call) ;;
  mret (mk_source_frame canonical call).

Definition recheck_source_before_fanout (source : ScopedPrincipal) (call_id : CallId)
    (send_permission : bytes) : sfu_prog unit :=
  found ← answer_err SeStore (McCall source (sp_scope source) call_id);
  live_call ← pure (ok_or found SeSourceMismatch);
  pure (reject_if (negb (bool_decide (cs_signalling_state live_call = CsActive))
                   || negb (accepted_participant live_call (sp_principal source)))
          SeSourceMismatch) ;;
  sfu_authorize source send_permission (sp_scope source) (cs_call_id live_call).

(** The loop of [validate_selected_recipients]; [unique] holds the recipients so far. *)
Fixpoint check_selected (call : CallSession) (source : PrincipalRef) (unique : list PrincipalRef)
    (recipients : list PrincipalRef) : result SfuError unit :=
  match recipients with
  | [] => Ok tt
  | recipient :: rest =>
      reject_if (bool_decide (recipient = source) || bool_decide (recipient ∈ unique))
        SeInvalidRecipientSet ;;
      reject_if (negb (accepted_participant call recipient)) SeInvalidRecipientSet ;;
      check_selected call source (recipient :: unique) rest
  end.

Definition validate_selected_recipients (call : CallSession) (source : PrincipalRef)
    (recipients : list PrincipalRef) : result SfuError unit :=
  reject_if (bool_decide (recipients = []) || (MAX_CALL_PARTICIPANTS - 1 <? len recipients)%Z)
    SeInvalidRecipientSet ;;
  check_selected call source [] recipients.

(** The loop over the recipients: each is checked again before it becomes a target. *)
Fixpoint collect_targets (source : ScopedPrincipal) (header : GroupMediaFrameHeader)
    (call_id : CallId) (receive : bytes) (recipients : list PrincipalRef) :
    sfu_prog (list SfuForwardTarget) :=
  match recipients with
  | [] => mret []
  | recipient :: rest =>
      found ← answer_err SeStore
        (McMembership source (fh_scope header) (fh_group_id header) recipient);
      membership ← pure (ok_or found SeRecipientMembershipUnavailable);
      pure (reject_if (negb (bool_decide (gm_state membership = GmActive)))
              SeRecipientMembershipUnavailable) ;;
      let target_principal := mk_scoped_principal (fh_scope header) recipient in
      found ← answer_err SeStore (McCall target_principal (fh_scope header) call_id);
      recipient_call ← pure (ok_or found SeRecipientMembershipUnavailable);
      pure (reject_if (negb (bool_decide (cs_signalling_state recipient_call = CsActive))
                       || negb (accepted_participant recipient_call recipient))
              SeRecipientMembershipUnavailable) ;;
      sfu_authorize target_principal receive (fh_scope header) (cs_call_id recipient_call) ;;
      targets ← collect_targets source header call_id receive rest;
      mret (mk_target recipient :: targets)
  end.

Definition prepare_forward_from_validated (validated : SfuValidatedSourceFrame)
    (selected_recipients : option (list PrincipalRef)) : sfu_prog SfuValidatedForwardBatch :=
  let canonical := sf_envelope validated in
  let call := sf_call validated in
  let header := ef_header (fe_frame canonical) in
  let authenticated_source := mk_scoped_principal (fh_scope header) (fh_source header) in
  let '(send, receive) := media_permissions (fh_media_kind header) (fh_video_source_kind header) in
  recheck_source_before_fanout authenticated_source (cs_call_id call) send ;;
  recipients ← match selected_recipients with
    | Some selected =>
        pure (validate_selected_recipients call (sp_principal authenticated_source) selected) ;;
        mret selected
    | None =>
        mret (cp_principal <$> filter (λ participant,
                Is_true (negb (bool_decide (cp_principal participant
                                            = sp_principal authenticated_source))
                         && accepted_in participant)) (cs_participants call))
    end;
  pure (reject_if (bool_decide (recipients = [])) SeNoRecipients) ;;
  pure (reject_if (MAX_CALL_PARTICIPANTS - 1 <? len recipients)%Z SeTooManyRecipients) ;;
  targets ← collect_targets authenticated_source header (cs_call_id call) receive recipients;
  mret (mk_forward_batch canonical targets).

Definition prepare_forward_impl (authenticated_source : ScopedPrincipal)
    (authenticated_source_device_id : DeviceId) (envelope : SfuForwardEnvelope)
    (selected_recipients : option (list PrincipalRef)) : sfu_prog SfuValidatedForwardBatch :=
  validated ← validate_source_frame authenticated_source authenticated_source_device_id envelope;
  prepare_forward_from_validated validated selected_recipients.

(** The loop over the targets, after [accepted] of them. *)
Fixpoint dispatch_targets (envelope : SfuForwardEnvelope) (source : ScopedPrincipal)
    (device_id : DeviceId) (accepted : Z) (targets : list SfuForwardTarget) : sfu_prog unit :=
  match targets with
  | [] => mret tt
  | target :: rest =>
      current ← prepare_forward_impl source device_id envelope (Some [ft_recipient target]);
      pure (reject_if (negb (bool_decide (fb_targets current = [target]))
                       || negb (bool_decide (fb_envelope current = envelope)))
              SeSourceMismatch) ;;
      answer_err (SeSink accepted) (McForward target envelope) ;;
      dispatch_targets envelope source device_id (accepted + 1)%Z rest
  end.

Definition dispatch_validated_forward_batch (batch : SfuValidatedForwardBatch) :
    sfu_prog SfuForwardOutcome :=
  let header := ef_header (fe_frame (fb_envelope batch)) in
  let source := mk_scoped_principal (fh_scope header) (fh_source header) in
  dispatch_targets (fb_envelope batch) source (fh_source_device_id header) 0 (fb_targets batch) ;;
  mret (mk_forward_outcome (len (fb_targets batch))).

(** [forward] and, with the recipients, [forward_selected]. *)
Definition forward (authenticated_source : ScopedPrincipal)
    (authenticated_source_device_id : DeviceId) (envelope : SfuForwardEnvelope)
    (selected_recipients : option (list PrincipalRef)) : sfu_prog SfuForwardOutcome :=
  batch ← prepare_forward_impl authenticated_source authenticated_source_device_id envelope
    selected_recipients;
  dispatch_validated_forward_batch batch.
End runtimes.
