(* ===== verification/MediaRuntimeTheorems.v ===== *)
(** The runtimes of encrypted group media: what the forwarding unit has checked when it hands
    a frame to its sink, what it reports, and the order of the frames of a session. *)

From S2P Require Import Prelude Ids Framing Extension Message StoreForward Store Capability.
From S2P Require Import Call Group Program Orchestrator BridgeRuntime.
From S2P Require Import Video Sfu Adaptive JoinToken JoinTokenTheorems Realtime GroupMedia.
From S2P Require Import GroupMediaTheorems MediaCrypto MediaCryptoTheorems MediaRuntime Interaction.

Abbreviation seen := (list (observation media_call)).

(** * Evidence *)

(** The answers vouch for a device: it is active, and it is the participant itself or belongs
    to the identity the participant is bound to. *)
Definition device_vouched (m : seen) (scope : TenantScope) (participant : PrincipalRef)
    (device_id : DeviceId) (device : DeviceDescriptor) : Prop :=
  Observed (McDevice scope device_id) (Ok (Some device)) ∈ m
  ∧ dev_state device = DlActive
  ∧ (principal_kind participant = PkDevice
       ∧ as_wire_bytes (principal_id participant) = as_wire_bytes device_id
     ∨ ∃ binding, Observed (McIdentityBinding scope participant) (Ok (Some binding)) ∈ m
                  ∧ ib_identity_id binding = dev_identity_id device).

(** The answers show a principal taking part, from an active device, in a running group call
    with exactly the negotiation and the key epoch of the context, as an active member. *)
Definition authority_held (m : seen) (who : ScopedPrincipal) (device_id : DeviceId)
    (context : GroupMediaE2eeContext) (call : CallSession) : Prop :=
  sp_scope who = mc_scope context
  ∧ (∃ device, device_vouched m (mc_scope context) (sp_principal who) device_id device)
  ∧ Observed (McCall who (mc_scope context) (mc_call_id context)) (Ok (Some call)) ∈ m
  ∧ is_group_kind (conversation_kind (cs_conversation call)) = true
  ∧ cs_signalling_state call = CsActive
  ∧ cs_media_negotiation_generation call = mc_negotiation_generation context
  ∧ cs_media_negotiation_ref call = Some (mc_negotiation_ref context)
  ∧ accepted_participant call (sp_principal who) = true
  ∧ (∃ group, Observed (McGroup (mc_scope context) (conversation_id (cs_conversation call)))
                (Ok (Some group)) ∈ m
       ∧ gr_group_id group = mc_group_id context ∧ gr_conversation group = cs_conversation call
       ∧ gr_crypto_state group = mk_group_crypto (Some GROUP_MLS_CAPABILITY)
           (mc_crypto_epoch context) (Some (mc_crypto_state_ref context)))
  ∧ ∃ membership, Observed (McMembership who (mc_scope context) (mc_group_id context)
                              (sp_principal who)) (Ok (Some membership)) ∈ m
                  ∧ gm_state membership = GmActive.

(** The answers give a key of the device, and the frame is signed with it. *)
Definition key_vouched (m : seen) (f : EncryptedGroupMediaFrame) (public_key : bytes) : Prop :=
  let h := ef_header f in
  ∃ device key, device_vouched m (fh_scope h) (fh_source h) (fh_source_device_id h) device
  ∧ Observed (McSigningKey (fh_scope h) (fh_source_device_id h) (Some (dev_identity_id device))
                (ss_key_id (ef_source_signature f))) (Ok key) ∈ m
  ∧ pk_purpose key = KpSigning ∧ pk_public_key key = public_key ∧ length public_key = 32.

Definition permission_held (m : seen) (who : ScopedPrincipal) (permission : bytes)
    (call_id : CallId) : Prop :=
  Observed (McAuthorize (mk_authorization_request who permission (sp_scope who)) call_id) (Ok tt) ∈ m.

(** The answers show a principal in a running call, with a permission in it. *)
Definition admitted (m : seen) (who : ScopedPrincipal) (permission : bytes) (call_id : CallId) : Prop :=
  ∃ call, Observed (McCall who (sp_scope who) call_id) (Ok (Some call)) ∈ m
  ∧ cs_signalling_state call = CsActive ∧ accepted_participant call (sp_principal who) = true
  ∧ permission_held m who permission (cs_call_id call).

Section signatures.
Context {digest : Sha256} {cipher : MediaCipher}.

Definition signature_vouched (m : seen) (f : EncryptedGroupMediaFrame) : Prop :=
  ∃ public_key binding, key_vouched m f public_key
  ∧ group_media_source_signing_binding (ef_header f) (ef_nonce f) (ef_ciphertext f) = Ok binding
  ∧ verify_group_media_binding_signature public_key binding (ss_signature (ef_source_signature f))
    = Ok tt.

(** Everything that clears the source of a frame. *)
Definition source_cleared (m : seen) (e : SfuForwardEnvelope) (call : CallSession) : Prop :=
  let h := ef_header (fe_frame e) in
  let source := mk_scoped_principal (fh_scope h) (fh_source h) in
  canonical_sfu_forward_envelope e = Ok (header_context h, e)
  ∧ authority_held m source (fh_source_device_id h) (header_context h) call
  ∧ signature_vouched m (fe_frame e)
  ∧ permission_held m source (media_permissions (fh_media_kind h) (fh_video_source_kind h)).1
      (cs_call_id call).

Definition recipient_cleared (m : seen) (h : GroupMediaFrameHeader) (call_id : CallId)
    (recipient : PrincipalRef) : Prop :=
  (∃ membership, Observed (McMembership (mk_scoped_principal (fh_scope h) (fh_source h)) (fh_scope h)
                             (fh_group_id h) recipient) (Ok (Some membership)) ∈ m
                 ∧ gm_state membership = GmActive)
  ∧ admitted m (mk_scoped_principal (fh_scope h) recipient)
      (media_permissions (fh_media_kind h) (fh_video_source_kind h)).2 call_id.

(** Everything that clears one frame for one recipient. *)
Definition forward_cleared (t : SfuForwardTarget) (e : SfuForwardEnvelope) (m : seen) : Prop :=
  let h := ef_header (fe_frame e) in
  ∃ call, source_cleared m e call
  ∧ admitted m (mk_scoped_principal (fh_scope h) (fh_source h))
      (media_permissions (fh_media_kind h) (fh_video_source_kind h)).1 (cs_call_id call)
  ∧ ft_recipient t ≠ fh_source h ∧ accepted_participant call (ft_recipient t) = true
  ∧ recipient_cleared m h (cs_call_id call) (ft_recipient t).
(** Everything that lets an endpoint open a frame, and seal one. *)
Definition open_cleared (m : seen) (local : ScopedPrincipal) (device_id : DeviceId)
    (context : GroupMediaE2eeContext) (f : EncryptedGroupMediaFrame) : Prop :=
  let h := ef_header f in
  frame_in_context context f
  ∧ (∃ call, authority_held m local device_id context call
             ∧ accepted_participant call (fh_source h) = true)
  ∧ permission_held m local (receive_permission (fh_media_kind h)) (mc_call_id context)
  ∧ (∃ membership, Observed (McMembership local (mc_scope context) (mc_group_id context)
                               (fh_source h)) (Ok (Some membership)) ∈ m
                   ∧ gm_state membership = GmActive)
  ∧ signature_vouched m f.

Definition seal_cleared (m : seen) (local : ScopedPrincipal) (device_id : DeviceId)
    (context : GroupMediaE2eeContext) (f : EncryptedGroupMediaFrame) : Prop :=
  let h := ef_header f in
  frame_in_context context f
  ∧ fh_source h = sp_principal local ∧ fh_source_device_id h = device_id
  ∧ (∃ call, authority_held m local device_id context call)
  ∧ permission_held m local (send_permission (fh_media_kind h)) (mc_call_id context).
End signatures.

(** Evidence is not lost when more answers come in. *)

Lemma device_vouched_mono m m' scope p d device :
  m ⊆ m' → device_vouched m scope p d device → device_vouched m' scope p d device.
Proof. unfold device_vouched. intros Hs (H1 & H2 & [H3|(b & H3 & H4)]); eauto 10. Qed.

Lemma authority_held_mono m m' who d c call :
  m ⊆ m' → authority_held m who d c call → authority_held m' who d c call.
Proof.
  unfold authority_held.
  intros Hs (H1 & (device & H2) & H3 & H3' & H4 & H5 & H6 & H7 & (g & H8 & H9) & (ms & H10 & H11)).
  split_and!; eauto. exists device. by eapply device_vouched_mono.
Qed.

Lemma key_vouched_mono m m' f key : m ⊆ m' → key_vouched m f key → key_vouched m' f key.
Proof.
  unfold key_vouched. intros Hs (device & k & H1 & H2 & H3).
  exists device, k. split; [by eapply device_vouched_mono|]. eauto.
Qed.

Lemma admitted_mono m m' who permission call_id :
  m ⊆ m' → admitted m who permission call_id → admitted m' who permission call_id.
Proof. unfold admitted, permission_held. intros Hs (c & H1 & H2 & H3 & H4). eauto 10. Qed.

Lemma source_cleared_mono {digest : Sha256} {cipher : MediaCipher} m m' e call :
  m ⊆ m' → source_cleared m e call → source_cleared m' e call.
Proof.
  unfold source_cleared, signature_vouched, permission_held.
  intros Hs (H1 & H2 & (k & b & H3 & H4) & H5). split_and!; eauto.
  - by eapply authority_held_mono.
  - exists k, b. split; [by eapply key_vouched_mono|done].
Qed.

(** * Watching for stale evidence *)

(** The monitor keeps the answers given since the last call of the sink, and lets the sink be
    called only when they clear the forwarding. *)
Section gathering.
Context (cleared : SfuForwardTarget → SfuForwardEnvelope → seen → Prop).

#[local] Instance forward_monitor : Monitor media_call seen := {|
  permitted B c m := match c with McForward t e => cleared t e m | _ => True end;
  observe B c b m := match c with McForward _ _ => [] | _ => m ++ [Observed c b] end;
|}.

(** The program only adds answers, and what it returns is backed by them. *)
Definition gathers {E A} (p : media_prog E A) (m : seen) (P : seen → A → Prop) : Prop :=
  safe p m (λ m' r, m ⊆ m' ∧ match r with Ok a => P m' a | Err _ => True end).

Lemma gathers_ret {E A} (a : A) m (P : seen → A → Prop) :
  P m a → gathers (E:=E) (mret a) m P.
Proof. intros HP. by split. Qed.

Lemma gathers_pure {E A B} (r : result E A) (f : A → media_prog E B) m P :
  (∀ a, r = Ok a → gathers (f a) m P) → gathers (pure r ≫= f) m P.
Proof. intros Hf. apply safe_pure; [done|]. by intros e _. Qed.

Lemma gathers_bind {E A B} (p : media_prog E A) (f : A → media_prog E B) m P P' :
  gathers p m P → (∀ m' a, m ⊆ m' → P m' a → gathers (f a) m' P') → gathers (p ≫= f) m P'.
Proof.
  intros Hp Hf. apply safe_ebind. eapply safe_mono; [|exact Hp]. intros m' [a|e] [Hs HP]; [|done].
  eapply safe_mono; [|by apply Hf]. intros m'' r [Hs' Hr]. split; [by etrans|done].
Qed.

Lemma gathers_mono {E A} (p : media_prog E A) m (P P' : seen → A → Prop) :
  gathers p m P → (∀ m' a, m ⊆ m' → P m' a → P' m' a) → gathers p m P'.
Proof.
  intros Hp HP. eapply safe_mono; [|exact Hp]. intros m' [a|e] [Hs Ha]; split; auto.
Qed.

(** Calls other than the sink's. *)
Definition asking {B} (c : media_call B) : Prop := match c with McForward _ _ => False | _ => True end.

Lemma gathers_answer {E B A} (c : media_call B) (f : B → media_prog E A) m P :
  asking c →
  (∀ m' b, m ⊆ m' → Observed c b ∈ m' → gathers (f b) m' P) → gathers (answer c ≫= f) m P.
Proof.
  intros Hc Hf. apply (gathers_bind _ _ _ (λ m' b, Observed c b ∈ m')); [|done].
  unfold answer, gathers. split; [by destruct c|]. intros b.
  destruct c; try done; cbn; (split; [set_solver|apply elem_of_app; right; by left]).
Qed.

Lemma gathers_answer_err {E F B} (g : F → E) (c : media_call (result F B)) m :
  asking c → gathers (answer_err g c) m (λ m' b, Observed c (Ok b) ∈ m').
Proof.
  intros Hc. unfold answer_err, gathers. cbn [safe]. split.
  - revert Hc. generalize (result F B) c. by intros ? [].
  - intros r. assert (observe c r m = m ++ [Observed c r]) as ->.
    { revert Hc r. generalize (result F B) c. by intros ? []. }
    destruct r as [b|e]; cbn; (split; [set_solver|]); [|done]. apply elem_of_app. right. by left.
Qed.

Lemma gathers_guard {E A} (c : bool) (e : E) (f : unit → media_prog E A) m P :
  (c = false → gathers (f tt) m P) → gathers (pure (reject_if c e) ≫= f) m P.
Proof. intros Hf. apply gathers_pure. intros [] ?%reject_if_Ok. auto. Qed.

Lemma gathers_some {E A B} (o : option A) (e : E) (f : A → media_prog E B) m P :
  (∀ a, o = Some a → gathers (f a) m P) → gathers (pure (ok_or o e) ≫= f) m P.
Proof. intros Hf. apply gathers_pure. intros a ?%ok_or_Ok. auto. Qed.

(** Step over the guards of a program. *)
Ltac guards := repeat first
  [ apply gathers_guard; intro
  | apply gathers_some; let Ho := fresh in intros ? Ho; first [subst | idtac] ].

Lemma gathers_device scope p d m :
  gathers (require_active_bound_participant_device scope p d) m
    (λ m' device, device_vouched m' scope p d device).
Proof.
  unfold require_active_bound_participant_device.
  eapply gathers_bind; [by apply gathers_answer_err|]. intros m1 found Hs1 Hf.
  apply gathers_some. intros device ->. apply gathers_guard. intros Hd.
  assert (dev_state device = DlActive) as Hst
    by (unfold device_allows_protected_access in Hd; by destruct (dev_state device)).
  case_bool_decide as Hk.
  - apply gathers_guard. intros Hi. apply gathers_ret. bool_norm. split_and!; auto.
  - eapply gathers_bind; [by apply gathers_answer_err|]. intros m2 found Hs2 Hb.
    apply gathers_some. intros binding ->. apply gathers_guard. intros Hi. apply gathers_ret.
    bool_norm. split_and!; [by apply Hs2|done|]. right. eauto.
Qed.

Lemma gathers_authority who d c m :
  gathers (validate_group_media_e2ee_authority who d c) m
    (λ m' call, authority_held m' who d c call).
Proof.
  unfold validate_group_media_e2ee_authority. apply gathers_pure. intros c' Hc'.
  assert (c' = c) as -> by (unfold canonical_group_media_e2ee_context in Hc'; res_inv; by subst).
  guards. eapply gathers_bind; [apply gathers_device|]. intros m1 device Hs1 Hd.
  eapply gathers_bind; [by apply gathers_answer_err|]. intros m2 found Hs2 Hc.
  apply gathers_some. intros call ->. guards.
  eapply gathers_bind; [by apply gathers_answer_err|]. intros m3 found Hs3 Hg.
  apply gathers_some. intros group ->. guards.
  eapply gathers_bind; [by apply gathers_answer_err|]. intros m4 found Hs4 Hm.
  apply gathers_some. intros membership ->. guards. apply gathers_ret. bool_norm.
  assert (m1 ⊆ m4 ∧ m2 ⊆ m4) as [H14 H24] by (split; set_solver).
  unfold authority_held. split_and!; auto; try tauto.
  - exists device. exact (device_vouched_mono _ _ _ _ _ _ H14 Hd).
  - exists group. split_and!; [by apply Hs4|tauto..|]. destruct (gr_crypto_state group). cbn in *.
    f_equal; tauto.
  - eauto.
Qed.

Lemma gathers_key device f m :
  device_vouched m (fh_scope (ef_header f)) (fh_source (ef_header f))
    (fh_source_device_id (ef_header f)) device →
  gathers (resolve_source_verifying_key device f) m (λ m' key, key_vouched m' f key).
Proof.
  intros Hd. unfold resolve_source_verifying_key.
  eapply gathers_bind; [by apply gathers_answer_err|]. intros m1 key Hs1 Hk.
  apply gathers_pure. intros _ _. guards. apply gathers_ret. bool_norm.
  exists device, key. split_and!; [exact (device_vouched_mono _ _ _ _ _ _ Hs1 Hd)|tauto..].
Qed.

Section cleared.
Context {digest : Sha256} {cipher : MediaCipher}.

Lemma gathers_source_frame c f m :
  gathers (validate_group_media_source_frame c f) m (λ m' call,
    frame_in_context c f
    ∧ authority_held m' (mk_scoped_principal (fh_scope (ef_header f)) (fh_source (ef_header f)))
        (fh_source_device_id (ef_header f)) c call
    ∧ signature_vouched m' f).
Proof.
  unfold validate_group_media_source_frame. apply gathers_pure. intros c' Hc'.
  assert (c' = c) as -> by (unfold canonical_group_media_e2ee_context in Hc'; res_inv; by subst).
  apply gathers_pure. intros [] Hv.
  assert (frame_in_context c f) as Hf.
  { apply validate_frame_Ok. by destruct (validate_encrypted_group_media_frame c f) as [[]|]. }
  assert (fh_scope (ef_header f) = mc_scope c) as Escope by (by rewrite <- (fc_context _ _ Hf)).
  rewrite Escope. eapply gathers_bind; [apply gathers_authority|]. intros m1 call Hs1 Hauth.
  eapply gathers_bind; [apply gathers_device|]. intros m2 device Hs2 Hd.
  eapply (gathers_bind _ _ _ (λ m' _, signature_vouched m' f)).
  - unfold verify_source_signature. eapply gathers_bind; [apply gathers_key; by rewrite Escope|].
    intros m3 key Hs3 Hk. guards. apply gathers_pure. intros binding Hb.
    destruct (group_media_source_signing_binding _ _ _) as [binding'|] eqn:Eb; [|done].
    injection Hb as <-.
    destruct (verify_group_media_binding_signature _ _ _) as [[]|] eqn:Ev; [|by split].
    split; [done|]. exists key, binding'. done.
  - intros m3 [] Hs3 Hsig. apply gathers_ret. split_and!; [done| |done].
    eapply authority_held_mono, Hauth. set_solver.
Qed.

Lemma gathers_map_err {E F A} (g : E → F) (p : media_prog E A) m P :
  gathers p m P → gathers (eprog_map_err g p) m P.
Proof.
  intros Hp. apply safe_bind. eapply safe_mono; [|exact Hp]. by intros m' [a|e] [Hs HP].
Qed.

Lemma gathers_capabilities m :
  gathers require_sfu_capability m (λ _ _, True)
  ∧ gathers require_group_e2ee_capability m (λ _ _, True).
Proof.
  split; unfold require_sfu_capability, require_group_e2ee_capability;
    (apply gathers_answer; [done|]; intros m1 caps Hs1 _;
     destruct (require_sfu_media_capability caps _); by split).
Qed.

Lemma gathers_source who d e m :
  gathers (validate_source_frame who d e) m (λ m' v,
    sf_envelope v = e ∧ source_cleared m' e (sf_call v)).
Proof.
  unfold validate_source_frame. apply gathers_pure. intros [c e'] Hc.
  destruct (canonical_sfu_forward_envelope e) as [[c1 e1]|] eqn:Ec; [|done]. injection Hc as -> ->.
  pose proof (canonical_envelope_Ok _ _ _ Ec) as (-> & _). cbn [fst snd].
  apply gathers_guard. intros Hsrc.
  eapply gathers_bind; [apply gathers_capabilities|]. intros m1 _ Hs1 _.
  eapply gathers_bind; [apply gathers_capabilities|]. intros m2 _ Hs2 _.
  eapply gathers_bind; [apply gathers_map_err, gathers_source_frame|].
  intros m3 call Hs3 (Hf & Hauth & Hsig). pose proof (fc_context _ _ Hf) as <-.
  assert (who = mk_scoped_principal (fh_scope (ef_header (fe_frame e)))
                  (fh_source (ef_header (fe_frame e)))) as ->.
  { bool_norm. destruct who. cbn in *. f_equal; tauto. }
  eapply gathers_bind; [by apply gathers_answer_err|]. intros m4 [] Hs4 Hperm. apply gathers_ret.
  split; [done|]. destruct Hsig as (key & binding & Hk & Hb).
  unfold source_cleared. split_and!; [exact Ec| | |exact Hperm].
  - exact (authority_held_mono _ _ _ _ _ _ Hs4 Hauth).
  - exists key, binding. split; [exact (key_vouched_mono _ _ _ _ Hs4 Hk)|exact Hb].
Qed.

Lemma gathers_admission {A} who call_id (err : SfuError)
    (k : CallSession → media_prog SfuError A) m P :
  (∀ m' call, m ⊆ m' → Observed (McCall who (sp_scope who) call_id) (Ok (Some call)) ∈ m' →
     cs_signalling_state call = CsActive → accepted_participant call (sp_principal who) = true →
     gathers (k call) m' P) →
  gathers (found ← answer_err SeStore (McCall who (sp_scope who) call_id);
           call ← pure (ok_or found err);
           pure (reject_if (negb (bool_decide (cs_signalling_state call = CsActive))
                            || negb (accepted_participant call (sp_principal who))) err) ;;
           k call) m P.
Proof.
  intros Hk. eapply gathers_bind; [by apply gathers_answer_err|]. intros m1 found Hs1 Hc.
  apply gathers_some. intros call ->. apply gathers_guard. intros Hg. bool_norm. apply Hk; tauto.
Qed.

Lemma gathers_recheck who permission call_id m :
  gathers (recheck_source_before_fanout who call_id permission) m
    (λ m' _, admitted m' who permission call_id).
Proof.
  apply gathers_admission. intros m1 call Hs1 Hc Hst Ha.
  eapply gathers_mono; [by apply gathers_answer_err|]. intros m2 [] Hs2 Hp.
  exists call. split_and!; [by apply Hs2|done..].
Qed.

Lemma check_selected_Ok call source unique recipients u :
  check_selected call source unique recipients = Ok u →
  Forall (λ r, r ≠ source ∧ accepted_participant call r = true) recipients.
Proof.
  revert unique. induction recipients as [|r rest IH]; intros unique; cbn; [constructor|].
  intros H. res_inv. bool_norm. constructor; [tauto|]. by eapply IH.
Qed.

Lemma gathers_targets h call_id recipients m :
  gathers (collect_targets (mk_scoped_principal (fh_scope h) (fh_source h)) h call_id
             (media_permissions (fh_media_kind h) (fh_video_source_kind h)).2 recipients) m
    (λ m' targets, targets = mk_target <$> recipients
                   ∧ Forall (recipient_cleared m' h call_id) recipients).
Proof.
  revert m. induction recipients as [|r rest IH]; intros m; [by apply gathers_ret|].
  cbn [collect_targets].
  eapply gathers_bind; [by apply gathers_answer_err|]. intros m1 found Hs1 Hm.
  apply gathers_some. intros membership ->. apply gathers_guard. intros Hg.
  apply (gathers_admission (mk_scoped_principal (fh_scope h) r)). intros m2 call Hs2 Hc Hst Ha.
  eapply gathers_bind; [by apply gathers_answer_err|]. intros m3 [] Hs3 Hp.
  eapply gathers_bind; [apply IH|]. intros m4 targets Hs4 [-> Hr]. apply gathers_ret.
  split; [done|]. constructor; [|done]. bool_norm. split.
  - exists membership. split; [by apply Hs4, Hs3, Hs2|done].
  - exists call. split_and!; [by apply Hs4, Hs3|done..|by apply Hs4].
Qed.

(** A prepared frame has been cleared for each of the selected recipients. *)
Lemma gathers_prepare who d e recipients m :
  gathers (prepare_forward_impl who d e (Some recipients)) m (λ m' batch,
    fb_envelope batch = e ∧ fb_targets batch = mk_target <$> recipients
    ∧ Forall (λ r, forward_cleared (mk_target r) e m') recipients).
Proof.
  unfold prepare_forward_impl. eapply gathers_bind; [apply gathers_source|].
  intros m1 [e' call] Hs1 [Ee Hc]. cbn in Ee, Hc. subst e'.
  unfold prepare_forward_from_validated. cbn [sf_envelope sf_call].
  destruct (media_permissions _ _) as [send receive] eqn:Ep.
  eapply gathers_bind; [apply gathers_recheck|]. intros m2 u Hs2 Ha.
  apply (gathers_bind _ _ _ (λ _ l, l = recipients
    ∧ Forall (λ r, r ≠ fh_source (ef_header (fe_frame e)) ∧ accepted_participant call r = true)
        recipients)).
  { apply gathers_pure. intros [] Hv. apply gathers_ret. unfold validate_selected_recipients in Hv.
    res_inv. split; [done|]. by eapply check_selected_Ok. }
  intros m3 l Hs3 [-> Hsel]. guards.
  pose proof (gathers_targets (ef_header (fe_frame e)) (cs_call_id call) recipients m3) as Ht.
  rewrite Ep in Ht. eapply gathers_bind; [exact Ht|]. intros m4 targets Hs4 [-> Hr].
  apply gathers_ret. split_and!; [done..|]. rewrite Forall_forall in *. intros r Hin.
  destruct (Hsel r Hin) as [Hne Hacc].
  exists call. rewrite Ep. split_and!; [| |done|done|by apply Hr].
  - eapply source_cleared_mono, Hc. set_solver.
  - eapply admitted_mono, Ha. set_solver.
Qed.

(** Without a selection the program still only asks. *)
Lemma gathers_prepare_any who d e selected m :
  gathers (prepare_forward_impl who d e selected) m (λ _ batch, fb_envelope batch = e).
Proof.
  unfold prepare_forward_impl. eapply gathers_bind; [apply gathers_source|].
  intros m1 [e' call] Hs1 [Ee _]. cbn in Ee. subst e'.
  unfold prepare_forward_from_validated. cbn [sf_envelope sf_call].
  destruct (media_permissions _ _) as [send receive] eqn:Ep.
  eapply gathers_bind; [apply gathers_recheck|]. intros m2 _ Hs2 _.
  apply (gathers_bind _ _ _ (λ _ _, True)).
  { destruct selected as [l|]; [|by apply gathers_ret]. apply gathers_pure. intros [] _.
    by apply gathers_ret. }
  intros m3 l Hs3 _. guards.
  pose proof (gathers_targets (ef_header (fe_frame e)) (cs_call_id call) l m3) as Ht.
  rewrite Ep in Ht. eapply gathers_bind; [exact Ht|]. intros m4 targets Hs4 _.
  by apply gathers_ret.
Qed.
(** ** The endpoint session *)

Lemma gathers_group_capability m : gathers require_group_media_capability m (λ _ _, True).
Proof.
  unfold require_group_media_capability. apply gathers_answer; [done|]. intros m1 caps Hs1 _.
  destruct (reject_if _ _); by split.
Qed.

Lemma open_verifies secret c f key plaintext :
  open_endpoint_group_media_payload secret c f key = Ok plaintext →
  ∃ binding, group_media_source_signing_binding (ef_header f) (ef_nonce f) (ef_ciphertext f) = Ok binding
  ∧ verify_group_media_binding_signature key binding (ss_signature (ef_source_signature f)) = Ok tt.
Proof.
  unfold open_endpoint_group_media_payload.
  destruct (validate_encrypted_group_media_frame c f) as [[]|]; [|done]. cbn [map_err mbind result_bind].
  destruct (reject_if _ _) as [[]|]; [|done]. cbn [mbind result_bind].
  destruct (group_media_source_signing_binding _ _ _) as [binding|]; [|done].
  cbn [map_err mbind result_bind].
  destruct (verify_group_media_binding_signature _ _ _) as [[]|] eqn:Ev; [|done]. by exists binding.
Qed.

Lemma seal_in_context secret c h plaintext key_id signer random frame :
  seal_endpoint_group_media_payload secret c h plaintext key_id signer random = Ok frame →
  frame_in_context c frame ∧ ef_header frame = h.
Proof.
  unfold seal_endpoint_group_media_payload. intros H. res_inv.
  match goal with Hv : validate_encrypted_group_media_frame _ _ = Ok ?u |- _ =>
    destruct u; apply validate_frame_Ok in Hv end. by subst.
Qed.

(** The frame continues its stream, or starts one that still fits. *)
Definition next_in_stream (cursors : gmap GroupStreamCursorKey Z) (f : EncryptedGroupMediaFrame) :
    Prop :=
  match cursors !! frame_cursor_key (ef_header f) with
  | Some last => (last < fh_sequence (ef_header f))%Z
  | None => size cursors < MAX_MEDIA_STREAMS_PER_EPOCH
  end.
Definition advance (f : EncryptedGroupMediaFrame) (cursors : gmap GroupStreamCursorKey Z) :
    gmap GroupStreamCursorKey Z :=
  <[frame_cursor_key (ef_header f) := fh_sequence (ef_header f)]> cursors.

Lemma stream_guards cursors f u :
  require_stream_capacity cursors (frame_cursor_key (ef_header f)) = Ok u →
  match cursors !! frame_cursor_key (ef_header f) with
  | Some last => (fh_sequence (ef_header f) <=? last)%Z | None => false end = false →
  next_in_stream cursors f.
Proof.
  unfold require_stream_capacity, next_in_stream. intros Hc%reject_if_Ok Hn.
  destruct (cursors !! _) as [last|]; [lia|].
  rewrite (bool_decide_eq_true_2 (None = None)) in Hc by done. apply Nat.leb_gt, Hc.
Qed.

Lemma gathers_open s f m :
  gathers (open_payload s f) m (λ m' x,
    open_cleared m' (ms_local s) (ms_local_device_id s) (ms_context s) f
    ∧ next_in_stream (ms_inbound_sequences s) f
    ∧ x.2 = mk_media_session (ms_local s) (ms_local_device_id s) (ms_context s)
              (ms_epoch_secret s) (ms_outbound_sequences s) (advance f (ms_inbound_sequences s))).
Proof.
  unfold open_payload. eapply gathers_bind; [apply gathers_group_capability|]. intros m0 _ Hs0 _.
  eapply gathers_bind; [apply gathers_authority|]. intros m1 call Hs1 Hauth.
  apply gathers_pure. intros [] Hv.
  assert (frame_in_context (ms_context s) f) as Hf.
  { apply validate_frame_Ok. by destruct (validate_encrypted_group_media_frame _ f) as [[]|]. }
  assert (fh_scope (ef_header f) = mc_scope (ms_context s)) as Escope
    by (by rewrite <- (fc_context _ _ Hf)).
  eapply gathers_bind; [by apply gathers_answer_err|]. intros m2 [] Hs2 Hp.
  apply gathers_guard. intros Hacc. eapply gathers_bind; [by apply gathers_answer_err|].
  intros m3 found Hs3 Hm. apply gathers_some. intros membership ->. apply gathers_guard. intros Hact.
  eapply gathers_bind; [apply gathers_device|]. intros m4 device Hs4 Hd.
  eapply gathers_bind; [apply gathers_key; rewrite Escope; exact Hd|]. intros m5 key Hs5 Hk.
  apply gathers_pure. intros u Hcap. apply gathers_guard. intros Hseq.
  apply gathers_pure. intros plaintext Hopen. apply gathers_ret.
  destruct (open_endpoint_group_media_payload _ _ _ _) as [pt|] eqn:Eo; [|done].
  destruct (open_verifies _ _ _ _ _ Eo) as (binding & Hb & Hver). bool_norm.
  assert (m1 ⊆ m5 ∧ m2 ⊆ m5 ∧ m3 ⊆ m5) as (H15 & H25 & H35) by (split_and!; set_solver).
  split_and!; [split_and!| |done].
  - done.
  - exists call. split; [exact (authority_held_mono _ _ _ _ _ _ H15 Hauth)|done].
  - by apply H25.
  - exists membership. split; [by apply H35|done].
  - by exists key, binding.
  - by apply (stream_guards _ _ u).
Qed.

(** What sealing a frame leaves behind. *)
Definition sealed_from (s : GroupMediaE2eeSession) (m : seen)
    (x : EncryptedGroupMediaFrame * GroupMediaE2eeSession) : Prop :=
  seal_cleared m (ms_local s) (ms_local_device_id s) (ms_context s) x.1
  ∧ next_in_stream (ms_outbound_sequences s) x.1
  ∧ x.2 = mk_media_session (ms_local s) (ms_local_device_id s) (ms_context s)
            (ms_epoch_secret s) (advance x.1 (ms_outbound_sequences s)) (ms_inbound_sequences s).

Lemma gathers_seal s version kind source stream sequence timestamp keyframe plaintext key_id signer
    random m :
  gathers (seal_payload_versioned s version kind source stream sequence timestamp keyframe plaintext
             key_id signer random) m (λ m' x, sealed_from s m' x
    ∧ fh_media_kind (ef_header x.1) = kind ∧ fh_video_source_kind (ef_header x.1) = source).
Proof.
  unfold seal_payload_versioned. eapply gathers_bind; [apply gathers_group_capability|].
  intros m0 _ Hs0 _. eapply gathers_bind; [apply gathers_authority|]. intros m1 call Hs1 Hauth.
  eapply gathers_bind; [apply gathers_device|]. intros m2 device Hs2 Hd.
  eapply gathers_bind; [by apply gathers_answer_err|]. intros m3 [] Hs3 Hp.
  apply gathers_guard. intros Hseq. apply gathers_pure. intros u Hcap.
  eapply gathers_bind; [by apply gathers_answer_err|]. intros m4 trusted Hs4 _.
  apply gathers_pure. intros _ _. apply gathers_guard. intros _.
  apply gathers_pure. intros frame Hseal. apply gathers_ret. cbn [fst snd].
  destruct (seal_endpoint_group_media_payload _ _ _ _ _ _ _) as [frame'|] eqn:Es; [|done].
  injection Hseal as ->. apply seal_in_context in Es as [Hf Eh].
  assert (m1 ⊆ m4) as H14 by set_solver.
  unfold sealed_from, advance, seal_cleared. cbn [fst snd]. rewrite Eh.
  split; [|done]. split_and!; [done..| |by apply Hs4| |done].
  - exists call. exact (authority_held_mono _ _ _ _ _ _ H14 Hauth).
  - apply (stream_guards _ _ u); by rewrite Eh.
Qed.
End cleared.
End gathering.

Section fanout.
Context {digest : Sha256} {cipher : MediaCipher}.

(** The sink is called with this envelope, and only once that is cleared. *)
Definition cleared_for (e : SfuForwardEnvelope) (t : SfuForwardTarget) (e' : SfuForwardEnvelope)
    (m : seen) : Prop :=
  e' = e ∧ forward_cleared t e m.

Abbreviation clears e := (@safe media_call seen (forward_monitor (cleared_for e)) _).

Lemma dispatch_targets_clears e who d accepted targets (m : seen) :
  clears e (dispatch_targets e who d accepted targets) m (λ _ _, True).
Proof.
  revert accepted m. induction targets as [|t rest IH]; intros accepted m; [done|].
  cbn [dispatch_targets]. apply safe_ebind.
  eapply safe_mono; [|exact (gathers_prepare _ who d e [ft_recipient t] m)].
  intros m1 [batch|err] [Hs HP]; [|done]. destruct HP as (_ & _ & Hc).
  rewrite Forall_singleton in Hc. apply safe_pure; [|done]. intros [] _.
  apply safe_ebind. unfold answer_err. cbn [safe]. split; [by destruct t|]. intros r.
  destruct r as [[]|err]; cbn; [apply IH|done].
Qed.

Lemma dispatch_clears batch (m : seen) :
  clears (fb_envelope batch) (dispatch_validated_forward_batch batch) m (λ _ _, True).
Proof.
  unfold dispatch_validated_forward_batch. apply safe_ebind.
  eapply safe_mono; [|apply dispatch_targets_clears]. by intros m' [] _.
Qed.

Lemma forward_clears who d e selected (m : seen) :
  clears e (forward who d e selected) m (λ _ _, True).
Proof.
  unfold forward. apply safe_ebind. eapply safe_mono; [|exact (gathers_prepare_any _ who d e selected m)].
  intros m' [batch|err] [_ HP]; [|done]. subst e. apply dispatch_clears.
Qed.

(** The programs that fan an envelope out, a batch of unknown age included. *)
Inductive fans_out (e : SfuForwardEnvelope) : media_prog SfuError SfuForwardOutcome → Prop :=
| fans_out_dispatch targets :
    fans_out e (dispatch_validated_forward_batch (mk_forward_batch e targets))
| fans_out_forward who d selected : fans_out e (forward who d e selected).

(** The answers given since the sink was last called. *)
Definition since_forward (tr : list (observation media_call)) : seen :=
  foldl (λ m o, match o with
                | Observed c b =>
                    match c with McForward _ _ => [] | _ => m ++ [Observed c b] end
                end) [] tr.

Lemma fans_out_clears e p : fans_out e p → clears e p [] (λ _ _, True).
Proof.
  intros []; [apply (dispatch_clears (mk_forward_batch e targets))|apply forward_clears].
Qed.

(** C4: A frame reaches the sink only on fresh evidence.  Whatever the stores, the key
    resolver and the authorization evaluator answer, and however they change their answers
    between two calls, each time the sink is called the answers given since its last call show
    everything the frame needs: the source's device is active and its own, the call is running
    with the negotiation and the group with the key epoch named in the frame, the source is an
    accepted participant, an active member and permitted to send, the signature over the exact
    frame verifies under a key trusted for that device, and the recipient is another accepted
    participant of the running call, an active member and permitted to receive.  A batch
    prepared earlier, or made up, gives no authority of its own. *)
Theorem forwarding_uses_fresh_evidence e p tr r t e' answer tr1 tr2 :
  fans_out e p → behaves p tr r → tr = tr1 ++ Observed (McForward t e') answer :: tr2 →
  e' = e ∧ forward_cleared t e (since_forward tr1).
Proof.
  intros Hp Hb Etr. exact (@safe_permits _ _ (forward_monitor (cleared_for e)) _ p [] _ tr r _
    (McForward t e') answer tr1 tr2 (fans_out_clears e p Hp) Hb Etr).
Qed.
End fanout.

(** * What was forwarded *)

(** The calls of the sink with their answers, in order. *)
Definition forwarded_call {B} (c : media_call B) :
    B → list (SfuForwardTarget * SfuForwardEnvelope * result SfuForwardSinkError unit) :=
  match c with McForward t e => λ r, [(t, e, r)] | _ => λ _, [] end.

Definition forwarded (tr : list (observation media_call)) :
    list (SfuForwardTarget * SfuForwardEnvelope * result SfuForwardSinkError unit) :=
  foldl (λ m o, match o with Observed c b => m ++ forwarded_call c b end) [] tr.

#[local] Instance forwarded_monitor : Monitor media_call
    (list (SfuForwardTarget * SfuForwardEnvelope * result SfuForwardSinkError unit)) := {|
  permitted B c m := True;
  observe B c b m := m ++ forwarded_call c b;
|}.

(** A program that does not call the sink and does not report a failure of it. *)
Definition not_sink {A} (r : result SfuError A) : Prop :=
  match r with Err (SeSink _ _) => False | _ => True end.
Definition checks {A} (p : media_prog SfuError A) : Prop :=
  ∀ m, safe p m (λ m' r, m' = m ∧ not_sink r).

Lemma checks_pure {A} (r : result SfuError A) : not_sink r → checks (pure r).
Proof. by intros Hr m. Qed.

Lemma checks_bind {A B} (p : media_prog SfuError A) (f : A → media_prog SfuError B) :
  checks p → (∀ a, checks (f a)) → checks (p ≫= f).
Proof.
  intros Hp Hf m. apply safe_ebind. eapply safe_mono; [|apply Hp].
  intros m' [a|err] [-> Hr]; [apply Hf|]. by destruct err.
Qed.

Lemma asking_silent {B} (c : media_call B) b : asking c → forwarded_call c b = [].
Proof. by destruct c. Qed.

Lemma checks_answer {B} (c : media_call B) : asking c → checks (answer c).
Proof. intros Hc m. split; [done|]. intros b. cbn. by rewrite asking_silent, app_nil_r. Qed.

Lemma checks_answer_err {F B} (g : F → SfuError) (c : media_call (result F B)) :
  asking c → (∀ e, not_sink (A:=unit) (Err (g e))) → checks (answer_err g c).
Proof.
  intros Hc Hg m. split; [done|]. intros r. cbn. rewrite asking_silent, app_nil_r by done.
  split; [done|]. destruct r as [b|e]; [done|]. exact (Hg e).
Qed.

Lemma checks_map_err {A} (p : media_prog GroupMediaE2eeError A) :
  quiet p → checks (eprog_map_err SeMediaE2ee p).
Proof.
  intros Hp m. apply safe_bind. eapply quiet_safe; [exact Hp|]. by intros [a|e].
Qed.

Lemma silent_asking {B} (c : media_call B) : asking c → silent c.
Proof. intros Hc m. split; [done|]. intros b. cbn. by rewrite asking_silent, app_nil_r. Qed.

Lemma not_sink_reject (b : bool) (e : SfuError) :
  not_sink (A:=unit) (Err e) → not_sink (reject_if b e).
Proof. by destruct b. Qed.

Lemma not_sink_ok_or {A} (o : option A) (e : SfuError) :
  not_sink (A:=unit) (Err e) → not_sink (ok_or o e).
Proof. by destruct o. Qed.

Lemma not_sink_map_err {E A} (g : E → SfuError) (r : result E A) :
  (∀ e, not_sink (A:=unit) (Err (g e))) → not_sink (map_err g r).
Proof. intros Hg. destruct r as [a|e]; [done|]. exact (Hg e). Qed.

Lemma checks_ret {A} (a : A) : checks (mret a).
Proof. done. Qed.

Ltac check_step := first
  [ apply checks_ret
  | apply checks_answer; done
  | apply checks_answer_err; [done|done]
  | apply checks_pure; first [by apply not_sink_reject | by apply not_sink_ok_or
                             | by apply not_sink_map_err | eassumption]
  | apply checks_bind; [|intros ?] ].
Ltac check_all := repeat check_step.

Section report.
Context {digest : Sha256} {cipher : MediaCipher}.

Lemma quiet_source_frame c f : quiet (validate_group_media_source_frame c f).
Proof.
  unfold validate_group_media_source_frame, verify_source_signature, resolve_source_verifying_key,
    validate_group_media_e2ee_authority, require_active_bound_participant_device, answer_err, pure.
  quiet_tac ltac:(by apply silent_asking).
Qed.

Lemma not_sink_selected call source unique recipients :
  not_sink (check_selected call source unique recipients).
Proof.
  revert unique. induction recipients as [|r rest IH]; intros unique; cbn; [done|].
  destruct (bool_decide _ || _); [done|]. cbn. destruct (negb _); [done|]. apply IH.
Qed.

Lemma checks_targets who h call_id receive recipients :
  checks (collect_targets who h call_id receive recipients).
Proof.
  induction recipients as [|r rest IH]; [done|]. cbn [collect_targets]. unfold sfu_authorize.
  check_all. exact IH.
Qed.

Lemma checks_capability caps required : not_sink (require_sfu_media_capability caps required).
Proof.
  unfold require_sfu_media_capability. destruct (canonical_capabilities caps); cbn; [|done].
  by apply not_sink_reject.
Qed.

Lemma checks_prepare who d e selected : checks (prepare_forward_impl who d e selected).
Proof.
  unfold prepare_forward_impl. apply checks_bind.
  - unfold validate_source_frame, require_sfu_capability, require_group_e2ee_capability, sfu_authorize.
    check_all; [apply checks_pure, checks_capability..|by apply checks_map_err, quiet_source_frame].
  - intros v. unfold prepare_forward_from_validated, recheck_source_before_fanout, sfu_authorize.
    destruct (media_permissions _ _). check_all; [|apply checks_targets].
    destruct selected; [|apply checks_ret]. check_all. apply checks_pure.
    unfold validate_selected_recipients. destruct (_ || _); [done|]. apply not_sink_selected.
Qed.

(** The targets that were reached before the loop ended. *)
Definition accepted_by_sink (e : SfuForwardEnvelope) (targets : list SfuForwardTarget) :
    list (SfuForwardTarget * SfuForwardEnvelope * result SfuForwardSinkError unit) :=
  (λ t, (t, e, Ok tt)) <$> targets.

Lemma dispatch_targets_report e who d (reached targets : list SfuForwardTarget) :
  safe (dispatch_targets e who d (len reached) targets) (accepted_by_sink e reached) (λ m r,
    match r with
    | Ok _ => m = accepted_by_sink e (reached ++ targets)
    | Err (SeSink accepted error) => ∃ n t, targets !! n = Some t
        ∧ accepted = len (reached ++ take n targets)
        ∧ m = accepted_by_sink e (reached ++ take n targets) ++ [(t, e, Err error)]
    | Err _ => ∃ n, n < length targets ∧ m = accepted_by_sink e (reached ++ take n targets)
    end).
Proof.
  revert reached. induction targets as [|t rest IH]; intros reached; cbn [dispatch_targets].
  { cbn. by rewrite app_nil_r. }
  apply safe_ebind. eapply safe_mono; [|apply checks_prepare].
  intros m' [batch|err] [-> Hns]; cycle 1.
  { assert (∃ n, n < length (t :: rest) ∧ accepted_by_sink e reached
      = accepted_by_sink e (reached ++ take n (t :: rest))) as Hn
      by (exists 0; cbn; rewrite app_nil_r; split; [lia|done]).
    by destruct err. }
  apply safe_pure; cycle 1.
  { intros err [_ ->]%reject_if_Err. exists 0. cbn. rewrite app_nil_r. split; [lia|done]. }
  intros _ _. apply safe_ebind. unfold answer_err. cbn [safe]. split; [done|]. intros r.
  cbn [observe forwarded_monitor forwarded_call]. destruct r as [[]|error]; cbn [map_err safe].
  - specialize (IH (reached ++ [t])).
    replace (len (reached ++ [t])) with (len reached + 1)%Z in IH
      by (unfold len; rewrite length_app; cbn; lia).
    unfold accepted_by_sink in IH at 1. rewrite fmap_app in IH. eapply safe_mono; [|exact IH].
    intros m [[]|err]; [by rewrite <- app_assoc|].
    destruct err as [| | | | | | | | | |accepted error];
      try (intros (n & Hn & ->); exists (S n); rewrite <- app_assoc; split; [cbn; lia|done]).
    intros (n & t' & Hn & -> & ->). exists (S n), t'. by rewrite <- app_assoc.
  - exists 0, t. cbn. by rewrite app_nil_r.
Qed.

(** The calls of the sink that a result of dispatching a batch stands for. *)
Definition fanout_report (batch : SfuValidatedForwardBatch)
    (calls : list (SfuForwardTarget * SfuForwardEnvelope * result SfuForwardSinkError unit))
    (r : result SfuError SfuForwardOutcome) : Prop :=
  let e := fb_envelope batch in
  let targets := fb_targets batch in
  match r with
  | Ok outcome => calls = accepted_by_sink e targets ∧ fo_accepted_recipients outcome = len targets
  | Err (SeSink accepted error) => ∃ n t, targets !! n = Some t ∧ accepted = Z.of_nat n
      ∧ calls = accepted_by_sink e (take n targets) ++ [(t, e, Err error)]
  | Err _ => ∃ n, n < length targets ∧ calls = accepted_by_sink e (take n targets)
  end.

(** C21: The outcome of a fan-out is what happened.  The sink is called with the batch's
    envelope for its targets in order, each at most once, up to the first failure.  Success
    means that every target was accepted and reports their number; a failure of the sink
    reports how many targets had been accepted before it, with the very error the sink gave
    for the next one; every other failure stops the fan-out before the next target, so no
    target after a lost permission, a hang-up or a revoked device receives the frame. *)
Theorem fanout_reports_what_was_forwarded batch tr r :
  behaves (dispatch_validated_forward_batch batch) tr r → fanout_report batch (forwarded tr) r.
Proof.
  intros Hb. refine (safe_behaves _ [] (fanout_report batch) tr r _ Hb).
  unfold dispatch_validated_forward_batch. apply safe_ebind.
  eapply safe_mono; [|exact (dispatch_targets_report _ _ _ [] _)].
  intros m [[]|err]; [by intros ->|]. destruct err; try done.
  intros (n & t & Hn & -> & ->). exists n, t. split_and!; [done| |done].
  unfold len. cbn. rewrite length_take. apply lookup_lt_Some in Hn. f_equal. lia.
Qed.
End report.

(** * The frames of a session *)

Section session.
Context {digest : Sha256} {cipher : MediaCipher}.

(** The public operations that seal a frame. *)
Inductive seals (s : GroupMediaE2eeSession) :
    media_prog GroupMediaE2eeError (EncryptedGroupMediaFrame * GroupMediaE2eeSession) → Prop :=
| seals_payload kind stream sequence timestamp keyframe plaintext key_id signer random :
    seals s (seal_payload s kind stream sequence timestamp keyframe plaintext key_id signer random)
| seals_with_source kind source stream sequence timestamp keyframe plaintext key_id signer random :
    seals s (seal_payload_with_source s kind source stream sequence timestamp keyframe plaintext
               key_id signer random)
| seals_screen stream sequence timestamp keyframe plaintext key_id signer random :
    seals s (seal_negotiated_screen_share s stream sequence timestamp keyframe plaintext key_id
               signer random).

(** What a session did, with the answers each operation was given.  Operations that fail leave
    the session as it was and are not listed. *)
Inductive session_event :=
| SvOpened (f : EncryptedGroupMediaFrame) (tr : list (observation media_call))
| SvSealed (f : EncryptedGroupMediaFrame) (tr : list (observation media_call)).

Inductive session_runs (s0 : GroupMediaE2eeSession) :
    list session_event → GroupMediaE2eeSession → Prop :=
| runs_start : session_runs s0 [] s0
| runs_open l s f tr plaintext s' :
    session_runs s0 l s → behaves (open_payload s f) tr (Ok (plaintext, s')) →
    session_runs s0 (l ++ [SvOpened f tr]) s'
| runs_seal l s p f tr s' :
    session_runs s0 l s → seals s p → behaves p tr (Ok (f, s')) →
    session_runs s0 (l ++ [SvSealed f tr]) s'.

Definition opened_frames (l : list session_event) : list EncryptedGroupMediaFrame :=
  omap (λ v, match v with SvOpened f _ => Some f | SvSealed _ _ => None end) l.
Definition sealed_frames (l : list session_event) : list EncryptedGroupMediaFrame :=
  omap (λ v, match v with SvSealed f _ => Some f | SvOpened _ _ => None end) l.

Definition stream_of (f : EncryptedGroupMediaFrame) : GroupStreamCursorKey :=
  frame_cursor_key (ef_header f).

(** Sequence numbers grow along each stream, and there are few streams. *)
Definition streams_ordered (l : list EncryptedGroupMediaFrame) : Prop :=
  (∀ i j f g, i < j → l !! i = Some f → l !! j = Some g → stream_of f = stream_of g →
     (fh_sequence (ef_header f) < fh_sequence (ef_header g))%Z)
  ∧ size (list_to_set (stream_of <$> l) : gset GroupStreamCursorKey) ≤ MAX_MEDIA_STREAMS_PER_EPOCH.

(** The cursors summarise the frames of one direction. *)
Record tracks (l : list EncryptedGroupMediaFrame) (cursors : gmap GroupStreamCursorKey Z) : Prop := {
  tr_last f : f ∈ l → ∃ last, cursors !! stream_of f = Some last
                              ∧ (fh_sequence (ef_header f) ≤ last)%Z;
  tr_dom : dom cursors = list_to_set (stream_of <$> l);
  tr_ordered : streams_ordered l;
}.

Lemma tracks_nil : tracks [] ∅.
Proof.
  split; [by intros f ?%elem_of_nil|by rewrite dom_empty_L|]. split; [done|].
  cbn. rewrite size_empty. lia.
Qed.

Lemma tracks_advance l cursors f :
  tracks l cursors → next_in_stream cursors f → tracks (l ++ [f]) (advance f cursors).
Proof.
  intros [Hlast Hdom [Hord Hsize]] Hn. unfold next_in_stream in Hn. fold (stream_of f) in Hn.
  assert (dom (advance f cursors) = list_to_set (stream_of <$> l ++ [f])) as Hdom'.
  { unfold advance. rewrite dom_insert_L, Hdom, fmap_app, list_to_set_app_L. cbn. set_solver. }
  split; [|done|split].
  - intros g [Hg|Hg%list_elem_of_singleton]%elem_of_app; unfold advance; fold (stream_of f).
    + destruct (Hlast g Hg) as (last & Hl & Hle). destruct (decide (stream_of f = stream_of g)) as [E|E].
      * rewrite E, lookup_insert_eq. rewrite E, Hl in Hn. eexists. split; [done|]. lia.
      * rewrite lookup_insert_ne by done. eauto.
    + subst g. rewrite lookup_insert_eq. eexists. split; [done|]. lia.
  - intros i j g g' Hij Hi Hj E. apply lookup_app_Some in Hj as [Hj|[Hj Hj']].
    + rewrite lookup_app_l in Hi by (apply lookup_lt_Some in Hj; lia). by apply (Hord i j).
    + apply list_lookup_singleton_Some in Hj' as [Hj' ->].
      rewrite lookup_app_l in Hi by lia. apply list_elem_of_lookup_2 in Hi.
      destruct (Hlast g Hi) as (last & Hl & Hle). rewrite <- E, Hl in Hn. lia.
  - rewrite <- Hdom'. unfold advance. rewrite dom_insert_L. fold (stream_of f).
    destruct (cursors !! stream_of f) as [last|] eqn:El.
    + assert ({[stream_of f]} ∪ dom cursors = dom cursors) as ->
        by (apply elem_of_dom_2 in El; set_solver). by rewrite Hdom.
    + rewrite size_union by (apply not_elem_of_dom in El; set_solver).
      rewrite size_singleton, size_dom. lia.
Qed.

Lemma behaves_gathers {A} (p : media_prog GroupMediaE2eeError A) P tr a :
  gathers (λ _ _ _, True) p [] P → behaves p tr (Ok a) → P (since_forward tr) a.
Proof.
  intros Hg Hb.
  exact (proj2 (@safe_behaves _ _ (forward_monitor (λ _ _ _, True)) _ p [] _ tr (Ok a) Hg Hb)).
Qed.

Lemma open_steps s f tr plaintext s' :
  behaves (open_payload s f) tr (Ok (plaintext, s')) →
  open_cleared (since_forward tr) (ms_local s) (ms_local_device_id s) (ms_context s) f
  ∧ next_in_stream (ms_inbound_sequences s) f
  ∧ s' = mk_media_session (ms_local s) (ms_local_device_id s) (ms_context s) (ms_epoch_secret s)
           (ms_outbound_sequences s) (advance f (ms_inbound_sequences s)).
Proof. intros Hb. exact (behaves_gathers _ _ _ _ (gathers_open _ s f []) Hb). Qed.

Lemma seal_steps s p f tr s' :
  seals s p → behaves p tr (Ok (f, s')) →
  seal_cleared (since_forward tr) (ms_local s) (ms_local_device_id s) (ms_context s) f
  ∧ next_in_stream (ms_outbound_sequences s) f
  ∧ s' = mk_media_session (ms_local s) (ms_local_device_id s) (ms_context s) (ms_epoch_secret s)
           (advance f (ms_outbound_sequences s)) (ms_inbound_sequences s).
Proof.
  intros Hp Hb. refine (behaves_gathers p (sealed_from s) tr (f, s') _ Hb).
  destruct Hp; unfold seal_payload, seal_payload_with_source, seal_negotiated_screen_share;
    [| |].
  2: apply gathers_guard; intros _.
  all: eapply gathers_mono; [apply gathers_seal|]; by intros m' x _ [? _].
Qed.

Lemma open_session_fresh local d c secret tr s :
  behaves (open_session local d c secret) tr (Ok s) → s = mk_media_session local d c secret ∅ ∅.
Proof.
  intros Hb. refine (behaves_gathers (open_session local d c secret)
    (λ _ s, s = mk_media_session local d c secret ∅ ∅) tr s _ Hb).
  unfold open_session. eapply gathers_bind; [apply gathers_group_capability|]. intros m1 _ _ _.
  apply gathers_pure. intros c' Hc'.
  assert (c' = c) as -> by (unfold canonical_group_media_e2ee_context in Hc'; res_inv; by subst).
  eapply gathers_bind; [apply gathers_authority|]. intros m2 call _ _. by apply gathers_ret.
Qed.

(** Whether an event was cleared when it happened. *)
Definition event_cleared (local : ScopedPrincipal) (d : DeviceId) (c : GroupMediaE2eeContext)
    (v : session_event) : Prop :=
  match v with
  | SvOpened f tr => open_cleared (since_forward tr) local d c f
  | SvSealed f tr => seal_cleared (since_forward tr) local d c f
  end.

Lemma session_runs_tracks local d c secret l s :
  session_runs (mk_media_session local d c secret ∅ ∅) l s →
  (ms_local s = local ∧ ms_local_device_id s = d ∧ ms_context s = c)
  ∧ Forall (event_cleared local d c) l
  ∧ tracks (opened_frames l) (ms_inbound_sequences s)
  ∧ tracks (sealed_frames l) (ms_outbound_sequences s).
Proof.
  induction 1 as [|l s f tr plaintext s' _ IH Hb|l s p f tr s' _ IH Hp Hb].
  { split_and!; try done; apply tracks_nil. }
  - destruct IH as ((<- & <- & <-) & Hl & Hi & Ho). apply open_steps in Hb as (Hc & Hn & ->).
    unfold opened_frames, sealed_frames. rewrite !omap_app. cbn. rewrite app_nil_r.
    split_and!; try done; [by apply Forall_app; split; [|constructor]|]. by apply tracks_advance.
  - destruct IH as ((<- & <- & <-) & Hl & Hi & Ho). eapply seal_steps in Hb as (Hc & Hn & ->); [|done].
    unfold opened_frames, sealed_frames. rewrite !omap_app. cbn. rewrite app_nil_r.
    split_and!; try done; [by apply Forall_app; split; [|constructor]|]. by apply tracks_advance.
Qed.

(** C11: A media session opens nothing twice.  In any history of a session, with any answers
    from the stores, the frames it opened carry strictly increasing sequence numbers in each
    stream, a stream being a source, a device, a media kind and a stream identifier, so no
    frame is opened a second time or behind a later one; the same holds of the frames it
    sealed, and neither direction ever has more than 64 streams.  Each frame belongs to the
    session's context, and was opened or sealed on answers of that very operation that show
    the local endpoint's authority and permission and, for an opened frame, the membership of
    its source and its verified signature. *)
Theorem media_session_is_ordered_and_cleared local d c secret tr0 s0 l s :
  behaves (open_session local d c secret) tr0 (Ok s0) → session_runs s0 l s →
  Forall (event_cleared local d c) l
  ∧ streams_ordered (opened_frames l) ∧ streams_ordered (sealed_frames l).
Proof.
  intros ->%open_session_fresh Hr. apply session_runs_tracks in Hr as (_ & Hl & Hi & Ho).
  split_and!; [done|apply (tr_ordered _ _ Hi)|apply (tr_ordered _ _ Ho)].
Qed.
End session.

(** * Permissions of a screen share *)

(** The monitor that lets only camera video be authorized. *)
Section screen.
Context {digest : Sha256} {cipher : MediaCipher}.

#[local] Instance video_only : Monitor media_call unit := {|
  permitted B c m := match c with
    | McAuthorize request _ => ar_permission request = VIDEO_SEND_PERMISSION
    | _ => True
    end;
  observe B c b m := m;
|}.

Lemma screen_share_quiet s stream sequence timestamp keyframe plaintext key_id signer random :
  quiet (seal_negotiated_screen_share s stream sequence timestamp keyframe plaintext key_id signer
           random).
Proof.
  unfold seal_negotiated_screen_share, seal_payload_versioned, require_group_media_capability,
    validate_group_media_e2ee_authority, require_active_bound_participant_device, authorize_media,
    answer, answer_err, pure.
  quiet_tac ltac:(by intros ?).
Qed.

(** C40: Sharing a screen is authorized as camera video.  Sealing a negotiated screen share asks
    for no other permission than the one to send video, so it succeeds only for those who hold
    that permission and never asks for the permission of its own that screen sharing has. *)
Theorem screen_share_is_sealed_as_video s stream sequence timestamp keyframe plaintext key_id signer
    random tr r request call b :
  behaves (seal_negotiated_screen_share s stream sequence timestamp keyframe plaintext key_id signer
             random) tr r →
  (Observed (McAuthorize request call) b ∈ tr →
     ar_permission request = VIDEO_SEND_PERMISSION
     ∧ ar_permission request ≠ SCREEN_SHARE_SEND_PERMISSION)
  ∧ match r with
    | Ok (f, _) => fh_video_source_kind (ef_header f) = Some VsScreenShare
        ∧ permission_held (since_forward tr) (ms_local s) VIDEO_SEND_PERMISSION
            (mc_call_id (ms_context s))
    | Err _ => True
    end.
Proof.
  intros Hb. split.
  - intros (tr1 & tr2 & E)%list_elem_of_split.
    pose proof (safe_permits _ tt _ tr r _ _ b tr1 tr2 (screen_share_quiet _ _ _ _ _ _ _ _ _ tt) Hb E)
      as Hp. cbn in Hp. rewrite Hp. split; [done|]. by vm_compute.
  - destruct r as [[f s']|]; [|done].
    refine (behaves_gathers _ (λ m x, fh_video_source_kind (ef_header x.1) = Some VsScreenShare
      ∧ permission_held m (ms_local s) VIDEO_SEND_PERMISSION (mc_call_id (ms_context s)))
      tr (f, s') _ Hb).
    unfold seal_negotiated_screen_share. eapply gathers_mono; [apply gathers_seal|].
    intros m x _ [[(_ & _ & _ & _ & Hp) _] [Hk Hv]]. rewrite Hk in Hp. done.
Qed.
End screen.

(** * A concrete call *)

#[local] Existing Instance toy_digest.
#[local] Existing Instance toy_cipher.

(** Run a program against fixed answers. *)
Fixpoint play (world : ∀ B, media_call B → B) {A} (p : tree media_call A) :
    list (observation media_call) * A :=
  match p with
  | Ret a => ([], a)
  | Call c k =>
      let rest := play world (k (world _ c)) in (Observed c (world _ c) :: rest.1, rest.2)
  end.

Lemma play_behaves world {A} (p : tree media_call A) : behaves p (play world p).1 (play world p).2.
Proof. induction p as [a|B c k IH]; cbn; constructor. apply IH. Qed.

Definition media_alice : PrincipalRef := mk_principal (oid "alice") PkPerson.
Definition media_bob : PrincipalRef := mk_principal (oid "bob") PkPerson.
Definition media_scope : TenantScope := mk_scope (oid "tenant") (Some (oid "namespace")).
Definition media_room : ConversationRef := mk_conversation (oid "room") CkPrivateGroup.
Definition media_session_call : CallSession :=
  Call.mk_session media_scope (oid "call") media_room media_alice
    [mk_participant media_alice CpAccepted 1 None; mk_participant media_bob CpAccepted 1 None]
    CsActive None (Some (oid "negotiation")) 2 1 2 None.
Definition media_group : GroupRecord :=
  mk_group media_scope (oid "group") media_room GoSharedAdmin GhNoHistory DpDurable
    (mk_group_crypto (Some GROUP_MLS_CAPABILITY) 9 (Some (oid "crypto-state"))) None GmsIdle [] 1 1.

Definition media_world (B : Type) (c : media_call B) : B :=
  match c with
  | McCall _ _ _ => Ok (Some media_session_call)
  | McGroup _ _ => Ok (Some media_group)
  | McMembership _ scope group member =>
      Ok (Some (mk_membership scope group member GrMember [] GmActive 1 None 0))
  | McDevice _ device => Ok (Some (mk_device device (oid "identity") DlActive))
  | McIdentityBinding scope principal =>
      Ok (Some (mk_identity_binding scope principal (oid "identity")))
  | McSigningKey _ device _ key =>
      Ok (mk_public_key key device KpSigning SIGNATURE_ALGORITHM_ID 1 1 (replicate 32 2%Z))
  | McAuthorize _ _ => Ok tt
  | McSfuCapabilities => [mk_capability SFU_MEDIA_CAPABILITY CmPrepared []]
  | McGroupCapabilities => [mk_capability GROUP_MEDIA_E2EE_CAPABILITY CmPrepared []]
  | McForward _ _ => Ok tt
  end.

Definition media_batch : SfuValidatedForwardBatch :=
  mk_forward_batch screen_envelope [mk_target media_bob].
Definition media_trace : list (observation media_call) :=
  (play media_world (dispatch_validated_forward_batch media_batch)).1.

Lemma media_dispatch_behaves :
  behaves (dispatch_validated_forward_batch media_batch) media_trace (Ok (mk_forward_outcome 1)).
Proof.
  assert (Ok (mk_forward_outcome 1)
    = (play media_world (dispatch_validated_forward_batch media_batch)).2) as ->
    by (vm_compute; reflexivity).
  apply play_behaves.
Defined.

Lemma forwarding_uses_fresh_evidence_witness :
  forward_cleared (mk_target media_bob) screen_envelope
    (since_forward (take (length media_trace - 1) media_trace)).
Proof.
  refine (proj2 (forwarding_uses_fresh_evidence screen_envelope _ media_trace _
    (mk_target media_bob) screen_envelope (Ok tt) (take (length media_trace - 1) media_trace) []
    (fans_out_dispatch _ [mk_target media_bob]) media_dispatch_behaves _)).
  vm_compute. reflexivity.
Defined.

Lemma fanout_reports_what_was_forwarded_witness :
  forwarded media_trace = [(mk_target media_bob, screen_envelope, Ok tt)]
  ∧ fanout_report media_batch (forwarded media_trace) (Ok (mk_forward_outcome 1)).
Proof.
  split; [vm_compute; reflexivity|].
  exact (fanout_reports_what_was_forwarded media_batch media_trace _ media_dispatch_behaves).
Defined.

Definition bob_scoped : ScopedPrincipal := mk_scoped_principal media_scope media_bob.
Definition bob_session : GroupMediaE2eeSession :=
  mk_media_session bob_scoped (oid "bob-device") (header_context (screen_header 44)) [9]%Z ∅ ∅.
Definition bob_opens : media_prog GroupMediaE2eeError (bytes * GroupMediaE2eeSession) :=
  open_payload bob_session (fe_frame screen_envelope).

Lemma ok_is_some {E A} (r : result E A) : is_ok r = true → ∃ a, r = Ok a.
Proof. destruct r; [eauto|done]. Qed.

Lemma media_session_is_ordered_and_cleared_witness :
  ∃ l s, session_runs bob_session l s ∧ opened_frames l = [fe_frame screen_envelope]
         ∧ streams_ordered (opened_frames l).
Proof.
  pose (opening := open_session bob_scoped (oid "bob-device") (header_context (screen_header 44)) [9]%Z).
  assert (behaves opening (play media_world opening).1 (Ok bob_session)) as Hs.
  { assert (Ok bob_session = (play media_world opening).2) as -> by (vm_compute; reflexivity).
    apply play_behaves. }
  destruct (ok_is_some (play media_world bob_opens).2) as [[plaintext s] E];
    [vm_compute; reflexivity|].
  pose proof (play_behaves media_world bob_opens) as Ho. rewrite E in Ho.
  pose proof (runs_open _ _ bob_session _ _ plaintext _ (runs_start _) Ho) as Hr.
  eexists _, s. split; [exact Hr|split; [reflexivity|]].
  exact (proj1 (proj2 (media_session_is_ordered_and_cleared _ _ _ _ _ _ _ _ Hs Hr))).
Defined.

(** The world of the concrete call, in which nobody may share a screen. *)
Definition no_screen_world (B : Type) (c : media_call B) : B :=
  match c in media_call B return B with
  | McAuthorize request _ =>
      if bool_decide (ar_permission request = SCREEN_SHARE_SEND_PERMISSION)
      then Err (mk_canonical_error CcPermissionDenied false None) else Ok tt
  | c => media_world _ c
  end.

Definition alice_session : GroupMediaE2eeSession :=
  mk_media_session (mk_scoped_principal media_scope media_alice) (oid "alice-device")
    (header_context (screen_header 44)) [9]%Z ∅ ∅.
Definition alice_shares : media_prog GroupMediaE2eeError
    (EncryptedGroupMediaFrame * GroupMediaE2eeSession) :=
  seal_negotiated_screen_share alice_session (oid "screen") 1 0 true [1; 2; 3]%Z (oid "signing-key")
    (signing_key_material [4]%Z) (Some screen_nonce).

(** Alice shares the screen although that was denied. *)
Lemma screen_share_is_sealed_as_video_witness :
  ∃ f s, (play no_screen_world alice_shares).2 = Ok (f, s)
    ∧ fh_video_source_kind (ef_header f) = Some VsScreenShare.
Proof.
  pose proof (play_behaves no_screen_world alice_shares) as Hb.
  destruct (ok_is_some (play no_screen_world alice_shares).2) as [[f s] E];
    [vm_compute; reflexivity|].
  exists f, s. split; [exact E|].
  destruct (screen_share_is_sealed_as_video _ _ _ _ _ _ _ _ _ _ _
    (mk_authorization_request (ms_local alice_session) VIDEO_SEND_PERMISSION media_scope) (oid "call")
    (Ok tt) Hb) as [_ Hk].
  rewrite E in Hk. exact (proj1 Hk).
Defined.
