(* ===== verification/MediaMembership.v ===== *)
(** The forwarding unit on top of the store of groups and calls: the store answers the
    questions of a fan-out while any of its own operations happen in between, and what reaches
    the sink stays within the group. *)

From stdpp Require Import gmap.
From S2P Require Import Prelude Ids Framing Extension Message StoreForward Store Call Group Event.
From S2P Require Import Memory CallStore GroupStore Collaboration EventStore EventFacts EventCalls.
From S2P Require Import StoreCalls CollaborationTheorems BridgeRuntime Program.
From S2P Require Import Video Sfu Adaptive JoinToken Realtime GroupMedia GroupMediaTheorems.
From S2P Require Import MediaCrypto MediaCryptoTheorems MediaRuntime Interaction MediaRuntimeTheorems.

(** * Fan-outs and store operations in one history *)

Section store.
Context {digest : Sha256} {cipher : MediaCipher}.

(** The store of groups and calls answers for itself; the rest answers as it likes. *)
Definition store_answers {B} (c : media_call B) : Memory → B → Prop :=
  match c with
  | McCall who scope id => λ m b, b = (call_for_participant who scope id m).2
  | McGroup scope conversation => λ m b, b = (group_for_conversation scope conversation m).2
  | McMembership who scope group member =>
      λ m b, b = (group_membership_for_active_member who scope group member m).2
  | _ => λ _ _, True
  end.

(** A behaviour of a program, each call with the state of the store that answered it.  Between
    two calls the store may carry out any of its operations. *)
Inductive timed {A} : tree media_call A → Memory → list (Memory * observation media_call) → A → Prop :=
| timed_ret a m : timed (Ret a) m [] a
| timed_call {B} (c : media_call B) (b : B) k m tr a :
    store_answers c m b → timed (k b) m tr a → timed (Call c k) m ((m, Observed c b) :: tr) a
| timed_store c p m tr a :
    typed_store_call c → timed p (exec_store c m).1 tr a → timed p m tr a.

Lemma timed_behaves {A} (p : tree media_call A) m tr a : timed p m tr a → behaves p tr.*2 a.
Proof. induction 1; cbn; [constructor|by constructor|done]. Qed.

(** Every state in the history satisfies the store's invariant and gave its answer. *)
Definition answered_by (x : Memory * observation media_call) : Prop :=
  store_ok x.1 ∧ match x.2 with Observed c b => store_answers c x.1 b end.

Lemma timed_answers {A} (p : tree media_call A) m tr a :
  store_ok m → timed p m tr a → Forall answered_by tr.
Proof.
  intros Hm Ht. revert Hm. induction Ht as [|B c b k m tr a Hb _ IH|c p m tr a Hty _ IH]; intros Hm.
  - constructor.
  - constructor; [done|by apply IH].
  - apply IH. by apply exec_store_ok.
Qed.

(** The part of a history since the sink was last called. *)
Definition no_forward (tr : list (Memory * observation media_call)) : Prop :=
  forwarded tr.*2 = [].

Lemma forwarded_snoc l {B} (c : media_call B) b :
  forwarded (l ++ [Observed c b]) = forwarded l ++ forwarded_call c b.
Proof. unfold forwarded. by rewrite foldl_app. Qed.

Lemma since_forward_snoc l {B} (c : media_call B) b :
  since_forward (l ++ [Observed c b])
  = match c with McForward _ _ => [] | _ => since_forward l ++ [Observed c b] end.
Proof. unfold since_forward. by rewrite foldl_app. Qed.

Lemma since_forward_suffix l :
  ∃ before, l = before ++ since_forward l ∧ forwarded (since_forward l) = [].
Proof.
  induction l as [|[B c b] l IH] using rev_ind; [by exists []|].
  destruct IH as (before & El & Hf). rewrite since_forward_snoc.
  destruct c; [..|exists (l ++ [Observed (McForward target envelope) b]); by rewrite app_nil_r].
  all: exists before; rewrite forwarded_snoc, Hf, app_assoc, <- El; done.
Qed.

(** An answer a fan-out relied on, in a state of the store. *)
Lemma since_forward_timed (tr : list (Memory * observation media_call)) o :
  o ∈ since_forward tr.*2 →
  ∃ before since m, tr = before ++ since ∧ no_forward since ∧ (m, o) ∈ since.
Proof.
  intros Ho. destruct (since_forward_suffix tr.*2) as (l & E & Hf).
  apply fmap_app_inv in E as (before & since & El & Es & ->).
  rewrite Es in Ho, Hf. apply list_elem_of_fmap in Ho as ([m o'] & -> & Hin).
  exists before, since, m. done.
Qed.

(** ** Members of the group *)

(** In this state of the store the principal takes part in the running call and is an active
    member of the one group the call belongs to. *)
Definition takes_part (m : Memory) (scope : TenantScope) (call : CallSession) (p : PrincipalRef) :
    Prop :=
  accepted_participant call p = true
  ∧ ∃ g x, bound_group m scope (cs_conversation call) = Some g
      ∧ (group_membership scope (gr_group_id g) p m).2 = Ok (Some x) ∧ gm_state x = GmActive.

Lemma call_for_participant_call who scope id m s :
  (call_for_participant who scope id m).2 = Ok (Some s) → (CallStore.call scope id m).2 = Ok (Some s).
Proof.
  unfold call_for_participant, CallStore.call, guard, lift, get, mbind, op_bind, mret, op_ret.
  destruct (negb (bool_decide (sp_scope who = scope))); [done|]. cbn.
  destruct (validated_call_from_state m scope id) as [[s'|]|]; cbn; [|done..].
  destruct (_ || _); [done|]. by intros [= ->].
Qed.

Lemma accepted_takes_part m scope id s p :
  store_ok m → (CallStore.call scope id m).2 = Ok (Some s) →
  is_group_kind (conversation_kind (cs_conversation s)) = true → cs_signalling_state s = CsActive →
  accepted_participant s p = true → takes_part m scope s p.
Proof.
  intros [_ Hok] Hc Hg Hst Ha. split; [done|]. unfold accepted_participant in Ha.
  apply existsb_exists in Ha as (q & Hq & [Ep%bool_decide_eq_true Hacc]%andb_true_iff).
  apply andb_true_iff in Hacc as [Hacc%bool_decide_eq_true _]. subst p.
  apply (live_participant_is_member m scope id s q Hok Hc).
  - unfold group_call. by destruct (conversation_kind (cs_conversation s)).
  - by rewrite Hst.
  - by apply list_elem_of_In.
  - by rewrite Hacc.
Qed.

(** C6: Media stays within the group.  Let any fan-out run on the store of groups and calls
    while the store, reached from an empty one, carries out any operations in between.
    Whenever a frame reaches the sink there is one state of the store, in force since the sink
    was last called, in which the call named in the frame is running with the negotiation
    named in the frame and both the source and the recipient are accepted participants of it
    and active members of the group it belongs to.  A fan-out that asked before a member was
    removed or the call ended may still deliver that one frame, and no other. *)
Theorem media_stays_within_the_group cs e p tr r t e' answer tr1 tr2 m' :
  Forall typed_store_call cs → fans_out e p → timed p (run_store cs empty_mem) tr r →
  tr = tr1 ++ (m', Observed (McForward t e') answer) :: tr2 →
  let h := ef_header (fe_frame e) in
  ∃ before since m call, tr1 = before ++ since ∧ no_forward since ∧ m ∈ since.*1
    ∧ (CallStore.call (fh_scope h) (fh_call_id h) m).2 = Ok (Some call)
    ∧ cs_signalling_state call = CsActive
    ∧ cs_media_negotiation_generation call = fh_negotiation_generation h
    ∧ cs_media_negotiation_ref call = Some (fh_negotiation_ref h)
    ∧ takes_part m (fh_scope h) call (fh_source h)
    ∧ takes_part m (fh_scope h) call (ft_recipient t).
Proof.
  intros Hty Hp Ht Etr h. pose proof (timed_behaves _ _ _ _ Ht) as Hb.
  assert (tr.*2 = tr1.*2 ++ Observed (McForward t e') answer :: tr2.*2)
    as Etr' by (by rewrite Etr, fmap_app).
  destruct (@safe_permits _ _ (forward_monitor (cleared_for e)) _ p [] _ tr.*2 r _ (McForward t e')
    answer _ _ (fans_out_clears e p Hp) Hb Etr') as (_ & call & (_ & Hauth & _) & _ & _ & Hr & _).
  destruct Hauth as (_ & _ & Hcall & Hk & Hst & Hgen & Href & Hsrc & _).
  destruct (since_forward_timed tr1 _ Hcall) as (before & since & m & Esplit & Hnf & Hin).
  assert (answered_by (m, Observed (McCall (mk_scoped_principal (fh_scope h) (fh_source h))
    (fh_scope h) (fh_call_id h)) (Ok (Some call)))) as [Hm Ha].
  { pose proof (timed_answers _ _ _ _ (reachable_ok cs Hty) Ht) as Hall.
    rewrite Forall_forall in Hall. apply Hall. rewrite Etr, Esplit. set_solver. }
  cbn in Ha. symmetry in Ha. apply call_for_participant_call in Ha.
  exists before, since, m, call. split_and!; try done.
  - apply (list_elem_of_fmap_2 fst) in Hin. exact Hin.
  - by apply (accepted_takes_part m _ (fh_call_id h)).
  - by apply (accepted_takes_part m _ (fh_call_id h)).
Qed.
End store.

(** * A concrete history *)

#[local] Existing Instance toy_digest.
#[local] Existing Instance toy_cipher.

(** The store answers from one state, the rest as in the concrete call. *)
Definition store_world (m : Memory) (B : Type) (c : media_call B) : B :=
  match c in media_call B return B with
  | McCall who scope id => (call_for_participant who scope id m).2
  | McGroup scope conversation => (group_for_conversation scope conversation m).2
  | McMembership who scope group member =>
      (group_membership_for_active_member who scope group member m).2
  | c => media_world _ c
  end.

Lemma play_timed m {A} (p : tree media_call A) :
  timed p m (pair m <$> (play (store_world m) p).1) (play (store_world m) p).2.
Proof.
  induction p as [a|B c k IH]; cbn; constructor; [|apply IH]. by destruct c.
Qed.

Definition mls (epoch : Z) (state : string) : GroupCryptoState :=
  mk_group_crypto (Some GROUP_MLS_CAPABILITY) epoch (Some (oid state)).
Definition sealed_team : GroupRecord :=
  mk_group office (oid "team") team_room (GoPersonOwned ada) (GhLastNMessages 2) DpDurable
    (mls 0 "state-0") None GmsIdle [] 0 0.

(** Ada founds the team, adds Bob, both are in a call, and the media are negotiated. *)
Definition media_history : list store_call :=
  [ScCreateGroup (mk_conversation_record office team_room None) sealed_team (at_office ada);
   ScChange (at_office ada) (mk_group_change (oid "add-bob") office (oid "team") 0
     (GkAddMember bob GrMember) (Some (mls 1 "state-1")));
   ScCreateCall (at_office ada) (call_of_two "standup" team_room) None;
   answer_call "bob-answers" "standup";
   ScSignal (at_office ada) (mk_signal (oid "negotiate") office (oid "standup") 1
     (SkMediaRenegotiation (oid "negotiation")))].
Abbreviation media_store := (run_store media_history empty_mem).

Definition ada_frame : SfuForwardEnvelope :=
  mk_envelope (mk_encrypted_frame
    (mk_frame_header office (oid "standup") (oid "team") (oid "camera") ada (oid "ada-device")
       (oid "negotiation") 1 1 (oid "state-1") UcrV1 2 MkVideo (Some VsCamera) 1 0 true)
    screen_nonce [7; 8; 9]%Z
    (mk_source_signature (oid "signing-key") SIGNATURE_ALGORITHM_ID 1 (replicate 64 5%Z))).
Definition ada_sends : media_prog SfuError SfuForwardOutcome :=
  forward (at_office ada) (oid "ada-device") ada_frame None.
Definition ada_trace : list (observation media_call) := (play (store_world media_store) ada_sends).1.

Lemma ada_fans_out : fans_out ada_frame ada_sends.
Proof. unfold ada_sends. apply fans_out_forward. Qed.

Lemma ada_timed :
  timed ada_sends (run_store media_history empty_mem) (pair media_store <$> ada_trace)
    (play (store_world media_store) ada_sends).2.
Proof. exact (play_timed media_store ada_sends). Qed.

Lemma ada_trace_forwards :
  pair media_store <$> ada_trace
  = (pair media_store <$> take (length ada_trace - 1) ada_trace)
    ++ [(media_store, Observed (McForward (mk_target bob) ada_frame) (Ok tt))].
Proof.
  assert (ada_trace = take (length ada_trace - 1) ada_trace
    ++ [Observed (McForward (mk_target bob) ada_frame) (Ok tt)]) as E by (vm_compute; reflexivity).
  rewrite E at 1. rewrite fmap_app. f_equal.
Qed.

Lemma media_stays_within_the_group_witness :
  ∃ m call, (CallStore.call office (oid "standup") m).2 = Ok (Some call)
    ∧ takes_part m office call ada ∧ takes_part m office call bob.
Proof.
  assert (Forall typed_store_call media_history) as Hty by repeat constructor.
  destruct (media_stays_within_the_group media_history ada_frame ada_sends _ _ (mk_target bob)
    ada_frame (Ok tt) _ [] media_store Hty ada_fans_out ada_timed ada_trace_forwards)
    as (before & since & m & call & _ & _ & _ & Hc & _ & _ & _ & Hs & Hr).
  exists m, call. split; [exact Hc|]. split; [exact Hs|exact Hr].
Defined.
